(* ===== verification/_CoqProject ===== *)
-Q . S2P
Prelude.v
Schema.v
Sha256.v
Allocator.v
Bitmap.v
GoStrings.v
Regexp.v
Durations.v
ConfigDocs.v
ConfigSource.v
Base64.v
Signer.v
Token.v
Cwt.v
Prog.v
Float64.v
Debounce.v
World.v
ListId.v
MetaStore.v
BitmapStore.v
Rely.v
Pool.v
Gc.v
Publisher.v
Ingestion.v
Verifier.v
Decoy.v
Ingress.v
Mux.v
Shards.v
Trust.v
ClientAssertion.v
AuthServer.v
Fixture.v
Config.v
DocumentedConfig.v
System.v
Visibility.v
LoadTest.v
EndToEnd.v
Campaign.v
LoadReport.v
Processes.v
Lifecycle.v
Metrics.v
