(* ===== verification/Prelude.v ===== *)
(** * A verification library for siros-status-service

    siros-status-service publishes token status lists: bit arrays in which the
    issuers of credentials mark each credential they issued as VALID, INVALID
    or SUSPENDED, and which relying parties fetch as signed tokens. This
    library models the Go program under src/ and proves what makes it correct.

    ** The program

    - The authorization server (cmd/as, internal/as, internal/accesstoken,
      internal/clientassertion, internal/trust) gives an access token to an
      issuer that proves possession of a trusted key, and assigns it a shard.
    - The ingress router (cmd/ingress-router, internal/ingress) proxies the
      requests of issuers to the ingestion service of a shard.
    - The ingestion service (cmd/ingestion-service, internal/ingestion), one
      per shard, allocates indices in lists (POST /allocate), changes their
      statuses (PATCH /status) and reports usage. In the background it keeps a
      pool of open lists (internal/pool), archives and purges old ones
      (internal/gc), publishes tokens (internal/publisher) and flips
      unallocated entries as camouflage (internal/decoy).
    - The verifier (cmd/verifier-service, internal/verifier) serves the lists,
      as JWT or CWT (internal/statuslist).
    - All share one Postgres (internal/store/postgres.go: lists, allocations,
      usage, shard assignments; internal/pgutil applies its schema) and one
      Redis per shard (internal/store/redis.go: bitmaps and version counters).
    - tools/reassign-shard moves issuers off a shard; tools/loadtest drives a
      deployment and checks what it published; tools/gen-config-docs makes the
      configuration reference docs/CONFIGURATION.md from internal/config;
      tools/gen-fixture makes the token of a test across languages.
    - Every process counts what it does (internal/metrics).

    ** How it is modelled

    A handler is a [prog world A] (Prog.v): a finite tree of atomic steps (one
    SQL statement or transaction, one Redis command or script, one critical
    section, a clock reading, a random draw) with pure code between them. Its
    meaning alone is [run]; its meaning among others is [pool_step], in which
    any number of handlers take steps in any order and new ones join. The
    [world] (World.v) holds the four tables, the keyspace of each shard, the
    memory of each publisher, the clock, and what a program cannot control: a
    script of failures (a call that fails before or after it took effect, time
    that passes) and the random source. Errors are values ([result]); a Go
    panic is an error of its own kind ([Panic]). Integers are [Z] with Go's
    conversions written out ([u64], [i64], [u8]); float64 is software IEEE 754
    (Float64.v); times are nanoseconds.

    Reasoning about one run is by weakest preconditions ([wp]); about frames,
    by [each]; about interleavings, by rely-guarantee ([rg], Rely.v): every
    program of the service is shown to keep an invariant and to move the
    tables only forward at each of its steps, and System.v concludes for all
    interleavings. Where that depends on what happened before, a program runs
    with a history beside the world that no step reads ([annotate]).

    What is not under src/ is a class with its documented laws and a concrete
    instance that shows they can hold: ECDSA (Signer.Ecdsa), zlib, JSON and
    golang-jwt's methods (Token), CBOR (Cwt), go-jose's JWK (Publisher.Jose),
    the validator of access tokens and URL parsing (Ingress; AuthServer says
    when it accepts a token of the endpoint), HTTP and JSON of
    AuthZEN (Trust), golang-jwt and x509 (ClientAssertion), go-jose signing
    (AuthServer), PEM, ParseFloat and EC keys (Config), the float-to-int
    conversion out of range (Float64.Conversion), the PKCS#11 driver
    (Processes), the wire formats of the load test (LoadTest, Campaign), the
    key constructor and encoder of the fixture (Fixture), and the escapes of
    strconv.Unquote (ConfigDocs). SHA-256, HMAC, base64, DER, strconv,
    regexp, path cleaning, time.ParseDuration and Duration.String are computed.
    go/parser is not: ConfigSource holds the syntax tree and the text of the
    parts of internal/config that the generator reads.

    ** The files

    - Prelude: integers, results, automation. Prog, World, Rely: above.
      GoStrings, Base64, Sha256, Float64, Regexp, Durations: what the
      sources use of Go's library.
    - Schema: internal/pgutil/schema.go, as sessions under an advisory lock.
    - Allocator: internal/allocator, the keyed permutation of indices.
    - Bitmap, Signer, Token, Cwt: internal/statuslist.
    - Debounce, Publisher: internal/publisher. ListId: internal/listid.
    - MetaStore, BitmapStore: internal/store, each SQL statement and the Lua
      script as a function on tables and keys.
    - Pool, Gc, Decoy: the background passes. Ingestion, Verifier, Ingress: the
      handlers behind their routes. Mux: the handler of cmd/ingress-router.
    - Shards: internal/as/shard.go and tools/reassign-shard. Trust,
      ClientAssertion, AuthServer: the rest of the authorization server.
    - Config: internal/config. ConfigDocs: tools/gen-config-docs. ConfigSource:
      its input and its committed output. DocumentedConfig: the two together.
      Fixture: tools/gen-fixture and what it wrote.
    - Processes: cmd/* and internal/signing, the start of the binaries and what
      then runs in them. Lifecycle: the Run loops of the passes, and a process
      from its start over a signal to its exit. Metrics: internal/metrics and
      the places that use it; gin.Recovery, which is outside the middleware, is
      not part of it.
    - System: everything that runs, together. Visibility: what a read returns
      after a write, whatever runs at the same time. LoadTest, EndToEnd, Campaign,
      LoadReport: tools/loadtest, and the services it drives behind HTTP.

    ** What is proved

    - Allocation. The permutation never gives two cursor positions one index
      and cycle walking ends, with an error exactly when a thousand iterates
      stay outside the list (Allocator); the allocations of a list are exactly
      the indices of its consumed positions after any history of statements, and
      a reservation changes all of its tables or none, also when its reply is
      lost (MetaStore); a 201 means a fresh index recorded for the caller whose
      entry reads VALID (Ingestion); in any interleaving of the whole service
      no index goes to two issuers (System).
    - Statuses. The packed bitmap implements a list of statuses, and is well
      typed for every size whose number of bits does not wrap at 2^64 (Bitmap);
      the Lua script implements the bitmap's update for statuses that fit the
      width, and cuts those that do not (BitmapStore); a 204 means
      exactly that entry changed (Ingestion); nobody but its owner changes the
      status of an allocated entry, in any interleaving (System), with the one
      race of the decoys that the source knows of exhibited.
    - Publication. Tokens round trip in both formats (Token, Cwt); what is
      published shows the live bytes, and a cached token of the current version
      was built from the current bytes (Publisher); what each answer of the
      verifier means (Verifier); publishes are rate limited, and a trigger is
      followed by one or has a timer waiting (Debounce). In any interleaving in
      which the owner of an entry asks for one status only, once the list's own
      shard answered such an update with 204, every list that is fetched later
      with success shows it, cut to the width, and a 304 refers only to lists
      that do (Visibility).
    - Life cycle. Lists only move forward; nothing is archived before its
      credentials expired, and a successful sweep archives what has earned it
      and drops the bitmaps of its own shard that are past retention
      (MetaStore, Gc); purged lists are answered with 410 (Verifier).
    - Issuers. A token is issued only for a proved and trusted key, for the name
      its assertion was signed for and the shard in the table, on which all
      requests agree; until it expires it opens the door of that shard and of no
      other (AuthServer, Shards, Trust, ClientAssertion); the router follows the
      list (Ingress); emptying a shard moves every issuer that was on it and
      nobody else (Shards).
    - The whole. Services started from the environment keep the invariants
      (Processes, System); the schema is applied without races (Schema); an
      issuer with a fresh key gets its token (Campaign); what it writes through
      the router is what relying parties read (EndToEnd), and a worker of the
      load test that is alone with a deployment never sees anything else
      (Campaign); the load test accounts for every round in any interleaving,
      and its check of the stores and its balance of the pool are exact
      (LoadTest, LoadReport).
    - Operation. The configuration reference is what its generator makes, and
      true of the loaders: defaults, required variables, completeness
      (DocumentedConfig, with the matcher proved against a relation in Regexp
      and durations round tripping in Durations); requests are counted and timed
      under their route, method and status (Metrics); a fixture that was written
      validates while it is fresh (Fixture).
    - Defects the model exposed are theorems too: a reassigned issuer is turned
      away by the shard of its lists, SUSPENDED on a list of one bit reads
      VALID, sweeps mark foreign lists purged, a second draw moves an INVALID
      decoy, assertions without iat have no bounded lifetime, the loader
      accepts impossible list shapes and intervals at which a loop panics, a
      process exits before its Shutdown is done, requests whose handler panics
      are not counted, the method label has no bound, and the bitmap's
      constructors accept sizes at which the number of bytes wraps.

    ** Bounds

    Programs are inductive, so every handler ends. [Allocator.maxCycleWalks],
    [Ingestion.maxAllocateAttempts] and the number of draws of a decoy pass are
    the source's own bounds, with its errors beyond them. The fuel of
    [Config.certBlocks] is one more than the length of its input, which gets
    shorter at each block. [LoadTest.runWorker] takes the number of rounds the
    rate limiter lets through. [Regexp.parseAlt] has three steps for each
    character of the pattern, and every pattern of the generator compiles; [Regexp.findAll] has
    one more than the length of the text, which each match or step shortens;
    [Lifecycle.select] takes the list of wake-ups. [Rely.list_good] is what the loader leaves to
    the operator: a width of 1, 2, 4 or 8 and a size whose bitmap Redis can
    hold; [Processes.saneEnv] says it of the environment.

    ** Not modelled

    Logging and printed layout, on which nothing depends; connection pools
    and the closing of connections; histogram buckets and the metrics page of
    the Prometheus client; flag parsing, the rate limiter and the deadline of
    the load test; internal/testsupport; the Rust samples. Deleting rows
    (DB_RETENTION_PERIOD, off by default) is modelled in Gc and MetaStore, and
    excluded from the theorems about interleavings and from what a sweep has
    done: with it a list, and what its indices meant, can disappear. A Redis
    command runs at most once: go-redis's retries after a network error (three
    by default), which could repeat an INCR whose reply was lost and so raise a
    version by more than one, are left out. Postgres and the processes share
    one clock of nanoseconds, where a timestamptz has microseconds and a range.
    Memory does not run out: an allocation of any size succeeds. *)

From stdpp Require Export base gmap list strings numbers sorting.
From Stdlib Require Export ZArith Lia.
From Stdlib Require Import Zbitwise Btauto.

#[global] Open Scope Z_scope.

(** ** Go's machine integers

    A w-bit Go integer is a [Z] in its range; conversions and arithmetic that
    can wrap are written with the functions below. *)

Definition u64 (z : Z) : Z := z mod 2 ^ 64.

Definition u8 (z : Z) : Z := z mod 2 ^ 8.

(** Two's complement reinterpretation, Go's [int64(x)]. *)
Definition i64 (z : Z) : Z := (z + 2 ^ 63) mod 2 ^ 64 - 2 ^ 63.

Definition maxInt64 : Z := 2 ^ 63 - 1.

Definition minInt64 : Z := - 2 ^ 63.

Lemma u64_small z : 0 <= z < 2 ^ 64 -> u64 z = z.
Proof. apply Z.mod_small. Qed.

Lemma u64_range z : 0 <= u64 z < 2 ^ 64.
Proof. apply Z.mod_pos_bound; lia. Qed.

Lemma u8_small z : 0 <= z < 256 -> u8 z = z.
Proof. apply Z.mod_small. Qed.

Lemma u8_range z : 0 <= u8 z < 256.
Proof. apply Z.mod_pos_bound; lia. Qed.

Lemma i64_small z : minInt64 <= z <= maxInt64 -> i64 z = z.
Proof.
  unfold i64, minInt64, maxInt64. intros H. rewrite Z.mod_small by lia. lia.
Qed.

Lemma i64_range z : minInt64 <= i64 z <= maxInt64.
Proof.
  unfold i64, minInt64, maxInt64.
  pose proof (Z.mod_pos_bound (z + 2 ^ 63) (2 ^ 64)). lia.
Qed.

Lemma i64_nonneg_iff z : 0 <= z < 2 ^ 64 -> 0 <= i64 z <-> z < 2 ^ 63.
Proof.
  unfold i64. intros H. destruct (decide (z < 2 ^ 63)).
  - rewrite Z.mod_small by lia. lia.
  - replace ((z + 2 ^ 63) mod 2 ^ 64) with (z + 2 ^ 63 - 2 ^ 64); [lia|].
    apply Z.mod_unique with (q := 1); lia.
Qed.

(** The round trip [uint64(int64(x))]: how a [uint64] survives a Postgres
    [bigint] column. *)
Lemma u64_i64 z : 0 <= z < 2 ^ 64 -> u64 (i64 z) = z.
Proof.
  intros H. unfold u64, i64. rewrite Zminus_mod_idemp_l.
  replace (z + 2 ^ 63 - 2 ^ 63) with z by lia. by apply Z.mod_small.
Qed.

(** ** Time

    [time.Time] is a [Z] of nanoseconds since the Unix epoch and
    [time.Duration] an [int64] of nanoseconds. [timeSub] is [Time.Sub], which
    saturates instead of overflowing. *)

Definition second : Z := 1000000000.
Definition minute : Z := 60 * second.
Definition hour : Z := 60 * minute.

(** The zero [time.Time], 1 January of year 1. *)
Definition zeroTime : Z := -62135596800 * second.

Definition timeSub (t u : Z) : Z := Z.max minInt64 (Z.min maxInt64 (t - u)).

(** [-d] on an [int64] duration. *)
Definition durNeg (d : Z) : Z := i64 (- d).

Lemma timeSub_ge t u d : minInt64 <= d <= maxInt64 -> d <= timeSub t u <-> (d <= t - u \/ d = minInt64).
Proof. unfold timeSub, minInt64, maxInt64. lia. Qed.

(** ** Results and errors

    A Go function returning [(T, error)] returns a [result T]. The sentinel
    errors of the program that callers test with [errors.Is] are constructors;
    every other error carries its text. [Panic] stands for a run-time panic
    (an index out of range), which no caller in the program recovers from. *)

Inductive error : Type :=
| ErrListFull
| ErrNotOwner
| ErrMsg (msg : string)
| Panic (msg : string).

#[export] Instance error_eq_dec : EqDecision error.
Proof. solve_decision. Defined.

Inductive result (A : Type) : Type :=
| Ok (a : A)
| Err (e : error).
Arguments Ok {A} a.
Arguments Err {A} e.

#[export] Instance result_eq_dec {A} `{EqDecision A} : EqDecision (result A).
Proof. solve_decision. Defined.

Definition is_ok {A} (r : result A) : bool :=
  match r with Ok _ => true | Err _ => false end.

Definition result_bind {A B} (r : result A) (f : A -> result B) : result B :=
  match r with Ok a => f a | Err e => Err e end.

Declare Scope go_scope.
Delimit Scope go_scope with go.

Notation "'let?' x ':=' r 'in' k" := (result_bind r (fun x => k))
  (at level 10, x binder, r at level 100, k at level 200) : go_scope.

Lemma result_bind_ok {A B} (r : result A) (f : A -> result B) b :
  result_bind r f = Ok b -> exists a, r = Ok a /\ f a = Ok b.
Proof. destruct r; simpl; [eauto | discriminate]. Qed.

(** ** Automation *)

(** Rewriting of [Z.testbit] over the bit operations the code uses. *)
Create Rewrite HintDb bits.

#[export] Hint Rewrite Z.land_spec Z.lor_spec Z.lxor_spec Z.ldiff_spec : bits.
#[export] Hint Rewrite Z.testbit_0_l : bits.
#[export] Hint Rewrite Z.shiftl_spec Z.shiftr_spec using lia : bits.
#[export] Hint Rewrite Z.testbit_ones_nonneg using lia : bits.

(** Facts proved by [lia] after unfolding nothing: the arithmetic side
    conditions of the components' lemmas. *)
Create HintDb go.

#[export] Hint Extern 5 (_ <= _) => lia : go.
#[export] Hint Extern 5 (_ < _) => lia : go.
#[export] Hint Extern 5 (_ <= _ < _) => lia : go.
#[export] Hint Resolve u64_range u8_range i64_range : go.

(** Case analysis on the scrutinee of the first [match] or [if] found in the
    goal, keeping the equation. *)
Ltac go_case :=
  match goal with
  | |- context [match ?x with _ => _ end] =>
      lazymatch x with
      | context [match _ with _ => _ end] => fail
      | _ => destruct x eqn:?
      end
  end.

(** The same for a hypothesis. *)
Ltac go_case_in H :=
  match type of H with
  | context [match ?x with _ => _ end] =>
      lazymatch x with
      | context [match _ with _ => _ end] => fail
      | _ => destruct x eqn:?
      end
  end.

Ltac go_inv H := repeat (go_case_in H; simplify_eq/=); simplify_eq/=.

(** Equality of two nonnegative integers bit by bit. *)
Ltac bits_eq i Hi := apply Z.bits_inj'; intros i Hi; autorewrite with bits.

(** ** Bits *)

Lemma testbit_above (z w i : Z) : 0 <= z < 2 ^ w -> w <= i -> Z.testbit z i = false.
Proof.
  intros Hz Hi. destruct (decide (w < 0)) as [Hw|Hw].
  - rewrite Z.pow_neg_r in Hz by lia. lia.
  - rewrite <- (Z.mod_small z (2 ^ w)) by lia. apply Z.mod_pow2_bits_high. lia.
Qed.

Lemma land_ones_small (z w : Z) : 0 <= w -> 0 <= z < 2 ^ w -> Z.land z (Z.ones w) = z.
Proof. intros Hw Hz. rewrite Z.land_ones by lia. by apply Z.mod_small. Qed.

(** Go writes masks as [1<<w - 1]. *)
Lemma mask_ones (w : Z) : 0 <= w -> Z.shiftl 1 w - 1 = Z.ones w.
Proof. intros. rewrite Z.ones_equiv, Z.shiftl_mul_pow2 by lia. lia. Qed.

Lemma range_of_bits (z w : Z) :
  0 <= z -> 0 <= w -> (forall i, w <= i -> Z.testbit z i = false) -> z < 2 ^ w.
Proof.
  intros Hz Hw H.
  assert (z = Z.land z (Z.ones w)) as ->.
  { bits_eq i Hi. destruct (decide (w <= i)).
    - by rewrite H.
    - replace (i <? w) with true by lia. by rewrite andb_true_r. }
  rewrite Z.land_ones by lia. apply Z.mod_pos_bound. lia.
Qed.

Lemma lor_shiftl_range (l r w v : Z) :
  0 <= w -> 0 <= v -> 0 <= l < 2 ^ v -> 0 <= r < 2 ^ w ->
  0 <= Z.lor (Z.shiftl l w) r < 2 ^ (v + w).
Proof.
  intros Hw Hv Hl Hr. split.
  - apply Z.lor_nonneg. split; [apply Z.shiftl_nonneg|]; lia.
  - apply range_of_bits; [|lia|].
    + apply Z.lor_nonneg. split; [apply Z.shiftl_nonneg|]; lia.
    + intros i Hi. autorewrite with bits.
      rewrite (testbit_above l v), (testbit_above r w) by lia. done.
Qed.

Lemma lxor_range (a b w : Z) :
  0 <= w -> 0 <= a < 2 ^ w -> 0 <= b < 2 ^ w -> 0 <= Z.lxor a b < 2 ^ w.
Proof.
  intros Hw Ha Hb. split; [apply Z.lxor_nonneg; lia|].
  apply range_of_bits; [apply Z.lxor_nonneg; lia|lia|].
  intros i Hi. autorewrite with bits.
  by rewrite (testbit_above a w), (testbit_above b w) by lia.
Qed.

Lemma lor_range (a b w : Z) :
  0 <= w -> 0 <= a < 2 ^ w -> 0 <= b < 2 ^ w -> 0 <= Z.lor a b < 2 ^ w.
Proof.
  intros Hw Ha Hb. split; [apply Z.lor_nonneg; lia|].
  apply range_of_bits; [apply Z.lor_nonneg; lia|lia|].
  intros i Hi. autorewrite with bits.
  by rewrite (testbit_above a w), (testbit_above b w) by lia.
Qed.

Lemma ldiff_range (a b w : Z) : 0 <= w -> 0 <= a < 2 ^ w -> 0 <= Z.ldiff a b < 2 ^ w.
Proof.
  intros Hw Ha. assert (0 <= Z.ldiff a b) by (apply Z.ldiff_nonneg; lia). split; [done|].
  apply range_of_bits; [done..|].
  intros i Hi. rewrite Z.ldiff_spec. by rewrite (testbit_above a w) by lia.
Qed.

Lemma land_ones_range (z w : Z) : 0 <= w -> 0 <= Z.land z (Z.ones w) < 2 ^ w.
Proof. intros. rewrite Z.land_ones by lia. apply Z.mod_pos_bound. lia. Qed.

(** The two halves of [l << w | r]. *)
Lemma lor_shiftl_hi (l r w : Z) :
  0 <= w -> 0 <= r < 2 ^ w -> Z.shiftr (Z.lor (Z.shiftl l w) r) w = l.
Proof.
  intros Hw Hr. bits_eq i Hi.
  rewrite (testbit_above r w) by lia. rewrite orb_false_r. f_equal. lia.
Qed.

Lemma lor_shiftl_lo (l r w : Z) :
  0 <= w -> 0 <= r < 2 ^ w -> Z.land (Z.lor (Z.shiftl l w) r) (Z.ones w) = r.
Proof.
  intros Hw Hr. bits_eq i Hi. destruct (decide (i < w)).
  - rewrite (Z.testbit_neg_r l) by lia. replace (i <? w) with true by lia.
    by rewrite andb_true_r.
  - replace (i <? w) with false by lia. rewrite andb_false_r.
    by rewrite (testbit_above r w) by lia.
Qed.

Lemma split_halves (x w : Z) :
  0 <= w -> Z.lor (Z.shiftl (Z.shiftr x w) w) (Z.land x (Z.ones w)) = x.
Proof.
  intros Hw. bits_eq i Hi. destruct (decide (i < w)).
  - rewrite Z.testbit_neg_r by lia. replace (i <? w) with true by lia.
    by rewrite andb_true_r.
  - rewrite Z.shiftr_spec by lia. replace (i <? w) with false by lia.
    rewrite andb_false_r, orb_false_r. f_equal. lia.
Qed.

(** ** Bytes

    A byte string is a [list Z] of values below 256. *)

Definition bytes_ok (l : list Z) : Prop := Forall (fun b => 0 <= b < 256) l.

#[export] Instance bytes_ok_dec l : Decision (bytes_ok l).
Proof. unfold bytes_ok. apply _. Defined.

(** [binary.BigEndian.PutUint64] and [Uint64]. *)
Definition putUint64BE (v : Z) : list Z :=
  (fun k => Z.land (Z.shiftr v (8 * k)) 255) <$> [7; 6; 5; 4; 3; 2; 1; 0].

Definition uint64BE (l : list Z) : Z :=
  foldl (fun acc b => Z.lor (Z.shiftl acc 8) b) 0 (take 8 l).

Lemma uint64BE_putUint64BE v : 0 <= v < 2 ^ 64 -> uint64BE (putUint64BE v) = v.
Proof.
  intros Hv. unfold uint64BE, putUint64BE.
  cbn [fmap list_fmap take foldl]. rewrite Z.shiftl_0_l, Z.lor_0_l.
  change 255 with (Z.ones 8).
  assert (forall k j, 0 <= k -> j = k + 1 ->
    Z.lor (Z.shiftl (Z.shiftr v (8 * j)) 8) (Z.land (Z.shiftr v (8 * k)) (Z.ones 8))
      = Z.shiftr v (8 * k)) as H.
  { intros k j Hk ->. replace (8 * (k + 1)) with (8 * k + 8) by lia.
    rewrite <- Z.shiftr_shiftr by lia. apply split_halves. lia. }
  rewrite (land_ones_small (Z.shiftr v (8 * 7))).
  - rewrite (H 6 7), (H 5 6), (H 4 5), (H 3 4), (H 2 3), (H 1 2), (H 0 1) by lia.
    apply Z.shiftr_0_r.
  - lia.
  - rewrite Z.shiftr_div_pow2 by lia. split; [apply Z.div_pos; lia|].
    apply Z.div_lt_upper_bound; lia.
Qed.

Lemma uint64BE_range l : bytes_ok l -> 0 <= uint64BE l < 2 ^ 64.
Proof.
  intros Hl. unfold uint64BE.
  assert (forall m acc k, bytes_ok m -> 0 <= k -> 0 <= acc < 2 ^ (8 * k) ->
    0 <= foldl (fun acc b => Z.lor (Z.shiftl acc 8) b) acc m
      < 2 ^ (8 * (k + Z.of_nat (length m)))) as H.
  { clear. induction m as [|b m IH]; intros acc k Hm Hk Hacc; simpl.
    - by rewrite Z.add_0_r.
    - apply Forall_cons in Hm as [Hb Hm].
      replace (k + Z.of_nat (S (length m))) with (k + 1 + Z.of_nat (length m)) by lia.
      apply IH; [done|lia|].
      replace (8 * (k + 1)) with (8 * k + 8) by lia.
      apply lor_shiftl_range; lia. }
  specialize (H (take 8 l) 0 0).
  assert (bytes_ok (take 8 l)) as Ht by by apply Forall_take.
  specialize (H Ht ltac:(lia) ltac:(lia)).
  rewrite length_take in H.
  split; [lia|]. eapply Z.lt_le_trans; [apply H|].
  apply Z.pow_le_mono_r; lia.
Qed.

(** ** Lists *)

Lemma bool_eq_iff (a b : bool) : (a = true <-> b = true) -> a = b.
Proof. destruct a, b; intuition congruence. Qed.

Lemma NoDup_range_length (l : list Z) (n : Z) :
  NoDup l -> Forall (fun z => 0 <= z < n) l -> Z.of_nat (length l) <= Z.max 0 n.
Proof.
  intros Hnd Hf.
  assert (l ⊆ seqZ 0 n) as Hsub.
  { intros z Hz. apply elem_of_seqZ. rewrite Forall_forall in Hf.
    specialize (Hf z Hz). lia. }
  apply NoDup_submseteq in Hsub; [|done].
  apply submseteq_length in Hsub. rewrite length_seqZ in Hsub. lia.
Qed.

Lemma NoDup_fmap_filter {A B} (f : A -> B) (P : A -> Prop) `{!forall x, Decision (P x)} (l : list A) :
  NoDup (f <$> l) -> NoDup (f <$> filter P l).
Proof.
  induction l as [|x l IH]; [done|]. rewrite fmap_cons, NoDup_cons. intros [Hx Hl].
  rewrite filter_cons. case_decide; [|auto]. rewrite fmap_cons, NoDup_cons. split; [|auto].
  rewrite list_elem_of_fmap in *. intros (y & Hy & [_ Hin]%list_elem_of_filter). eauto.
Qed.

(** A table of values, one for each position of a range. *)
Lemma seqZ_choice {A} (P : Z -> A -> Prop) m :
  (forall c, 0 <= c < m -> exists k, P c k) -> exists l, Forall2 P (seqZ 0 m) l.
Proof.
  intros H.
  assert (forall cs, Forall (fun c => 0 <= c < m) cs -> exists l, Forall2 P cs l) as Hgen.
  { induction 1 as [|c cs Hc _ [l Hl]]; [by exists []|].
    destruct (H c Hc) as [k Hk]. exists (k :: l). by constructor. }
  apply Hgen. apply Forall_forall. intros c Hc%elem_of_seqZ. lia.
Qed.

(** Distinct positions have distinct values: the table has no duplicate. *)
Lemma Forall2_seqZ_NoDup {A} (P : Z -> A -> Prop) m l :
  Forall2 P (seqZ 0 m) l ->
  (forall c d k, 0 <= c < m -> 0 <= d < m -> P c k -> P d k -> c = d) -> NoDup l.
Proof.
  intros Hl Hinj. apply NoDup_alt. intros i j v Hi Hj.
  destruct (Forall2_lookup_r _ _ _ _ _ Hl Hi) as (ci & Hci & Ei).
  destruct (Forall2_lookup_r _ _ _ _ _ Hl Hj) as (cj & Hcj & Ej).
  apply lookup_seqZ in Hci as [-> Hci], Hcj as [-> Hcj].
  enough (0 + Z.of_nat i = 0 + Z.of_nat j) by lia.
  apply (Hinj _ _ v); done || lia.
Qed.

Lemma Forall2_seqZ_elem {A} (P : Z -> A -> Prop) m l k :
  Forall2 P (seqZ 0 m) l -> k ∈ l -> exists c, 0 <= c < m /\ P c k.
Proof.
  intros Hl [i Hi]%list_elem_of_lookup.
  destruct (Forall2_lookup_r _ _ _ _ _ Hl Hi) as (ci & Hci & Ei).
  apply lookup_seqZ in Hci as [-> Hci]. exists (0 + Z.of_nat i). split; [lia|done].
Qed.

(** Rule induction on reachability: an invariant of every step. *)
Lemma rtc_invariant {A} (R : relation A) (P : A -> Prop) :
  (forall x y, P x -> R x y -> P y) -> forall x y, rtc R x y -> P x -> P y.
Proof. intros Hstep x y Hxy. induction Hxy; eauto. Qed.
