(* ===== verification/Schema.v ===== *)
(** * internal/pgutil: the schema, applied by many processes at once

    [ApplySchema] as a state machine of sessions against one database: each
    takes the advisory lock of its key, runs the DDL, gives the lock back.
    [CREATE TABLE IF NOT EXISTS] is two steps, as the comment of the source
    found out: it looks whether the table exists, and then inserts it into the
    catalog, which fails if another session was faster. A connection can break
    at any step; the end of a session frees its lock. The theorem: with the
    lock no session ever loses that race, whoever succeeds leaves the schema in
    place, and all sessions come to an end. *)

From S2P Require Import Prelude.

Module Schema.

(** Where a call of [ApplySchema] is. *)
Inductive pc : Type :=
| Acquire                                (* pool.Acquire *)
| Lock                                   (* pg_advisory_lock *)
| DdlLook                                (* the DDL looks for the table *)
| DdlCreate                              (* the DDL enters it *)
| Unlock (r : result unit)               (* the deferred unlock, then the return *)
| Returned (r : result unit).

Record database := MkDatabase {
  created : bool;
  lockedBy : option nat                  (* the session that holds the advisory lock *)
}.

Record state := MkState {
  db : database;
  sessions : list pc
}.

Definition errBroken : error := ErrMsg "pgutil: connection broken".
Definition errDuplicate : error := ErrMsg "duplicate key value violates unique constraint pg_type_typname_nsp_index".

(** The lock is free, or this session has it. *)
Definition lockable (d : database) (i : nat) : bool :=
  match lockedBy d with None => true | Some j => bool_decide (i = j) end.

(** The end of a session frees its lock. *)
Definition endSession (d : database) (i : nat) : database :=
  if bool_decide (lockedBy d = Some i) then MkDatabase (created d) None else d.

(** One step of session [i]; [None] while it waits for the lock, and after its
    end. [broken]: the connection breaks during it. *)
Definition ApplySchema (i : nat) (broken : bool) (d : database) (p : pc) : option (database * pc) :=
  match p with
  | Acquire => Some (d, if broken then Returned (Err errBroken) else Lock)
  | Lock =>
      if broken then Some (endSession d i, Returned (Err errBroken))
      else if lockable d i then Some (MkDatabase (created d) (Some i), DdlLook)
      else None
  | DdlLook =>
      if broken then Some (endSession d i, Returned (Err errBroken))
      else Some (d, if created d then Unlock (Ok tt) else DdlCreate)
  | DdlCreate =>
      if broken then Some (endSession d i, Returned (Err errBroken))
      else if created d then Some (d, Unlock (Err errDuplicate))
      else Some (MkDatabase true (lockedBy d), Unlock (Ok tt))
  | Unlock r => Some (endSession d i, Returned r)
  | Returned _ => None
  end.

(** Some session makes a step. *)
Definition step (s s' : state) : Prop :=
  exists i broken p d' p', sessions s !! i = Some p /\ ApplySchema i broken (db s) p = Some (d', p') /\
    s' = MkState d' (<[i := p']> (sessions s)).

Definition start (d : database) (n : nat) : state := MkState d (replicate n Acquire).

(** ** The invariant *)

(** Inside the lock. *)
Definition inside (p : pc) : bool :=
  match p with DdlLook | DdlCreate | Unlock _ => true | _ => false end.

Definition pc_ok (d : database) (i : nat) (p : pc) : Prop :=
  (inside p = true <-> lockedBy d = Some i) /\
  match p with
  | DdlCreate => created d = false
  | Unlock r | Returned r => (r = Ok tt -> created d = true) /\ r <> Err errDuplicate
  | _ => True
  end.

Definition inv (s : state) : Prop :=
  (forall i p, sessions s !! i = Some p -> pc_ok (db s) i p) /\
  (forall i, lockedBy (db s) = Some i -> is_Some (sessions s !! i)).

Lemma start_inv b n : inv (start (MkDatabase b None) n).
Proof.
  split; [|done]. intros i p Hp. apply lookup_replicate in Hp as [-> _]. by split.
Qed.

(** A step changes the catalog only under the session's own lock, and the lock
    only from free to its own or back. *)
Lemma apply_effect i broken d p d' p' :
  pc_ok d i p -> ApplySchema i broken d p = Some (d', p') ->
  (created d' = created d \/ lockedBy d = Some i /\ created d' = true) /\
  (lockedBy d' = lockedBy d \/ lockedBy d = Some i /\ lockedBy d' = None \/
   (lockedBy d = None \/ lockedBy d = Some i) /\ lockedBy d' = Some i).
Proof.
  intros [Hin _] Hstep. unfold ApplySchema, lockable, endSession in Hstep.
  destruct d as [c l], p as [| | | |r|r], broken; cbn in *; try discriminate;
    repeat first [case_bool_decide | case_match]; simplify_eq/=; try (by split; auto);
    (split; [|by auto]); auto; right; (split; [by apply Hin|done]).
Qed.

Lemma pc_ok_other d d' i j q :
  (created d' = created d \/ lockedBy d = Some i /\ created d' = true) ->
  (lockedBy d' = lockedBy d \/ lockedBy d = Some i /\ lockedBy d' = None \/
   (lockedBy d = None \/ lockedBy d = Some i) /\ lockedBy d' = Some i) ->
  i <> j -> pc_ok d j q -> pc_ok d' j q.
Proof.
  intros Hc Hl Hne [Hin Hq]. split.
  - rewrite Hin. destruct Hl as [->|[[-> ->]|[[-> | ->] ->]]]; [done|split; congruence..].
  - destruct q as [| | | |r|r]; try done.
    + destruct Hc as [->|[Hi _]]; [done|]. assert (lockedBy d = Some j) by (by apply Hin). congruence.
    + destruct Hq as [H1 H2]. split; [|done]. intros Hr. destruct Hc as [->|[_ ->]]; auto.
    + destruct Hq as [H1 H2]. split; [|done]. intros Hr. destruct Hc as [->|[_ ->]]; auto.
Qed.

Lemma pc_ok_out d i p :
  inside p = false -> lockedBy d <> Some i ->
  match p with Returned r => (r = Ok tt -> created d = true) /\ r <> Err errDuplicate | _ => True end -> pc_ok d i p.
Proof. intros Hp Hl Hr. split; [by rewrite Hp|]. by destruct p. Qed.

Lemma endSession_free d i : lockedBy (endSession d i) <> Some i /\ created (endSession d i) = created d.
Proof. unfold endSession. case_bool_decide; [done|]. done. Qed.

Lemma apply_own i broken d p d' p' :
  pc_ok d i p -> ApplySchema i broken d p = Some (d', p') -> pc_ok d' i p'.
Proof.
  intros [Hin Hp] Hstep. destruct (endSession_free d i) as [Hfree Hsame].
  assert (inside p = false -> lockedBy d <> Some i) as Hout by (intros Hf Hl; apply Hin in Hl; congruence).
  assert (inside p = true -> lockedBy d = Some i) as Hown by apply Hin. clear Hin.
  destruct p as [| | | |r|r]; cbn in Hstep; try discriminate; destruct broken; simplify_eq/=;
    try (apply pc_ok_out; [done..|by split]); try (by apply pc_ok_out; [..|rewrite Hsame]).
  - apply pc_ok_out; [done|by apply Hout|by split].
  - apply pc_ok_out; [done|by apply Hout|done].
  - destruct (lockable d i); simplify_eq/=. by split.
  - split; [|by destruct (created d') eqn:Hc; cbn]. split; [by intros _; apply Hown|by destruct (created d')].
  - rewrite Hp in Hstep. simplify_eq/=. split; [|by split]. split; [by intros _; apply Hown|done].
Qed.

Lemma step_inv s s' : inv s -> step s s' -> inv s'.
Proof.
  intros [Hall Hlock] (i & broken & p & d' & p' & Hp & Hstep & ->). pose proof (Hall i p Hp) as Hok.
  destruct (apply_effect _ _ _ _ _ _ Hok Hstep) as [Hc Hl]. split; cbn [db sessions].
  - intros j q. rewrite list_lookup_insert. case_decide as Hj.
    + destruct Hj as [-> _]. intros [= <-]. by apply (apply_own j broken (db s) p).
    + intros Hq. destruct (decide (i = j)) as [->|Hne]; [|by apply (pc_ok_other (db s) d' i), Hall].
      exfalso. apply Hj. split; [done|]. by apply lookup_lt_Some in Hq.
  - intros j Hj. apply lookup_lt_is_Some. rewrite length_insert. apply lookup_lt_is_Some.
    destruct Hl as [Hl|[[_ Hl]|[_ Hl]]]; rewrite Hl in Hj; [by apply Hlock|done|]. simplify_eq. by eexists.
Qed.

(** ** Progress *)

(** How far a session is from its end; the sum falls at every step. *)
Definition left (p : pc) : nat :=
  match p with Acquire => 5 | Lock => 4 | DdlLook => 3 | DdlCreate => 2 | Unlock _ => 1 | Returned _ => 0 end.

Definition remaining (s : state) : nat := sum_list (left <$> sessions s).

Lemma sum_insert (l : list nat) i x y : l !! i = Some x -> (sum_list (<[i := y]> l) + x = sum_list l + y)%nat.
Proof.
  revert i. induction l as [|z l IH]; intros [|i] Hi; simplify_eq/=; [lia|]. specialize (IH i Hi). lia.
Qed.

Lemma step_falls s s' : step s s' -> (remaining s' < remaining s)%nat.
Proof.
  intros (i & broken & p & d' & p' & Hp & Hstep & ->). unfold remaining. cbn [sessions].
  assert (left p' < left p)%nat as Hlt.
  { destruct p as [| | | |r|r]; cbn in Hstep; repeat case_match; simplify_eq/=; lia. }
  rewrite list_fmap_insert. pose proof (sum_insert (left <$> sessions s) i (left p) (left p')) as Hs.
  rewrite list_lookup_fmap, Hp in Hs. specialize (Hs eq_refl). lia.
Qed.

Definition returned (p : pc) : bool := match p with Returned _ => true | _ => false end.

(** As long as somebody has not returned, somebody can go on: the holder of the
    lock if there is one. *)
Lemma somebody_moves s i p : inv s -> sessions s !! i = Some p -> (forall r, p <> Returned r) -> exists s', step s s'.
Proof.
  intros [Hall Hlock] Hp Hr.
  assert (forall j q, sessions s !! j = Some q -> is_Some (ApplySchema j false (db s) q) -> exists s', step s s') as Hgo.
  { intros j q Hq [[d' q'] Hs]. eexists. by exists j, false, q, d', q'. }
  destruct (lockedBy (db s)) as [j|] eqn:Hl.
  - destruct (Hlock j eq_refl) as [q Hq]. apply (Hgo j q Hq). destruct (Hall j q Hq) as [Hin _].
    apply Hin in Hl. destruct q; cbn in *; try discriminate; repeat case_match; eauto.
  - apply (Hgo i p Hp). destruct p as [| | | |r|r]; cbn; unfold lockable; rewrite ?Hl; eauto; [|by destruct (Hr r)].
    case_match; eauto.
Qed.

(** C37: applying the schema. Let any number of processes apply the schema to
    one database at the same time, in any interleaving, their connections
    breaking anywhere. At no moment are two sessions inside the lock; no
    session fails because another created the table first; if one has
    succeeded the table is there; as long as one has not returned, some
    session can go on; and no run is longer than five steps per session. *)
Theorem schema_race_free (b : bool) (n k : nat) (s : state) :
  nsteps step k (start (MkDatabase b None) n) s ->
  (forall i j p q, sessions s !! i = Some p -> sessions s !! j = Some q -> inside p = true -> inside q = true -> i = j) /\
  (forall i r, sessions s !! i = Some (Returned r) -> r <> Err errDuplicate /\ (r = Ok tt -> created (db s) = true)) /\
  ((forall i p, sessions s !! i = Some p -> exists r, p = Returned r) \/ exists s', step s s') /\
  (k <= 5 * n)%nat.
Proof.
  intros Hsteps.
  assert (inv s /\ (k + remaining s <= remaining (start (MkDatabase b None) n))%nat) as [Hinv Hk].
  { pose proof (start_inv b n) as Hstart. revert Hsteps Hstart. generalize (start (MkDatabase b None) n).
    intros s0 Hsteps. induction Hsteps as [s0|k s0 s1 s2 Hstep _ IH]; intros H0; [split; [done|lia]|].
    destruct (IH (step_inv _ _ H0 Hstep)) as [? ?]. pose proof (step_falls _ _ Hstep). split; [done|lia]. }
  split_and!.
  - intros i j p q Hp Hq Hi Hj. destruct Hinv as [Hall _]. apply (Hall i p Hp) in Hi. apply (Hall j q Hq) in Hj. congruence.
  - intros i r Hr. destruct (proj1 Hinv i _ Hr) as [_ [? ?]]. done.
  - destruct (decide (Exists (fun p => returned p = false) (sessions s))) as [He|Hne].
    + right. apply Exists_exists in He as (p & Hp & Hr). apply list_elem_of_lookup in Hp as [i Hi].
      apply (somebody_moves s i p Hinv Hi). by intros r ->.
    + left. intros i p Hp. destruct (returned p) eqn:Hr; [destruct p; try done; eauto|]. exfalso.
      apply Hne, Exists_exists. exists p. split; [by eapply list_elem_of_lookup_2|done].
  - unfold remaining, start in Hk. cbn [sessions] in Hk. rewrite fmap_replicate, sum_list_replicate in Hk. cbn [left] in Hk. lia.
Qed.

(** Two processes: one takes the lock and breaks off, the other creates the
    table. *)
Fixpoint play (moves : list (nat * bool)) (s : state) : option state :=
  match moves with
  | [] => Some s
  | (i, broken) :: moves =>
      match sessions s !! i with
      | Some p =>
          match ApplySchema i broken (db s) p with
          | Some (d', p') => play moves (MkState d' (<[i := p']> (sessions s)))
          | None => None
          end
      | None => None
      end
  end.

Lemma play_steps moves s s' : play moves s = Some s' -> nsteps step (length moves) s s'.
Proof.
  revert s. induction moves as [|[i broken] moves IH]; intros s; cbn [play length].
  - intros [= <-]. constructor.
  - destruct (sessions s !! i) as [p|] eqn:Hp; [|done].
    destruct (ApplySchema i broken (db s) p) as [[d' p']|] eqn:Hs; [|done].
    intros Hplay. econstructor; [|by apply IH]. by exists i, broken, p, d', p'.
Qed.

Definition exampleEnd : state := MkState (MkDatabase true None) [Returned (Err errBroken); Returned (Ok tt)].

Lemma schema_race_free_witness :
  play [(0%nat, false); (1%nat, false); (0%nat, false); (0%nat, true); (1%nat, false); (1%nat, false); (1%nat, false);
        (1%nat, false)] (start (MkDatabase false None) 2) = Some exampleEnd /\
  created (db exampleEnd) = true.
Proof.
  assert (play [(0%nat, false); (1%nat, false); (0%nat, false); (0%nat, true); (1%nat, false); (1%nat, false);
    (1%nat, false); (1%nat, false)] (start (MkDatabase false None) 2) = Some exampleEnd) as Hplay by reflexivity.
  split; [exact Hplay|].
  destruct (schema_race_free false 2 8 exampleEnd (play_steps _ _ _ Hplay)) as (_ & Hret & _).
  by apply (Hret 1%nat (Ok tt)).
Defined.

End Schema.
