(* ===== verification/Sha256.v ===== *)
(** * SHA-256 and HMAC-SHA256

    The two primitives of Go's standard library the program calls:
    [crypto/sha256] (FIPS 180-4), used by the shard assigner's hash, and
    [crypto/hmac] over it (RFC 2104), the allocator's round function. They are
    executable, so that the indices and shards the program computes can be
    evaluated on concrete keys; the theorems of the components only use that
    the digest is 32 bytes. *)

From S2P Require Import Prelude.

Module Sha256.

Definition mask32 : Z := 4294967295.

Definition add32 (a b : Z) : Z := Z.land (a + b) mask32.

Definition rotr (n x : Z) : Z :=
  Z.lor (Z.shiftr x n) (Z.land (Z.shiftl x (32 - n)) mask32).

Definition big0 (x : Z) : Z := Z.lxor (rotr 2 x) (Z.lxor (rotr 13 x) (rotr 22 x)).
Definition big1 (x : Z) : Z := Z.lxor (rotr 6 x) (Z.lxor (rotr 11 x) (rotr 25 x)).
Definition small0 (x : Z) : Z := Z.lxor (rotr 7 x) (Z.lxor (rotr 18 x) (Z.shiftr x 3)).
Definition small1 (x : Z) : Z := Z.lxor (rotr 17 x) (Z.lxor (rotr 19 x) (Z.shiftr x 10)).

Definition ch (x y z : Z) : Z := Z.lxor (Z.land x y) (Z.land (Z.lxor x mask32) z).
Definition maj (x y z : Z) : Z := Z.lxor (Z.land x y) (Z.lxor (Z.land x z) (Z.land y z)).

(** The constants of FIPS 180-4, sections 4.2.2 and 5.3.3, are computed from
    their definition: the first 32 bits of the fractional parts of the cube
    roots of the first 64 primes and of the square roots of the first 8. *)
Definition isPrime (n : nat) : bool :=
  forallb (fun d => negb (Nat.eqb (Nat.modulo n d) 0)) (seq 2 (n - 2)).

Definition primes : list Z := Z.of_nat <$> List.filter isPrime (seq 2 310).

(** The largest [r] below [2 ^ n] above [acc] with [r ^ 3 <= z], bit by bit. *)
Fixpoint cubeRoot (n : nat) (acc z : Z) : Z :=
  match n with
  | O => acc
  | S n =>
      let r := acc + 2 ^ Z.of_nat n in
      cubeRoot n (if r * r * r <=? z then r else acc) z
  end.

Definition K : list Z :=
  Eval vm_compute in
    (fun p => Z.land (cubeRoot 36 0 (Z.shiftl p 96)) mask32) <$> take 64 primes.

Record state := St { sa : Z; sb : Z; sc : Z; sd : Z; se : Z; sf : Z; sg : Z; sh : Z }.

Definition init : state :=
  Eval vm_compute in
    let h i := Z.land (Z.sqrt (Z.shiftl (nth i primes 0) 64)) mask32 in
    St (h 0%nat) (h 1%nat) (h 2%nat) (h 3%nat) (h 4%nat) (h 5%nat) (h 6%nat) (h 7%nat).

(** The message schedule, most recent word first. *)
Fixpoint schedule (n : nat) (w : list Z) : list Z :=
  match n with
  | O => w
  | S n =>
      let at_ i := nth i w 0 in
      schedule n (add32 (add32 (small1 (at_ 1%nat)) (at_ 6%nat))
                        (add32 (small0 (at_ 14%nat)) (at_ 15%nat)) :: w)
  end.

Definition round (s : state) (kw : Z * Z) : state :=
  let t1 := add32 (add32 (sh s) (big1 (se s)))
                  (add32 (ch (se s) (sf s) (sg s)) (add32 kw.1 kw.2)) in
  let t2 := add32 (big0 (sa s)) (maj (sa s) (sb s) (sc s)) in
  St (add32 t1 t2) (sa s) (sb s) (sc s) (add32 (sd s) t1) (se s) (sf s) (sg s).

Definition compress (s : state) (block : list Z) : state :=
  let r := foldl round s (zip K (rev (schedule 48 (rev block)))) in
  St (add32 (sa s) (sa r)) (add32 (sb s) (sb r)) (add32 (sc s) (sc r)) (add32 (sd s) (sd r))
     (add32 (se s) (se r)) (add32 (sf s) (sf r)) (add32 (sg s) (sg r)) (add32 (sh s) (sh r)).

Fixpoint toWords (l : list Z) : list Z :=
  match l with
  | a :: b :: c :: d :: l =>
      Z.lor (Z.shiftl a 24) (Z.lor (Z.shiftl b 16) (Z.lor (Z.shiftl c 8) d)) :: toWords l
  | _ => []
  end.

Definition fromWord (w : Z) : list Z :=
  (fun k => Z.land (Z.shiftr w (8 * k)) 255) <$> [3; 2; 1; 0].

Fixpoint blocks (n : nat) (s : state) (ws : list Z) : state :=
  match n with
  | O => s
  | S n => blocks n (compress s (take 16 ws)) (drop 16 ws)
  end.

Definition pad (m : list Z) : list Z :=
  m ++ [128] ++ replicate (Z.to_nat ((55 - Z.of_nat (length m)) mod 64)) 0
    ++ putUint64BE (8 * Z.of_nat (length m)).

(** [sha256.Sum256]. *)
Definition Sum256 (m : list Z) : list Z :=
  let p := pad m in
  let s := blocks (length p / 64) init (toWords p) in
  [sa s; sb s; sc s; sd s; se s; sf s; sg s; sh s] ≫= fromWord.

(** [hmac.New(sha256.New, key)] followed by one [Write] and [Sum]. *)
Definition HMAC (key msg : list Z) : list Z :=
  let k0 := if decide (64 < length key)%nat then Sum256 key else key in
  let k := k0 ++ replicate (64 - length k0) 0 in
  Sum256 ((Z.lxor 92 <$> k) ++ Sum256 ((Z.lxor 54 <$> k) ++ msg)).

Lemma fromWord_ok w : bytes_ok (fromWord w).
Proof.
  assert (forall z, 0 <= Z.land z 255 < 256) as H.
  { intros z. change 255 with (Z.ones 8). by apply land_ones_range. }
  unfold fromWord, bytes_ok. rewrite Forall_fmap. apply Forall_true. intros. apply H.
Qed.

Lemma Sum256_ok m : bytes_ok (Sum256 m).
Proof.
  unfold Sum256, bytes_ok. apply Forall_bind, Forall_true. intros. apply fromWord_ok.
Qed.

Lemma length_Sum256 m : length (Sum256 m) = 32%nat.
Proof. reflexivity. Qed.

Lemma HMAC_ok key msg : bytes_ok (HMAC key msg).
Proof. apply Sum256_ok. Qed.

(** The first 8 bytes of a digest as a big-endian [uint64]. *)
Lemma digest_prefix_range key msg : 0 <= uint64BE (take 8 (HMAC key msg)) < 2 ^ 64.
Proof. apply uint64BE_range, Forall_take, HMAC_ok. Qed.

(** FIPS 180-4's "abc" vector. *)
Example Sum256_abc :
  Sum256 [97; 98; 99] =
  [0xba; 0x78; 0x16; 0xbf; 0x8f; 0x01; 0xcf; 0xea; 0x41; 0x41; 0x40; 0xde; 0x5d; 0xae; 0x22; 0x23;
   0xb0; 0x03; 0x61; 0xa3; 0x96; 0x17; 0x7a; 0x9c; 0xb4; 0x10; 0xff; 0x61; 0xf2; 0x00; 0x15; 0xad].
Proof. vm_compute. reflexivity. Qed.

(** RFC 4231, test case 2: key "Jefe", data "what do ya want for nothing?". *)
Example HMAC_rfc4231_2 :
  HMAC [0x4a; 0x65; 0x66; 0x65]
       [0x77; 0x68; 0x61; 0x74; 0x20; 0x64; 0x6f; 0x20; 0x79; 0x61; 0x20; 0x77; 0x61; 0x6e;
        0x74; 0x20; 0x66; 0x6f; 0x72; 0x20; 0x6e; 0x6f; 0x74; 0x68; 0x69; 0x6e; 0x67; 0x3f] =
  [0x5b; 0xdc; 0xc1; 0x46; 0xbf; 0x60; 0x75; 0x4e; 0x6a; 0x04; 0x24; 0x26; 0x08; 0x95; 0x75; 0xc7;
   0x5a; 0x00; 0x3f; 0x08; 0x9d; 0x27; 0x39; 0x83; 0x9d; 0xec; 0x58; 0xb9; 0x64; 0xec; 0x38; 0x43].
Proof. vm_compute. reflexivity. Qed.

End Sha256.
