(* ===== verification/Allocator.v ===== *)
(** * internal/allocator: the keyed index permutation

    [Allocator] is the struct of allocator.go, [New] its constructor, [round]
    the HMAC round function, [permute] the balanced Feistel network and
    [Index] the cycle-walking lookup. The theorems: [permute] is a bijection of
    its 2*half-bit domain whatever the key, [Index] never maps two cursors to
    one index, and cycle walking ends. *)

From S2P Require Import Prelude Sha256.

Module Allocator.

Definition KeySize : nat := 32.

Definition rounds : Z := 4.

Definition maxCycleWalks : nat := 1000.

Record Allocator := MkAllocator {
  key : list Z;
  n : Z;
  half : Z
}.

(** [bits.Len64]. *)
Definition Len64 (x : Z) : Z := if x =? 0 then 0 else Z.log2 x + 1.

Definition New (key : list Z) (n : Z) : result Allocator :=
  if negb (length key =? KeySize)%nat then Err (ErrMsg "allocator: key must be 32 bytes")
  else if n =? 0 then Err (ErrMsg "allocator: capacity must be > 0")
  else
    let total := Len64 (u64 (n - 1)) in
    let total := if total =? 0 then 1 else total in
    let total := if negb (total mod 2 =? 0) then total + 1 else total in
    let half := total / 2 in
    let half := if half =? 0 then 1 else half in
    Ok (MkAllocator key n half).

(** [NewKey]: [random] fills a buffer of the length it is given, or fails. *)
Definition NewKey (random : nat -> result (list Z)) : result (list Z) := random KeySize.

Definition round (a : Allocator) (rnd r : Z) : Z :=
  let buf := rnd :: putUint64BE r in
  let sum := Sha256.HMAC (key a) buf in
  uint64BE (take 8 sum).

Definition feistelRound (a : Allocator) (mask : Z) (lr : Z * Z) (rnd : Z) : Z * Z :=
  let f := Z.land (round a rnd lr.2) mask in
  (lr.2, Z.lxor lr.1 f).

Definition permute (a : Allocator) (x : Z) : Z :=
  let mask := u64 (u64 (Z.shiftl 1 (half a)) - 1) in
  let l := Z.land (Z.shiftr x (half a)) mask in
  let r := Z.land x mask in
  let lr := foldl (feistelRound a mask) (l, r) (seqZ 0 rounds) in
  Z.lor (u64 (Z.shiftl lr.1 (half a))) lr.2.

(** The loop of [Index]: at most [fuel] applications of [permute]. *)
Fixpoint walk (fuel : nat) (a : Allocator) (cursor : Z) : result Z :=
  match fuel with
  | O => Err (ErrMsg "allocator: cycle walk did not converge")
  | S fuel =>
      let cursor := permute a cursor in
      if cursor <? n a then Ok cursor else walk fuel a cursor
  end.

Definition Index (a : Allocator) (cursor : Z) : result Z :=
  if n a <=? cursor then Err (ErrMsg "allocator: cursor out of range")
  else walk maxCycleWalks a cursor.

(** ** Well-formed allocators *)

(** Size of the domain [permute] acts on. *)
Definition domain (a : Allocator) : Z := 2 ^ (2 * half a).

Definition wf (a : Allocator) : Prop :=
  length (key a) = KeySize /\ 1 <= half a <= 32 /\ 0 < n a <= domain a.

Definition inDomain (a : Allocator) (x : Z) : Prop := 0 <= x < domain a.

Lemma Len64_bound x : 0 <= x < 2 ^ 64 -> 0 <= Len64 x <= 64 /\ x < 2 ^ Len64 x.
Proof.
  intros Hx. unfold Len64. destruct (Z.eqb_spec x 0) as [->|Hne]; [by split; [lia|]|].
  pose proof (Z.log2_spec x ltac:(lia)) as [_ Hlt]. rewrite <- Z.add_1_r in Hlt.
  pose proof (Z.log2_nonneg x).
  assert (Z.log2 x < 64) by (apply Z.log2_lt_pow2; lia).
  split; [lia|done].
Qed.

(** The padded half-width: [half] is the ceiling of [total / 2], at least 1. *)
Lemma New_half k m a :
  New k m = Ok a ->
  key a = k /\ n a = m /\ m <> 0 /\ length k = KeySize /\
  half a = Z.max 1 ((Len64 (u64 (m - 1)) + 1) / 2).
Proof.
  unfold New. destruct (Nat.eqb_spec (length k) KeySize) as [Hlen|]; [|done].
  destruct (Z.eqb_spec m 0) as [|Hm]; [done|]. cbn [negb]. intros [= <-]. simpl.
  split_and!; try done. set (t := Len64 _). assert (0 <= t).
  { subst t. unfold Len64. case_match; [lia|].
    pose proof (Z.log2_nonneg (u64 (m - 1))). lia. }
  destruct (Z.eqb_spec t 0) as [->|]; [done|].
  destruct (Z.eqb_spec (t mod 2) 0); cbn [negb]; case_match; Z.div_mod_to_equations; lia.
Qed.

Lemma New_wf k m a : 0 <= m < 2 ^ 64 -> New k m = Ok a -> wf a.
Proof.
  intros Hm H. apply New_half in H as (Hk & Hn & Hm0 & Hlen & Hh).
  rewrite u64_small in Hh by lia.
  destruct (Len64_bound (m - 1) ltac:(lia)) as [Ht Hlt].
  set (t := Len64 (m - 1)) in *. unfold wf, domain.
  assert (t <= 2 * half a) by (Z.div_mod_to_equations; lia).
  split_and!; [by rewrite Hk| | |lia|]; try (Z.div_mod_to_equations; lia).
  pose proof (Z.pow_le_mono_r 2 t (2 * half a)). lia.
Qed.

(** ** The Feistel network is a bijection *)

Lemma round_range a rnd r : 0 <= round a rnd r < 2 ^ 64.
Proof. apply Sha256.digest_prefix_range. Qed.

Lemma mask_eq a : 1 <= half a <= 32 -> u64 (u64 (Z.shiftl 1 (half a)) - 1) = Z.ones (half a).
Proof.
  intros Hh. rewrite Z.shiftl_1_l, Z.ones_equiv.
  pose proof (Z.pow_le_mono_r 2 (half a) 32). pose proof (Z.pow_pos_nonneg 2 (half a)).
  rewrite !u64_small by (rewrite ?u64_small by lia; lia). lia.
Qed.

Definition inHalves (a : Allocator) (lr : Z * Z) : Prop :=
  0 <= lr.1 < 2 ^ half a /\ 0 <= lr.2 < 2 ^ half a.

(** One round undone: the decryption direction of the network. *)
Definition unround (a : Allocator) (mask : Z) (rnd : Z) (lr : Z * Z) : Z * Z :=
  (Z.lxor lr.2 (Z.land (round a rnd lr.1) mask), lr.1).

Definition unpermute (a : Allocator) (y : Z) : Z :=
  let mask := Z.ones (half a) in
  let lr := foldr (unround a mask) (Z.shiftr y (half a), Z.land y mask) (seqZ 0 rounds) in
  Z.lor (Z.shiftl lr.1 (half a)) lr.2.

Lemma feistelRound_halves a lr rnd :
  1 <= half a -> inHalves a lr -> inHalves a (feistelRound a (Z.ones (half a)) lr rnd).
Proof.
  intros Hh [Hl Hr]. split; [done|]. apply lxor_range; [lia|done|].
  apply land_ones_range. lia.
Qed.

Lemma unround_feistelRound a mask lr rnd : unround a mask rnd (feistelRound a mask lr rnd) = lr.
Proof.
  destruct lr as [l r]. unfold unround, feistelRound; simpl.
  by rewrite Z.lxor_assoc, Z.lxor_nilpotent, Z.lxor_0_r.
Qed.

Lemma feistelRound_unround a mask lr rnd : feistelRound a mask (unround a mask rnd lr) rnd = lr.
Proof.
  destruct lr as [l r]. unfold unround, feistelRound; simpl.
  by rewrite Z.lxor_assoc, Z.lxor_nilpotent, Z.lxor_0_r.
Qed.

Lemma feistel_halves a rs lr :
  1 <= half a -> inHalves a lr -> inHalves a (foldl (feistelRound a (Z.ones (half a))) lr rs).
Proof.
  intros Hh. revert lr. induction rs as [|x rs IH]; intros lr H; [done|].
  apply IH. by apply feistelRound_halves.
Qed.

Lemma unfeistel_halves a rs lr :
  1 <= half a -> inHalves a lr -> inHalves a (foldr (unround a (Z.ones (half a))) lr rs).
Proof.
  intros Hh H. induction rs as [|x rs IH]; [done|]. destruct IH as [Hl Hr].
  split; [|done]. apply lxor_range; [lia|done|]. apply land_ones_range. lia.
Qed.

Lemma unfeistel_feistel a mask rs lr :
  foldr (unround a mask) (foldl (feistelRound a mask) lr rs) rs = lr.
Proof.
  revert lr. induction rs as [|x rs IH]; intros lr; simpl; [done|].
  by rewrite IH, unround_feistelRound.
Qed.

Lemma feistel_unfeistel a mask rs lr :
  foldl (feistelRound a mask) (foldr (unround a mask) lr rs) rs = lr.
Proof.
  induction rs as [|x rs IH]; simpl; [done|]. by rewrite feistelRound_unround.
Qed.

Lemma halves_of a x :
  wf a -> inDomain a x -> inHalves a (Z.shiftr x (half a), Z.land x (Z.ones (half a))).
Proof.
  intros (Hk & Hh & Hn) Hx. unfold inDomain, domain in Hx. split; simpl.
  - rewrite Z.shiftr_div_pow2 by lia. split; [apply Z.div_pos; lia|].
    apply Z.div_lt_upper_bound; [lia|]. rewrite <- Z.pow_add_r by lia.
    replace (half a + half a) with (2 * half a) by lia. lia.
  - apply land_ones_range. lia.
Qed.

(** [permute] with the masks and the shift at their mathematical values. *)
Lemma permute_eq a x :
  wf a -> inDomain a x ->
  permute a x =
    let lr := foldl (feistelRound a (Z.ones (half a)))
                (Z.shiftr x (half a), Z.land x (Z.ones (half a))) (seqZ 0 rounds) in
    Z.lor (Z.shiftl lr.1 (half a)) lr.2.
Proof.
  intros Hw Hx. pose proof (halves_of a x Hw Hx) as Hxs. destruct Hw as (Hk & Hh & Hn).
  unfold permute. rewrite mask_eq by done.
  rewrite (land_ones_small (Z.shiftr x (half a))) by (lia || apply Hxs).
  pose proof (feistel_halves a (seqZ 0 rounds) _ ltac:(lia) Hxs) as [Hl Hr].
  cbn zeta. f_equal. apply u64_small. rewrite Z.shiftl_mul_pow2 by lia.
  split; [lia|]. eapply Z.lt_le_trans; [apply Z.mul_lt_mono_pos_r; [lia|apply Hl]|].
  rewrite <- Z.pow_add_r by lia. apply Z.pow_le_mono_r; lia.
Qed.

Lemma joined_inDomain a lr :
  wf a -> inHalves a lr -> inDomain a (Z.lor (Z.shiftl lr.1 (half a)) lr.2).
Proof.
  intros (Hk & Hh & Hn) [Hl Hr]. unfold inDomain, domain.
  replace (2 * half a) with (half a + half a) by lia.
  apply lor_shiftl_range; lia.
Qed.

Lemma permute_inDomain a x : wf a -> inDomain a x -> inDomain a (permute a x).
Proof.
  intros Hw Hx. rewrite permute_eq by done. apply joined_inDomain; [done|].
  apply feistel_halves; [unfold wf in Hw; lia|]. by apply halves_of.
Qed.

Lemma unpermute_permute a x : wf a -> inDomain a x -> unpermute a (permute a x) = x.
Proof.
  intros Hw Hx. pose proof (halves_of a x Hw Hx) as Hh.
  assert (1 <= half a) by (unfold wf in Hw; lia).
  rewrite permute_eq by done. unfold unpermute. cbn zeta.
  destruct (feistel_halves a (seqZ 0 rounds) _ ltac:(done) Hh) as [Hl Hr].
  rewrite lor_shiftl_hi, lor_shiftl_lo by lia.
  rewrite <- surjective_pairing, unfeistel_feistel. simpl.
  apply split_halves. lia.
Qed.

Lemma permute_unpermute a y : wf a -> inDomain a y -> permute a (unpermute a y) = y.
Proof.
  intros Hw Hy. pose proof (halves_of a y Hw Hy) as Hh.
  assert (1 <= half a) by (unfold wf in Hw; lia).
  pose proof (unfeistel_halves a (seqZ 0 rounds) _ ltac:(done) Hh) as Hu.
  rewrite permute_eq; [|done|by apply joined_inDomain]. unfold unpermute. cbn zeta.
  destruct Hu as [Hl Hr].
  rewrite lor_shiftl_hi, lor_shiftl_lo by lia.
  rewrite <- surjective_pairing, feistel_unfeistel. simpl.
  apply split_halves. lia.
Qed.

Lemma permute_inj a x y :
  wf a -> inDomain a x -> inDomain a y -> permute a x = permute a y -> x = y.
Proof.
  intros Hw Hx Hy H. rewrite <- (unpermute_permute a x), <- (unpermute_permute a y) by done.
  by rewrite H.
Qed.

(** ** Cycle walking *)

Definition iterate (a : Allocator) (k : nat) (x : Z) : Z := Nat.iter k (permute a) x.

Lemma iterate_inDomain a k x : wf a -> inDomain a x -> inDomain a (iterate a k x).
Proof. intros Hw Hx. induction k; [done|]. by apply permute_inDomain. Qed.

Lemma iterate_cancel a i d x y :
  wf a -> inDomain a x -> inDomain a y ->
  iterate a i x = iterate a (i + d) y -> x = iterate a d y.
Proof.
  intros Hw Hx Hy. induction i as [|i IH]; [done|]. simpl. intros H.
  apply IH, (permute_inj a); auto using iterate_inDomain.
Qed.

(** A finished walk stops at the first iterate below [n]. *)
Lemma walk_ok fuel a x z :
  walk fuel a x = Ok z ->
  exists k, (1 <= k <= fuel)%nat /\ z = iterate a k x /\ z < n a /\
    forall j, (1 <= j < k)%nat -> n a <= iterate a j x.
Proof.
  revert x. induction fuel as [|fuel IH]; intros x; simpl; [done|].
  destruct (Z.ltb_spec (permute a x) (n a)) as [Hlt|Hge].
  - intros [= <-]. exists 1%nat. split_and!; try done; lia.
  - intros (k & Hk & Hz & Hlt & Hj)%IH. exists (S k).
    assert (forall j, iterate a j (permute a x) = iterate a (S j) x) as Hs.
    { intros j. unfold iterate. by rewrite Nat.iter_succ_r. }
    split_and!; [lia..|by rewrite <- Hs|done|].
    intros [|[|j]] Hjk; [lia|done|]. rewrite <- Hs. apply Hj. lia.
Qed.

(** A walk that gives up has only met iterates outside [0, n). *)
Lemma walk_err fuel a x e :
  walk fuel a x = Err e -> forall j, (1 <= j <= fuel)%nat -> n a <= iterate a j x.
Proof.
  revert x. induction fuel as [|fuel IH]; intros x; simpl; [lia|].
  destruct (Z.ltb_spec (permute a x) (n a)) as [Hlt|Hge]; [done|].
  intros H [|[|j]] Hj; [lia|done|].
  specialize (IH _ H (S j) ltac:(lia)). unfold iterate in *. by rewrite Nat.iter_succ_r.
Qed.

(** The walk is decided by the first iterate inside the list. *)
Lemma walk_first fuel a x s :
  (1 <= s)%nat -> iterate a s x < n a -> (forall j, (1 <= j < s)%nat -> n a <= iterate a j x) ->
  walk fuel a x = if (s <=? fuel)%nat then Ok (iterate a s x)
                  else Err (ErrMsg "allocator: cycle walk did not converge").
Proof.
  revert x s. induction fuel as [|fuel IH]; intros x s Hs Hin Hout; [by destruct s; [lia|]|].
  assert (forall j, iterate a j (permute a x) = iterate a (S j) x) as Hit.
  { intros j. unfold iterate. by rewrite Nat.iter_succ_r. }
  cbn [walk]. destruct s as [|[|s]]; [lia| |].
  - change (permute a x) with (iterate a 1 x). by replace (iterate a 1 x <? n a) with true by lia.
  - pose proof (Hout 1%nat ltac:(lia)) as H1. change (iterate a 1 x) with (permute a x) in H1.
    replace (permute a x <? n a) with false by lia.
    rewrite (IH (permute a x) (S s)); rewrite ?Hit; [done|lia|done|].
    intros j Hj. rewrite Hit. apply Hout. lia.
Qed.

Lemma walk_inj fuel a x y z :
  wf a -> 0 <= x < n a -> 0 <= y < n a ->
  walk fuel a x = Ok z -> walk fuel a y = Ok z -> x = y.
Proof.
  intros Hw Hx Hy (i & Hi & Ezi & Hzi & Hbi)%walk_ok (j & Hj & Ezj & Hzj & Hbj)%walk_ok.
  assert (inDomain a x /\ inDomain a y) as [Hdx Hdy]
    by (unfold wf, inDomain in *; lia).
  destruct (decide (i <= j)%nat) as [Hle|Hgt].
  - pose proof (iterate_cancel a i (j - i) x y Hw Hdx Hdy) as Hc.
    replace (i + (j - i))%nat with j in Hc by lia. specialize (Hc ltac:(congruence)).
    destruct (decide (i = j)) as [->|]; [by rewrite Nat.sub_diag in Hc|].
    specialize (Hbj (j - i)%nat ltac:(lia)). lia.
  - pose proof (iterate_cancel a j (i - j) y x Hw Hdy Hdx) as Hc.
    replace (j + (i - j))%nat with i in Hc by lia. specialize (Hc ltac:(congruence)).
    specialize (Hbi (i - j)%nat ltac:(lia)). lia.
Qed.

(** The iterates met before the walk stops are pairwise distinct, so the walk
    is shorter than the part of the domain outside [0, n). *)
Lemma out_of_range_run a x fuel :
  wf a -> 0 <= x < n a ->
  (forall j, (1 <= j <= fuel)%nat -> n a <= iterate a j x) ->
  Z.of_nat fuel <= domain a - n a.
Proof.
  intros Hw Hx Hout.
  assert (inDomain a x) as Hdx by (unfold wf, inDomain in *; lia).
  set (l := (fun j => iterate a j x - n a) <$> seq 1 fuel).
  assert (NoDup l) as Hnd.
  { apply NoDup_fmap_2_strong; [|apply NoDup_seq].
    assert (forall i j, (1 <= i < j)%nat -> (j <= fuel)%nat ->
              iterate a i x = iterate a j x -> False) as Hne.
    { intros i j Hij Hjf He. pose proof (iterate_cancel a i (j - i) x x Hw Hdx Hdx) as Hc.
      replace (i + (j - i))%nat with j in Hc by lia. specialize (Hc He).
      specialize (Hout (j - i)%nat ltac:(lia)). lia. }
    intros i j Hi Hj He. apply elem_of_seq in Hi, Hj.
    destruct (lt_eq_lt_dec i j) as [[Hlt| ->]|Hgt]; [|done|]; exfalso.
    - apply (Hne i j); lia.
    - apply (Hne j i); lia. }
  assert (Forall (fun z => 0 <= z < domain a - n a) l) as Hr.
  { apply Forall_fmap, Forall_forall. intros j Hj. apply elem_of_seq in Hj. simpl.
    pose proof (iterate_inDomain a j x Hw Hdx) as [_ Hd].
    specialize (Hout j ltac:(lia)). lia. }
  pose proof (NoDup_range_length l _ Hnd Hr) as Hlen.
  unfold l in Hlen. rewrite length_fmap, length_seq in Hlen.
  unfold wf in Hw. lia.
Qed.

(** Termination: a walk never needs more steps than there are values outside
    the range, plus one. *)
Lemma walk_total a x fuel :
  wf a -> 0 <= x < n a -> domain a - n a < Z.of_nat fuel ->
  exists z, walk fuel a x = Ok z /\ 0 <= z < n a.
Proof.
  intros Hw Hx Hfuel. destruct (walk fuel a x) as [z|e] eqn:E.
  - exists z. split; [done|]. apply walk_ok in E as (k & _ & -> & Hlt & _).
    split; [|done]. apply iterate_inDomain; [done|]. unfold wf, inDomain in *. lia.
  - pose proof (out_of_range_run a x fuel Hw Hx (walk_err _ _ _ _ E)). lia.
Qed.

Lemma Index_ok_range a c z : wf a -> 0 <= c -> Index a c = Ok z -> c < n a /\ 0 <= z < n a.
Proof.
  unfold Index. intros Hw Hc. destruct (Z.leb_spec (n a) c); [done|].
  intros (k & _ & -> & Hlt & _)%walk_ok. split_and!; try lia.
  apply iterate_inDomain; [done|]. unfold wf, inDomain in *. lia.
Qed.

Lemma Index_ok_inj a x y z :
  wf a -> 0 <= x -> 0 <= y -> Index a x = Ok z -> Index a y = Ok z -> x = y.
Proof.
  unfold Index. intros Hw Hx Hy.
  destruct (Z.leb_spec (n a) x); [done|]. destruct (Z.leb_spec (n a) y); [done|].
  by apply walk_inj.
Qed.

(** The padded domain is less than four times the capacity. *)
Lemma domain_bound k m a : 2 <= m < 2 ^ 64 -> New k m = Ok a -> domain a <= 4 * (m - 1).
Proof.
  intros Hm H. apply New_half in H as (_ & _ & _ & _ & Hh).
  rewrite u64_small in Hh by lia. unfold Len64 in Hh.
  destruct (Z.eqb_spec (m - 1) 0); [lia|].
  pose proof (Z.log2_spec (m - 1) ltac:(lia)) as [Hlo _].
  pose proof (Z.log2_nonneg (m - 1)).
  unfold domain. transitivity (2 ^ (2 + Z.log2 (m - 1))).
  - apply Z.pow_le_mono_r; [lia|]. rewrite Hh. Z.div_mod_to_equations; lia.
  - rewrite Z.pow_add_r by lia. lia.
Qed.

(** What of it lies outside the list: at most three quarters, also of the
    domain of four values that the capacity 1 is padded to. *)
Lemma domain_outside k m a : 0 < m < 2 ^ 64 -> New k m = Ok a -> domain a - m < 3 * m + 1.
Proof.
  intros Hm HN. destruct (decide (m = 1)) as [->|].
  - apply New_half in HN as (_ & _ & _ & _ & Hh). unfold domain. by rewrite Hh.
  - pose proof (domain_bound k m a ltac:(lia) HN). lia.
Qed.

Lemma Index_converges a c :
  wf a -> 0 <= c < n a -> domain a - n a < Z.of_nat maxCycleWalks ->
  exists z, Index a c = Ok z /\ 0 <= z < n a.
Proof.
  intros Hw Hc Hd. unfold Index. replace (n a <=? c) with false by lia. by apply walk_total.
Qed.

Lemma small_capacity_walks k m a :
  0 < m <= 334 -> New k m = Ok a -> domain a - n a < Z.of_nat maxCycleWalks.
Proof.
  intros Hm HN. destruct (decide (m = 1)) as [->|].
  - apply New_half in HN as (_ & -> & _ & _ & Hh). unfold domain. by rewrite Hh.
  - pose proof (domain_bound k m a ltac:(lia) HN) as Hb.
    apply New_half in HN as (_ & -> & _). change (Z.of_nat maxCycleWalks) with 1000. lia.
Qed.

(** Whenever every cursor has an index, the indices are a permutation of the
    positions of the list. *)
Lemma index_table_permutation a l :
  wf a -> Forall2 (fun c i => Index a c = Ok i) (seqZ 0 (n a)) l -> l ≡ₚ seqZ 0 (n a).
Proof.
  intros Hw Hl. pose proof (Forall2_length _ _ _ Hl) as Hlen.
  apply submseteq_length_Permutation; [|lia].
  apply NoDup_submseteq.
  - apply (Forall2_seqZ_NoDup _ _ _ Hl). intros c d k Hc Hd Hck Hdk.
    exact (Index_ok_inj a c d k Hw (proj1 Hc) (proj1 Hd) Hck Hdk).
  - intros v Hv. destruct (Forall2_seqZ_elem _ _ _ v Hl Hv) as (c & Hc & E).
    apply elem_of_seqZ. destruct (Index_ok_range a c v Hw (proj1 Hc) E). lia.
Qed.

(** ** Properties *)

(** Whatever the key, the Feistel network of an allocator built by [New]
    maps its padded domain [0, 2^(2*half)) onto itself one to one: [unpermute],
    the same rounds undone in reverse order, is its two-sided inverse. *)
Theorem permute_bijective (k : list Z) (m : Z) (a : Allocator) :
  0 <= m < 2 ^ 64 -> New k m = Ok a ->
  (forall x, inDomain a x -> inDomain a (permute a x) /\ unpermute a (permute a x) = x) /\
  (forall y, inDomain a y -> exists x, inDomain a x /\ permute a x = y).
Proof.
  intros Hm HN. pose proof (New_wf k m a Hm HN) as Hw. split.
  - intros x Hx. auto using permute_inDomain, unpermute_permute.
  - intros y Hy. exists (unpermute a y). split; [|by apply permute_unpermute].
    apply joined_inDomain; [done|].
    apply unfeistel_halves; [unfold wf in Hw; lia|]. by apply halves_of.
Qed.

(** C13: indices are collision free: two different cursors of one list never
    get the same index, and every index is inside the list. *)
Theorem Index_collision_free (k : list Z) (m : Z) (a : Allocator) (x y i j : Z) :
  0 <= m < 2 ^ 64 -> New k m = Ok a -> 0 <= x -> 0 <= y -> x <> y ->
  Index a x = Ok i -> Index a y = Ok j ->
  i <> j /\ 0 <= i < m /\ 0 <= j < m.
Proof.
  intros Hm HN Hx Hy Hxy Hi Hj. pose proof (New_wf k m a Hm HN) as Hw.
  apply New_half in HN as (_ & <- & _).
  split; [|split].
  - intros ->. apply Hxy. exact (Index_ok_inj a x y j Hw Hx Hy Hi Hj).
  - exact (proj2 (Index_ok_range a x i Hw Hx Hi)).
  - exact (proj2 (Index_ok_range a y j Hw Hy Hj)).
Qed.

(** For every capacity of at most 334 entries the bound of 1000 cycle walks
    is always enough, and the indices of the cursors 0, 1, ..., n-1 are a
    permutation of the positions 0, ..., n-1 of the list: allocating the whole
    list hands out every position exactly once. *)
Theorem Index_permutation (k : list Z) (m : Z) (a : Allocator) :
  0 < m <= 334 -> New k m = Ok a ->
  exists l, Forall2 (fun c i => Index a c = Ok i) (seqZ 0 m) l /\ l ≡ₚ seqZ 0 m.
Proof.
  intros Hm HN. pose proof (New_wf k m a ltac:(lia) HN) as Hw.
  pose proof (small_capacity_walks k m a Hm HN) as Hd.
  apply New_half in HN as (_ & <- & _).
  assert (exists l, Forall2 (fun c i => Index a c = Ok i) (seqZ 0 (n a)) l) as [l Hl].
  { apply Forall_exists_Forall2_l, Forall_forall. intros c Hc%elem_of_seqZ.
    destruct (Index_converges a c) as [z [Hz _]]; [done|lia|done|eauto]. }
  exists l. split; [done|]. by apply (index_table_permutation a).
Qed.

Lemma Index_permutation_witness :
  exists l, Forall2 (fun c i => Index (MkAllocator (replicate 32 7) 10 2) c = Ok i) (seqZ 0 10) l
            /\ l ≡ₚ seqZ 0 10.
Proof.
  apply (Index_permutation (replicate 32 7) 10); [lia|]. vm_compute. reflexivity.
Defined.

(** C14: cycle walking terminates, at every capacity and for every key. From
    each cursor there is a first iterate of the permutation that falls into the
    list, after at most three times the capacity plus one steps; and [Index]
    returns exactly it when the bound of 1000 walks lets it, and fails exactly
    when the whole run of 1000 iterates stays outside the list, which a capacity
    of up to 334 excludes. *)
Theorem cycle_walk_terminates (k : list Z) (m c : Z) (a : Allocator) :
  0 < m < 2 ^ 64 -> New k m = Ok a -> 0 <= c < m ->
  exists steps : nat,
    (1 <= steps)%nat /\ Z.of_nat steps <= 3 * m + 1 /\
    0 <= iterate a steps c < m /\ (forall j, (1 <= j < steps)%nat -> m <= iterate a j c) /\
    Index a c = (if (steps <=? maxCycleWalks)%nat then Ok (iterate a steps c)
                 else Err (ErrMsg "allocator: cycle walk did not converge")) /\
    (m <= 334 -> (steps <= maxCycleWalks)%nat).
Proof.
  intros Hm HN Hc. pose proof (New_wf k m a ltac:(lia) HN) as Hw.
  pose proof (domain_outside k m a Hm HN) as Hout.
  pose proof (small_capacity_walks k m a) as Hsmall.
  pose proof HN as (_ & Hn & _)%New_half. rewrite <- Hn in *.
  destruct (walk_total a c (Z.to_nat (3 * n a + 1)) Hw Hc) as (z & Hz & Hzr); [rewrite Z2Nat.id by lia; lia|].
  apply walk_ok in Hz as (s & Hs & -> & Hlt & Hfirst).
  exists s. split_and!; try done || lia.
  - unfold Index. replace (n a <=? c) with false by lia. apply walk_first; [lia|done|done].
  - intros Hm334. destruct (decide (s <= maxCycleWalks)%nat); [done|].
    specialize (Hsmall ltac:(lia) HN). pose proof (out_of_range_run a c maxCycleWalks Hw Hc) as Hr.
    assert (Z.of_nat maxCycleWalks <= domain a - n a); [|lia]. apply Hr. intros j Hj. apply Hfirst. lia.
Qed.

Lemma cycle_walk_terminates_witness :
  (exists z, Index (MkAllocator (replicate 32 7) 10 2) 3 = Ok z /\ 0 <= z < 10) /\
  (exists z, Index (MkAllocator (replicate 32 7) 1 1) 0 = Ok z /\ 0 <= z < 1).
Proof.
  split.
  - destruct (cycle_walk_terminates (replicate 32 7) 10 3 (MkAllocator (replicate 32 7) 10 2))
      as (s & _ & _ & Hz & _ & Hi & Hb); [lia|reflexivity|lia|].
    rewrite (proj2 (Nat.leb_le _ _) (Hb ltac:(lia))) in Hi. exact (ex_intro _ _ (conj Hi Hz)).
  - destruct (cycle_walk_terminates (replicate 32 7) 1 0 (MkAllocator (replicate 32 7) 1 1))
      as (s & _ & _ & Hz & _ & Hi & Hb); [lia|reflexivity|lia|].
    rewrite (proj2 (Nat.leb_le _ _) (Hb ltac:(lia))) in Hi. exact (ex_intro _ _ (conj Hi Hz)).
Defined.

(** The padding of the bit length to an even number can leave three
    quarters of the domain outside the list, not "roughly half" as the comment
    on [maxCycleWalks] says: a capacity of 4^p + 1 is walked in a domain of
    4 * 4^p values. *)
Theorem padded_domain_is_four_times (k : list Z) (p : Z) (a : Allocator) :
  0 <= p <= 31 -> New k (4 ^ p + 1) = Ok a -> domain a = 4 * (n a - 1).
Proof.
  intros Hp HN. apply New_half in HN as (_ & Hn & _ & _ & Hh).
  change 4 with (2 ^ 2) in *. rewrite <- Z.pow_mul_r in * by lia.
  assert (0 < 2 ^ (2 * p) <= 2 ^ 62).
  { split; [apply Z.pow_pos_nonneg; lia|apply Z.pow_le_mono_r; lia]. }
  rewrite Z.add_simpl_r, u64_small in Hh by lia. unfold Len64 in Hh.
  replace (2 ^ (2 * p) =? 0) with false in Hh by lia.
  rewrite Z.log2_pow2 in Hh by lia.
  assert (half a = p + 1) as Hha by (Z.div_mod_to_equations; lia).
  unfold domain. rewrite Hn, Hha, Z.add_simpl_r, <- Z.pow_add_r by lia. f_equal. lia.
Qed.

Lemma padded_domain_is_four_times_witness :
  domain (MkAllocator (replicate 32 7) (4 ^ 3 + 1) 4) = 4 * (4 ^ 3 + 1 - 1).
Proof.
  apply (padded_domain_is_four_times (replicate 32 7) 3); [lia|]. vm_compute. reflexivity.
Defined.

Lemma permute_bijective_witness :
  let a := MkAllocator (replicate 32 7) 10 2 in
  inDomain a (permute a 5) /\ unpermute a (permute a 5) = 5.
Proof.
  apply (permute_bijective (replicate 32 7) 10 (MkAllocator (replicate 32 7) 10 2));
    [lia|vm_compute; reflexivity|unfold inDomain, domain; simpl; lia].
Defined.

Lemma Index_collision_free_witness :
  let a := MkAllocator (replicate 32 7) 10 2 in
  exists i j, Index a 3 = Ok i /\ Index a 4 = Ok j /\ i <> j.
Proof.
  eexists _, _. split; [vm_compute; reflexivity|]. split; [vm_compute; reflexivity|].
  apply (Index_collision_free (replicate 32 7) 10 (MkAllocator (replicate 32 7) 10 2) 3 4);
    first [lia | vm_compute; reflexivity].
Defined.

End Allocator.
