(* ===== verification/Bitmap.v ===== *)
(** * internal/statuslist/bitmap.go: the packed status bitmap

    [Bitmap] is the struct of bitmap.go; [NewBitmap], [WrapBitmap],
    [ByteOffset], [Set] ([Set_] here) and [Get] are its functions, with Go's
    byte arithmetic written out. The abstract specification is the plain list
    of the entries' statuses ([statuses]); the refinement theorems show that
    the packed array implements it, and that the packing is the one of
    draft-ietf-oauth-status-list section 4.1 (the array read as one
    little-endian number). *)

From S2P Require Import Prelude.

Module Bitmap.

Definition StatusValid : Z := 0.
Definition StatusInvalid : Z := 1.
Definition StatusSuspended : Z := 2.

Definition ValidBitWidth (bits : Z) : bool :=
  (bits =? 1) || (bits =? 2) || (bits =? 4) || (bits =? 8).

Record Bitmap := MkBitmap {
  bits : Z;
  size : Z;
  data : list Z
}.

(** [(size*uint64(bits) + 7) / 8], in [uint64] arithmetic. *)
Definition nBytes (size bits : Z) : Z := u64 (u64 (size * u64 bits) + 7) / 8.

Definition NewBitmap (size bits : Z) : result Bitmap :=
  if negb (ValidBitWidth bits) then Err (ErrMsg "statuslist: invalid bit width")
  else if size =? 0 then Err (ErrMsg "statuslist: size must be > 0")
  else Ok (MkBitmap bits size (replicate (Z.to_nat (nBytes size bits)) 0)).

Definition WrapBitmap (data : list Z) (size bits : Z) : result Bitmap :=
  if negb (ValidBitWidth bits) then Err (ErrMsg "statuslist: invalid bit width")
  else if negb (Z.of_nat (length data) =? nBytes size bits) then
    Err (ErrMsg "statuslist: unexpected number of bytes")
  else Ok (MkBitmap bits size data).

Definition ByteOffset (idx bits : Z) : Z * Z :=
  (u64 (idx * u64 bits) / 8, u64 (idx * u64 bits) mod 8).

(** [byte(1<<uint(b.bits) - 1)]: the shift is done on a byte. *)
Definition fieldMask (bits : Z) : Z := u8 (u8 (Z.shiftl 1 bits) - 1).

(** [(d &^ (mask << off)) | (v << off)], in byte arithmetic. *)
Definition putField (d mask off v : Z) : Z :=
  Z.lor (Z.ldiff d (u8 (Z.shiftl mask off))) (u8 (Z.shiftl v off)).

Definition getField (d mask off : Z) : Z := Z.land (Z.shiftr d off) mask.

Definition Set_ (b : Bitmap) (idx status : Z) : result Bitmap :=
  if size b <=? idx then Err (ErrMsg "statuslist: index out of range")
  else
    let mask := fieldMask (bits b) in
    if mask <? status then Err (ErrMsg "statuslist: status does not fit")
    else
      let '(byteIndex, bitOffset) := ByteOffset idx (bits b) in
      match data b !! Z.to_nat byteIndex with
      | None => Err (Panic "index out of range")
      | Some d =>
          Ok (MkBitmap (bits b) (size b)
                (<[Z.to_nat byteIndex := putField d mask bitOffset status]> (data b)))
      end.

Definition Get (b : Bitmap) (idx : Z) : result Z :=
  if size b <=? idx then Err (ErrMsg "statuslist: index out of range")
  else
    let mask := fieldMask (bits b) in
    let '(byteIndex, bitOffset) := ByteOffset idx (bits b) in
    match data b !! Z.to_nat byteIndex with
    | None => Err (Panic "index out of range")
    | Some d => Ok (getField d mask bitOffset)
    end.

(** ** Well-formed bitmaps *)

(** Sizes for which [size*bits + 7] does not overflow: lists of fewer than
    2^60 entries. *)
Definition sizeOk (size : Z) : Prop := 0 <= size < 2 ^ 60.

Definition wf (b : Bitmap) : Prop :=
  ValidBitWidth (bits b) = true /\ sizeOk (size b) /\
  Z.of_nat (length (data b)) = nBytes (size b) (bits b) /\ bytes_ok (data b).

Lemma ValidBitWidth_cases b : ValidBitWidth b = true -> b = 1 \/ b = 2 \/ b = 4 \/ b = 8.
Proof. unfold ValidBitWidth. rewrite !orb_true_iff, !Z.eqb_eq. tauto. Qed.

(** Case analysis on the four legal widths. *)
Ltac widths H :=
  apply ValidBitWidth_cases in H;
  destruct H as [H|[H|[H|H]]]; rewrite ?H in *.

Lemma width_small s b :
  ValidBitWidth b = true -> sizeOk s -> u64 b = b /\ 0 <= s * b < 2 ^ 63.
Proof. unfold sizeOk. intros Hb Hs. widths Hb; (split; [done|lia]). Qed.

Lemma nBytes_eq s b : ValidBitWidth b = true -> sizeOk s -> nBytes s b = (s * b + 7) / 8.
Proof.
  unfold nBytes. intros Hb Hs. destruct (width_small s b Hb Hs) as [-> ?].
  by rewrite (u64_small (s * b)), u64_small by lia.
Qed.

Lemma ByteOffset_eq idx b :
  ValidBitWidth b = true -> sizeOk idx -> ByteOffset idx b = (idx * b / 8, idx * b mod 8).
Proof.
  unfold ByteOffset. intros Hb Hs. destruct (width_small idx b Hb Hs) as [-> ?].
  by rewrite (u64_small (idx * b)) by lia.
Qed.

Lemma fieldMask_eq b : ValidBitWidth b = true -> fieldMask b = Z.ones b.
Proof. intros Hb. widths Hb; reflexivity. Qed.

(** The byte a field lives in exists, and the field fits in it. *)
Lemma field_in_byte b idx :
  ValidBitWidth b = true -> 0 <= idx -> 0 <= idx * b mod 8 /\ idx * b mod 8 + b <= 8.
Proof. intros Hb Hi. widths Hb; Z.div_mod_to_equations; lia. Qed.

Lemma byte_in_data b s idx :
  ValidBitWidth b = true -> 0 <= idx < s -> 0 <= idx * b / 8 < (s * b + 7) / 8.
Proof. intros Hb Hi. widths Hb; Z.div_mod_to_equations; lia. Qed.

(** Two entries that share a byte have disjoint fields. *)
Lemma fields_disjoint b i j :
  ValidBitWidth b = true -> 0 <= i -> 0 <= j -> i <> j -> i * b / 8 = j * b / 8 ->
  i * b mod 8 + b <= j * b mod 8 \/ j * b mod 8 + b <= i * b mod 8.
Proof. intros Hb Hi Hj Hij He. widths Hb; Z.div_mod_to_equations; lia. Qed.

(** ** One byte *)

Lemma testbit_u8 z i : 0 <= i -> Z.testbit (u8 z) i = Z.testbit z i && (i <? 8).
Proof.
  intros Hi. unfold u8. rewrite <- Z.land_ones by lia. by autorewrite with bits.
Qed.

#[local] Hint Rewrite testbit_u8 using lia : bits.

(** Bits of a field written at [off]: the status inside the field, the old
    byte outside it. *)
Lemma testbit_putField d w off v i :
  0 <= off -> 0 <= w -> off + w <= 8 -> 0 <= v < 2 ^ w -> 0 <= i ->
  Z.testbit (putField d (Z.ones w) off v) i =
    if decide (off <= i < off + w) then Z.testbit v (i - off) else Z.testbit d i.
Proof.
  intros Ho Hw How Hv Hi. unfold putField. autorewrite with bits.
  destruct (decide (off <= i < off + w)) as [Hin|Hout].
  - rewrite Z.testbit_ones_nonneg by lia.
    replace (i <? 8) with true by lia. replace (i - off <? w) with true by lia.
    by rewrite andb_false_r, andb_true_r.
  - destruct (decide (i < off)) as [Hlt|].
    + rewrite !(Z.testbit_neg_r _ (i - off)) by lia. simpl. by rewrite andb_true_r, orb_false_r.
    + rewrite Z.testbit_ones_nonneg by lia. rewrite (testbit_above v w) by lia.
      replace (i - off <? w) with false by lia. simpl. by rewrite andb_true_r, orb_false_r.
Qed.

Lemma testbit_getField d w off i :
  0 <= off -> 0 <= w -> 0 <= i ->
  Z.testbit (getField d (Z.ones w) off) i = Z.testbit d (i + off) && (i <? w).
Proof. intros Ho Hw Hi. unfold getField. by autorewrite with bits. Qed.

Lemma getField_range d w off : 0 <= w -> 0 <= getField d (Z.ones w) off < 2 ^ w.
Proof. apply land_ones_range. Qed.

Lemma putField_range d w off v :
  0 <= off -> 0 <= w -> off + w <= 8 -> 0 <= v < 2 ^ w -> 0 <= d < 256 ->
  0 <= putField d (Z.ones w) off v < 256.
Proof.
  intros Ho Hw How Hv Hd.
  assert (0 <= putField d (Z.ones w) off v).
  { unfold putField. apply Z.lor_nonneg. split.
    - apply Z.ldiff_nonneg. lia.
    - apply u8_range. }
  split; [done|]. apply (range_of_bits _ 8); [done|lia|]. intros i Hi.
  rewrite testbit_putField by lia. rewrite decide_False by lia.
  by apply (testbit_above d 8).
Qed.

Lemma getField_putField_same d w off v :
  0 <= off -> 0 <= w -> off + w <= 8 -> 0 <= v < 2 ^ w ->
  getField (putField d (Z.ones w) off v) (Z.ones w) off = v.
Proof.
  intros Ho Hw How Hv. apply Z.bits_inj'. intros i Hi.
  rewrite testbit_getField, testbit_putField by lia.
  destruct (Z.ltb_spec i w).
  - rewrite decide_True by lia. rewrite andb_true_r. f_equal. lia.
  - rewrite andb_false_r. symmetry. by apply (testbit_above v w).
Qed.

Lemma getField_putField_other d w off off' v :
  0 <= off -> 0 <= off' -> 0 <= w -> off + w <= 8 -> 0 <= v < 2 ^ w ->
  off + w <= off' \/ off' + w <= off ->
  getField (putField d (Z.ones w) off v) (Z.ones w) off' = getField d (Z.ones w) off'.
Proof.
  intros Ho Ho' Hw How Hv Hd. apply Z.bits_inj'. intros i Hi.
  rewrite !testbit_getField, testbit_putField by lia.
  destruct (Z.ltb_spec i w).
  - by rewrite decide_False by lia.
  - by rewrite !andb_false_r.
Qed.

(** ** The abstract list of statuses *)

Definition entry (b : Bitmap) (i : Z) : Z :=
  getField (default 0 (data b !! Z.to_nat (i * bits b / 8))) (Z.ones (bits b)) (i * bits b mod 8).

Definition statuses (b : Bitmap) : list Z := entry b <$> seqZ 0 (size b).

Lemma lookup_statuses b i :
  0 <= i < size b -> statuses b !! Z.to_nat i = Some (entry b i).
Proof.
  intros Hi. unfold statuses. rewrite list_lookup_fmap, lookup_seqZ_lt by lia.
  simpl. do 2 f_equal. lia.
Qed.

Lemma length_statuses b : length (statuses b) = Z.to_nat (size b).
Proof. unfold statuses. by rewrite length_fmap, length_seqZ. Qed.

Lemma wf_byte b i :
  wf b -> 0 <= i < size b ->
  exists d, data b !! Z.to_nat (i * bits b / 8) = Some d /\ 0 <= d < 256.
Proof.
  intros (Hb & Hs & Hlen & Hok) Hi.
  pose proof (byte_in_data _ _ _ Hb Hi) as Hby.
  rewrite nBytes_eq in Hlen by done.
  destruct (lookup_lt_is_Some_2 (data b) (Z.to_nat (i * bits b / 8))) as [d Hd]; [lia|].
  exists d. split; [done|]. by eapply Forall_lookup_1 in Hok.
Qed.

Lemma wf_width b : wf b -> 1 <= bits b <= 8.
Proof. intros (Hb & _). widths Hb; lia. Qed.

Lemma Get_entry b i : wf b -> 0 <= i < size b -> Get b i = Ok (entry b i).
Proof.
  intros Hw Hi. destruct (wf_byte b i Hw Hi) as (d & Hd & _).
  destruct Hw as (Hb & Hs & _). unfold Get, entry.
  replace (size b <=? i) with false by lia.
  rewrite ByteOffset_eq, fieldMask_eq by (done || unfold sizeOk in *; lia).
  by rewrite Hd.
Qed.

Lemma Set_entry b i s :
  wf b -> 0 <= i < size b -> 0 <= s < 2 ^ bits b ->
  exists b', Set_ b i s = Ok b' /\ wf b' /\ bits b' = bits b /\ size b' = size b /\
    forall j, 0 <= j < size b -> entry b' j = if decide (j = i) then s else entry b j.
Proof.
  intros Hw Hi Hst. destruct (wf_byte b i Hw Hi) as (d & Hd & Hd256).
  pose proof (wf_width b Hw) as Hwid. destruct Hw as (Hb & Hs & Hlen & Hok).
  destruct (field_in_byte (bits b) i Hb ltac:(lia)) as [Ho How].
  unfold Set_. replace (size b <=? i) with false by lia.
  rewrite ByteOffset_eq, fieldMask_eq by (done || unfold sizeOk in *; lia).
  assert (Z.ones (bits b) = 2 ^ bits b - 1) as Hones by (rewrite Z.ones_equiv; lia).
  replace (Z.ones (bits b) <? s) with false by lia.
  rewrite Hd. eexists. split; [done|]. split.
  { split_and!; simpl; try done; [by rewrite length_insert|].
    apply Forall_insert; [done|]. apply putField_range; lia. }
  split_and!; try done. intros j Hj. unfold entry; simpl.
  pose proof (byte_in_data _ _ _ Hb Hj) as Hbj. pose proof (byte_in_data _ _ _ Hb Hi) as Hbi.
  destruct (decide (j = i)) as [->|Hne].
  { rewrite list_lookup_insert_eq by (apply lookup_lt_Some in Hd; lia). simpl.
    apply getField_putField_same; lia. }
  destruct (decide (j * bits b / 8 = i * bits b / 8)) as [He|He].
  - rewrite He, list_lookup_insert_eq, Hd by (apply lookup_lt_Some in Hd; lia). simpl.
    destruct (field_in_byte (bits b) j Hb ltac:(lia)) as [Ho' How'].
    apply getField_putField_other; try lia.
    destruct (fields_disjoint (bits b) i j Hb); lia.
  - by rewrite list_lookup_insert_ne by lia.
Qed.

Lemma statuses_ext b b' i s :
  0 <= i < size b -> size b' = size b ->
  (forall j, 0 <= j < size b -> entry b' j = if decide (j = i) then s else entry b j) ->
  statuses b' = <[Z.to_nat i := s]> (statuses b).
Proof.
  intros Hi Hsz He. apply list_eq. intros k.
  destruct (decide (k < Z.to_nat (size b))%nat) as [Hk|Hk].
  - replace k with (Z.to_nat (Z.of_nat k)) by lia.
    rewrite lookup_statuses, He by lia. destruct (decide (Z.of_nat k = i)) as [<-|Hne].
    + rewrite list_lookup_insert_eq; [done|]. rewrite length_statuses. lia.
    + rewrite list_lookup_insert_ne by lia. by rewrite lookup_statuses by lia.
  - rewrite !lookup_ge_None_2; [done|..]; rewrite ?length_insert, length_statuses; lia.
Qed.

Lemma NewBitmap_wf s w b :
  NewBitmap s w = Ok b -> sizeOk s ->
  wf b /\ bits b = w /\ size b = s /\ data b = replicate (Z.to_nat (nBytes s w)) 0.
Proof.
  unfold NewBitmap. destruct (ValidBitWidth w) eqn:Hw; [|done]. cbn [negb].
  destruct (Z.eqb_spec s 0); [done|]. intros [= <-] Hs. split; [|done].
  split_and!; simpl; try done.
  - rewrite length_replicate, Z2Nat.id; [done|]. rewrite nBytes_eq by done.
    pose proof (byte_in_data w s 0 Hw). unfold sizeOk in Hs. lia.
  - by apply Forall_replicate.
Qed.

Lemma WrapBitmap_wf d s w b :
  WrapBitmap d s w = Ok b -> sizeOk s -> bytes_ok d -> wf b /\ bits b = w /\ size b = s /\ data b = d.
Proof.
  unfold WrapBitmap. destruct (ValidBitWidth w) eqn:Hw; [|done]. cbn [negb].
  destruct (Z.eqb_spec (Z.of_nat (length d)) (nBytes s w)); [|done]. cbn [negb].
  intros [= <-] Hs Hd. by split_and!.
Qed.

(** ** The draft's layout

    The array read as one little-endian number: entry [i] is the [bits]-wide
    digit at bit [i*bits]. *)

Definition leNumber (l : list Z) : Z := foldr (fun d acc => Z.lor d (Z.shiftl acc 8)) 0 l.

Definition specEntry (b : Bitmap) (i : Z) : Z :=
  Z.shiftr (leNumber (data b)) (i * bits b) mod 2 ^ bits b.

Lemma testbit_leNumber l k :
  bytes_ok l -> 0 <= k -> Z.testbit (leNumber l) k = Z.testbit (default 0 (l !! Z.to_nat (k / 8))) (k mod 8).
Proof.
  intros Hl. revert k. induction Hl as [|d l Hd Hl IH]; intros k Hk; simpl.
  - by rewrite !Z.testbit_0_l.
  - autorewrite with bits. destruct (decide (k < 8)) as [Hlt|Hge].
    + rewrite (Z.testbit_neg_r _ (k - 8)) by lia. rewrite orb_false_r.
      rewrite Z.div_small, Z.mod_small by lia. done.
    + rewrite IH by lia. rewrite (testbit_above d 8) by lia. simpl.
      replace (k mod 8) with ((k - 8) mod 8) by (Z.div_mod_to_equations; lia).
      replace (Z.to_nat (k / 8)) with (S (Z.to_nat ((k - 8) / 8))); [done|].
      Z.div_mod_to_equations; lia.
Qed.

Lemma entry_specEntry b i : wf b -> 0 <= i < size b -> entry b i = specEntry b i.
Proof.
  intros Hw Hi. pose proof (wf_width b Hw) as Hwid. destruct Hw as (Hb & Hs & Hlen & Hok).
  destruct (field_in_byte (bits b) i Hb ltac:(lia)) as [Ho How].
  unfold entry, specEntry. rewrite <- Z.land_ones by lia.
  apply Z.bits_inj'. intros k Hk. rewrite testbit_getField by lia. autorewrite with bits.
  destruct (Z.ltb_spec k (bits b)); [|by rewrite !andb_false_r]. rewrite !andb_true_r.
  rewrite testbit_leNumber by (done || lia).
  assert ((k + i * bits b) / 8 = i * bits b / 8 /\
          (k + i * bits b) mod 8 = k + i * bits b mod 8) as [-> ->]; [|done].
  widths Hb; Z.div_mod_to_equations; lia.
Qed.

(** ** Properties *)

(** C15: [Set] implements update of the abstract list of statuses on every
    branch: an index inside the list and a status that fits the width update
    exactly that entry and keep the bitmap well formed; anything else is an
    error that changes nothing, and the byte access never goes out of range. *)
Theorem Set_refines (b : Bitmap) (idx s : Z) :
  wf b -> 0 <= idx -> 0 <= s ->
  match Set_ b idx s with
  | Ok b' => idx < size b /\ s < 2 ^ bits b /\ wf b' /\
             bits b' = bits b /\ size b' = size b /\
             statuses b' = <[Z.to_nat idx := s]> (statuses b)
  | Err (ErrMsg _) => size b <= idx \/ 2 ^ bits b <= s
  | Err _ => False
  end.
Proof.
  intros Hw Hi Hst. pose proof (wf_width b Hw). destruct (Z.ltb_spec idx (size b)) as [Hlt|Hge].
  2: { unfold Set_. replace (size b <=? idx) with true by lia. by left. }
  destruct (Z.ltb_spec s (2 ^ bits b)) as [Hfit|Hbig].
  - destruct (Set_entry b idx s Hw ltac:(lia) ltac:(lia)) as (b' & -> & Hw' & Hb & Hsz & He).
    split_and!; try done. apply statuses_ext; auto with go.
  - unfold Set_. replace (size b <=? idx) with false by lia.
    rewrite fieldMask_eq by apply Hw.
    assert (Z.ones (bits b) = 2 ^ bits b - 1) as Hones by (rewrite Z.ones_equiv; lia).
    replace (Z.ones (bits b) <? s) with true by lia. by right.
Qed.

(** The bitmap of the draft's second worked example: 12 entries of 2 bits. *)
Definition draftExample : Bitmap := MkBitmap 2 12 [0xC9; 0x44; 0xF9].

Lemma draftExample_wf : wf draftExample.
Proof.
  split_and!; [reflexivity|unfold sizeOk; simpl; lia|vm_compute; reflexivity|].
  apply (bool_decide_unpack _). vm_compute. exact I.
Qed.

Lemma Set_refines_witness :
  match Set_ draftExample 2 3 with
  | Ok b' => statuses b' = [1; 2; 3; 3; 0; 1; 0; 1; 1; 2; 3; 3]
  | Err _ => False
  end.
Proof.
  pose proof (Set_refines draftExample 2 3 draftExample_wf ltac:(lia) ltac:(lia)) as H.
  destruct (Set_ draftExample 2 3) as [b'|e] eqn:E; [|vm_compute in E; discriminate].
  destruct H as (_ & _ & _ & _ & _ & H). rewrite H. vm_compute. reflexivity.
Defined.

(** [Get] reads the abstract list: the status at an index inside the list,
    an error outside it, and never a panic; a status read always fits the
    width. *)
Theorem Get_refines (b : Bitmap) (idx : Z) :
  wf b -> 0 <= idx ->
  match Get b idx with
  | Ok s => statuses b !! Z.to_nat idx = Some s /\ 0 <= s < 2 ^ bits b
  | Err (ErrMsg _) => statuses b !! Z.to_nat idx = None
  | Err _ => False
  end.
Proof.
  intros Hw Hi. pose proof (wf_width b Hw). destruct (Z.ltb_spec idx (size b)) as [Hlt|Hge].
  - rewrite Get_entry by (done || lia). rewrite lookup_statuses by lia.
    split; [done|]. apply getField_range. lia.
  - unfold Get. replace (size b <=? idx) with true by lia.
    apply lookup_ge_None_2. rewrite length_statuses. lia.
Qed.

Lemma Get_refines_witness : Get draftExample 3 = Ok 3 /\ statuses draftExample !! 3%nat = Some 3.
Proof.
  pose proof (Get_refines draftExample 3 draftExample_wf ltac:(lia)) as H.
  destruct (Get draftExample 3) as [s|e] eqn:E; vm_compute in E; [|discriminate].
  injection E as <-. split; [reflexivity|apply H].
Defined.

(** The packing is the one of draft-ietf-oauth-status-list section 4.1: the
    entry [Get] returns is the [bits]-wide digit at bit position [idx*bits] of
    the byte array read as a little-endian number. *)
Theorem Get_draft_layout (b : Bitmap) (idx : Z) :
  wf b -> 0 <= idx < size b -> Get b idx = Ok (specEntry b idx).
Proof. intros Hw Hi. by rewrite Get_entry, entry_specEntry. Qed.

Lemma Get_draft_layout_witness : Get draftExample 11 = Ok (specEntry draftExample 11).
Proof. apply (Get_draft_layout draftExample 11 draftExample_wf). simpl. lia. Defined.

(** A fresh bitmap has every entry VALID: allocation is metadata only. *)
Theorem NewBitmap_all_valid (s w : Z) (b : Bitmap) :
  sizeOk s -> NewBitmap s w = Ok b ->
  wf b /\ statuses b = replicate (Z.to_nat s) StatusValid.
Proof.
  intros Hs HN. pose proof (NewBitmap_wf s w b HN Hs) as (Hw & Hb & Hsz & Hd). split; [done|].
  apply list_eq. intros k. destruct (decide (k < Z.to_nat s)%nat) as [Hk|Hk].
  - replace k with (Z.to_nat (Z.of_nat k)) at 1 by lia. rewrite lookup_statuses by lia.
    rewrite lookup_replicate_2 by lia. f_equal. unfold entry. rewrite Hd.
    match goal with |- getField (default 0 ?o) _ _ = _ => assert (default 0 o = 0) as -> end.
    { destruct (_ !! _) eqn:E; [|done]. by apply lookup_replicate in E as [-> _]. }
    unfold getField. by rewrite Z.shiftr_0_l.
  - rewrite !lookup_ge_None_2; [done|..]; rewrite ?length_replicate, ?length_statuses; lia.
Qed.

Lemma NewBitmap_all_valid_witness :
  match NewBitmap 5 2 with Ok b => statuses b = [0; 0; 0; 0; 0] | Err _ => False end.
Proof.
  destruct (NewBitmap 5 2) as [b|e] eqn:E; [|vm_compute in E; discriminate].
  apply (NewBitmap_all_valid 5 2 b); [unfold sizeOk; lia|done].
Defined.

(** The bitmaps that programs make, with sizes, indices and statuses of the
    types that Go gives them: new ones, ones over bytes they were given, and
    those they become by writes that succeed. *)
Inductive built : Bitmap -> Prop :=
| built_new s w b : 0 <= s < 2 ^ 64 -> NewBitmap s w = Ok b -> built b
| built_wrap d s w b : bytes_ok d -> 0 <= s < 2 ^ 64 -> WrapBitmap d s w = Ok b -> built b
| built_set b idx st b' :
    built b -> 0 <= idx < 2 ^ 64 -> 0 <= st < 256 -> Set_ b idx st = Ok b' -> built b'.

(** What holds of all of them, with the wrap-around in the number of bytes. *)
Definition typed (b : Bitmap) : Prop :=
  ValidBitWidth (bits b) = true /\ 0 <= size b < 2 ^ 64 /\
  Z.of_nat (length (data b)) = nBytes (size b) (bits b) /\ bytes_ok (data b).

Lemma nBytes_wrap s b : ValidBitWidth b = true -> nBytes s b = (s * b + 7) mod 2 ^ 64 / 8.
Proof.
  intros Hb. unfold nBytes, u64. rewrite Zplus_mod_idemp_l.
  replace (b mod 2 ^ 64) with b; [done|]. by widths Hb.
Qed.

Lemma ByteOffset_wrap idx b :
  ValidBitWidth b = true -> 0 <= idx ->
  ByteOffset idx b = ((idx * b) mod 2 ^ 64 / 8, idx * b mod 8).
Proof.
  intros Hb Hi. unfold ByteOffset, u64. replace (b mod 2 ^ 64) with b by (by widths Hb). f_equal.
  Z.div_mod_to_equations. lia.
Qed.

(** The field of an entry lies inside one byte, whose index may have wrapped. *)
Lemma Get_byte b idx :
  typed b -> 0 <= idx < size b ->
  Get b idx = match data b !! Z.to_nat ((idx * bits b) mod 2 ^ 64 / 8) with
              | Some d => Ok (getField d (Z.ones (bits b)) (idx * bits b mod 8))
              | None => Err (Panic "index out of range")
              end.
Proof.
  intros (Hb & _) Hi. unfold Get. replace (size b <=? idx) with false by lia.
  by rewrite fieldMask_eq, ByteOffset_wrap by (done || lia).
Qed.

Lemma Set_byte b idx st :
  typed b -> 0 <= idx < size b -> 0 <= st < 2 ^ bits b ->
  Set_ b idx st =
    let k := Z.to_nat ((idx * bits b) mod 2 ^ 64 / 8) in
    match data b !! k with
    | Some d => Ok (MkBitmap (bits b) (size b)
                     (<[k := putField d (Z.ones (bits b)) (idx * bits b mod 8) st]> (data b)))
    | None => Err (Panic "index out of range")
    end.
Proof.
  intros (Hb & _) Hi Hst. unfold Set_. replace (size b <=? idx) with false by lia.
  rewrite fieldMask_eq, ByteOffset_wrap by (done || lia).
  assert (Z.ones (bits b) = 2 ^ bits b - 1) as Hones by (rewrite Z.ones_equiv; lia).
  by replace (Z.ones (bits b) <? st) with false by lia.
Qed.

Lemma Set_guard b idx st :
  ValidBitWidth (bits b) = true -> size b <= idx \/ 2 ^ bits b <= st -> exists msg, Set_ b idx st = Err (ErrMsg msg).
Proof.
  intros Hb Hg. unfold Set_. destruct (Z.leb_spec (size b) idx); [by eexists|].
  assert (Z.ones (bits b) = 2 ^ bits b - 1) as Hones by (rewrite Z.ones_equiv; lia).
  rewrite fieldMask_eq by done. replace (Z.ones (bits b) <? st) with true by lia. by eexists.
Qed.

Lemma built_typed b : built b -> typed b.
Proof.
  induction 1 as [s w b Hs Hn|d s w b Hd Hs Hn|b idx st b' _ IH Hi Hst Hset].
  - unfold NewBitmap in Hn. destruct (ValidBitWidth w) eqn:Hw; [|done]. cbn [negb] in Hn.
    destruct (s =? 0); [done|]. injection Hn as <-. split_and!; cbn; try done || lia.
    + rewrite length_replicate, Z2Nat.id; [done|]. rewrite nBytes_wrap by done.
      Z.div_mod_to_equations. lia.
    + by apply Forall_replicate.
  - unfold WrapBitmap in Hn. destruct (ValidBitWidth w) eqn:Hw; [|done]. cbn [negb] in Hn.
    destruct (Z.eqb_spec (Z.of_nat (length d)) (nBytes s w)); [|done]. injection Hn as <-.
    split_and!; cbn; done || lia.
  - pose proof IH as (Hb & Hs & Hlen & Hok).
    destruct (decide (idx < size b /\ st < 2 ^ bits b)) as [[Hlt Hfit]|Hno].
    + rewrite Set_byte in Hset by (done || lia). cbn zeta in Hset.
      destruct (data b !! _) as [d|] eqn:Hd; [|done]. injection Hset as <-.
      pose proof (Forall_lookup_1 _ _ _ _ Hok Hd) as Hd256. cbn in Hd256.
      destruct (field_in_byte (bits b) idx Hb ltac:(lia)).
      split_and!; cbn; try done || lia; [by rewrite length_insert|].
      apply Forall_insert; [done|]. apply putField_range; try lia. widths Hb; lia.
    + destruct (Set_guard b idx st Hb ltac:(lia)) as [msg Hm]. congruence.
Qed.

(** The last byte that 64-bit offsets reach is past the end of every array
    whose length wrapped. *)
Lemma wrapped_out_of_reach b :
  typed b -> 2 ^ 64 <= size b * bits b + 7 ->
  exists idx, 0 <= idx < size b /\ Get b idx = Err (Panic "index out of range").
Proof.
  intros Ht Hbig. pose proof Ht as (Hb & Hs & Hlen & _). rewrite nBytes_wrap in Hlen by done.
  assert (exists idx, 0 <= idx < size b /\ Z.of_nat (length (data b)) <= (idx * bits b) mod 2 ^ 64 / 8)
    as (idx & Hi & Hout).
  { exists (if (length (data b) =? 0)%nat then 0 else 2 ^ 64 / bits b - 1).
    destruct (Nat.eqb_spec (length (data b)) 0) as [Hz|Hz]; [|].
    - rewrite Hz. widths Hb; (split; [lia|done]).
    - widths Hb; (split; [Z.div_mod_to_equations; lia|]);
        match goal with |- _ <= ?r => replace r with (2 ^ 61 - 1) by reflexivity end;
        Z.div_mod_to_equations; lia. }
  exists idx. split; [done|]. rewrite Get_byte by done. rewrite lookup_ge_None_2; [done|lia].
Qed.

Lemma unwrapped_in_reach b idx :
  typed b -> size b * bits b + 7 < 2 ^ 64 -> 0 <= idx < size b ->
  is_Some (data b !! Z.to_nat ((idx * bits b) mod 2 ^ 64 / 8)).
Proof.
  intros (Hb & Hs & Hlen & _) Hfit Hi. apply lookup_lt_is_Some_2.
  rewrite nBytes_wrap, (Z.mod_small (size b * bits b + 7)) in Hlen by (done || widths Hb; lia).
  pose proof (byte_in_data _ _ _ Hb Hi).
  rewrite Z.mod_small by (widths Hb; lia). lia.
Qed.

(** C40: how far bitmaps are well typed. Whatever a program does with a bitmap,
    for every 64-bit size, its width is one of the four, its array holds bytes
    and has the length that bitmap.go computes, in which [size*bits + 7] wraps
    at 2^64; a read that succeeds is of an entry of the list and gives a status
    of its width. As long as that product does not wrap, every entry reads, and
    neither a read nor a write, of any index and any status, goes outside the
    array. When it wraps, the constructors have accepted a bitmap whose array is
    too short: some entry of it panics when it is read. *)
Theorem bitmap_typed (b : Bitmap) :
  built b ->
  bits b ∈ [1; 2; 4; 8] /\ 0 <= size b < 2 ^ 64 /\ bytes_ok (data b) /\
  Z.of_nat (length (data b)) = (size b * bits b + 7) mod 2 ^ 64 / 8 /\
  (forall idx st, 0 <= idx -> Get b idx = Ok st -> idx < size b /\ 0 <= st < 2 ^ bits b) /\
  (size b * bits b + 7 < 2 ^ 64 ->
     (forall idx, 0 <= idx < size b -> exists st, Get b idx = Ok st) /\
     (forall idx st msg, 0 <= idx -> 0 <= st ->
        Get b idx <> Err (Panic msg) /\ Set_ b idx st <> Err (Panic msg))) /\
  (2 ^ 64 <= size b * bits b + 7 ->
     exists idx msg, 0 <= idx < size b /\ Get b idx = Err (Panic msg)).
Proof.
  intros Ht%built_typed. pose proof Ht as (Hb & Hs & Hlen & Hok).
  assert (0 <= bits b) by (widths Hb; lia).
  assert (forall idx, size b <= idx -> Get b idx = Err (ErrMsg "statuslist: index out of range")) as Hpast.
  { intros idx Hi. unfold Get. by replace (size b <=? idx) with true by lia. }
  split_and!; try done || lia.
  - apply ValidBitWidth_cases in Hb. rewrite !elem_of_cons; tauto.
  - by rewrite <- nBytes_wrap.
  - intros idx st Hi Hg. destruct (Z.ltb_spec idx (size b)); [|by rewrite Hpast in Hg].
    split; [done|]. rewrite Get_byte in Hg by done. destruct (data b !! _); [|done].
    injection Hg as <-. by apply getField_range.
  - intros Hfit. split.
    + intros idx Hi. rewrite Get_byte by done.
      destruct (unwrapped_in_reach b idx Ht Hfit Hi) as [d ->]. by eexists.
    + intros idx st msg Hi Hst. destruct (Z.ltb_spec idx (size b)) as [Hlt|Hge].
      2: { rewrite Hpast by done. by destruct (Set_guard b idx st Hb ltac:(lia)) as [m ->]. }
      destruct (unwrapped_in_reach b idx Ht Hfit ltac:(lia)) as [d Hd].
      rewrite Get_byte, Hd by done. split; [done|].
      destruct (Z.ltb_spec st (2 ^ bits b)) as [Hf|Hf].
      * rewrite Set_byte by done. cbn zeta. by rewrite Hd.
      * by destruct (Set_guard b idx st Hb ltac:(lia)) as [m ->].
  - intros Hbig. destruct (wrapped_out_of_reach b Ht Hbig) as (idx & Hi & Hg). by exists idx, "index out of range".
Qed.

(** A list of twelve entries, and one of 2^61 entries of eight bits, for which
    no byte is allocated. *)
Lemma bitmap_typed_witness :
  (exists b, NewBitmap 12 2 = Ok b /\ exists st, Get b 11 = Ok st) /\
  (exists b, NewBitmap (2 ^ 61) 8 = Ok b /\ length (data b) = 0%nat /\
     exists idx msg, 0 <= idx < 2 ^ 61 /\ Get b idx = Err (Panic msg)).
Proof.
  split.
  - destruct (NewBitmap 12 2) as [b|e] eqn:E; [|discriminate E]. exists b. split; [reflexivity|].
    destruct (bitmap_typed b (built_new 12 2 b ltac:(lia) E)) as (_ & _ & _ & _ & _ & Hg & _).
    injection E as <-. apply Hg; cbn; lia.
  - destruct (NewBitmap (2 ^ 61) 8) as [b|e] eqn:E; [|discriminate E]. exists b. split; [reflexivity|].
    destruct (bitmap_typed b (built_new (2 ^ 61) 8 b ltac:(lia) E)) as (_ & _ & _ & _ & _ & _ & Hg).
    injection E as <-. split; [reflexivity|]. apply Hg. cbn. lia.
Defined.

End Bitmap.
