(* ===== verification/GoStrings.v ===== *)
(** * What the sources use of Go's strings, strconv, encoding/hex and time

    Go strings are byte sequences, and so is [string]. The functions are the
    library's restricted to the separators, bases and bit sizes the sources
    pass; [ParseDuration] follows time.ParseDuration with its integer
    arithmetic. The lemmas are the ones the clients' round trips need. *)

From Stdlib Require Import Ascii.
From stdpp Require Import pretty.
From S2P Require Import Prelude.

Module GoStrings.

(** ** strings *)

(** [strings.Index]: the first position, or -1. *)
Definition Index (s sep : string) : Z :=
  match String.index 0 sep s with Some n => Z.of_nat n | None => -1 end.

Definition Contains (s sep : string) : bool := 0 <=? Index s sep.

Definition len (s : string) : Z := Z.of_nat (String.length s).

(** [s[:i]] and [s[i:]]. *)
Definition sliceTo (s : string) (i : nat) : string := String.substring 0 i s.

Definition sliceFrom (s : string) (i : nat) : string :=
  String.substring i (String.length s - i) s.

(** [strings.Split] at one character. *)
Fixpoint Split (s : string) (sep : ascii) : list string :=
  match s with
  | EmptyString => [""]
  | String c rest =>
      if bool_decide (c = sep) then "" :: Split rest sep
      else match Split rest sep with
           | [] => [String c ""]
           | h :: t => String c h :: t
           end
  end.

(** [strings.CutPrefix]. *)
Fixpoint CutPrefix (s prefix : string) : string * bool :=
  match prefix, s with
  | EmptyString, _ => (s, true)
  | String p prefix', String c s' =>
      if bool_decide (c = p) then
        match CutPrefix s' prefix' with
        | (rest, true) => (rest, true)
        | (_, false) => (s, false)
        end
      else (s, false)
  | String _ _, EmptyString => (s, false)
  end.

(** [strings.ReplaceAll] of one character. *)
Fixpoint ReplaceAll (s : string) (old : ascii) (new : string) : string :=
  match s with
  | EmptyString => ""
  | String c rest =>
      if bool_decide (c = old) then new +:+ ReplaceAll rest old new
      else String c (ReplaceAll rest old new)
  end.

(** Text with quotes, which is written with backticks in this development. *)
Definition backquote : ascii := "`".
Definition dquote : ascii := "034".

Definition q (text : string) : string := ReplaceAll text backquote (String dquote "").

(** [strings.ToLower] of ASCII text. *)
Fixpoint ToLower (s : string) : string :=
  match s with
  | EmptyString => ""
  | String c rest =>
      let n := N_of_ascii c in
      String (if ((65 <=? n) && (n <=? 90))%N then ascii_of_N (n + 32) else c) (ToLower rest)
  end.

(** [strings.Join]. *)
Fixpoint Join (l : list string) (sep : string) : string :=
  match l with
  | [] => ""
  | [s] => s
  | s :: l => s +:+ sep +:+ Join l sep
  end.

(** [strings.Trim] of one character, on both sides. *)
Fixpoint TrimLeft (s : string) (cut : ascii) : string :=
  match s with
  | String c rest => if bool_decide (c = cut) then TrimLeft rest cut else s
  | EmptyString => s
  end.

Fixpoint TrimRight (s : string) (cut : ascii) : string :=
  match s with
  | String c rest =>
      match TrimRight rest cut with
      | EmptyString => if bool_decide (c = cut) then "" else String c ""
      | rest' => String c rest'
      end
  | EmptyString => ""
  end.

Definition Trim (s : string) (cut : ascii) : string := TrimRight (TrimLeft s cut) cut.

(** [[]byte(s)] and [string(b)]. *)
Fixpoint bytesOf (s : string) : list Z :=
  match s with
  | EmptyString => []
  | String c rest => Z.of_N (N_of_ascii c) :: bytesOf rest
  end.

Fixpoint stringOf (bs : list Z) : string :=
  match bs with
  | [] => ""
  | b :: rest => String (ascii_of_N (Z.to_N b)) (stringOf rest)
  end.

(** [strings.TrimSpace]: the encodings of the runes of [unicode.IsSpace], one
    of which is taken off either end while there is one. *)
Definition spaces : list (list Z) :=
  [[9]; [10]; [11]; [12]; [13]; [32]; [194; 133]; [194; 160]; [225; 154; 128]; [226; 128; 168];
   [226; 128; 169]; [226; 128; 175]; [226; 129; 159]; [227; 128; 128]] ++
  ((fun b => [226; 128; b]) <$> [128; 129; 130; 131; 132; 133; 134; 135; 136; 137; 138]).

Fixpoint cutSpaces (ss : list (list Z)) (fuel : nat) (b : list Z) : list Z :=
  match fuel with
  | O => b
  | S fuel =>
      match list_find (fun s => take (length s) b = s) ss with
      | Some (_, s) => cutSpaces ss fuel (drop (length s) b)
      | None => b
      end
  end.

Definition TrimSpace (s : string) : string :=
  let left := cutSpaces spaces (String.length s) (bytesOf s) in
  stringOf (reverse (cutSpaces (reverse <$> spaces) (length left) (reverse left))).

(** [strconv.FormatInt(n, 10)]. *)
Definition FormatInt (n : Z) : string := pretty n.

(** ** encoding/hex *)

Definition hexDigit (d : Z) : ascii :=
  ascii_of_N (Z.to_N (if d <? 10 then 48 + d else 87 + d)).

Fixpoint EncodeToString (bs : list Z) : string :=
  match bs with
  | [] => ""
  | b :: bs => String (hexDigit (Z.shiftr b 4)) (String (hexDigit (Z.land b 15)) (EncodeToString bs))
  end.

(** ** strconv *)

Definition digit (c : ascii) : option Z :=
  let n := Z.of_N (N_of_ascii c) in
  if (48 <=? n) && (n <=? 57) then Some (n - 48) else None.

Definition ErrSyntax : error := ErrMsg "invalid syntax".

Definition ErrRange : error := ErrMsg "value out of range".

(** The loop of ParseUint(s, 10, 64). *)
Fixpoint parseUintLoop (s : string) (n : Z) : result Z :=
  match s with
  | EmptyString => Ok n
  | String c rest =>
      match digit c with
      | None => Err ErrSyntax
      | Some d => if 2 ^ 64 <=? 10 * n + d then Err ErrRange else parseUintLoop rest (10 * n + d)
      end
  end.

Definition ParseUint (s : string) : result Z :=
  match s with EmptyString => Err ErrSyntax | _ => parseUintLoop s 0 end.

Lemma ParseUint_range s n : ParseUint s = Ok n -> 0 <= n < 2 ^ 64.
Proof.
  assert (forall s a, 0 <= a < 2 ^ 64 -> parseUintLoop s a = Ok n -> 0 <= n < 2 ^ 64) as Hloop.
  { clear s. induction s as [|c s IH]; intros a Ha; simpl; [by intros [= <-]|].
    unfold digit. destruct (_ && _) eqn:Hd; [|done].
    destruct (Z.leb_spec (2 ^ 64) (10 * a + (Z.of_N (N_of_ascii c) - 48))); [done|].
    apply IH. apply andb_true_iff in Hd as [?%Z.leb_le ?]. lia. }
  unfold ParseUint. destruct s; [done|]. apply Hloop. lia.
Qed.

(** ParseInt(s, 10, 64), and so Atoi on a 64-bit platform. *)
Definition ParseInt (s : string) : result Z :=
  let '(neg, digits) :=
    match s with
    | String "+" rest => (false, rest)
    | String "-" rest => (true, rest)
    | _ => (false, s)
    end in
  match ParseUint digits with
  | Err e => Err e
  | Ok un =>
      if negb neg && (2 ^ 63 <=? un) then Err ErrRange
      else if neg && (2 ^ 63 <? un) then Err ErrRange
      else Ok (if neg then - un else un)
  end.

(** ** time.ParseDuration *)

Definition errDuration : error := ErrMsg "time: invalid duration".

(** [leadingInt]: the digits at the front; [None] past 2^63. *)
Fixpoint leadingInt (s : string) (x : Z) : option (Z * string) :=
  match s with
  | String c rest =>
      match digit c with
      | None => Some (x, s)
      | Some d =>
          if 2 ^ 63 / 10 <? x then None
          else if 2 ^ 63 <? 10 * x + d then None
          else leadingInt rest (10 * x + d)
      end
  | EmptyString => Some (x, s)
  end.

(** [leadingFraction]: the digits after the point and their scale; digits past
    the precision of int64 are dropped. *)
Fixpoint leadingFraction (s : string) (x scale : Z) (overflow : bool) : Z * Z * string :=
  match s with
  | String c rest =>
      match digit c with
      | None => (x, scale, s)
      | Some d =>
          if overflow then leadingFraction rest x scale true
          else if (2 ^ 63 - 1) / 10 <? x then leadingFraction rest x scale true
          else if 2 ^ 63 <? 10 * x + d then leadingFraction rest x scale true
          else leadingFraction rest (10 * x + d) (10 * scale) false
      end
  | EmptyString => (x, scale, s)
  end.

(** The unit: everything up to a digit or a point. *)
Fixpoint unitPrefix (s : string) : string * string :=
  match s with
  | String c rest =>
      if bool_decide (c = "."%char) || bool_decide (is_Some (digit c)) then ("", s)
      else let '(u, r) := unitPrefix rest in (String c u, r)
  | EmptyString => ("", "")
  end.

Definition unitMap (u : string) : option Z :=
  if bool_decide (u = "ns") then Some 1
  else if bool_decide (u = "us") then Some 1000
  else if bool_decide (u = String "194" (String "181" "s")) then Some 1000 (* U+00B5 *)
  else if bool_decide (u = String "206" (String "188" "s")) then Some 1000 (* U+03BC *)
  else if bool_decide (u = "ms") then Some 1000000
  else if bool_decide (u = "s") then Some second
  else if bool_decide (u = "m") then Some minute
  else if bool_decide (u = "h") then Some hour
  else None.

(** The loop over the components, one for each unit; the float computation of
    the fractional part, [v += uint64(float64(f) * (float64(unit) / scale))],
    is exact here, so a fraction of more than 15 digits may differ in its last
    nanosecond. Fuel: every component consumes a character. *)
Fixpoint durationLoop (fuel : nat) (s : string) (d : Z) : result Z :=
  match s with
  | EmptyString => Ok d
  | String c0 _ =>
      match fuel with
      | O => Err errDuration
      | S fuel =>
          if negb (bool_decide (c0 = "."%char) || bool_decide (is_Some (digit c0))) then
            Err errDuration
          else
            match leadingInt s 0 with
            | None => Err errDuration
            | Some (v, s1) =>
                let pre := negb (bool_decide (s1 = s)) in
                let '(f, scale, s2, post) :=
                  match s1 with
                  | String "." rest =>
                      let '(f, scale, s2) := leadingFraction rest 0 1 false in
                      (f, scale, s2, negb (bool_decide (s2 = rest)))
                  | _ => (0, 1, s1, false)
                  end in
                if negb pre && negb post then Err errDuration
                else
                  let '(u, s3) := unitPrefix s2 in
                  match u, unitMap u with
                  | EmptyString, _ | _, None => Err errDuration
                  | _, Some unit =>
                      if 2 ^ 63 / unit <? v then Err errDuration
                      else
                        let v := v * unit + f * unit / scale in
                        if 2 ^ 63 <? v then Err errDuration
                        else if 2 ^ 63 <? d + v then Err errDuration
                        else durationLoop fuel s3 (d + v)
                  end
            end
      end
  end.

Definition ParseDuration (s : string) : result Z :=
  let '(neg, rest) :=
    match s with
    | String "-" rest => (true, rest)
    | String "+" rest => (false, rest)
    | _ => (false, s)
    end in
  if bool_decide (rest = "0") then Ok 0
  else if bool_decide (rest = "") then Err errDuration
  else
    match durationLoop (String.length rest) rest 0 with
    | Err e => Err e
    | Ok d =>
        if neg then Ok (- d)
        else if 2 ^ 63 - 1 <? d then Err errDuration
        else Ok d
    end.

Example ParseDuration_examples :
  ParseDuration "1h30m" = Ok (hour + 30 * minute) /\
  ParseDuration "-1.5h" = Ok (- (hour + 30 * minute)) /\
  ParseDuration "300ms" = Ok (300 * 1000000) /\
  ParseDuration "0" = Ok 0 /\
  ParseDuration "3" = Err errDuration /\
  ParseDuration "" = Err errDuration /\
  ParseDuration "1d" = Err errDuration /\
  ParseDuration ".5s" = Ok (second / 2) /\
  ParseDuration "9223372036854775807ns" = Ok maxInt64 /\
  ParseDuration "9223372036854775808ns" = Err errDuration.
Proof. vm_compute. split_and!; reflexivity. Qed.

(** ** Lemmas *)

Lemma bytesOf_ok s : bytes_ok (bytesOf s).
Proof.
  induction s as [|c s IH]; constructor; [|done].
  pose proof (N_ascii_bounded c). lia.
Qed.

Lemma stringOf_bytesOf s : stringOf (bytesOf s) = s.
Proof.
  induction s as [|c s IH]; simpl; [done|]. by rewrite IH, N2Z.id, ascii_N_embedding.
Qed.

Lemma bytesOf_stringOf bs : bytes_ok bs -> bytesOf (stringOf bs) = bs.
Proof.
  induction 1 as [|b bs Hb _ IH]; simpl; [done|]. rewrite IH, N_ascii_embedding by lia. f_equal. lia.
Qed.

Lemma bytesOf_app s t : bytesOf (s +:+ t) = bytesOf s ++ bytesOf t.
Proof.
  induction s as [|c s IH]; [done|].
  change (String c s +:+ t) with (String c (s +:+ t)). simpl. by rewrite IH.
Qed.

Lemma prefix_empty s : String.prefix "" s = true.
Proof. by destruct s. Qed.

Lemma Index_cons (a c : ascii) (s : string) :
  Index (String a s) (String c "") =
    if bool_decide (c = a) then 0
    else if Index s (String c "") <? 0 then -1 else Index s (String c "") + 1.
Proof.
  unfold Index. cbn [String.index String.prefix].
  destruct (ascii_dec c a) as [<-|Hne].
  - rewrite bool_decide_true by done. by rewrite prefix_empty.
  - rewrite bool_decide_false by done.
    destruct (String.index 0 (String c "") s) as [n|]; [|done].
    destruct (Z.ltb_spec (Z.of_nat n) 0); lia.
Qed.

(** The first occurrence of a character is the end of the part without it. *)
Lemma Index_first (pre post : string) (c : ascii) :
  Index pre (String c "") = -1 ->
  Index (pre +:+ String c post) (String c "") = len pre.
Proof.
  unfold len. induction pre as [|a pre IH]; intros H.
  - change ("" +:+ String c post) with (String c post). rewrite Index_cons, bool_decide_true by done. done.
  - change (String a pre +:+ String c post) with (String a (pre +:+ String c post)).
    rewrite Index_cons in *. case_bool_decide; [done|].
    destruct (Z.ltb_spec (Index pre (String c "")) 0) as [Hlt|]; [|lia].
    rewrite IH; [|unfold Index in *; destruct (String.index 0 (String c "") pre); lia].
    destruct (Z.ltb_spec (Z.of_nat (String.length pre)) 0); simpl; lia.
Qed.

Lemma len_app s t : len (s +:+ t) = len s + len t.
Proof.
  unfold len. induction s as [|c s IH]; [done|].
  change (String c s +:+ t) with (String c (s +:+ t)). cbn [String.length]. lia.
Qed.

Lemma length_append (s t : string) : String.length (s +:+ t) = (String.length s + String.length t)%nat.
Proof. induction s as [|c s IH]; [done|]. simpl. by rewrite IH. Qed.

Lemma append_cons c s t : String c s +:+ t = String c (s +:+ t).
Proof. done. Qed.

Lemma append_nil t : "" +:+ t = t.
Proof. done. Qed.

Lemma append_nil_r s : s +:+ "" = s.
Proof. induction s as [|c s IH]; [done|]. by rewrite append_cons, IH. Qed.

Lemma append_assoc s t u : (s +:+ t) +:+ u = s +:+ (t +:+ u).
Proof.
  induction s as [|c s IH]; [done|].
  change (String c ((s +:+ t) +:+ u) = String c (s +:+ (t +:+ u))). by rewrite IH.
Qed.

Lemma sliceTo_app s t : sliceTo (s +:+ t) (String.length s) = s.
Proof.
  unfold sliceTo. induction s as [|c s IH]; [by destruct t|].
  change (String c s +:+ t) with (String c (s +:+ t)). simpl. by rewrite IH.
Qed.

(** Every character satisfies [p]. *)
Fixpoint allChars (p : ascii -> bool) (s : string) : bool :=
  match s with EmptyString => true | String c s => p c && allChars p s end.

Definition isASCII (s : string) : bool := allChars (fun c => (N_of_ascii c <? 128)%N) s.

(** [utf8.ValidString]: the table of first bytes, with the range of the second
    byte, and the continuation bytes. *)
Definition between (lo hi : N) (c : ascii) : bool := (lo <=? N_of_ascii c)%N && (N_of_ascii c <=? hi)%N.

Definition cont (c : ascii) : bool := between 128 191 c.

Fixpoint ValidString (s : string) : bool :=
  match s with
  | EmptyString => true
  | String a s =>
      if between 0 127 a then ValidString s
      else
        match s with
        | EmptyString => false
        | String b s =>
            if between 194 223 a then cont b && ValidString s
            else
              match s with
              | EmptyString => false
              | String c s =>
                  if between 224 224 a then between 160 191 b && cont c && ValidString s
                  else if between 237 237 a then between 128 159 b && cont c && ValidString s
                  else if between 225 239 a then cont b && cont c && ValidString s
                  else
                    match s with
                    | EmptyString => false
                    | String d s =>
                        if between 240 240 a then between 144 191 b && cont c && cont d && ValidString s
                        else if between 241 243 a then cont b && cont c && cont d && ValidString s
                        else if between 244 244 a then between 128 143 b && cont c && cont d && ValidString s
                        else false
                    end
              end
        end
  end.

Lemma ASCII_valid s : isASCII s = true -> ValidString s = true.
Proof.
  unfold isASCII. induction s as [|c s IH]; [done|]. cbn [allChars ValidString].
  intros [Hc%N.ltb_lt Hs]%andb_true_iff.
  assert (between 0 127 c = true) as -> by (apply andb_true_iff; rewrite !N.leb_le; lia). by apply IH.
Qed.

Definition lacks (sep : ascii) (s : string) : bool := allChars (fun c => negb (bool_decide (c = sep))) s.

Lemma allChars_mono p q s :
  (forall c, p c = true -> q c = true) -> allChars p s = true -> allChars q s = true.
Proof.
  intros H. induction s as [|c s IH]; simpl; [done|]. rewrite !andb_true_iff. naive_solver.
Qed.

Lemma Split_none s sep : lacks sep s = true -> Split s sep = [s].
Proof.
  unfold lacks. induction s as [|c s IH]; simpl; [done|].
  rewrite andb_true_iff, negb_true_iff. intros [-> H]. by rewrite IH.
Qed.

Lemma Split_sep s rest sep :
  lacks sep s = true -> Split (s +:+ String sep rest) sep = s :: Split rest sep.
Proof.
  unfold lacks. induction s as [|c s IH]; cbn [allChars].
  - intros _. change ("" +:+ String sep rest) with (String sep rest). simpl.
    by rewrite bool_decide_true by done.
  - rewrite andb_true_iff, negb_true_iff. intros [Hc H].
    change (String c s +:+ String sep rest) with (String c (s +:+ String sep rest)).
    cbn [Split]. by rewrite Hc, IH.
Qed.

Lemma CutPrefix_true s p rest : CutPrefix s p = (rest, true) -> s = p +:+ rest.
Proof.
  revert s. induction p as [|c p IH]; intros s.
  { destruct s; intros Hp; injection Hp as <-; reflexivity. }
  destruct s as [|c' s]; simpl; [done|]. case_bool_decide as Hc; [|done].
  destruct (CutPrefix s p) as [r []] eqn:E; [|done]. intros [= <-]. rewrite Hc.
  change (String c p +:+ r) with (String c (p +:+ r)). f_equal. by apply IH.
Qed.

Lemma CutPrefix_app p rest : CutPrefix (p +:+ rest) p = (rest, true).
Proof.
  induction p as [|c p IH]; [by destruct rest|].
  change (String c p +:+ rest) with (String c (p +:+ rest)). simpl.
  by rewrite bool_decide_true, IH by done.
Qed.

(** Trimming stops at the last other character. *)
Lemma TrimRight_lacks s t cut :
  lacks cut t = true -> t <> "" -> TrimRight (s +:+ t) cut = s +:+ t.
Proof.
  intros Ht Hne.
  assert (TrimRight t cut = t) as Hbase.
  { clear Hne. unfold lacks in Ht. induction t as [|c t IH]; [done|]. cbn [allChars] in Ht.
    apply andb_true_iff in Ht as [Hc Ht]. apply negb_true_iff in Hc. cbn [TrimRight].
    rewrite IH by done. destruct t; [by rewrite Hc|done]. }
  induction s as [|c s IH]; [exact Hbase|].
  change (String c s +:+ t) with (String c (s +:+ t)). cbn [TrimRight]. rewrite IH.
  destruct (s +:+ t) eqn:He; [|done]. destruct s; [by destruct t|done].
Qed.

Lemma EncodeToString_length bs : String.length (EncodeToString bs) = (2 * length bs)%nat.
Proof. induction bs as [|b bs IH]; simpl; [done|]. rewrite IH. lia. Qed.

Lemma hexDigit_inj d e : 0 <= d < 16 -> 0 <= e < 16 -> hexDigit d = hexDigit e -> d = e.
Proof.
  intros Hd He H. assert (forall k, 0 <= k < 16 -> k ∈ seqZ 0 16) as Hin.
  { intros k Hk. apply elem_of_seqZ. lia. }
  apply Hin in Hd, He. clear Hin. revert H.
  repeat (apply elem_of_cons in Hd as [->|Hd]); try (by apply elem_of_nil in Hd);
  repeat (apply elem_of_cons in He as [->|He]); try (by apply elem_of_nil in He);
  vm_compute; congruence.
Qed.

(** Different bytes have different hexadecimal strings. *)
Lemma EncodeToString_inj bs cs :
  bytes_ok bs -> bytes_ok cs -> EncodeToString bs = EncodeToString cs -> bs = cs.
Proof.
  intros Hb. revert cs. induction Hb as [|b bs Hb _ IH]; intros [|c cs] Hc H; try done.
  inversion Hc as [|? ? Hc0 Hcs]; subst. simpl in H. injection H as H1 H2 H3.
  assert (forall b, 0 <= b < 256 -> 0 <= Z.shiftr b 4 < 16 /\ 0 <= Z.land b 15 < 16 /\
            b = 16 * Z.shiftr b 4 + Z.land b 15) as Hsplit.
  { intros z Hz. change 15 with (Z.ones 4). rewrite Z.land_ones, Z.shiftr_div_pow2 by lia.
    change (2 ^ 4) with 16. Z.div_mod_to_equations. lia. }
  destruct (Hsplit b Hb) as (? & ? & ->), (Hsplit c Hc0) as (? & ? & Heq). rewrite Heq.
  f_equal; [|by apply IH].
  apply hexDigit_inj in H1, H2; try done. lia.
Qed.

(** Hexadecimal digits satisfy whatever the sixteen characters do. *)
Lemma EncodeToString_chars p bs :
  (forall d, 0 <= d < 16 -> p (hexDigit d) = true) -> bytes_ok bs -> allChars p (EncodeToString bs) = true.
Proof.
  intros Hp. induction 1 as [|b bs Hb _ IH]; [done|]. cbn [EncodeToString allChars].
  rewrite IH, !Hp; [done| |].
  - apply (land_ones_range b 4). lia.
  - rewrite Z.shiftr_div_pow2 by lia. change (2 ^ 4) with 16. Z.div_mod_to_equations. lia.
Qed.

Lemma allChars_app p s t : allChars p (s +:+ t) = allChars p s && allChars p t.
Proof.
  induction s as [|c s IH]; [done|]. change (String c s +:+ t) with (String c (s +:+ t)). cbn [allChars].
  by rewrite IH, andb_assoc.
Qed.

Lemma FormatInt_inj n m : FormatInt n = FormatInt m -> n = m.
Proof. apply pretty_Z_inj. Qed.

(** Decimal digits, and the number they spell. *)
Lemma digit_pretty d : (d < 10)%N -> digit (pretty_N_char d) = Some (Z.of_N d).
Proof.
  intros H. assert (d = 0 \/ d = 1 \/ d = 2 \/ d = 3 \/ d = 4 \/ d = 5 \/ d = 6 \/ d = 7 \/ d = 8 \/ d = 9)%N
    as Hd by lia. by destruct_or! Hd; subst d.
Qed.

Lemma parseUint_pretty x s :
  (0 < x)%N -> Z.of_N x < 2 ^ 64 -> parseUintLoop (pretty_N_go x s) 0 = parseUintLoop s (Z.of_N x).
Proof.
  revert s. induction (N.lt_wf_0 x) as [x _ IH]; intros s Hx Hlt. rewrite pretty_N_go_step by done.
  assert (parseUintLoop (String (pretty_N_char (x `mod` 10)) s) (Z.of_N (x `div` 10)) =
    parseUintLoop s (Z.of_N x)) as <-.
  { cbn [parseUintLoop]. rewrite digit_pretty by (by apply N.mod_lt).
    assert (10 * Z.of_N (x `div` 10) + Z.of_N (x `mod` 10) = Z.of_N x) as ->
      by (pose proof (N.div_mod x 10 ltac:(lia)); lia).
    by rewrite (proj2 (Z.leb_gt _ _) Hlt). }
  destruct (decide (0 < x `div` 10)%N) as [Hd|Hd].
  - apply IH; [by apply N.div_lt|done|]. pose proof (N.div_lt x 10 Hx ltac:(lia)). lia.
  - apply N.nlt_ge, N.le_0_r in Hd. by rewrite Hd, pretty_N_go_0.
Qed.

Lemma pretty_nonempty x c t : pretty_N_go x (String c t) <> "".
Proof.
  revert c t. induction (N.lt_wf_0 x) as [x _ IH]; intros c t. destruct (decide (0 < x)%N) as [Hx|Hx].
  - rewrite pretty_N_go_step by done. apply IH. by apply N.div_lt.
  - apply N.nlt_ge, N.le_0_r in Hx. by subst x.
Qed.

Lemma ParseUint_FormatInt n : 0 <= n < 2 ^ 64 -> ParseUint (FormatInt n) = Ok n.
Proof.
  intros Hn. destruct n as [|q|q]; [done| |lia].
  change (FormatInt (Zpos q)) with (pretty_N_go (Npos q) ""). unfold ParseUint.
  pose proof (parseUint_pretty (Npos q) "" ltac:(lia) ltac:(lia)) as Hp.
  destruct (pretty_N_go (Npos q) "") eqn:E; [|by rewrite Hp].
  rewrite pretty_N_go_step in E by lia. by destruct (pretty_nonempty _ _ _ E).
Qed.

(** A number has no separator that is not a digit. *)
Lemma ParseUint_lacks sep s n : digit sep = None -> ParseUint s = Ok n -> lacks sep s = true /\ s <> "".
Proof.
  intros Hsep. unfold ParseUint. destruct s as [|c s]; [done|]. intros Hp. split; [|done]. revert Hp.
  generalize 0. generalize (String c s). clear c s. induction s as [|c s IH]; intros a; [done|].
  cbn [parseUintLoop]. destruct (digit c) eqn:Hc; [|done]. case_match; [done|]. intros Hp.
  unfold lacks in *. cbn [allChars]. rewrite (IH _ Hp), andb_true_r. rewrite bool_decide_false; [done|]. congruence.
Qed.

(** What follows the last separator, or nothing if there is none. *)
Fixpoint afterLast (s : string) (sep : ascii) : option string :=
  match s with
  | EmptyString => None
  | String c rest =>
      match afterLast rest sep with
      | Some t => Some t
      | None => if bool_decide (c = sep) then Some rest else None
      end
  end.

Lemma afterLast_none s sep : lacks sep s = true -> afterLast s sep = None.
Proof.
  unfold lacks. induction s as [|c s IH]; [done|]. cbn [allChars afterLast].
  rewrite andb_true_iff, negb_true_iff. intros [Hc Hs]. by rewrite IH, Hc.
Qed.

Lemma afterLast_sep s t sep : lacks sep t = true -> afterLast (s +:+ String sep t) sep = Some t.
Proof.
  intros Ht. induction s as [|c s IH].
  - change ("" +:+ String sep t) with (String sep t). cbn [afterLast]. by rewrite afterLast_none, bool_decide_true.
  - change (String c s +:+ String sep t) with (String c (s +:+ String sep t)). cbn [afterLast]. by rewrite IH.
Qed.

Example TrimSpace_ex : TrimSpace "  a b	 " = "a b". Proof. reflexivity. Qed.

End GoStrings.
