(* ===== verification/Regexp.v ===== *)
(** * What the sources use of Go's regexp

    Patterns are compiled from their text; the matcher returns every match at
    a position in the order a backtracking engine tries them, so the first one
    is the leftmost-first match that regexp documents. The grammar is the part
    of RE2 that tools/gen-config-docs writes: classes, escapes, groups, [*],
    [+], [?] and their lazy forms, [^] and [$] with and without the [m] flag.

    Go matches runes and this matcher bytes. On UTF-8 text they agree for every
    pattern whose classes hold all runes above 127 or none, which is the case
    for the classes that this grammar can write.

    The theorems: the matcher returns exactly the derivations of the matching
    relation ([run_sem]), a search finds the leftmost position ([search_some],
    [search_none]), and the successive matches partition the text
    ([findAll_partition]). *)

From Stdlib Require Import Ascii.
From S2P Require Import Prelude GoStrings.

Module Regexp.

(** ** Syntax *)

(** A character class: ranges of codes, possibly negated. *)
Record class := MkClass { negated : bool; ranges : list (N * N) }.

Inductive regex :=
| Eps
| Class (k : class)
| Seq (r1 r2 : regex)
| Alt (r1 r2 : regex)
| Star (greedy : bool) (r : regex)
| Group (n : nat) (r : regex)
| BeginText
| EndText
| BeginLine
| EndLine.

Definition inClass (k : class) (c : ascii) : bool :=
  let n := N_of_ascii c in
  xorb (negated k) (existsb (fun '(lo, hi) => (lo <=? n)%N && (n <=? hi)%N) (ranges k)).

(** ** Compiling a pattern *)

Definition range (lo hi : ascii) : N * N := (N_of_ascii lo, N_of_ascii hi).

Definition digits : list (N * N) := [range "0" "9"].

Definition words : list (N * N) := [range "0" "9"; range "A" "Z"; range "_" "_"; range "a" "z"].

Definition blanks : list (N * N) := [(9, 10)%N; (12, 13)%N; range " " " "].

Definition newline : ascii := "010".

(** What follows a backslash. *)
Definition escape (c : ascii) : list (N * N) :=
  if bool_decide (c = "d"%char) then digits
  else if bool_decide (c = "w"%char) then words
  else if bool_decide (c = "s"%char) then blanks
  else [range c c].

(** The items of a bracketed class, up to its end. *)
Fixpoint classItems (s : string) : option (list (N * N) * string) :=
  match s with
  | EmptyString => None
  | String "]" s => Some ([], s)
  | String "\" (String c s) =>
      match classItems s with Some (l, s) => Some (escape c ++ l, s) | None => None end
  | String lo (String "-" (String hi s)) =>
      match classItems s with Some (l, s) => Some (range lo hi :: l, s) | None => None end
  | String c s =>
      match classItems s with Some (l, s) => Some (range c c :: l, s) | None => None end
  end.

(** The quantifier after an atom. *)
Definition quantified (r : regex) (s : string) : regex * string :=
  match s with
  | String "*" (String "?" s) => (Star false r, s)
  | String "*" s => (Star true r, s)
  | String "+" (String "?" s) => (Seq r (Star false r), s)
  | String "+" s => (Seq r (Star true r), s)
  | String "?" (String "?" s) => (Alt Eps r, s)
  | String "?" s => (Alt r Eps, s)
  | _ => (r, s)
  end.

Section Parse.
Variable multiline : bool.

(** A sequence of quantified atoms with its alternatives, up to the end or to
    a closing parenthesis; [n] is the number of the next group. Every call
    takes a character, or is the only one at its position. *)
Fixpoint parseAlt (fuel : nat) (n : nat) (s : string) : option (regex * nat * string) :=
  match fuel with
  | O => None
  | S fuel =>
      match parseSeq fuel n s with
      | Some (r1, n, String "|" s) =>
          match parseAlt fuel n s with
          | Some (r2, n, s) => Some (Alt r1 r2, n, s)
          | None => None
          end
      | res => res
      end
  end
with parseSeq (fuel : nat) (n : nat) (s : string) : option (regex * nat * string) :=
  match fuel with
  | O => None
  | S fuel =>
      match s with
      | EmptyString | String "|" _ | String ")" _ => Some (Eps, n, s)
      | _ =>
          match parseAtom fuel n s with
          | None => None
          | Some (r1, n, s) =>
              let '(r1, s) := quantified r1 s in
              match parseSeq fuel n s with
              | Some (Eps, n, s) => Some (r1, n, s)
              | Some (r2, n, s) => Some (Seq r1 r2, n, s)
              | None => None
              end
          end
      end
  end
with parseAtom (fuel : nat) (n : nat) (s : string) : option (regex * nat * string) :=
  match fuel with
  | O => None
  | S fuel =>
      match s with
      | String "(" (String "?" (String ":" s)) =>
          match parseAlt fuel n s with
          | Some (r, n, String ")" s) => Some (r, n, s)
          | _ => None
          end
      | String "(" s =>
          match parseAlt fuel (S n) s with
          | Some (r, n', String ")" s) => Some (Group n r, n', s)
          | _ => None
          end
      | String "[" s =>
          let '(neg, s) := match s with String "^" s => (true, s) | _ => (false, s) end in
          match classItems s with
          | Some (l, s) => Some (Class (MkClass neg l), n, s)
          | None => None
          end
      | String "\" (String c s) => Some (Class (MkClass false (escape c)), n, s)
      | String "." s => Some (Class (MkClass true [range newline newline]), n, s)
      | String "^" s => Some (if multiline then BeginLine else BeginText, n, s)
      | String "$" s => Some (if multiline then EndLine else EndText, n, s)
      | String "*" _ | String "+" _ | String "?" _ | EmptyString => None
      | String c s => Some (Class (MkClass false [range c c]), n, s)
      end
  end.

End Parse.

(** regexp.Compile; the only flag is a leading [(?m)]. *)
Definition Compile (pattern : string) : option regex :=
  let '(m, s) := GoStrings.CutPrefix pattern "(?m)" in
  let '(m, s) := if s then (true, m) else (false, m) in
  match parseAlt m (3 * String.length s + 3) 1 s with
  | Some (r, _, EmptyString) => Some r
  | _ => None
  end.

(** regexp.MustCompile panics on a bad pattern. The sources only pass
    constants, and [Compile] succeeds on each of them. *)
Definition MustCompile (pattern : string) : regex := default Eps (Compile pattern).

(** ** Matching *)

(** One match at a position: the text it takes, the groups it sets, in order,
    and the text that is left. *)
Record res := Res { text : string; caps : list (nat * string); rest : string }.

Fixpoint last (prev : option ascii) (w : string) : option ascii :=
  match w with EmptyString => prev | String c w => last (Some c) w end.

Definition glue (a b : res) : res := Res (text a +:+ text b) (caps a ++ caps b) (rest b).

Definition stop (s : string) : res := Res "" [] s.

Definition atLineStart (prev : option ascii) : bool :=
  match prev with None => true | Some c => bool_decide (c = newline) end.

Definition atLineEnd (s : string) : bool :=
  match s with EmptyString => true | String c _ => bool_decide (c = newline) end.

(** The iterations of a loop; each takes text, so the length is enough fuel. *)
Fixpoint runStar (m : option ascii -> string -> list res) (greedy : bool) (fuel : nat)
    (prev : option ascii) (s : string) : list res :=
  match fuel with
  | O => [stop s]
  | S fuel =>
      let more :=
        flat_map (fun a =>
          if bool_decide (text a = "") then []
          else map (glue a) (runStar m greedy fuel (last prev (text a)) (rest a))) (m prev s) in
      if greedy then more ++ [stop s] else stop s :: more
  end.

(** All matches at a position, the preferred ones first. *)
Fixpoint run (r : regex) (prev : option ascii) (s : string) : list res :=
  match r with
  | Eps => [stop s]
  | Class k =>
      match s with
      | String c s => if inClass k c then [Res (String c "") [] s] else []
      | EmptyString => []
      end
  | Seq r1 r2 =>
      flat_map (fun a => map (glue a) (run r2 (last prev (text a)) (rest a))) (run r1 prev s)
  | Alt r1 r2 => run r1 prev s ++ run r2 prev s
  | Star greedy r => runStar (run r) greedy (String.length s) prev s
  | Group n r => map (fun a => Res (text a) (caps a ++ [(n, text a)]) (rest a)) (run r prev s)
  | BeginText => if bool_decide (prev = None) then [stop s] else []
  | EndText => if bool_decide (s = "") then [stop s] else []
  | BeginLine => if atLineStart prev then [stop s] else []
  | EndLine => if atLineEnd s then [stop s] else []
  end.

(** The leftmost match, with the text before it. *)
Fixpoint search (r : regex) (prev : option ascii) (s : string) : option (string * res) :=
  match run r prev s with
  | a :: _ => Some ("", a)
  | [] =>
      match s with
      | EmptyString => None
      | String c s =>
          match search r (Some c) s with
          | Some (k, a) => Some (String c k, a)
          | None => None
          end
      end
  end.

(** [allMatches]: [again] when a match has just ended here. *)
Fixpoint findAll (r : regex) (fuel : nat) (prev : option ascii) (s : string) (again : bool) :
    list (string * res) :=
  match fuel with
  | O => []
  | S fuel =>
      match search r prev s with
      | None => []
      | Some (k, a) =>
          if bool_decide (k +:+ text a = "") then
            (if again then [] else [(k, a)]) ++
            match s with
            | EmptyString => []
            | String c s => findAll r fuel (Some c) s false
            end
          else (k, a) :: findAll r fuel (last prev (k +:+ text a)) (rest a) true
      end
  end.

(** The number of a group's last setting, the empty string if it has none. *)
Definition group (n : nat) (a : res) : string :=
  fold_left (fun acc '(i, w) => if bool_decide (i = n) then w else acc) (caps a) "".

Definition FindAllStringSubmatch (r : regex) (s : string) : list res :=
  snd <$> findAll r (S (String.length s)) None s false.

Definition FindStringSubmatch (r : regex) (s : string) : option res := snd <$> search r None s.

Definition MatchString (r : regex) (s : string) : bool := bool_decide (is_Some (search r None s)).

(** ** The matching relation *)

Inductive sem : regex -> option ascii -> string -> res -> Prop :=
| sem_eps prev s : sem Eps prev s (stop s)
| sem_class k prev c s : inClass k c = true -> sem (Class k) prev (String c s) (Res (String c "") [] s)
| sem_seq r1 r2 prev s a b :
    sem r1 prev s a -> sem r2 (last prev (text a)) (rest a) b -> sem (Seq r1 r2) prev s (glue a b)
| sem_left r1 r2 prev s a : sem r1 prev s a -> sem (Alt r1 r2) prev s a
| sem_right r1 r2 prev s a : sem r2 prev s a -> sem (Alt r1 r2) prev s a
| sem_stop g r prev s : sem (Star g r) prev s (stop s)
| sem_more g r prev s a b :
    sem r prev s a -> text a <> "" -> sem (Star g r) (last prev (text a)) (rest a) b ->
    sem (Star g r) prev s (glue a b)
| sem_group n r prev s a :
    sem r prev s a -> sem (Group n r) prev s (Res (text a) (caps a ++ [(n, text a)]) (rest a))
| sem_beginText s : sem BeginText None s (stop s)
| sem_endText prev : sem EndText prev "" (stop "")
| sem_beginLine prev s : atLineStart prev = true -> sem BeginLine prev s (stop s)
| sem_endLine prev s : atLineEnd s = true -> sem EndLine prev s (stop s).

Create HintDb regexp.
#[local] Hint Constructors sem : regexp.

(** A match splits the text. *)
Lemma sem_split r prev s a : sem r prev s a -> s = text a +:+ rest a.
Proof.
  induction 1; simpl in *; try done.
  - by rewrite GoStrings.append_assoc, <- IHsem2.
  - by rewrite GoStrings.append_assoc, <- IHsem2.
Qed.

Lemma sem_length r prev s a : sem r prev s a -> (String.length (text a) + String.length (rest a) = String.length s)%nat.
Proof. intros H. by rewrite (sem_split _ _ _ _ H), GoStrings.length_append. Qed.

Lemma elem_flat_map {A B} (f : A -> list B) l b : b ∈ flat_map f l <-> exists a, a ∈ l /\ b ∈ f a.
Proof. setoid_rewrite list_elem_of_In. apply in_flat_map. Qed.

Lemma elem_map {A B} (f : A -> B) l b : b ∈ map f l <-> exists a, b = f a /\ a ∈ l.
Proof. apply list_elem_of_fmap. Qed.

(** One unfolding of the loop, whatever its preference. *)
Lemma runStar_step m g fuel prev s a :
  a ∈ runStar m g (S fuel) prev s <->
  a = stop s \/ exists x b, x ∈ m prev s /\ text x <> "" /\
    b ∈ runStar m g fuel (last prev (text x)) (rest x) /\ a = glue x b.
Proof.
  cbn [runStar]. set (more := flat_map _ _).
  assert (a ∈ more <-> exists x b, x ∈ m prev s /\ text x <> "" /\
    b ∈ runStar m g fuel (last prev (text x)) (rest x) /\ a = glue x b) as <-.
  { unfold more. rewrite elem_flat_map. split.
    - intros (x & Hx & Ha). case_bool_decide as Ht; [by apply not_elem_of_nil in Ha|].
      apply elem_map in Ha as (b & -> & Hb). by exists x, b.
    - intros (x & b & Hx & Ht & Hb & ->). exists x. split; [done|]. rewrite bool_decide_false by done.
      apply elem_map. by exists b. }
  destruct g; [rewrite elem_of_app, list_elem_of_singleton|rewrite elem_of_cons]; tauto.
Qed.

Lemma sem_shorter r prev s a n :
  sem r prev s a -> text a <> "" -> (String.length s <= S n)%nat -> (String.length (rest a) <= n)%nat.
Proof. intros Ha%sem_length Hne Hs. destruct (text a); [done|]. simpl in Ha. lia. Qed.

(** The loop, for a body whose matches are known. *)
Lemma runStar_sem r g fuel prev s a :
  (forall prev s a, a ∈ run r prev s <-> sem r prev s a) ->
  (String.length s <= fuel)%nat ->
  a ∈ runStar (run r) g fuel prev s <-> sem (Star g r) prev s a.
Proof.
  intros Hr. revert prev s a. induction fuel as [|fuel IH]; intros prev s a Hf.
  - destruct s as [|c s]; [|simpl in Hf; lia]. cbn [runStar]. rewrite list_elem_of_singleton. split.
    + intros ->. constructor.
    + inversion 1 as [| | | | | |? ? ? ? x b Hx Hne _| | | | |]; subst; [done|].
      apply sem_length in Hx. destruct (text x); [done|]. simpl in Hx. lia.
  - rewrite runStar_step. split.
    + intros [->|(x & b & Hx%Hr & Hne & Hb & ->)]; [constructor|].
      econstructor; [done..|]. apply IH; [|done]. by eapply sem_shorter.
    + inversion 1 as [| | | | | |? ? ? ? x b Hx Hne Hb| | | | |]; subst; [by left|right].
      exists x, b. split_and!; [by apply Hr|done| |done]. apply IH; [|done]. by eapply sem_shorter.
Qed.

(** The matcher returns the derivations of the relation, and nothing else. *)
Theorem run_sem r prev s a : a ∈ run r prev s <-> sem r prev s a.
Proof.
  revert prev s a. induction r; intros prev s a; cbn [run].
  - rewrite list_elem_of_singleton. split; [intros ->; constructor|by inversion 1].
  - destruct s as [|c s]; [split; [by intros ?%not_elem_of_nil|inversion 1]|].
    destruct (inClass k c) eqn:Hk.
    + rewrite list_elem_of_singleton. split; [intros ->; by constructor|by inversion 1].
    + split; [by intros ?%not_elem_of_nil|inversion 1; congruence].
  - rewrite elem_flat_map. setoid_rewrite elem_map. split.
    + intros (x & Hx%IHr1 & b & -> & Hb%IHr2). by constructor.
    + inversion 1; subst. eexists. split; [by apply IHr1|]. eexists. split; [done|]. by apply IHr2.
  - rewrite elem_of_app, IHr1, IHr2. split; [intros []; auto with regexp|inversion 1; auto].
  - by apply runStar_sem.
  - rewrite elem_map. split.
    + intros (x & -> & Hx%IHr). by constructor.
    + inversion 1; subst. eexists. split; [done|]. by apply IHr.
  - case_bool_decide; subst; rewrite ?list_elem_of_singleton; split;
      try (by intros ?%not_elem_of_nil); try (by inversion 1); intros ->; constructor.
  - case_bool_decide; subst; rewrite ?list_elem_of_singleton; split;
      try (by intros ?%not_elem_of_nil); try (by inversion 1); intros ->; constructor.
  - destruct (atLineStart prev) eqn:Hp; rewrite ?list_elem_of_singleton; split;
      try (by intros ?%not_elem_of_nil); try (by intros ->; constructor); inversion 1; congruence.
  - destruct (atLineEnd s) eqn:Hp; rewrite ?list_elem_of_singleton; split;
      try (by intros ?%not_elem_of_nil); try (by intros ->; constructor); inversion 1; congruence.
Qed.

Lemma last_app prev v w : last prev (v +:+ w) = last (last prev v) w.
Proof. revert prev. induction v as [|c v IH]; intros prev; [done|]. apply IH. Qed.

(** A search that succeeds stops at the leftmost position with a match, and
    takes its first. *)
Theorem search_some r prev s k a :
  search r prev s = Some (k, a) ->
  s = k +:+ text a +:+ rest a /\
  sem r (last prev k) (text a +:+ rest a) a /\
  head (run r (last prev k) (text a +:+ rest a)) = Some a /\
  forall k1 k2 b, k = k1 +:+ k2 -> k2 <> "" -> ~ sem r (last prev k1) (k2 +:+ text a +:+ rest a) b.
Proof.
  revert prev k. induction s as [|c s IH]; intros prev k; cbn [search];
    (destruct (run r prev _) as [|x l] eqn:Hrun;
     [|intros [= <- <-]; assert (x ∈ run r prev _) as Hx%run_sem by (rewrite Hrun; left);
       rewrite <- (sem_split _ _ _ _ Hx); split_and!; [done|done|by simpl; rewrite Hrun|];
       intros [|] [|] b; done]); [done|].
  destruct (search r (Some c) s) as [[k' a']|] eqn:Hs; [|done]. intros [= <- <-].
  destruct (IH _ _ Hs) as (-> & Hsem & Hh & Hleft). split_and!; [done|done|done|].
  intros [|c1 k1] k2 b.
  - change ("" +:+ k2) with k2. intros <- _ Hb%run_sem. revert Hb.
    change (String c k' +:+ ?t) with (String c (k' +:+ t)). cbn [last]. by rewrite Hrun, elem_of_nil.
  - intros [= <- ->] Hne. by apply (Hleft k1 k2 b).
Qed.

(** A search that fails met no match at any position. *)
Theorem search_none r prev s :
  search r prev s = None -> forall k t b, s = k +:+ t -> ~ sem r (last prev k) t b.
Proof.
  revert prev. induction s as [|c s IH]; intros prev; cbn [search];
    destruct (run r prev _) as [|x l] eqn:Hrun; try done.
  - intros _ [|] [|] b; try done. intros _ Hb. apply run_sem in Hb. cbn [last] in Hb. by rewrite Hrun, elem_of_nil in Hb.
  - destruct (search r (Some c) s) as [[]|] eqn:Hs; [done|]. intros _ [|c1 k] t b.
    + change ("" +:+ t) with t. intros <- Hb. apply run_sem in Hb. cbn [last] in Hb. by rewrite Hrun, elem_of_nil in Hb.
    + intros [= <- ->]. by apply (IH _ Hs).
Qed.

(** ** Successive matches *)

(** A pattern whose every match takes some text. *)
Fixpoint consumes (r : regex) : bool :=
  match r with
  | Class _ => true
  | Seq r1 r2 => consumes r1 || consumes r2
  | Alt r1 r2 => consumes r1 && consumes r2
  | Group _ r => consumes r
  | _ => false
  end.

Lemma consumes_text r prev s a : consumes r = true -> sem r prev s a -> text a <> "".
Proof.
  intros Hr Ha. induction Ha; simpl in *; try done; auto.
  - apply orb_true_iff in Hr as [Hr|Hr].
    + specialize (IHHa1 Hr). by destruct (text a).
    + specialize (IHHa2 Hr). by destruct (text a).
  - apply andb_true_iff in Hr as [Hr _]. auto.
  - apply andb_true_iff in Hr as [_ Hr]. auto.
Qed.

(** The matches of a text from left to right: each search starts where the
    match before it ended, and the last one fails. *)
Inductive scan (r : regex) : option ascii -> string -> list (string * res) -> Prop :=
| scan_end prev s : search r prev s = None -> scan r prev s []
| scan_next prev s k a l :
    search r prev s = Some (k, a) -> scan r (last prev (k +:+ text a)) (rest a) l ->
    scan r prev s ((k, a) :: l).

(** The fuel of [FindAllStringSubmatch] is enough. *)
Theorem findAll_scan r fuel prev s again :
  consumes r = true -> (String.length s < fuel)%nat -> scan r prev s (findAll r fuel prev s again).
Proof.
  intros Hr. revert prev s again. induction fuel as [|fuel IH]; intros prev s again Hf; [lia|].
  cbn [findAll]. destruct (search r prev s) as [[k a]|] eqn:Hs; [|by constructor].
  destruct (search_some _ _ _ _ _ Hs) as (-> & Hsem & _).
  pose proof (consumes_text _ _ _ _ Hr Hsem) as Hne.
  rewrite bool_decide_false by (destruct k; [done|done]). constructor; [done|]. apply IH.
  rewrite !GoStrings.length_append in Hf. destruct (text a); [done|]. simpl in Hf. lia.
Qed.

Definition scanned (l : list (string * res)) : string :=
  foldr (fun '(k, a) t => k +:+ text a +:+ t) "" l.

Lemma scan_partition r prev s l :
  scan r prev s l -> exists t, s = scanned l +:+ t /\ search r (last prev (scanned l)) t = None.
Proof.
  induction 1 as [prev s Hs|prev s k a l Hs _ (t & Ht & Hn)]; [by exists s|].
  destruct (search_some _ _ _ _ _ Hs) as (-> & _). exists t. cbn [scanned foldr].
  change (foldr _ "" l) with (scanned l). rewrite last_app in Hn. rewrite !last_app. split; [|done].
  rewrite Ht. by rewrite !GoStrings.append_assoc.
Qed.

(** Nothing of the text is lost: it is the matches, what lies between them and
    a tail in which there is no other. *)
Theorem findAll_partition r s :
  consumes r = true ->
  let l := findAll r (S (String.length s)) None s false in
  exists t, s = scanned l +:+ t /\
    forall k u b, t = k +:+ u -> ~ sem r (last (last None (scanned l)) k) u b.
Proof.
  intros Hr l. destruct (scan_partition r None s l) as (t & Ht & Hn).
  - apply findAll_scan; [done|lia].
  - exists t. split; [done|]. by apply search_none.
Qed.

End Regexp.
