(* ===== verification/Durations.v ===== *)
(** * time.Duration.String, and that time.ParseDuration reads it back

    The printer follows time.Duration.format, which writes its buffer from the
    right; here the text to the right is the accumulator. The round trip
    [ParseDuration_String] holds for every int64. *)

From Stdlib Require Import Ascii.
From stdpp Require Import pretty.
From S2P Require Import Prelude GoStrings.

Module Durations.
Import GoStrings.

Definition digitChar (d : Z) : ascii := ascii_of_N (48 + Z.to_N d).

(** [fmtFrac]: the last [prec] digits of [v] as a fraction, without trailing
    zeros and without the point when they are all zero; and [v] without them. *)
Fixpoint fmtFrac (prec : nat) (v : Z) (print : bool) (acc : string) : string * Z :=
  match prec with
  | O => (if print then String "." acc else acc, v)
  | S prec =>
      let digit := v mod 10 in
      let print := print || negb (digit =? 0) in
      fmtFrac prec (v / 10) print (if print then String (digitChar digit) acc else acc)
  end.

Definition fmtInt (v : Z) (acc : string) : string := FormatInt v +:+ acc.

Definition micros : string := String "194" (String "181" "s").

(** The magnitude, which is not zero. *)
Definition magnitude (u : Z) : string :=
  if u <? second then
    let '(prec, unit) :=
      if u <? 1000 then (0%nat, "ns")
      else if u <? 1000000 then (3%nat, micros)
      else (6%nat, "ms") in
    let '(w, u) := fmtFrac prec u false unit in
    fmtInt u w
  else
    let '(w, u) := fmtFrac 9 u false "s" in
    let w := fmtInt (u mod 60) w in
    let u := u / 60 in
    if 0 <? u then
      let w := fmtInt (u mod 60) (String "m" w) in
      let u := u / 60 in
      if 0 <? u then fmtInt u (String "h" w) else w
    else w.

Definition Duration_String (d : Z) : string :=
  if d =? 0 then "0s"
  else if d <? 0 then String "-" (magnitude (- d))
  else magnitude d.

Example String_examples :
  Duration_String 0 = "0s" /\ Duration_String (24 * hour) = "24h0m0s" /\ Duration_String (30 * second) = "30s" /\
  Duration_String (15 * minute) = "15m0s" /\ Duration_String (- 1500 * 1000000) = "-1.5s" /\
  Duration_String 1100000 = "1.1ms" /\ Duration_String 999 = "999ns" /\
  Duration_String minInt64 = "-2562047h47m16.854775808s".
Proof. vm_compute. split_and!; reflexivity. Qed.

(** ** Digits *)

Lemma digit_digitChar d : 0 <= d < 10 -> digit (digitChar d) = Some d.
Proof.
  intros H.
  assert (d = 0 \/ d = 1 \/ d = 2 \/ d = 3 \/ d = 4 \/ d = 5 \/ d = 6 \/ d = 7 \/ d = 8 \/ d = 9) as Hd by lia.
  by destruct_or! Hd; subst d.
Qed.

(** The last [n] digits of [v]. *)
Fixpoint pad (n : nat) (v : Z) (acc : string) : string :=
  match n with O => acc | S n => pad n (v / 10) (String (digitChar (v mod 10)) acc) end.

Lemma fmtFrac_print n v acc : fmtFrac n v true acc = (String "." (pad n v acc), v / 10 ^ Z.of_nat n).
Proof.
  revert v acc. induction n as [|n IH]; intros v acc; [by rewrite Z.div_1_r|].
  cbn [fmtFrac pad orb]. rewrite IH, Z.div_div by lia. f_equal. f_equal.
  rewrite Nat2Z.inj_succ, Z.pow_succ_r by lia. done.
Qed.

(** The fraction that is printed: nothing, or [n] digits that make up the same
    part of a unit. *)
Lemma fmtFrac_spec prec v acc :
  0 <= v ->
  (v mod 10 ^ Z.of_nat prec = 0 /\ fmtFrac prec v false acc = (acc, v / 10 ^ Z.of_nat prec)) \/
  exists n w, (0 < n <= prec)%nat /\ 0 <= w /\ v mod 10 ^ Z.of_nat prec = w mod 10 ^ Z.of_nat n * 10 ^ Z.of_nat (prec - n) /\
    fmtFrac prec v false acc = (String "." (pad n w acc), v / 10 ^ Z.of_nat prec).
Proof.
  revert v. induction prec as [|prec IH]; intros v Hv.
  { left. split; [by rewrite Z.mod_1_r|by rewrite Z.div_1_r]. }
  cbn [fmtFrac orb].
  assert (v mod 10 ^ Z.of_nat (S prec) = v mod 10 + 10 * ((v / 10) mod 10 ^ Z.of_nat prec)) as Hm.
  { rewrite Nat2Z.inj_succ, Z.pow_succ_r by lia. rewrite Z.rem_mul_r by lia. done. }
  assert (v / 10 ^ Z.of_nat (S prec) = v / 10 / 10 ^ Z.of_nat prec) as Hd.
  { rewrite Nat2Z.inj_succ, Z.pow_succ_r, Z.div_div by lia. done. }
  destruct (v mod 10 =? 0) eqn:E; cbn [negb orb].
  - apply Z.eqb_eq in E. destruct (IH (v / 10) ltac:(Z.div_mod_to_equations; lia)) as [[H0 ->]|(n & w & Hn & Hw & Heq & ->)].
    + left. rewrite Hm, Hd, H0, E. done.
    + right. exists n, w. split_and!; [lia..| |by rewrite Hd].
      rewrite Hm, E, Heq. replace (S prec - n)%nat with (S (prec - n)) by lia.
      rewrite Nat2Z.inj_succ, Z.pow_succ_r by lia. lia.
  - right. exists (S prec), v. rewrite Nat.sub_diag. split_and!; [lia|lia|done|by rewrite Z.mul_1_r|].
    rewrite fmtFrac_print, Hd. done.
Qed.

(** ** Reading back *)

Lemma pow10_pos (n : nat) : 0 < 10 ^ Z.of_nat n.
Proof. apply Z.pow_pos_nonneg; lia. Qed.

Lemma leadingFraction_pad n v acc x scale :
  0 <= v -> 0 <= x -> 10 * ((x + 1) * 10 ^ Z.of_nat n) <= 2 ^ 63 - 1 ->
  leadingFraction (pad n v acc) x scale false =
  leadingFraction acc (x * 10 ^ Z.of_nat n + v mod 10 ^ Z.of_nat n) (scale * 10 ^ Z.of_nat n) false.
Proof.
  revert v acc x scale. induction n as [|n IH]; intros v acc x scale Hv Hx Hb.
  { cbn [pad]. rewrite Z.mod_1_r, !Z.mul_1_r, Z.add_0_r. done. }
  cbn [pad]. pose proof (pow10_pos n).
  rewrite Nat2Z.inj_succ, Z.pow_succ_r in * by lia.
  rewrite IH; [|Z.div_mod_to_equations; lia|lia|nia].
  pose proof (Z.mod_pos_bound (v / 10) (10 ^ Z.of_nat n) ltac:(lia)).
  pose proof (Z.mod_pos_bound v 10 ltac:(lia)) as Hd.
  set (y := x * 10 ^ Z.of_nat n + _). assert (0 <= y /\ 10 * (y + 1) <= 2 ^ 63 - 1) as [Hy0 Hy1] by (unfold y; nia).
  cbn [leadingFraction]. rewrite digit_digitChar by done.
  rewrite (proj2 (Z.ltb_ge _ _)) by (apply Z.div_le_lower_bound; lia).
  rewrite (proj2 (Z.ltb_ge _ _)) by lia.
  f_equal; [|lia]. unfold y. rewrite Z.rem_mul_r by lia. lia.
Qed.

(** A number in front of anything but a digit. *)
Definition nonDigit (s : string) : Prop :=
  match s with EmptyString => True | String c _ => digit c = None end.

Lemma leadingInt_stop s x : nonDigit s -> leadingInt s x = Some (x, s).
Proof. destruct s as [|c s]; [done|]. cbn [nonDigit leadingInt]. by intros ->. Qed.

Lemma leadingInt_pretty x s :
  (0 < x)%N -> Z.of_N x <= 2 ^ 63 -> leadingInt (pretty_N_go x s) 0 = leadingInt s (Z.of_N x).
Proof.
  revert s. induction (N.lt_wf_0 x) as [x _ IH]; intros s Hx Hlt. rewrite pretty_N_go_step by done.
  assert (leadingInt (String (pretty_N_char (x `mod` 10)) s) (Z.of_N (x `div` 10)) =
    leadingInt s (Z.of_N x)) as <-.
  { cbn [leadingInt]. rewrite digit_pretty by (by apply N.mod_lt).
    assert (10 * Z.of_N (x `div` 10) + Z.of_N (x `mod` 10) = Z.of_N x) as Heq
      by (pose proof (N.div_mod x 10 ltac:(lia)); lia).
    assert (Z.of_N (x `div` 10) <= 2 ^ 63 / 10) as Hle
      by (pose proof (N2Z.is_nonneg (x `mod` 10)); apply Z.div_le_lower_bound; [done|by lia]).
    by rewrite (proj2 (Z.ltb_ge _ _) Hle), Heq, (proj2 (Z.ltb_ge _ _) Hlt). }
  destruct (decide (0 < x `div` 10)%N) as [Hd|Hd].
  - apply IH; [by apply N.div_lt|done|]. pose proof (N.div_lt x 10 Hx ltac:(lia)). lia.
  - apply N.nlt_ge, N.le_0_r in Hd. by rewrite Hd, pretty_N_go_0.
Qed.

Lemma pretty_N_go_acc x s t : pretty_N_go x s +:+ t = pretty_N_go x (s +:+ t).
Proof.
  revert s. induction (N.lt_wf_0 x) as [x _ IH]; intros s. destruct (decide (0 < x)%N) as [Hx|Hx].
  - rewrite !(pretty_N_go_step x) by done. apply IH. by apply N.div_lt.
  - apply N.nlt_ge, N.le_0_r in Hx. by subst x.
Qed.

Lemma leadingInt_fmtInt a s :
  0 <= a <= 2 ^ 63 -> nonDigit s -> leadingInt (fmtInt a s) 0 = Some (a, s).
Proof.
  intros Ha Hs. unfold fmtInt. destruct a as [|q|q]; [|..|lia].
  - change (FormatInt 0 +:+ s) with (String "0" s). cbn [leadingInt].
    change (digit "0") with (Some 0). cbn. by apply leadingInt_stop.
  - change (FormatInt (Zpos q)) with (pretty_N_go (Npos q) ""). rewrite pretty_N_go_acc.
    change ("" +:+ s) with s. rewrite leadingInt_pretty by lia. by apply leadingInt_stop.
Qed.

(** What a number is printed as starts with a digit. *)
Definition startsDigit (s : string) : Prop :=
  match s with EmptyString => False | String c _ => is_Some (digit c) end.

Lemma fmtInt_head a s : 0 <= a <= 2 ^ 63 -> nonDigit s -> startsDigit (fmtInt a s).
Proof.
  intros Ha Hs. pose proof (leadingInt_fmtInt a s Ha Hs) as Hl.
  destruct (decide (a = 0)) as [->|Hne]; [by exists 0|].
  destruct (fmtInt a s) as [|c t]; cbn in *; [congruence|]. destruct (digit c); [done|congruence].
Qed.

Lemma startsDigit_ne s t : startsDigit s -> nonDigit t -> s <> t.
Proof. intros Hs Ht ->. destruct t; [done|]. cbn in *. rewrite Ht in Hs. by destruct Hs. Qed.

(** A unit ends where a number starts. *)
Definition unitEnd (s : string) : Prop := s = "" \/ startsDigit s.

Lemma unitPrefix_end s : unitEnd s -> unitPrefix s = ("", s).
Proof.
  intros [->|H]; [done|]. destruct s as [|c s]; [done|]. cbn in *.
  rewrite (bool_decide_true (is_Some _)) by done. by rewrite orb_true_r.
Qed.

Lemma unitPrefix_cons c s :
  c <> "."%char -> digit c = None ->
  unitPrefix (String c s) = let '(u, r) := unitPrefix s in (String c u, r).
Proof. intros Hc Hd. cbn [unitPrefix]. by rewrite bool_decide_false, Hd. Qed.

Inductive isUnit : string -> Z -> Prop :=
| unit_h : isUnit "h" hour
| unit_m : isUnit "m" minute
| unit_s : isUnit "s" second
| unit_ms : isUnit "ms" 1000000
| unit_us : isUnit micros 1000
| unit_ns : isUnit "ns" 1.

Lemma isUnit_spec u unit s :
  isUnit u unit -> unitEnd s ->
  nonDigit (u +:+ s) /\ 0 < unit /\ unitPrefix (u +:+ s) = (u, s) /\ unitMap u = Some unit /\
  (forall t, u +:+ s <> String "." t) /\ exists c v, u = String c v.
Proof.
  intros Hu Hs%unitPrefix_end. destruct Hu; (split_and!; [done|done| |done|done|by eauto]);
    unfold micros; rewrite ?append_cons, ?append_nil, !unitPrefix_cons, Hs by done; reflexivity.
Qed.

Lemma leadingFraction_stop s x scale : nonDigit s -> leadingFraction s x scale false = (x, scale, s).
Proof. destruct s as [|c s]; [done|]. cbn [nonDigit leadingFraction]. by intros ->. Qed.

(** The fraction after a number, as the loop reads it. *)
Definition fraction (s1 : string) : Z * Z * string * bool :=
  match s1 with
  | String "." rest =>
      let '(f, scale, s2) := leadingFraction rest 0 1 false in
      (f, scale, s2, negb (bool_decide (s2 = rest)))
  | _ => (0, 1, s1, false)
  end.

(** One component: a number, a fraction and a unit. *)
Lemma durationLoop_component fuel a s1 f scale post u unit s d :
  isUnit u unit -> unitEnd s -> nonDigit s1 -> fraction s1 = (f, scale, u +:+ s, post) ->
  0 <= a -> 0 <= f * unit / scale -> 0 <= d -> d + (a * unit + f * unit / scale) <= 2 ^ 63 ->
  durationLoop (S fuel) (fmtInt a s1) d = durationLoop fuel s (d + (a * unit + f * unit / scale)).
Proof.
  intros Hu Hs Hn Hf Ha Hq Hd Hb. destruct (isUnit_spec _ _ _ Hu Hs) as (_ & Hpos & Hup & Hum & _ & c & v & Huc).
  assert (0 <= a <= 2 ^ 63) as Ha' by nia.
  pose proof (leadingInt_fmtInt a _ Ha' Hn) as Hl. pose proof (fmtInt_head a _ Ha' Hn) as Hh.
  pose proof (startsDigit_ne _ _ Hh Hn) as Hne.
  destruct (fmtInt a _) as [|c0 t0] eqn:E; [done|]. cbn [durationLoop]. cbn [startsDigit] in Hh.
  rewrite (bool_decide_true (is_Some _)), orb_true_r by done. cbn [negb]. rewrite Hl.
  change (match s1 with String "." _ => _ | _ => _ end) with (fraction s1).
  rewrite Hf, (bool_decide_false (_ = String c0 t0)) by done. cbn [negb andb].
  rewrite Hup. subst u. cbv beta iota. rewrite Hum.
  rewrite (proj2 (Z.ltb_ge (2 ^ 63 / unit) a)) by (apply Z.div_le_lower_bound; nia).
  set (q := f * unit / scale) in *.
  rewrite (proj2 (Z.ltb_ge (2 ^ 63) (a * unit + q))), (proj2 (Z.ltb_ge (2 ^ 63) (d + (a * unit + q)))) by lia.
  done.
Qed.

Lemma durationLoop_int fuel a u unit s d :
  isUnit u unit -> unitEnd s -> 0 <= a -> 0 <= d -> d + a * unit <= 2 ^ 63 ->
  durationLoop (S fuel) (fmtInt a (u +:+ s)) d = durationLoop fuel s (d + a * unit).
Proof.
  intros Hu Hs Ha Hd Hb. destruct (isUnit_spec _ _ _ Hu Hs) as (Hn & _).
  rewrite (durationLoop_component fuel a (u +:+ s) 0 1 false u unit s d); try done.
  - by rewrite Z.mul_0_l, Z.div_1_r, Z.add_0_r.
  - by destruct Hu.
  - rewrite Z.mul_0_l, Z.div_1_r. lia.
Qed.

(** The last component of [fmtFrac] and its unit. *)
Lemma durationLoop_frac fuel prec u v d :
  isUnit u (10 ^ Z.of_nat prec) -> (prec <= 9)%nat -> 0 <= v -> 0 <= d -> d + v <= 2 ^ 63 ->
  let '(w, k) := fmtFrac prec v false u in
  durationLoop (S fuel) (fmtInt k w) d = Ok (d + v) /\ k = v / 10 ^ Z.of_nat prec /\ nonDigit w.
Proof.
  intros Hu Hp Hv Hd Hb. pose proof (pow10_pos prec) as Hpos.
  pose proof (Z.div_mod v (10 ^ Z.of_nat prec) ltac:(lia)) as Hdm.
  assert (0 <= v / 10 ^ Z.of_nat prec) as Hk by (apply Z.div_pos; lia).
  destruct (fmtFrac_spec prec v u Hv) as [[H0 ->]|(n & x & Hn & Hx & Heq & ->)].
  - rewrite <- (append_nil_r u). rewrite (durationLoop_int fuel _ u (10 ^ Z.of_nat prec) "" d); try done; [|by left|lia].
    split_and!; [by destruct fuel; repeat f_equal; lia|done|].
    rewrite append_nil_r. by destruct Hu.
  - assert (x mod 10 ^ Z.of_nat n * 10 ^ Z.of_nat prec / 10 ^ Z.of_nat n = v mod 10 ^ Z.of_nat prec) as Hq.
    { rewrite Heq. replace (Z.of_nat prec) with (Z.of_nat n + Z.of_nat (prec - n)) by lia.
      rewrite Z.pow_add_r by lia. pose proof (pow10_pos n).
      rewrite (Z.mul_comm (10 ^ Z.of_nat n)), Z.mul_assoc. by apply Z.div_mul; lia. }
    pose proof (Z.mod_pos_bound v (10 ^ Z.of_nat prec) Hpos).
    rewrite (durationLoop_component fuel _ _ (x mod 10 ^ Z.of_nat n) (10 ^ Z.of_nat n)
      (negb (bool_decide (u = pad n x u))) u (10 ^ Z.of_nat prec) "" d); rewrite ?Hq; try done.
    + split_and!; [destruct fuel; repeat f_equal; lia|done|done].
    + by left.
    + cbn [fraction]. rewrite leadingFraction_pad; [|done|done|].
      * rewrite leadingFraction_stop by (by destruct Hu). rewrite append_nil_r. repeat f_equal; lia.
      * assert (10 ^ Z.of_nat n <= 10 ^ 9) by (apply Z.pow_le_mono_r; lia). lia.
    + lia.
    + lia.
Qed.

(** ** The round trip *)

(** The fraction only depends on the digits it takes. *)
Lemma fmtFrac_shift prec v m print acc :
  fmtFrac prec (v + m * 10 ^ Z.of_nat prec) print acc =
  let '(w, k) := fmtFrac prec v print acc in (w, k + m).
Proof.
  revert v print acc. induction prec as [|prec IH]; intros v print acc; [cbn; by rewrite Z.mul_1_r|].
  cbn [fmtFrac]. rewrite Nat2Z.inj_succ, Z.pow_succ_r by lia.
  replace (v + m * (10 * 10 ^ Z.of_nat prec)) with (v + m * 10 ^ Z.of_nat prec * 10) by lia.
  by rewrite Z.mod_add, Z.div_add, IH by lia.
Qed.

Lemma fmtInt_length a w : 0 <= a <= 2 ^ 63 -> (String.length w < String.length (fmtInt a w))%nat.
Proof.
  intros Ha. pose proof (fmtInt_head a "" Ha I) as Hh. unfold fmtInt in *. rewrite append_nil_r in Hh.
  rewrite length_append. destruct (FormatInt a) as [|c t]; [done|]. cbn [String.length]. lia.
Qed.

(** The loop with the fuel it is given, once it is known to need [n]. *)
Definition reads (n : nat) (w : string) (d v : Z) : Prop :=
  forall fuel, durationLoop (n + fuel) w d = Ok v.

Lemma reads_length n w v : reads n w 0 v -> (n <= String.length w)%nat -> durationLoop (String.length w) w 0 = Ok v.
Proof. intros H Hn. replace (String.length w) with (n + (String.length w - n))%nat by lia. apply H. Qed.

Lemma reads_int n a u unit s d v :
  isUnit u unit -> startsDigit s -> 0 <= a -> 0 <= d -> d + a * unit <= 2 ^ 63 ->
  reads n s (d + a * unit) v -> reads (S n) (fmtInt a (u +:+ s)) d v.
Proof. intros Hu Hs Ha Hd Hb Hr fuel. cbn [Nat.add]. rewrite (durationLoop_int _ a u unit); auto. by right. Qed.

Lemma magnitude_small prec u unit :
  isUnit unit (10 ^ Z.of_nat prec) -> (prec <= 9)%nat -> 0 < u <= 2 ^ 63 ->
  let '(w, k) := fmtFrac prec u false unit in
  startsDigit (fmtInt k w) /\ reads 1 (fmtInt k w) 0 u.
Proof.
  intros Hu Hp Hb.
  pose proof (fun fuel => durationLoop_frac fuel prec unit u 0 Hu Hp ltac:(lia) ltac:(lia) ltac:(lia)) as Hf.
  destruct (fmtFrac prec u false unit) as [w k]. destruct (Hf 0%nat) as (_ & -> & Hn).
  pose proof (pow10_pos prec). split.
  - apply fmtInt_head; [|done]. split; [apply Z.div_pos; lia|]. apply Z.div_le_upper_bound; nia.
  - intros fuel. apply (Hf fuel).
Qed.

(** From a second on: the seconds after the [m] whole minutes. *)
Lemma seconds_read u :
  second <= u <= 2 ^ 63 ->
  let '(w, k) := fmtFrac 9 u false "s" in
  let w := fmtInt (k mod 60) w in
  let m := k / 60 in
  startsDigit w /\ 0 <= m /\ m * minute <= u /\ reads 1 w (m * minute) u.
Proof.
  intros Hu. set (m := u / minute). set (v := u - m * 60 * 10 ^ Z.of_nat 9).
  assert (0 <= v < minute /\ 0 <= m /\ v + m * minute = u) as (Hv & Hm & Huv).
  { unfold v, m. change (10 ^ Z.of_nat 9) with 1000000000. change minute with 60000000000.
    change second with 1000000000 in Hu. Z.div_mod_to_equations. lia. }
  assert (fmtFrac 9 u false "s" = let '(w, k) := fmtFrac 9 v false "s" in (w, k + m * 60)) as ->.
  { rewrite <- fmtFrac_shift. f_equal. unfold v. lia. }
  pose proof (fun fuel => durationLoop_frac fuel 9 "s" v (m * minute) unit_s ltac:(lia) ltac:(lia)
    ltac:(change minute with 60000000000; lia) ltac:(lia)) as Hf.
  destruct (fmtFrac 9 v false "s") as [w k]. destruct (Hf 0%nat) as (_ & Hk & Hn).
  change minute with 60000000000 in *. change (10 ^ Z.of_nat 9) with 1000000000 in Hk.
  assert ((k + m * 60) mod 60 = k) as -> by (subst k; Z.div_mod_to_equations; lia).
  assert ((k + m * 60) / 60 = m) as -> by (subst k; Z.div_mod_to_equations; lia).
  split_and!; [|done|lia|].
  - apply fmtInt_head; [|done]. subst k. Z.div_mod_to_equations. lia.
  - intros fuel. rewrite <- Huv, Z.add_comm. apply (Hf fuel).
Qed.

Lemma startsDigit_length w : startsDigit w -> (0 < String.length w)%nat.
Proof. destruct w; [done|]. cbn [String.length]. lia. Qed.

(** And the minutes after the whole hours. *)
Lemma minutes_read m w u :
  0 <= m -> m * minute <= u <= 2 ^ 63 -> startsDigit w -> reads 1 w (m * minute) u ->
  let w2 := fmtInt (m mod 60) (String "m" w) in
  startsDigit w2 /\ (2 <= String.length w2)%nat /\ reads 2 w2 (m / 60 * hour) u.
Proof.
  intros Hm Hu Hw Hr w2. assert (0 <= m mod 60 <= 2 ^ 63) as Hr60 by (Z.div_mod_to_equations; lia).
  pose proof (fmtInt_length (m mod 60) (String "m" w) Hr60) as Hl2. cbn [String.length] in Hl2.
  split_and!; [by apply fmtInt_head|unfold w2; lia|].
  assert (m / 60 * hour + m mod 60 * minute = m * minute) as Heq.
  { change minute with 60000000000. change hour with 3600000000000. Z.div_mod_to_equations. lia. }
  apply (reads_int 1 _ "m" minute w); [apply unit_m|done|lia| |rewrite Heq; lia|by rewrite Heq].
  change hour with 3600000000000. Z.div_mod_to_equations. lia.
Qed.

Lemma magnitude_reads u :
  0 < u <= 2 ^ 63 ->
  startsDigit (magnitude u) /\ durationLoop (String.length (magnitude u)) (magnitude u) 0 = Ok u.
Proof.
  intros Hb. unfold magnitude. destruct (u <? second) eqn:Es.
  - assert (exists prec unit, isUnit unit (10 ^ Z.of_nat prec) /\ (prec <= 9)%nat /\
      (if u <? 1000 then (0%nat, "ns") else if u <? 1000000 then (3%nat, micros) else (6%nat, "ms")) = (prec, unit))
      as (prec & unit & Hu & Hp & ->).
    { destruct (u <? 1000); [|destruct (u <? 1000000)]; do 2 eexists; (split_and!; [| |done]; [constructor|lia]). }
    pose proof (magnitude_small prec u unit Hu Hp Hb) as Hm.
    destruct (fmtFrac prec u false unit) as [w k]. destruct Hm as [Hd Hr]. split; [done|].
    apply (reads_length 1); [done|]. by apply startsDigit_length.
  - apply Z.ltb_ge in Es. pose proof (seconds_read u ltac:(lia)) as Hs.
    destruct (fmtFrac 9 u false "s") as [w0 k]. set (w := fmtInt (k mod 60) w0) in *. set (m := k / 60) in *.
    destruct Hs as (Hw & Hm & Hle & Hr). destruct (0 <? m) eqn:Em.
    + destruct (minutes_read m w u Hm ltac:(lia) Hw Hr) as (Hw2 & Hl2 & Hr2).
      set (w2 := fmtInt (m mod 60) (String "m" w)) in *.
      change minute with 60000000000 in *. assert (0 <= m / 60 <= 2 ^ 63) as Hrh by (Z.div_mod_to_equations; lia).
      destruct (0 <? m / 60) eqn:Eh.
      * pose proof (fmtInt_length (m / 60) (String "h" w2) Hrh) as Hl3. cbn [String.length] in Hl3.
        split; [by apply fmtInt_head|]. apply (reads_length 3); [|lia].
        apply (reads_int 2 _ "h" hour w2); [apply unit_h|done|lia|lia| |done].
        change hour with 3600000000000. Z.div_mod_to_equations. lia.
      * split; [done|]. apply (reads_length 2); [|lia].
        apply Z.ltb_ge in Eh. by replace (m / 60) with 0 in Hr2 by lia.
    + split; [done|]. apply (reads_length 1); [|by apply startsDigit_length].
      apply Z.ltb_ge in Em. by replace m with 0 in Hr by lia.
Qed.

(** The sign, and that a text which is a number and a unit is not just "0". *)
Lemma ParseDuration_body w u :
  startsDigit w -> durationLoop (String.length w) w 0 = Ok u ->
  (u <= 2 ^ 63 - 1 -> ParseDuration w = Ok u) /\ ParseDuration (String "-" w) = Ok (- u).
Proof.
  intros Hd Hw. destruct w as [|c t]; [done|].
  assert (String c t <> "0") as H0 by (intros [= -> ->]; done).
  assert (c <> "-"%char /\ c <> "+"%char) as [Hm Hp] by (split; intros ->; by destruct Hd).
  unfold ParseDuration. split.
  - intros Hu. replace (match c with "-"%char => _ | "+"%char => _ | _ => _ end) with (false, String c t)
      by (clear -Hm Hp; by destruct c as [[] [] [] [] [] [] [] []]).
    by rewrite !bool_decide_false, Hw, (proj2 (Z.ltb_ge _ _) Hu) by done.
  - by rewrite !bool_decide_false, Hw by done.
Qed.

(** What Duration.String prints, ParseDuration reads back. *)
Theorem ParseDuration_String d :
  minInt64 <= d <= maxInt64 -> ParseDuration (Duration_String d) = Ok d.
Proof.
  unfold minInt64, maxInt64. intros Hd. unfold Duration_String. destruct (d =? 0) eqn:E0.
  { apply Z.eqb_eq in E0 as ->. done. }
  apply Z.eqb_neq in E0. destruct (d <? 0) eqn:En; [apply Z.ltb_lt in En|apply Z.ltb_ge in En].
  - destruct (magnitude_reads (- d) ltac:(lia)) as [Hs Hr].
    destruct (ParseDuration_body _ _ Hs Hr) as [_ ->]. f_equal. lia.
  - destruct (magnitude_reads d ltac:(lia)) as [Hs Hr].
    destruct (ParseDuration_body _ _ Hs Hr) as [-> _]; [done|lia].
Qed.

End Durations.
