(* ===== verification/ConfigDocs.v ===== *)
(** * tools/gen-config-docs: the configuration reference from the source text

    The generator locates the Load functions with go/parser, walks their source
    text with regular expressions and prints a table. [File] holds the nodes of
    go/ast that it looks at; go/parser itself and the file system are
    parameters. [bindEnvVars], [renderDefault] and the printing are followed
    call by call, with the patterns of the source compiled by [Regexp]. A quote
    in a pattern is written as a backtick here and restored by [GoStrings.q]. *)

From Stdlib Require Import Ascii.
From S2P Require Import Prelude GoStrings Regexp Durations.

Module ConfigDocs.
Import GoStrings.

(** ** The nodes of go/ast that are inspected *)

Module ast.

(** A comment group: the text of each comment, slashes included. *)
Definition CommentGroup : Type := list string.

Record Field := MkField {
  Names : list string;
  Doc : option CommentGroup;
  Comment : option CommentGroup
}.

Inductive litKind := STRING | OtherLit.

Inductive Expr :=
| StructType (fields : list Field)
| BasicLit (kind : litKind) (value : string)
| OtherExpr.

Inductive Spec :=
| TypeSpec (name : string) (type : Expr)
| ValueSpec (names : list string) (values : list Expr)
| ImportSpec.

Inductive tok := TYPE | CONST | OtherTok.

(** The body of a function is given by the offsets of its braces. *)
Inductive Decl :=
| GenDecl (t : tok) (specs : list Spec)
| FuncDecl (name : string) (body : option (nat * nat)).

Definition File : Type := list Decl.

(** The first letter is upper case; the sources' identifiers are ASCII. *)
Definition IsExported (name : string) : bool :=
  match name with
  | EmptyString => false
  | String c _ => let n := N_of_ascii c in ((65 <=? n) && (n <=? 90))%N
  end.

End ast.

(** ** Data *)

Record field := MkField { name : string; doc : string }.

Record structInfo := MkStructInfo {
  sname : string;
  fields : list field;
  order : gmap string Z
}.

Record envBinding := MkEnvBinding {
  envVar : string;
  defValue : string;
  required : bool;
  note : string
}.

#[export] Instance envBinding_eq_dec : EqDecision envBinding.
Proof. solve_decision. Defined.

Definition withNote (n : string) (b : envBinding) : envBinding :=
  MkEnvBinding (envVar b) (defValue b) (required b) n.

(** Required, and so without a default. *)
Definition require (b : envBinding) : envBinding :=
  MkEnvBinding (envVar b) "" true (note b).

(** ** Structs, comments and constants *)

Definition cleanComment (cg : option ast.CommentGroup) : string :=
  match cg with
  | None => ""
  | Some l => TrimSpace (Join ((fun c => TrimSpace (CutPrefix c "//").1) <$> l) " ")
  end.

(** One field of a struct: those without a name and the unexported are left
    out. *)
Definition parseField (si : structInfo) (f : ast.Field) : structInfo :=
  match ast.Names f with
  | [] => si
  | n :: _ =>
      if negb (ast.IsExported n) then si
      else
        let d := cleanComment (ast.Doc f) in
        let d := if bool_decide (d = "") then cleanComment (ast.Comment f) else d in
        MkStructInfo (sname si) (fields si ++ [MkField n d])
          (<[n := Z.of_nat (length (fields si))]> (order si))
  end.

Definition parseStruct (out : gmap string structInfo) (s : ast.Spec) : gmap string structInfo :=
  match s with
  | ast.TypeSpec n (ast.StructType l) =>
      <[n := foldl parseField (MkStructInfo n [] ∅) l]> out
  | _ => out
  end.

Definition parseStructs (file : ast.File) : gmap string structInfo :=
  foldl (fun out d =>
    match d with
    | ast.GenDecl ast.TYPE specs => foldl parseStruct out specs
    | _ => out
    end) ∅ file.

(** strconv.Unquote: a raw literal loses its carriage returns; an interpreted
    one without escapes is its contents. One with escapes is left to
    [unescape]. *)
Section Unquote.
Variable unescape : string -> result string.

(** The literal without its first and last characters, if they are [qt]. *)
Definition inner (qt : ascii) (s : string) : option string :=
  match s with
  | String c rest =>
      if bool_decide (c = qt) then
        match String.rev rest with
        | String c' w => if bool_decide (c' = qt) then Some (String.rev w) else None
        | EmptyString => None
        end
      else None
  | EmptyString => None
  end.

Definition Unquote (s : string) : result string :=
  match inner backquote s, inner dquote s with
  | Some w, _ =>
      if lacks backquote w then Ok (ReplaceAll w "013" "") else Err ErrSyntax
  | _, Some w =>
      if negb (lacks "010" w) then Err ErrSyntax
      else if lacks "\" w then if lacks dquote w then Ok w else Err ErrSyntax
      else unescape w
  | None, None => Err ErrSyntax
  end.

Definition parseConst (out : gmap string string) (s : ast.Spec) : gmap string string :=
  match s with
  | ast.ValueSpec [n] [ast.BasicLit ast.STRING v] =>
      match Unquote v with Ok u => <[n := u]> out | Err _ => out end
  | _ => out
  end.

Definition parseConsts (file : ast.File) : gmap string string :=
  foldl (fun out d =>
    match d with
    | ast.GenDecl ast.CONST specs => foldl parseConst out specs
    | _ => out
    end) ∅ file.

End Unquote.

Fixpoint funcBodyText (file : ast.File) (src : string) (fnName : string) : string :=
  match file with
  | [] => ""
  | ast.FuncDecl n (Some (start, stop)) :: file =>
      if bool_decide (n = fnName) then String.substring start (stop - start) src
      else funcBodyText file src fnName
  | _ :: file => funcBodyText file src fnName
  end.

(** ** Patterns *)

Definition re (pattern : string) : Regexp.regex := Regexp.MustCompile (q pattern).

Definition reCompositeGetEnv : Regexp.regex := Eval vm_compute in re
  "(\w+):\s*get(?:Env|IntEnv|Int64Env|Uint64Env|Float64Env|DurationEnv)\(`([A-Z0-9_]+)`,\s*([^)]*)\)".
Definition reCompositeOsGetenv : Regexp.regex := Eval vm_compute in re
  "(\w+):\s*os\.Getenv\(`([A-Z0-9_]+)`\)".
Definition reCompositeLiteral : Regexp.regex := Eval vm_compute in re "(?m)^\s*(\w+):\s*(.+?),\s*(?://.*)?$".
Definition reIfGetEnv : Regexp.regex := Eval vm_compute in re
  "if c\.(\w+), err = get(?:IntEnv|Int64Env|Uint64Env|Float64Env|DurationEnv)\(`([A-Z0-9_]+)`,\s*([^)]*)\);".
Definition reIfRequireKey : Regexp.regex := Eval vm_compute in re
  "if c\.(\w+), err = requireECKeyEnv\(`([A-Z0-9_]+)`\);".
Definition reBareOsGetenv : Regexp.regex := Eval vm_compute in re
  "(?m)^\s*c\.(\w+) = os\.Getenv\(`([A-Z0-9_]+)`\)\s*$".
Definition reRequiredCheck : Regexp.regex := Eval vm_compute in re "if (?:c\.(\w+)|(\w+)) == `` \{".
Definition reLocalGetEnv : Regexp.regex := Eval vm_compute in re
  "(\w+) := getEnv\(`([A-Z0-9_]+)`,\s*`([^`]*)`\)".
Definition reLocalOsGetenv : Regexp.regex := Eval vm_compute in re "(\w+) := os\.Getenv\(`([A-Z0-9_]+)`\)".
Definition reJSONUnmarshal : Regexp.regex := Eval vm_compute in re
  "json\.Unmarshal\(\[\]byte\((\w+)\), &c\.(\w+)\)".
Definition reStringsSplit : Regexp.regex := Eval vm_compute in re "c\.(\w+) = strings\.Split\((\w+),".
Definition reDurTriple : Regexp.regex := Eval vm_compute in re "^(\d+)\s*\*\s*(\d+)\s*\*\s*time\.(\w+)$".
Definition reDurDouble : Regexp.regex := Eval vm_compute in re "^(\d+)\s*\*\s*time\.(\w+)$".
Definition reDurBare : Regexp.regex := Eval vm_compute in re "^time\.(\w+)$".
Definition reDigits : Regexp.regex := Eval vm_compute in re "^\d[\d_]*$".

(** Every pattern compiles, and none of them matches the empty text. *)
Lemma patterns_consume :
  forallb Regexp.consumes
    [reCompositeGetEnv; reCompositeOsGetenv; reCompositeLiteral; reIfGetEnv; reIfRequireKey; reBareOsGetenv;
     reRequiredCheck; reLocalGetEnv; reLocalOsGetenv; reJSONUnmarshal; reStringsSplit; reDurTriple; reDurDouble;
     reDurBare; reDigits] = true.
Proof. reflexivity. Qed.

(** ** Defaults *)

Definition timeUnits : gmap string Z :=
  {[ "Nanosecond" := 1; "Microsecond" := 1000; "Millisecond" := 1000000;
     "Second" := second; "Minute" := minute; "Hour" := hour ]}.

(** The number that strconv.Atoi returns, its error dropped: a number out of
    range is clamped, anything else is zero. *)
Definition Atoi (s : string) : Z :=
  match ParseInt s with
  | Ok n => n
  | Err e =>
      if bool_decide (e = ErrRange) then
        match s with String "-" _ => minInt64 | _ => maxInt64 end
      else 0
  end.

Definition durTriple (raw : string) : option string :=
  m ← Regexp.FindStringSubmatch reDurTriple raw;
  unit ← timeUnits !! Regexp.group 3 m;
  Some (Durations.Duration_String
    (i64 (i64 (Atoi (Regexp.group 1 m) * Atoi (Regexp.group 2 m)) * unit))).

Definition durDouble (raw : string) : option string :=
  m ← Regexp.FindStringSubmatch reDurDouble raw;
  unit ← timeUnits !! Regexp.group 2 m;
  Some (Durations.Duration_String (i64 (Atoi (Regexp.group 1 m) * unit))).

Definition durBare (raw : string) : option string :=
  m ← Regexp.FindStringSubmatch reDurBare raw;
  unit ← timeUnits !! Regexp.group 1 m;
  Some (Durations.Duration_String unit).

Definition renderDefault (raw : string) (consts : gmap string string) : string :=
  let raw := TrimSpace raw in
  match consts !! raw with
  | Some v => v
  | None =>
  match durTriple raw with
  | Some v => v
  | None =>
  match durDouble raw with
  | Some v => v
  | None =>
  match durBare raw with
  | Some v => v
  | None =>
      if Regexp.MatchString reDigits raw then ReplaceAll raw "_" ""
      else Trim raw dquote
  end end end end.

(** ** Bindings *)

(** [for _, m := range re.FindAllStringSubmatch(body, -1)], with the first
    three groups. *)
Definition forMatches {A} (r : Regexp.regex) (body : string)
    (f : string -> string -> string -> A -> A) (a : A) : A :=
  foldl (fun a m => f (Regexp.group 1 m) (Regexp.group 2 m) (Regexp.group 3 m) a) a
    (Regexp.FindAllStringSubmatch r body).

Definition bindingMap : Type := gmap string envBinding.

Definition plain (v d : string) : envBinding := MkEnvBinding v d false "".

Section Bind.
Variable body : string.
Variable consts : gmap string string.

(** field -> its composite-literal text *)
Definition plainLiteral : gmap string string :=
  forMatches reCompositeLiteral body (fun f rhs _ out => <[f := TrimSpace rhs]> out) ∅.

(** The patterns that bind a field directly. *)
Definition bindFields : bindingMap :=
  let b := forMatches reCompositeGetEnv body
    (fun f v d => <[f := plain v (renderDefault d consts)]>) ∅ in
  let b := forMatches reCompositeOsGetenv body (fun f v _ => <[f := plain v ""]>) b in
  let b := forMatches reIfGetEnv body
    (fun f v arg3 =>
       let def := TrimSpace arg3 in
       let def := if bool_decide (def = "c." +:+ f) then default "" (plainLiteral !! f) else def in
       <[f := plain v (renderDefault def consts)]>) b in
  let b := forMatches reIfRequireKey body
    (fun f v _ => <[f := MkEnvBinding v "" true "PEM-encoded EC private key"]>) b in
  forMatches reBareOsGetenv body (fun f v _ => <[f := plain v ""]>) b.

(** local variable -> binding *)
Definition bindLocals : bindingMap :=
  let l := forMatches reLocalGetEnv body (fun x v d => <[x := plain v d]>) ∅ in
  forMatches reLocalOsGetenv body (fun x v _ => <[x := plain v ""]>) l.

(** The fields that a local variable is consumed into. *)
Definition consume (n : string) (locals : bindingMap) (f x : string) (b : bindingMap) : bindingMap :=
  match locals !! x with Some l => <[f := withNote n l]> b | None => b end.

Definition bindConsumed (locals b : bindingMap) : bindingMap :=
  let b := forMatches reStringsSplit body (fun f x _ => consume "comma-separated list" locals f x) b in
  forMatches reJSONUnmarshal body (fun x f _ => consume "JSON object" locals f x) b.

(** One required-check: on a field, or on a local variable, from which it is
    propagated to the fields bound to the same variable. *)
Definition requiredCheck (f x _m : string) (st : bindingMap * bindingMap) : bindingMap * bindingMap :=
  let '(bindings, locals) := st in
  if negb (bool_decide (f = "")) then
    (match bindings !! f with Some b => <[f := require b]> bindings | None => bindings end, locals)
  else
    match locals !! x with
    | Some l =>
        ((fun b => if bool_decide (envVar b = envVar l) then require b else b) <$> bindings,
         <[x := require l]> locals)
    | None => st
    end.

Definition bindEnvVars : bindingMap :=
  let locals := bindLocals in
  (forMatches reRequiredCheck body requiredCheck (bindConsumed locals bindFields, locals)).1.

End Bind.

(** ** The document *)

Record serviceDoc := MkServiceDoc {
  binary : string;
  structName : string;
  loadFuncName : string
}.

Definition services : list serviceDoc :=
  [MkServiceDoc "cmd/as" "ASConfig" "LoadAS";
   MkServiceDoc "cmd/ingestion-service" "IngestionConfig" "LoadIngestion";
   MkServiceDoc "cmd/verifier-service" "VerifierConfig" "LoadVerifier";
   MkServiceDoc "cmd/ingress-router" "IngressConfig" "LoadIngress"].

Definition nl : string := String "010" "".

Definition code (s : string) : string := String backquote s +:+ String backquote "".

(** The cells of one field: its variable and its default. *)
Definition cells (b : option envBinding) : string * string :=
  match b with
  | None => ("—", "—")
  | Some eb =>
      let def :=
        if required eb then "*(required)*"
        else if negb (bool_decide (defValue eb = "")) then code (defValue eb)
        else "—" in
      (code (envVar eb),
       if negb (bool_decide (note eb = "")) then def +:+ " (" +:+ note eb +:+ ")" else def)
  end.

Definition row (bindings : bindingMap) (f : field) : string :=
  let '(envVar, def) := cells (bindings !! name f) in
  let desc := ReplaceAll (ReplaceAll (doc f) "|" "\|") "010" " " in
  "| " +:+ code (name f) +:+ " | " +:+ envVar +:+ " | " +:+ def +:+ " | " +:+ desc +:+ " |" +:+ nl.

Definition concat (l : list string) : string := foldr String.app "" l.

Definition section (svc : serviceDoc) (bindings : bindingMap) (si : structInfo) : string :=
  "## " +:+ binary svc +:+ nl +:+ nl +:+
  "Config struct: " +:+ code ("internal/config." +:+ structName svc) +:+ nl +:+ nl +:+
  "| Field | Env Variable | Default | Description |" +:+ nl +:+
  "|-------|-------------|---------|-------------|" +:+ nl +:+
  concat (row bindings <$> fields si) +:+ nl.

Definition tocEntry (svc : serviceDoc) : string :=
  "- [" +:+ binary svc +:+ "](#" +:+ ToLower (ReplaceAll (binary svc) "/" "") +:+ ")" +:+ nl.

Definition preamble : string :=
  "<!-- Regenerate with: go run ./tools/gen-config-docs -->" +:+ nl +:+ nl +:+
  "# Configuration Reference" +:+ nl +:+ nl +:+
  "Every field is set purely from environment variables (docs/design.md §12) — " +:+
  "no YAML/config-file convention at this scale. `Required` fields with no default " +:+
  "make the binary refuse to start rather than run with a guessed value." +:+ nl +:+ nl +:+
  "## Table of Contents" +:+ nl +:+ nl +:+
  concat (tocEntry <$> services) +:+
  nl +:+ "---" +:+ nl +:+ nl.

(** [mapM] with the first error. *)
Fixpoint collect {A B} (f : A -> result B) (l : list A) : result (list B) :=
  match l with
  | [] => Ok []
  | a :: l => result_bind (f a) (fun b => result_bind (collect f l) (fun bs => Ok (b :: bs)))
  end.

Section Generate.
Variable unescape : string -> result string.
Variable file : ast.File.
Variable src : string.

(** The bindings of one service; log.Fatalf is an error. *)
Definition serviceBindings (svc : serviceDoc) : result bindingMap :=
  let body := funcBodyText file src (loadFuncName svc) in
  if bool_decide (body = "") then Err (ErrMsg ("could not find function " +:+ loadFuncName svc))
  else Ok (bindEnvVars body (parseConsts unescape file)).

Definition serviceSection (svcb : serviceDoc * bindingMap) : result string :=
  let '(svc, b) := svcb in
  match parseStructs file !! structName svc with
  | None => Err (ErrMsg ("struct " +:+ structName svc +:+ " not found"))
  | Some si => Ok (section svc b si)
  end.

Definition generate : result string :=
  result_bind (collect serviceBindings services) (fun bs =>
  result_bind (collect serviceSection (zip services bs)) (fun ss =>
  Ok (preamble +:+ concat ss))).

End Generate.

(** [main]: the file that is read and the one that is written. *)
Section Main.
Variable ReadFile : string -> result string.
Variable ParseFile : string -> result ast.File.
Variable MkdirAll : string -> result unit.
Variable WriteFile : string -> string -> result unit.
Variable Join : string -> string -> string.
Variable Dir : string -> string.
Variable unescape : string -> result string.

Definition main (root out : string) : result unit :=
  result_bind (ReadFile (Join root "internal/config/config.go")) (fun src =>
  result_bind (ParseFile src) (fun file =>
  result_bind (generate unescape file src) (fun text =>
  let outPath := Join root out in
  result_bind (MkdirAll (Dir outPath)) (fun _ =>
  WriteFile outPath text)))).

End Main.

End ConfigDocs.
