(* ===== verification/Base64.v ===== *)
(** * encoding/base64, as token.go, cwt.go and config.go use it

    [Encode] and [Decode] over an alphabet, without padding
    (base64.RawURLEncoding), and the padded standard encoding. [Decode]
    follows the library: line breaks are skipped, a final group of two or
    three characters gives one or two bytes, one character is an error, and
    the unused low bits of a final group are ignored. *)

From Stdlib Require Import Ascii.
From S2P Require Import Prelude GoStrings.

Module Base64.

#[local] Open Scope go_scope.

(** ** Alphabets *)

Definition urlAlphabet : string :=
  "ABCDEFGHIJKLMNOPQRSTUVWXYZabcdefghijklmnopqrstuvwxyz0123456789-_".

Definition stdAlphabet : string :=
  "ABCDEFGHIJKLMNOPQRSTUVWXYZabcdefghijklmnopqrstuvwxyz0123456789+/".

Definition charOf (alphabet : string) (n : Z) : ascii :=
  default "A"%char (String.get (Z.to_nat n) alphabet).

(** The position of a character in the alphabet. *)
Fixpoint findChar (alphabet : string) (c : ascii) (i : Z) : option Z :=
  match alphabet with
  | EmptyString => None
  | String a rest => if bool_decide (a = c) then Some i else findChar rest c (i + 1)
  end.

Definition valueOf (alphabet : string) (c : ascii) : option Z := findChar alphabet c 0.

(** ** Encoding *)

Section Codec.
Context (alphabet : string).

Definition ch (n : Z) : ascii := charOf alphabet n.

(** Three bytes to four characters; the tail without padding. *)
Fixpoint Encode (bs : list Z) : string :=
  match bs with
  | [] => ""
  | [a] => String (ch (a / 4)) (String (ch (a mod 4 * 16)) "")
  | [a; b] =>
      String (ch (a / 4)) (String (ch (a mod 4 * 16 + b / 16)) (String (ch (b mod 16 * 4)) ""))
  | a :: b :: c :: rest =>
      String (ch (a / 4)) (String (ch (a mod 4 * 16 + b / 16))
        (String (ch (b mod 16 * 4 + c / 64)) (String (ch (c mod 64)) (Encode rest))))
  end.

(** ** Decoding *)

Definition errCorrupt : error := ErrMsg "illegal base64 data".

(** The values of the characters, line breaks skipped. *)
Fixpoint values (s : string) : result (list Z) :=
  match s with
  | EmptyString => Ok []
  | String c rest =>
      if bool_decide (c = "010"%char) || bool_decide (c = "013"%char) then values rest
      else
        match valueOf alphabet c with
        | None => Err errCorrupt
        | Some v => let? vs := values rest in Ok (v :: vs)
        end
  end.

Fixpoint groups (vs : list Z) : result (list Z) :=
  match vs with
  | [] => Ok []
  | [_] => Err errCorrupt
  | [v; w] => Ok [v * 4 + w / 16]
  | [v; w; x] => Ok [v * 4 + w / 16; w mod 16 * 16 + x / 4]
  | v :: w :: x :: y :: rest =>
      let? bs := groups rest in
      Ok (v * 4 + w / 16 :: w mod 16 * 16 + x / 4 :: x mod 4 * 64 + y :: bs)
  end.

Definition Decode (s : string) : result (list Z) :=
  let? vs := values s in groups vs.

(** The encoding with padding. *)
Fixpoint EncodePadded (bs : list Z) : string :=
  match bs with
  | [] => ""
  | [a] => String (ch (a / 4)) (String (ch (a mod 4 * 16)) "==")
  | [a; b] =>
      String (ch (a / 4)) (String (ch (a mod 4 * 16 + b / 16)) (String (ch (b mod 16 * 4)) "="))
  | a :: b :: c :: rest =>
      String (ch (a / 4)) (String (ch (a mod 4 * 16 + b / 16))
        (String (ch (b mod 16 * 4 + c / 64)) (String (ch (c mod 64)) (EncodePadded rest))))
  end.

(** Its characters, [None] for the padding character. *)
Fixpoint paddedValues (s : string) : result (list (option Z)) :=
  match s with
  | EmptyString => Ok []
  | String c rest =>
      if bool_decide (c = "010"%char) || bool_decide (c = "013"%char) then paddedValues rest
      else if bool_decide (c = "="%char) then let? vs := paddedValues rest in Ok (None :: vs)
      else
        match valueOf alphabet c with
        | None => Err errCorrupt
        | Some v => let? vs := paddedValues rest in Ok (Some v :: vs)
        end
  end.

(** Groups of four; padding only at the end of the last. *)
Fixpoint paddedGroups (vs : list (option Z)) : result (list Z) :=
  match vs with
  | [] => Ok []
  | [Some v; Some w; None; None] => Ok [v * 4 + w / 16]
  | [Some v; Some w; Some x; None] => Ok [v * 4 + w / 16; w mod 16 * 16 + x / 4]
  | Some v :: Some w :: Some x :: Some y :: rest =>
      let? bs := paddedGroups rest in
      Ok (v * 4 + w / 16 :: w mod 16 * 16 + x / 4 :: x mod 4 * 64 + y :: bs)
  | _ => Err errCorrupt
  end.

Definition DecodePadded (s : string) : result (list Z) :=
  let? vs := paddedValues s in paddedGroups vs.

(** ** Round trip *)

(** The alphabet has 64 different characters, none of them a line break. *)
Definition alphabet_ok : Prop :=
  forall n, 0 <= n < 64 ->
    valueOf alphabet (ch n) = Some n /\ ch n <> "010"%char /\ ch n <> "013"%char /\ ch n <> "="%char.

Lemma values_cons n s :
  alphabet_ok -> 0 <= n < 64 ->
  values (String (ch n) s) = let? vs := values s in Ok (n :: vs).
Proof.
  intros Ha Hn. destruct (Ha n Hn) as (Hv & H10 & H13 & _). cbn [values].
  by rewrite !bool_decide_false, Hv by done.
Qed.

Lemma paddedValues_cons n s :
  alphabet_ok -> 0 <= n < 64 ->
  paddedValues (String (ch n) s) = let? vs := paddedValues s in Ok (Some n :: vs).
Proof.
  intros Ha Hn. destruct (Ha n Hn) as (Hv & H10 & H13 & Heq). cbn [paddedValues].
  by rewrite !bool_decide_false, Hv by done.
Qed.

(** Induction three elements at a time. *)
Lemma list_ind3 {A} (P : list A -> Prop) :
  P [] -> (forall a, P [a]) -> (forall a b, P [a; b]) ->
  (forall a b c l, P l -> P (a :: b :: c :: l)) -> forall l, P l.
Proof.
  intros H0 H1 H2 H3. fix IH 1.
  intros [|a [|b [|c l]]]; [exact H0|exact (H1 a)|exact (H2 a b)|exact (H3 a b c l (IH l))].
Qed.

Lemma byte_parts a :
  0 <= a < 256 ->
  (0 <= a / 4 < 64 /\ 0 <= a mod 4 < 4) /\ (0 <= a / 16 < 16 /\ 0 <= a mod 16 < 16) /\
  (0 <= a / 64 < 4 /\ 0 <= a mod 64 < 64).
Proof. intros. Z.div_mod_to_equations. lia. Qed.

Lemma Decode_Encode bs : alphabet_ok -> bytes_ok bs -> Decode (Encode bs) = Ok bs.
Proof.
  intros Ha. unfold Decode. induction bs as [|a|a b|a b c l IH] using list_ind3; intros Hok; [done|..];
    unfold bytes_ok in Hok; rewrite ?Forall_cons in Hok; destruct_and?;
    repeat match goal with H : 0 <= ?x, H' : ?x < 256 |- _ =>
      pose proof (byte_parts x (conj H H')); revert H H' end; intros;
    cbn [Encode]; rewrite !values_cons by (done || lia); cbn [values result_bind groups].
  1, 2: apply f_equal; repeat apply (f_equal2 cons); try reflexivity; Z.div_mod_to_equations; lia.
  destruct (values (Encode l)) as [vs|e]; simpl in *; [|by discriminate IH].
  rewrite IH by done. simpl.
  apply f_equal; repeat apply (f_equal2 cons); try reflexivity; Z.div_mod_to_equations; lia.
Qed.

Lemma DecodePadded_EncodePadded bs :
  alphabet_ok -> bytes_ok bs -> DecodePadded (EncodePadded bs) = Ok bs.
Proof.
  intros Ha. unfold DecodePadded.
  induction bs as [|a|a b|a b c l IH] using list_ind3; intros Hok; [done|..];
    unfold bytes_ok in Hok; rewrite ?Forall_cons in Hok; destruct_and?;
    repeat match goal with H : 0 <= ?x, H' : ?x < 256 |- _ =>
      pose proof (byte_parts x (conj H H')); revert H H' end; intros;
    cbn [EncodePadded]; rewrite !paddedValues_cons by (done || lia).
  1, 2: simpl; apply f_equal; repeat apply (f_equal2 cons); try reflexivity;
    Z.div_mod_to_equations; lia.
  destruct (paddedValues (EncodePadded l)) as [vs|e]; simpl in *; [|by discriminate IH].
  rewrite IH by done. simpl.
  apply f_equal; repeat apply (f_equal2 cons); try reflexivity; Z.div_mod_to_equations; lia.
Qed.

(** What holds of the alphabet holds of every encoding. *)
Lemma Encode_chars (p : ascii -> bool) bs :
  (forall n, 0 <= n < 64 -> p (ch n) = true) -> bytes_ok bs -> GoStrings.allChars p (Encode bs) = true.
Proof.
  intros Hp. unfold bytes_ok. induction bs as [|a|a b|a b c l IH] using list_ind3; intros Hok; [done|..];
    rewrite ?Forall_cons in Hok; destruct_and?;
    repeat match goal with H : 0 <= ?x, H' : ?x < 256 |- _ =>
      pose proof (byte_parts x (conj H H')); revert H H' end; intros;
    cbn [Encode GoStrings.allChars]; rewrite !Hp by lia; [done..|].
  by apply IH.
Qed.

End Codec.

Definition RawURLEncode : list Z -> string := Encode urlAlphabet.

Definition RawURLDecode : string -> result (list Z) := Decode urlAlphabet.

Definition StdEncode : list Z -> string := EncodePadded stdAlphabet.

Definition StdDecode : string -> result (list Z) := DecodePadded stdAlphabet.

Lemma alphabet_table (a : string) :
  forallb (fun n => bool_decide (valueOf a (ch a n) = Some n) &&
                    negb (bool_decide (ch a n = "010"%char)) &&
                    negb (bool_decide (ch a n = "013"%char)) &&
                    negb (bool_decide (ch a n = "="%char))) (seqZ 0 64) = true ->
  alphabet_ok a.
Proof.
  intros H n Hn. rewrite forallb_forall in H.
  specialize (H n). rewrite !andb_true_iff, !negb_true_iff, !bool_decide_eq_false in H.
  destruct H as [[[H1%bool_decide_eq_true H2] H3] H4]; [|done].
  apply list_elem_of_In, elem_of_seqZ. lia.
Qed.

Lemma urlAlphabet_ok : alphabet_ok urlAlphabet.
Proof. apply alphabet_table. vm_compute. reflexivity. Qed.

Lemma stdAlphabet_ok : alphabet_ok stdAlphabet.
Proof. apply alphabet_table. vm_compute. reflexivity. Qed.

Lemma Std_roundtrip bs : bytes_ok bs -> StdDecode (StdEncode bs) = Ok bs.
Proof. apply DecodePadded_EncodePadded, stdAlphabet_ok. Qed.

Lemma RawURL_roundtrip bs : bytes_ok bs -> RawURLDecode (RawURLEncode bs) = Ok bs.
Proof. apply Decode_Encode, urlAlphabet_ok. Qed.

Lemma Encode_chars_table (p : ascii -> bool) (a : string) bs :
  forallb (fun n => p (ch a n)) (seqZ 0 64) = true -> bytes_ok bs ->
  GoStrings.allChars p (Encode a bs) = true.
Proof.
  intros H. apply Encode_chars. intros n Hn. rewrite forallb_forall in H.
  apply H, list_elem_of_In, elem_of_seqZ. lia.
Qed.

Lemma RawURLEncode_ascii bs : bytes_ok bs -> GoStrings.isASCII (RawURLEncode bs) = true.
Proof. apply Encode_chars_table. vm_compute. reflexivity. Qed.

Lemma RawURLEncode_lacks_dot bs : bytes_ok bs -> GoStrings.lacks "." (RawURLEncode bs) = true.
Proof. apply Encode_chars_table. vm_compute. reflexivity. Qed.

(** RFC 4648 test vectors. *)
Example Encode_vectors :
  StdEncode (GoStrings.bytesOf "f") = "Zg==" /\ StdEncode (GoStrings.bytesOf "fo") = "Zm8=" /\
  StdEncode (GoStrings.bytesOf "foobar") = "Zm9vYmFy" /\ RawURLEncode (GoStrings.bytesOf "fooba") = "Zm9vYmE" /\
  StdDecode "Zg==" = Ok (GoStrings.bytesOf "f") /\ StdDecode "Zg=" = Err errCorrupt.
Proof. vm_compute. split_and!; reflexivity. Qed.

End Base64.
