(* ===== verification/Signer.v ===== *)
(** * internal/statuslist/signer.go: ES256 through crypto.Signer

    [Ecdsa] is what the code relies on of crypto.Signer and crypto/ecdsa: a
    signer, its public half, signing and verification, with the documented
    law that a signature is the ASN.1 DER encoding of two integers that
    verify. The DER parser ([asn1Unmarshal]) and the conversion to the raw
    fixed-width form ([asn1ToRawECDSA]) are modelled concretely; the theorem is
    that what [Sign] produces verifies, byte layout included. *)

From S2P Require Import Prelude Sha256 GoStrings.

Module Signer.

#[local] Open Scope go_scope.

(** ** Big-endian integers *)

(** [x.FillBytes] of a buffer of [n] bytes. *)
Fixpoint beBytes (n : nat) (x : Z) : list Z :=
  match n with
  | O => []
  | S n => beBytes n (x / 256) ++ [x mod 256]
  end.

(** [new(big.Int).SetBytes]. *)
Definition beNumber (bs : list Z) : Z := foldl (fun acc b => 256 * acc + b) 0 bs.

Lemma beNumber_snoc bs b : beNumber (bs ++ [b]) = 256 * beNumber bs + b.
Proof. unfold beNumber. by rewrite foldl_app. Qed.

Lemma length_beBytes n x : length (beBytes n x) = n.
Proof. revert x. induction n as [|n IH]; intros x; simpl; [done|]. rewrite length_app, IH. simpl. lia. Qed.

Lemma beBytes_ok n x : bytes_ok (beBytes n x).
Proof.
  revert x. induction n as [|n IH]; intros x; simpl; [constructor|].
  apply Forall_app. split; [apply IH|]. constructor; [|constructor]. apply Z.mod_pos_bound. lia.
Qed.

Lemma beNumber_beBytes n x : 0 <= x < 256 ^ Z.of_nat n -> beNumber (beBytes n x) = x.
Proof.
  revert x. induction n as [|n IH]; intros x Hx; simpl.
  - change (256 ^ Z.of_nat 0) with 1 in Hx. unfold beNumber. simpl. lia.
  - rewrite Nat2Z.inj_succ, Z.pow_succ_r in Hx by lia.
    rewrite beNumber_snoc, IH; Z.div_mod_to_equations; nia.
Qed.

(** ** ASN.1 DER *)

Definition errSyntax : error := ErrMsg "asn1: structure error".

(** The length octets: short form, or up to four octets without superfluous
    zeros, and not for a length the short form could hold. *)
Fixpoint longLength (k : nat) (bs : list Z) (acc : Z) : result (Z * list Z) :=
  match k with
  | O => if acc <? 128 then Err errSyntax else Ok (acc, bs)
  | S k =>
      match bs with
      | [] => Err errSyntax
      | b :: bs =>
          if 2 ^ 23 <=? acc then Err errSyntax
          else let acc := 256 * acc + b in
               if acc =? 0 then Err errSyntax else longLength k bs acc
      end
  end.

(** One element with the given identifier octet: its contents and the rest. *)
Definition parseTLV (tag : Z) (bs : list Z) : result (list Z * list Z) :=
  match bs with
  | t :: l :: rest =>
      if negb (t =? tag) then Err errSyntax
      else
        let? len :=
          if l <? 128 then Ok (l, rest)
          else if l =? 128 then Err errSyntax
          else longLength (Z.to_nat (l - 128)) rest 0 in
        let '(n, body) := len in
        if Z.of_nat (length body) <? n then Err errSyntax
        else Ok (take (Z.to_nat n) body, drop (Z.to_nat n) body)
  | _ => Err errSyntax
  end.

(** [parseBigInt]: two's complement, minimally encoded. *)
Definition parseInteger (bs : list Z) : result Z :=
  match bs with
  | [] => Err errSyntax
  | [b] => Ok (if b <? 128 then b else b - 256)
  | b0 :: b1 :: _ =>
      if (b0 =? 0) && (b1 <? 128) || (b0 =? 255) && (128 <=? b1) then Err errSyntax
      else Ok (if b0 <? 128 then beNumber bs else beNumber bs - 256 ^ Z.of_nat (length bs))
  end.

(** [asn1.Unmarshal(der, &sig)] into [struct { R, S *big.Int }]; more bytes
    after the integers, or after the sequence, are ignored. *)
Definition asn1Unmarshal (der : list Z) : result (Z * Z) :=
  let? s := parseTLV 48 der in
  let? r := parseTLV 2 s.1 in
  let? intR := parseInteger r.1 in
  let? t := parseTLV 2 r.2 in
  let? intS := parseInteger t.1 in
  Ok (intR, intS).

(** [FillBytes] panics if the absolute value does not fit. *)
Definition FillBytes (x : Z) (n : nat) : result (list Z) :=
  if 256 ^ Z.of_nat n <=? Z.abs x then Err (Panic "math/big: buffer too small to fit value")
  else Ok (beBytes n (Z.abs x)).

Definition asn1ToRawECDSA (der : list Z) (byteLen : nat) : result (list Z) :=
  let? sig := asn1Unmarshal der in
  let? r := FillBytes sig.1 byteLen in
  let? s := FillBytes sig.2 byteLen in
  Ok (r ++ s).

(** The DER encoding of a signature, as ecdsa.SignASN1 documents it. *)
Definition derLen (x : Z) : Z := if x =? 0 then 1 else (Z.log2 x + 1) / 8 + 1.

Definition derInteger (x : Z) : list Z := 2 :: derLen x :: beBytes (Z.to_nat (derLen x)) x.

Definition derSignature (r s : Z) : list Z :=
  let body := derInteger r ++ derInteger s in 48 :: Z.of_nat (length body) :: body.

(** ** Signing and verification *)

Class Ecdsa := {
  signer : Type;                                   (* crypto.Signer *)
  public : Type;                                   (* *ecdsa.PublicKey *)
  Public : signer -> option public;                (* None: not an ECDSA key *)
  BitSize : public -> Z;                           (* pub.Curve.Params().BitSize *)
  SignDER : signer -> Z -> list Z -> result (list Z); (* nonce, digest *)
  VerifyRS : public -> list Z -> Z -> Z -> bool    (* digest, r, s *)
}.

(** A P-256 signature of a digest is the DER encoding of two positive integers
    below 2^256 that verify under the signer's public key. *)
Class EcdsaLaws `(Ecdsa) : Prop := {
  sign_law : forall key pub nonce digest der,
    Public key = Some pub -> BitSize pub = 256 -> SignDER key nonce digest = Ok der ->
    exists r s, der = derSignature r s /\ 0 < r < 2 ^ 256 /\ 0 < s < 2 ^ 256 /\
      VerifyRS pub digest r s = true
}.

Section ES256.
Context `{!Ecdsa}.

Definition Alg : string := "ES256".

(** The signature over a message given as bytes. *)
Definition Sign (message : list Z) (key : signer) (nonce : Z) : result (list Z) :=
  match Public key with
  | None => Err (ErrMsg "statuslist: sign: signer's public key is not an ECDSA key")
  | Some pub =>
      if negb (BitSize pub =? 256) then Err (ErrMsg "statuslist: sign: ES256 requires a P-256 key")
      else
        let hash := Sha256.Sum256 message in
        let? der := SignDER key nonce hash in
        asn1ToRawECDSA der 32
  end.

(** jwt.SigningMethodES256.Verify, to which [Verify] delegates. *)
Definition Verify (message sig : list Z) (pub : public) : result unit :=
  if negb (Nat.eqb (length sig) 64) then Err (ErrMsg "crypto/ecdsa: verification error")
  else
    let r := beNumber (take 32 sig) in
    let s := beNumber (drop 32 sig) in
    if VerifyRS pub (Sha256.Sum256 message) r s then Ok tt
    else Err (ErrMsg "crypto/ecdsa: verification error").

End ES256.

(** ** DER round trip *)

Lemma derLen_fits x : 0 <= x -> x < 256 ^ derLen x /\ 2 * x < 256 ^ derLen x /\ 1 <= derLen x.
Proof.
  intros Hx. unfold derLen. destruct (Z.eqb_spec x 0) as [->|Hne]; [lia|].
  assert (0 <= Z.log2 x) as Hl by apply Z.log2_nonneg.
  assert (0 <= (Z.log2 x + 1) / 8) as Hq by (apply Z.div_pos; lia).
  assert (2 ^ (Z.log2 x + 2) <= 256 ^ ((Z.log2 x + 1) / 8 + 1)) as Hle.
  { change 256 with (2 ^ 8). rewrite <- Z.pow_mul_r by lia.
    apply Z.pow_le_mono_r; [lia|]. Z.div_mod_to_equations. lia. }
  destruct (Z.log2_spec x ltac:(lia)) as [_ Hs].
  replace (Z.log2 x + 2) with (Z.succ (Z.succ (Z.log2 x))) in Hle by lia.
  rewrite Z.pow_succ_r in Hle by lia. lia.
Qed.

Lemma derLen_small x : 0 <= x < 2 ^ 256 -> derLen x <= 33.
Proof.
  intros Hx. unfold derLen. destruct (Z.eqb_spec x 0); [lia|].
  assert (Z.log2 x < 256) by (apply Z.log2_lt_pow2; lia). Z.div_mod_to_equations. lia.
Qed.

Lemma derLen_minimal x k :
  0 <= x -> derLen x = Z.of_nat k + 2 -> 128 * 256 ^ Z.of_nat k <= x.
Proof.
  intros Hx. unfold derLen. destruct (Z.eqb_spec x 0); [lia|]. intros Hd.
  assert (8 * Z.of_nat k + 7 <= Z.log2 x) as Hl by (Z.div_mod_to_equations; lia).
  destruct (Z.log2_spec x ltac:(lia)) as [Hs _].
  change 128 with (2 ^ 7). change 256 with (2 ^ 8). rewrite <- Z.pow_mul_r, <- Z.pow_add_r by lia.
  etrans; [|exact Hs]. apply Z.pow_le_mono_r; lia.
Qed.

(** The most significant byte first. *)
Lemma beBytes_cons n x :
  0 <= x -> beBytes (S n) x = x / 256 ^ Z.of_nat n mod 256 :: beBytes n x.
Proof.
  revert x. induction n as [|n IH]; intros x Hx.
  - simpl. by rewrite Z.div_1_r.
  - change (beBytes (S (S n)) x) with (beBytes (S n) (x / 256) ++ [x mod 256]).
    rewrite IH by (apply Z.div_pos; lia). rewrite Zdiv_Zdiv by lia.
    rewrite (Nat2Z.inj_succ n), Z.pow_succ_r by lia. done.
Qed.

Lemma parseInteger_der x : 0 <= x -> parseInteger (beBytes (Z.to_nat (derLen x)) x) = Ok x.
Proof.
  intros Hx. destruct (derLen_fits x Hx) as (Hlt & Hsign & Hlen).
  assert (beNumber (beBytes (Z.to_nat (derLen x)) x) = x) as Hnum.
  { apply beNumber_beBytes. rewrite Z2Nat.id by lia. lia. }
  destruct (Z.to_nat (derLen x)) as [|[|k]] eqn:Ek; [lia| |].
  - replace (derLen x) with 1 in * by lia. rewrite Z.pow_1_r in *. simpl.
    rewrite Z.mod_small by lia. by replace (x <? 128) with true by lia.
  - pose proof (derLen_minimal x k Hx ltac:(lia)) as Hmin.
    rewrite !beBytes_cons in * by done.
    replace (derLen x) with (Z.succ (Z.succ (Z.of_nat k))) in * by lia.
    rewrite Nat2Z.inj_succ, !Z.pow_succ_r in * by lia.
    set (p := 256 ^ Z.of_nat k) in *. assert (0 < p) as Hp by (apply Z.pow_pos_nonneg; lia).
    assert (0 <= x / (256 * p) < 128) as Hb0.
    { split; [apply Z.div_pos; lia|]. apply Z.div_lt_upper_bound; lia. }
    assert (x / (256 * p) = 0 -> 128 <= x / p < 256) as Hb1.
    { intros H0. apply Z.div_small_iff in H0; [|lia].
      split; [apply Z.div_le_lower_bound|apply Z.div_lt_upper_bound]; lia. }
    unfold parseInteger. rewrite (Z.mod_small (x / (256 * p))) in * by lia.
    destruct (Z.eqb_spec (x / (256 * p)) 0) as [H0|H0].
    + specialize (Hb1 H0). rewrite (Z.mod_small (x / p)) in * by lia.
      replace (x / p <? 128) with false by lia. rewrite H0 in *. simpl. by rewrite Hnum.
    + replace (x / (256 * p) =? 255) with false by lia. simpl.
      replace (x / (256 * p) <? 128) with true by lia. by rewrite Hnum.
Qed.

Lemma parseTLV_short tag body rest :
  Z.of_nat (length body) < 128 ->
  parseTLV tag (tag :: Z.of_nat (length body) :: body ++ rest) = Ok (body, rest).
Proof.
  intros H. unfold parseTLV. rewrite Z.eqb_refl. cbn [negb].
  apply Z.ltb_lt in H. rewrite H. cbn [result_bind].
  rewrite length_app. replace (_ <? _) with false by (symmetry; apply Z.ltb_ge; lia).
  by rewrite Nat2Z.id, take_app_length, drop_app_length.
Qed.

Lemma derInteger_eq x :
  0 <= x -> derInteger x =
    2 :: Z.of_nat (length (beBytes (Z.to_nat (derLen x)) x)) :: beBytes (Z.to_nat (derLen x)) x.
Proof.
  intros Hx. destruct (derLen_fits x Hx) as (_ & _ & Hl). unfold derInteger.
  by rewrite length_beBytes, Z2Nat.id by lia.
Qed.

Lemma asn1Unmarshal_der r s :
  0 <= r < 2 ^ 256 -> 0 <= s < 2 ^ 256 -> asn1Unmarshal (derSignature r s) = Ok (r, s).
Proof.
  intros Hr Hs. pose proof (derLen_small r Hr). pose proof (derLen_small s Hs).
  unfold asn1Unmarshal, derSignature. rewrite !derInteger_eq by lia.
  set (br := beBytes (Z.to_nat (derLen r)) r). set (bs := beBytes (Z.to_nat (derLen s)) s).
  assert (Z.of_nat (length br) <= 33 /\ Z.of_nat (length bs) <= 33) as [Hbr Hbs].
  { unfold br, bs. rewrite !length_beBytes. lia. }
  cbv zeta. set (body := _ ++ _).
  rewrite <- (app_nil_r body) at 2. rewrite parseTLV_short.
  2: { unfold body. cbn [app length]. rewrite length_app. cbn [length]. lia. }
  cbn [result_bind fst]. unfold body. cbn [app]. rewrite parseTLV_short by lia.
  cbn [result_bind fst snd]. unfold br. rewrite parseInteger_der by lia. cbn [result_bind].
  rewrite <- (app_nil_r bs) at 2. rewrite parseTLV_short by lia. cbn [result_bind fst].
  unfold bs. by rewrite parseInteger_der by lia.
Qed.

Lemma asn1ToRawECDSA_der r s :
  0 <= r < 2 ^ 256 -> 0 <= s < 2 ^ 256 ->
  asn1ToRawECDSA (derSignature r s) 32 = Ok (beBytes 32 r ++ beBytes 32 s).
Proof.
  intros Hr Hs. unfold asn1ToRawECDSA. rewrite asn1Unmarshal_der by done. cbn [result_bind fst snd].
  unfold FillBytes. change (256 ^ Z.of_nat 32) with (2 ^ 256). rewrite !Z.abs_eq by lia.
  replace (2 ^ 256 <=? r) with false by lia. replace (2 ^ 256 <=? s) with false by lia. done.
Qed.

(** ** Sign and Verify *)

Section Correct.
Context `{!Ecdsa} `{!EcdsaLaws _}.

#[local] Opaque beBytes Sha256.Sum256.

(** A converted signature has 64 bytes and verifies. *)
Lemma SignDER_raw key pub nonce digest sig :
  Public key = Some pub -> BitSize pub = 256 ->
  (let? der := SignDER key nonce digest in asn1ToRawECDSA der 32) = Ok sig ->
  length sig = 64%nat /\ VerifyRS pub digest (beNumber (take 32 sig)) (beNumber (drop 32 sig)) = true /\
  bytes_ok sig.
Proof.
  intros Hpub Hb. destruct (SignDER key nonce digest) as [der|e] eqn:Hder; [|done].
  destruct (sign_law key pub nonce _ der Hpub Hb Hder) as (r & s & -> & Hr & Hs & Hv).
  cbn [result_bind]. rewrite asn1ToRawECDSA_der by lia. intros [= <-].
  split_and!; [by rewrite length_app, !length_beBytes| |apply Forall_app; split; apply beBytes_ok].
  rewrite take_app_length', drop_app_length' by (by rewrite length_beBytes).
  rewrite !beNumber_beBytes by (change (256 ^ Z.of_nat 32) with (2 ^ 256); lia). done.
Qed.

Lemma Sign_Verify message key pub nonce sig :
  Public key = Some pub -> Sign message key nonce = Ok sig ->
  Verify message sig pub = Ok tt /\ length sig = 64%nat /\ bytes_ok sig.
Proof.
  intros Hpub. unfold Sign. rewrite Hpub.
  destruct (Z.eqb_spec (BitSize pub) 256) as [Hb|]; [|done]. cbn [negb].
  intros Hsig. destruct (SignDER_raw key pub nonce _ sig Hpub Hb Hsig) as (Hlen & Hv & Hok).
  split_and!; [|done|done]. unfold Verify. rewrite Hlen. cbn [Nat.eqb negb]. by rewrite Hv.
Qed.

End Correct.

End Signer.
