(* ===== verification/Token.v ===== *)
(** * internal/statuslist/token.go: Status List Tokens in JWT form

    [compressLst], [EncodeLst], [BuildToken] and their inverses
    [decompressLst], [DecodeLst], [ParseToken], with base64url (Base64), ES256
    (Signer) and the JWS framing of golang-jwt written out. What lies outside
    is a class with the documented laws the code relies on: [Zlib] (DEFLATE
    round trip), [Json] (encoding/json on the token's header and claims), and
    [Signer.Ecdsa]. The theorem is the round trip a verifier depends on. *)

From Stdlib Require Import Ascii.
From S2P Require Import Prelude GoStrings Base64 Sha256 Signer Bitmap.

Module Token.

#[local] Open Scope go_scope.

(** ** compress/zlib *)

Class Zlib := {
  zlibCompress : list Z -> list Z;                 (* writer into a bytes.Buffer *)
  zlibDecompress : list Z -> result (list Z)
}.

Class ZlibLaws `(Zlib) : Prop := {
  zlib_bytes : forall raw, bytes_ok raw -> bytes_ok (zlibCompress raw);
  zlib_roundtrip : forall raw, bytes_ok raw -> zlibDecompress (zlibCompress raw) = Ok raw
}.

(** ** Claims and headers *)

Record StatusListClaim := MkStatusListClaim {
  slBits : Z;
  Lst : string;
  AggregationURI : string
}.

(** jwt.RegisteredClaims (dates in seconds), ttl and status_list. *)
Record Claims := MkClaims {
  Subject : string;
  cIssuedAt : option Z;
  ExpiresAt : option Z;
  NotBefore : option Z;
  cTTL : Z;
  StatusList : StatusListClaim
}.

Record TokenParams := MkTokenParams {
  ListURL : string;
  IssuedAt : Z;
  TTL : Z;
  tBitmap : Bitmap.Bitmap;
  KeyID : string;
  JWK : option (gmap string string);
  X5C : list string
}.

(** The JWS header: [tok.Header], a map in the code. *)
Record Header := MkHeader {
  h_alg : string;
  h_typ : string;
  h_kid : option string;
  h_jwk : option (gmap string string);
  h_x5c : option (list string)
}.

(** encoding/json on these values. *)
Class Json := {
  marshalHeader : Header -> result (list Z);
  marshalClaims : Claims -> result (list Z);
  unmarshalAlg : list Z -> result (option string);   (* header["alg"] *)
  unmarshalClaims : list Z -> result Claims
}.

(** Strings of a claim set that JSON keeps as they are. *)
Definition claimsASCII (c : Claims) : bool :=
  GoStrings.isASCII (Subject c) && GoStrings.isASCII (Lst (StatusList c)) &&
  GoStrings.isASCII (AggregationURI (StatusList c)).

Class JsonLaws `(Json) : Prop := {
  json_header : forall h b, marshalHeader h = Ok b ->
    bytes_ok b /\ (GoStrings.isASCII (h_alg h) = true -> unmarshalAlg b = Ok (Some (h_alg h)));
  json_claims : forall c b, marshalClaims c = Ok b ->
    bytes_ok b /\ (claimsASCII c = true -> unmarshalClaims b = Ok c)
}.

(** golang-jwt's other ECDSA methods, ES384 and ES512. *)
Class JwtMethods `{!Signer.Ecdsa} := {
  registeredMethod : string -> bool;
  verifyOtherECDSA : string -> list Z -> list Z -> Signer.public -> bool
}.

Section Jwt.
Context `{!Signer.Ecdsa} `{!Zlib} `{!Json} `{!JwtMethods}.

(** ** The lst value *)

Definition compressLst (raw : list Z) : result (list Z) := Ok (zlibCompress raw).

Definition decompressLst (compressed : list Z) : result (list Z) := zlibDecompress compressed.

Definition EncodeLst (raw : list Z) : result string :=
  let? compressed := compressLst raw in Ok (Base64.RawURLEncode compressed).

Definition DecodeLst (lst : string) : result (list Z) :=
  let? compressed := Base64.RawURLDecode lst in decompressLst compressed.

(** ** Building *)

(** [jwt.NewNumericDate]: whole seconds. *)
Definition numericDate (t : Z) : Z := t / second.

Definition tokenClaims (p : TokenParams) (lst : string) : Claims :=
  MkClaims (ListURL p) (Some (numericDate (IssuedAt p))) None None (TTL p)
    (MkStatusListClaim (Bitmap.bits (tBitmap p)) lst "").

Definition tokenHeader (p : TokenParams) : Header :=
  MkHeader Signer.Alg "statuslist+jwt"
    (if bool_decide (KeyID p = "") then None else Some (KeyID p))
    (match JWK p with
     | None => None
     | Some m => Some (if bool_decide (KeyID p = "") then m else <["kid" := KeyID p]> m)
     end)
    (match X5C p with [] => None | x5c => Some x5c end).

(** [tok.SignedString(key)]. *)
Definition SignedString (h : Header) (c : Claims) (key : Signer.signer) (nonce : Z) : result string :=
  let? hb := marshalHeader h in
  let? cb := marshalClaims c in
  let sstr := Base64.RawURLEncode hb +:+ "." +:+ Base64.RawURLEncode cb in
  let? sig := Signer.Sign (GoStrings.bytesOf sstr) key nonce in
  Ok (sstr +:+ "." +:+ Base64.RawURLEncode sig).

Definition BuildToken (key : Signer.signer) (p : TokenParams) (nonce : Z) : result string :=
  let? lst := EncodeLst (Bitmap.data (tBitmap p)) in
  SignedString (tokenHeader p) (tokenClaims p lst) key nonce.

(** ** Parsing *)

Definition errMalformed : error := ErrMsg "token is malformed".

(** The key function accepts ECDSA methods only. *)
Definition isECDSA (alg : string) : bool :=
  bool_decide (alg = "ES256") || bool_decide (alg = "ES384") || bool_decide (alg = "ES512").

Definition verifySignature (alg : string) (message sig : list Z) (pub : Signer.public) : result unit :=
  if bool_decide (alg = "ES256") then Signer.Verify message sig pub
  else if verifyOtherECDSA alg message sig pub then Ok tt
  else Err (ErrMsg "token signature is invalid").

(** The default validator: [exp] and [nbf] when present. *)
Definition validClaims (now : Z) (c : Claims) : bool :=
  match ExpiresAt c with None => true | Some e => now <? e * second end &&
  match NotBefore c with None => true | Some n => n * second <=? now end.

(** [jwt.ParseWithClaims] and the checks of [ParseToken], at time [now]. *)
Definition ParseToken (token : string) (pub : Signer.public) (now : Z) : result Claims :=
  match GoStrings.Split token "."%char with
  | [h; c; s] =>
      let? hb := Base64.RawURLDecode h in
      let? alg := unmarshalAlg hb in
      let? cb := Base64.RawURLDecode c in
      let? claims := unmarshalClaims cb in
      match alg with
      | None => Err (ErrMsg "signing method (alg) is unspecified")
      | Some alg =>
          if negb (isECDSA alg || registeredMethod alg) then
            Err (ErrMsg "signing method (alg) is unavailable")
          else
            let? sig := Base64.RawURLDecode s in
            if negb (isECDSA alg) then Err (ErrMsg "statuslist: unexpected signing method")
            else
              let? _ := verifySignature alg (GoStrings.bytesOf (h +:+ "." +:+ c)) sig pub in
              if validClaims now claims then Ok claims else Err (ErrMsg "token has invalid claims")
      end
  | _ => Err errMalformed
  end.

End Jwt.

(** ** Lemmas *)

Section Correct.
Context `{!Signer.Ecdsa} `{!Zlib} `{!Json} `{!JwtMethods}.
Context `{!Signer.EcdsaLaws _} `{!ZlibLaws _} `{!JsonLaws _}.

#[local] Opaque Base64.RawURLEncode Base64.RawURLDecode Signer.Verify Signer.Sign.

Lemma EncodeLst_spec raw :
  bytes_ok raw ->
  exists lst, EncodeLst raw = Ok lst /\ GoStrings.isASCII lst = true /\ DecodeLst lst = Ok raw.
Proof.
  intros Hok. pose proof (zlib_bytes raw Hok) as Hz. eexists. split_and!; [reflexivity| |].
  - by apply Base64.RawURLEncode_ascii.
  - unfold DecodeLst. rewrite Base64.RawURL_roundtrip by done. by apply zlib_roundtrip.
Qed.

(** A signed header and claim set is read back. *)
Lemma SignedString_Parse h c key pub nonce token now :
  Signer.Public key = Some pub -> h_alg h = "ES256" -> claimsASCII c = true ->
  validClaims now c = true -> SignedString h c key nonce = Ok token ->
  ParseToken token pub now = Ok c.
Proof.
  intros Hpub Halg Hascii Hvalid. unfold SignedString.
  destruct (marshalHeader h) as [hb|] eqn:Hh; [|done]. cbn [result_bind].
  destruct (marshalClaims c) as [cb|] eqn:Hc; [|done]. cbn [result_bind].
  destruct (json_header h hb Hh) as [Hhb Ha]. destruct (json_claims c cb Hc) as [Hcb Hcc].
  set (sstr := Base64.RawURLEncode hb +:+ "." +:+ Base64.RawURLEncode cb).
  destruct (Signer.Sign (GoStrings.bytesOf sstr) key nonce) as [sig|] eqn:Hsig; [|done].
  destruct (Signer.Sign_Verify _ key pub nonce sig Hpub Hsig) as (Hver & _ & Hsb).
  cbn [result_bind]. intros [= <-]. unfold ParseToken.
  assert (GoStrings.Split (sstr +:+ "." +:+ Base64.RawURLEncode sig) "."%char =
    [Base64.RawURLEncode hb; Base64.RawURLEncode cb; Base64.RawURLEncode sig]) as ->.
  { unfold sstr. rewrite !GoStrings.append_assoc.
    change (?s +:+ "." +:+ ?t) with (s +:+ String "."%char t).
    change (?s +:+ "." +:+ ?t) with (s +:+ String "."%char t).
    by rewrite !GoStrings.Split_sep, GoStrings.Split_none by (by apply Base64.RawURLEncode_lacks_dot). }
  rewrite !Base64.RawURL_roundtrip by done. cbn [result_bind].
  rewrite Ha, Hcc by (done || by rewrite Halg). cbn [result_bind]. rewrite Halg. simpl.
  unfold verifySignature. simpl. fold sstr. rewrite Hver. simpl. by rewrite Hvalid.
Qed.

Lemma BuildToken_parse key pub p nonce token now :
  Signer.Public key = Some pub -> bytes_ok (Bitmap.data (tBitmap p)) ->
  GoStrings.isASCII (ListURL p) = true -> BuildToken key p nonce = Ok token ->
  exists lst, ParseToken token pub now = Ok (tokenClaims p lst) /\
    DecodeLst lst = Ok (Bitmap.data (tBitmap p)).
Proof.
  intros Hpub Hdata Hurl. unfold BuildToken.
  destruct (EncodeLst_spec (Bitmap.data (tBitmap p)) Hdata) as (lst & -> & Hlst & Hdec).
  cbn [result_bind]. intros Hsign. exists lst. split; [|done].
  apply (SignedString_Parse (tokenHeader p) _ key pub nonce); [done..| |done|done].
  unfold claimsASCII. simpl. by rewrite Hurl, Hlst.
Qed.

End Correct.

(** ** A concrete instance of the libraries *)

Module Concrete.

(** Any countable value as bytes: the bits of its code, one per byte. *)
Fixpoint posBytes (p : positive) : list Z :=
  match p with
  | xH => []
  | xO p => 0 :: posBytes p
  | xI p => 1 :: posBytes p
  end.

Fixpoint bytesPos (bs : list Z) : positive :=
  match bs with
  | [] => xH
  | b :: bs => if b =? 0 then xO (bytesPos bs) else xI (bytesPos bs)
  end.

Lemma bytesPos_posBytes p : bytesPos (posBytes p) = p.
Proof. induction p as [p IH|p IH|]; simpl; by rewrite ?IH. Qed.

Lemma posBytes_ok p : bytes_ok (posBytes p).
Proof. induction p; simpl; constructor; done || lia. Qed.

Definition claimsTuple (c : Claims) :
    string * option Z * option Z * option Z * Z * (Z * string * string) :=
  (Subject c, cIssuedAt c, ExpiresAt c, NotBefore c, cTTL c,
   (slBits (StatusList c), Lst (StatusList c), AggregationURI (StatusList c))).

Definition tupleClaims (t : string * option Z * option Z * option Z * Z * (Z * string * string)) :
    Claims :=
  let '(sub, iat, exp, nbf, ttl, (b, l, a)) := t in
  MkClaims sub iat exp nbf ttl (MkStatusListClaim b l a).

#[export] Instance json : Json := {
  marshalHeader h := Ok (posBytes (encode (h_alg h)));
  marshalClaims c := Ok (posBytes (encode (claimsTuple c)));
  unmarshalAlg b :=
    match decode (bytesPos b) with Some a => Ok (Some a) | None => Ok None end;
  unmarshalClaims b :=
    match decode (bytesPos b) with
    | Some t => Ok (tupleClaims t)
    | None => Err (ErrMsg "unexpected end of JSON input")
    end
}.

#[export] Instance json_laws : JsonLaws json.
Proof.
  split.
  - intros h b [= <-]. split; [apply posBytes_ok|]. intros _. unfold unmarshalAlg, json.
    by rewrite bytesPos_posBytes, decode_encode.
  - intros c b [= <-]. split; [apply posBytes_ok|]. intros _. unfold unmarshalClaims, json.
    rewrite bytesPos_posBytes, decode_encode. by destruct c as [? ? ? ? ? []].
Qed.

(** Compression that stores. *)
#[export] Instance zlib : Zlib := { zlibCompress raw := raw; zlibDecompress raw := Ok raw }.

#[export] Instance zlib_laws : ZlibLaws zlib.
Proof. by split. Qed.

(** A signature that is the digest, reduced, and the nonce. *)
Definition toyR (digest : list Z) : Z := 1 + Signer.beNumber digest mod 2 ^ 255.

Definition SignDER_ (nonce : Z) (digest : list Z) : result (list Z) :=
  Ok (Signer.derSignature (toyR digest) (1 + nonce mod 2 ^ 255)).

#[export] Instance ecdsa : Signer.Ecdsa := {
  signer := unit;
  public := unit;
  Public _ := Some tt;
  BitSize _ := 256;
  SignDER _ := SignDER_;
  VerifyRS _ digest r _ := r =? toyR digest
}.

Definition key : @Signer.signer ecdsa := tt.

Definition pub : @Signer.public ecdsa := tt.

#[export] Instance ecdsa_laws : Signer.EcdsaLaws ecdsa.
Proof.
  split. intros key pub nonce digest der _ _ [= <-].
  pose proof (Z.mod_pos_bound (Signer.beNumber digest) (2 ^ 255) ltac:(lia)).
  pose proof (Z.mod_pos_bound nonce (2 ^ 255) ltac:(lia)).
  exists (toyR digest), (1 + nonce mod 2 ^ 255). unfold toyR.
  split_and!; try done; try lia. simpl. apply Z.eqb_refl.
Qed.

(** The concrete signer signs everything. *)
Lemma toySign_ok nonce digest :
  exists sig, (let? der := SignDER_ nonce digest in Signer.asn1ToRawECDSA der 32) = Ok sig.
Proof.
  unfold SignDER_. cbn [result_bind].
  pose proof (Z.mod_pos_bound (Signer.beNumber digest) (2 ^ 255) ltac:(lia)).
  pose proof (Z.mod_pos_bound nonce (2 ^ 255) ltac:(lia)).
  rewrite Signer.asn1ToRawECDSA_der by (unfold toyR; lia). by eexists.
Qed.

Lemma BuildToken_ok p nonce : exists token, BuildToken (key : @Signer.signer ecdsa) p nonce = Ok token.
Proof.
  unfold BuildToken, EncodeLst, compressLst, SignedString, marshalHeader, marshalClaims, json.
  cbn [result_bind]. unfold Signer.Sign.
  change (Signer.Public key) with (Some pub). change (Signer.BitSize pub =? 256) with true. cbn [negb].
  match goal with |- context [Sha256.Sum256 ?m] => destruct (toySign_ok nonce (Sha256.Sum256 m)) as [sig Hsig] end.
  unfold Signer.SignDER, ecdsa. rewrite Hsig. by eexists.
Qed.

#[export] Instance methods : JwtMethods := {
  registeredMethod _ := false;
  verifyOtherECDSA _ _ _ _ := false
}.

Definition params : TokenParams :=
  MkTokenParams "https://v.example/lists/s.1" (1700000000 * second) 3600
    (Bitmap.MkBitmap 2 12 [0xC9; 0x44; 0xF9]) "k1" None [].

End Concrete.

(** ** Properties *)

(** C18: the round trip of a published JWT. Whatever [BuildToken] signs,
    [ParseToken] accepts under the signer's public key, at any time; it reads
    back the list's URL, the signing second, the ttl and the width, and
    [DecodeLst] of its [lst] is exactly the packed bitmap that was signed. *)
Theorem token_roundtrip `{!Signer.Ecdsa} `{!Zlib} `{!Json} `{!JwtMethods}
    `{!Signer.EcdsaLaws _} `{!ZlibLaws _} `{!JsonLaws _}
    (key : Signer.signer) (pub : Signer.public) (p : TokenParams) (nonce now : Z) (token : string) :
  Signer.Public key = Some pub -> bytes_ok (Bitmap.data (tBitmap p)) ->
  GoStrings.isASCII (ListURL p) = true -> BuildToken key p nonce = Ok token ->
  exists c, ParseToken token pub now = Ok c /\ Subject c = ListURL p /\
    cIssuedAt c = Some (IssuedAt p / second) /\ cTTL c = TTL p /\
    slBits (StatusList c) = Bitmap.bits (tBitmap p) /\
    DecodeLst (Lst (StatusList c)) = Ok (Bitmap.data (tBitmap p)).
Proof.
  intros Hpub Hdata Hurl Hb.
  destruct (BuildToken_parse key pub p nonce token now Hpub Hdata Hurl Hb) as (lst & Hp & Hd).
  eexists. split_and!; [exact Hp|done..|exact Hd].
Qed.

#[local] Existing Instances Concrete.ecdsa Concrete.ecdsa_laws Concrete.zlib Concrete.zlib_laws
  Concrete.json Concrete.json_laws Concrete.methods.

Lemma token_roundtrip_witness :
  exists token c, BuildToken Concrete.key Concrete.params 5 = Ok token /\
    ParseToken token Concrete.pub 0 = Ok c /\
    DecodeLst (Lst (StatusList c)) = Ok [0xC9; 0x44; 0xF9].
Proof.
  destruct (Concrete.BuildToken_ok Concrete.params 5) as [token E].
  destruct (token_roundtrip Concrete.key Concrete.pub Concrete.params 5 0 token)
    as (c & Hc & _ & _ & _ & _ & Hd); [reflexivity| |vm_compute; reflexivity|exact E|].
  - apply (bool_decide_unpack _). vm_compute. exact I.
  - exists token, c. split_and!; [exact E|exact Hc|exact Hd].
Defined.

End Token.
