(* ===== verification/Cwt.v ===== *)
(** * internal/statuslist/cwt.go: Status List Tokens in CWT form

    [BuildCWTToken] builds the claims, the COSE protected header and the
    tagged COSE_Sign1 array as CBOR values ([cval]) and signs the
    Sig_structure; [ParseCWTToken] takes them apart. The CBOR library is the
    class [Cbor], with its documented laws (decoding what was encoded, unless
    it holds text that is not UTF-8; filling a struct from the map its tags
    describe). The theorem is the round trip, the counterpart of the JWT one. *)

From S2P Require Import Prelude GoStrings Base64 Sha256 Signer Bitmap Token.

Module Cwt.

#[local] Open Scope go_scope.

(** ** CBOR *)

(** The values the package hands to the encoder; map entries in the order of
    the deterministic encoding. *)
Inductive cval : Type :=
| CInt (z : Z)
| CBytes (b : list Z)
| CText (s : string)
| CArray (l : list cval)
| CMap (l : list (cval * cval))
| CTag (n : Z) (v : cval).

Definition coseAlgES256 : Z := -7.
Definition coseHeaderAlg : Z := 1.
Definition coseHeaderKid : Z := 4.
Definition coseHeaderTyp : Z := 16.
Definition coseHeaderX5Chain : Z := 33.
Definition statuslistCWTContentType : string := "application/statuslist+cwt".

Record cwtStatusListClaim := MkCwtStatusListClaim {
  Bits : Z;
  cLst : list Z;
  cAggregationURI : string
}.

Record cwtClaims := MkCwtClaims {
  Sub : string;
  Iat : Z;
  wTTL : Z;
  cStatusList : cwtStatusListClaim
}.

(** The structs as CBOR, by their tags: text keys below, integer keys above,
    [omitempty] fields left out when empty. *)
Definition statusListValue (c : cwtStatusListClaim) : cval :=
  CMap ([(CText "lst", CBytes (cLst c)); (CText "bits", CInt (Bits c))] ++
        if bool_decide (cAggregationURI c = "") then []
        else [(CText "aggregation_uri", CText (cAggregationURI c))]).

Definition claimsValue (c : cwtClaims) : cval :=
  CMap ([(CInt 2, CText (Sub c)); (CInt 6, CInt (Iat c));
         (CInt 65533, statusListValue (cStatusList c))] ++
        if wTTL c =? 0 then [] else [(CInt 65534, CInt (wTTL c))]).

Class Cbor := {
  Marshal : cval -> result (list Z);
  Unmarshal : list Z -> result cval;
  asBytes : cval -> result (list Z);               (* into []byte *)
  asClaims : cval -> result cwtClaims              (* into cwtClaims *)
}.

(** The text of a value is UTF-8; the decoder rejects text that is not. *)
Fixpoint utf8 (v : cval) : bool :=
  match v with
  | CText s => GoStrings.ValidString s
  | CArray l => forallb utf8 l
  | CMap l => forallb (fun e => utf8 e.1 && utf8 e.2) l
  | CTag _ v => utf8 v
  | CInt _ | CBytes _ => true
  end.

Class CborLaws `(Cbor) : Prop := {
  cbor_bytes : forall v b, Marshal v = Ok b -> bytes_ok b;
  cbor_roundtrip : forall v b, utf8 v = true -> Marshal v = Ok b -> Unmarshal b = Ok v;
  cbor_asBytes : forall b, asBytes (CBytes b) = Ok b;
  cbor_asClaims : forall c, asClaims (claimsValue c) = Ok c
}.

Section CWT.
Context `{!Signer.Ecdsa} `{!Token.Zlib} `{!Cbor}.

(** ** Building *)

(** The Sig_structure of RFC 9052, with empty external data. *)
Definition sigStructure (protected payload : list Z) : cval :=
  CArray [CText "Signature1"; CBytes protected; CBytes []; CBytes payload].

Definition signCOSESign1 (key : Signer.signer) (protected payload : list Z) (nonce : Z) :
    result (list Z) :=
  let? toBeSigned := Marshal (sigStructure protected payload) in
  let hash := Sha256.Sum256 toBeSigned in
  let? der := Signer.SignDER key nonce hash in
  Signer.asn1ToRawECDSA der 32.

Fixpoint decodeX5CToDER (x5c : list string) : result (list (list Z)) :=
  match x5c with
  | [] => Ok []
  | entry :: rest =>
      let? der := Base64.StdDecode entry in
      let? chain := decodeX5CToDER rest in
      Ok (der :: chain)
  end.

Definition x5chainValue (chain : list (list Z)) : cval :=
  match chain with [der] => CBytes der | _ => CArray (CBytes <$> chain) end.

Definition protectedMap (p : Token.TokenParams) : result cval :=
  let? x5chain :=
    match Token.X5C p with
    | [] => Ok []
    | x5c => let? chain := decodeX5CToDER x5c in Ok [(CInt coseHeaderX5Chain, x5chainValue chain)]
    end in
  let kid :=
    if bool_decide (Token.KeyID p = "") then []
    else [(CInt coseHeaderKid, CBytes (GoStrings.bytesOf (Token.KeyID p)))] in
  Ok (CMap ([(CInt coseHeaderAlg, CInt coseAlgES256)] ++ kid ++
            [(CInt coseHeaderTyp, CText statuslistCWTContentType)] ++ x5chain)).

(** [t.Unix()]. *)
Definition Unix (t : Z) : Z := t / second.

Definition tokenClaims (p : Token.TokenParams) (compressed : list Z) : cwtClaims :=
  MkCwtClaims (Token.ListURL p) (Unix (Token.IssuedAt p)) (Token.TTL p)
    (MkCwtStatusListClaim (Bitmap.bits (Token.tBitmap p)) compressed "").

Definition BuildCWTToken (key : Signer.signer) (p : Token.TokenParams) (nonce : Z) :
    result (list Z) :=
  match Signer.Public key with
  | None => Err (ErrMsg "statuslist: BuildCWTToken: signing key is not ECDSA")
  | Some pub =>
      if negb (Signer.BitSize pub =? 256) then
        Err (ErrMsg "statuslist: BuildCWTToken: ES256 requires a P-256 key")
      else
        let? compressed := Token.compressLst (Bitmap.data (Token.tBitmap p)) in
        let? payload := Marshal (claimsValue (tokenClaims p compressed)) in
        let? headers := protectedMap p in
        let? protected := Marshal headers in
        let? sig := signCOSESign1 key protected payload nonce in
        Marshal (CTag 18 (CArray [CBytes protected; CMap []; CBytes payload; CBytes sig]))
  end.

(** ** Parsing *)

Record CWTClaimsResult := MkCWTClaimsResult {
  rSubject : string;
  rIssuedAt : Z;
  rTTL : Z;
  rBits : Z;
  rLst : list Z;
  rAggregationURI : string
}.

Definition verifyCOSESign1 (pub : Signer.public) (protected payload sig : list Z) : result unit :=
  if negb (Nat.eqb (length sig) 64) then
    Err (ErrMsg "statuslist: COSE_Sign1 signature has the wrong length")
  else
    let? toBeSigned := Marshal (sigStructure protected payload) in
    let hash := Sha256.Sum256 toBeSigned in
    let r := Signer.beNumber (take 32 sig) in
    let s := Signer.beNumber (drop 32 sig) in
    if Signer.VerifyRS pub hash r s then Ok tt
    else Err (ErrMsg "statuslist: COSE_Sign1 signature verification failed").

Definition ParseCWTToken (token : list Z) (pub : Signer.public) : result CWTClaimsResult :=
  let? v := Unmarshal token in
  match v with
  | CTag n content =>
      if negb (n =? 18) then Err (ErrMsg "statuslist: expected COSE_Sign1_Tagged (18)")
      else
        match content with
        | CArray [p0; _; p2; p3] =>
            let? protected := asBytes p0 in
            let? payload := asBytes p2 in
            let? sig := asBytes p3 in
            let? _ := verifyCOSESign1 pub protected payload sig in
            let? cv := Unmarshal payload in
            let? claims := asClaims cv in
            let? raw := Token.decompressLst (cLst (cStatusList claims)) in
            Ok (MkCWTClaimsResult (Sub claims) (Iat claims * second) (wTTL claims)
                  (Bits (cStatusList claims)) raw (cAggregationURI (cStatusList claims)))
        | CArray _ => Err (ErrMsg "statuslist: COSE_Sign1 has the wrong number of elements")
        | _ => Err (ErrMsg "statuslist: decode COSE_Sign1 array")
        end
  | _ => Err (ErrMsg "statuslist: decode COSE_Sign1")
  end.

End CWT.

(** ** Lemmas *)

Section Correct.
Context `{!Signer.Ecdsa} `{!Token.Zlib} `{!Cbor}.
Context `{!Signer.EcdsaLaws _} `{!Token.ZlibLaws _} `{!CborLaws _}.

#[local] Opaque Signer.beBytes Sha256.Sum256.

Lemma signCOSESign1_verify key pub protected payload nonce sig :
  Signer.Public key = Some pub -> Signer.BitSize pub = 256 ->
  signCOSESign1 key protected payload nonce = Ok sig ->
  verifyCOSESign1 pub protected payload sig = Ok tt.
Proof.
  intros Hpub Hbits. unfold signCOSESign1, verifyCOSESign1.
  destruct (Marshal (sigStructure protected payload)) as [tbs|e]; [|done]. cbn [result_bind].
  intros Hsig. destruct (Signer.SignDER_raw key pub nonce (Sha256.Sum256 tbs) sig Hpub Hbits Hsig)
    as (Hlen & Hv & _).
  rewrite Hlen. cbn [Nat.eqb negb]. by rewrite Hv.
Qed.

Lemma claimsValue_utf8 p compressed :
  GoStrings.ValidString (Token.ListURL p) = true -> utf8 (claimsValue (tokenClaims p compressed)) = true.
Proof.
  intros Hu. unfold claimsValue, statusListValue. cbn [tokenClaims Sub Iat wTTL cStatusList cLst Bits cAggregationURI].
  destruct (Token.TTL p =? 0); cbn -[GoStrings.ValidString]; by rewrite Hu.
Qed.

Lemma BuildCWTToken_parse key pub p nonce token :
  Signer.Public key = Some pub -> bytes_ok (Bitmap.data (Token.tBitmap p)) ->
  GoStrings.ValidString (Token.ListURL p) = true ->
  BuildCWTToken key p nonce = Ok token ->
  ParseCWTToken token pub =
    Ok (MkCWTClaimsResult (Token.ListURL p) (Token.IssuedAt p / second * second) (Token.TTL p)
          (Bitmap.bits (Token.tBitmap p)) (Bitmap.data (Token.tBitmap p)) "").
Proof.
  intros Hpub Hdata Hurl. unfold BuildCWTToken. rewrite Hpub.
  destruct (Z.eqb_spec (Signer.BitSize pub) 256) as [Hbits|]; [|done].
  unfold Token.compressLst. cbn [negb result_bind]. set (cs := tokenClaims p _).
  destruct (Marshal (claimsValue cs)) as [payload|] eqn:Hpay; [|done]. cbn [result_bind].
  destruct (protectedMap p) as [headers|]; [|done]. cbn [result_bind].
  destruct (Marshal headers) as [protected|] eqn:Hprot; [|done]. cbn [result_bind].
  destruct (signCOSESign1 key protected payload nonce) as [sig|] eqn:Hsig; [|done].
  cbn [result_bind]. intros Htok. unfold ParseCWTToken.
  rewrite (fun Hu => cbor_roundtrip _ _ Hu Htok) by done. cbn [result_bind negb Z.eqb Pos.eqb].
  rewrite !cbor_asBytes. cbn [result_bind].
  rewrite (signCOSESign1_verify key pub protected payload nonce sig Hpub Hbits Hsig).
  cbn [result_bind]. rewrite (cbor_roundtrip _ _ (claimsValue_utf8 p _ Hurl) Hpay). cbn [result_bind].
  rewrite cbor_asClaims. cbn [result_bind]. unfold cs. cbn [tokenClaims cStatusList cLst].
  unfold Token.decompressLst. rewrite Token.zlib_roundtrip by done. done.
Qed.

(** The chain a deployment configures reaches the header as it was. *)
Lemma decodeX5CToDER_encoded chain :
  Forall bytes_ok chain -> decodeX5CToDER (Base64.StdEncode <$> chain) = Ok chain.
Proof.
  induction 1 as [|der chain Hd _ IH]; [done|].
  rewrite fmap_cons. cbn [decodeX5CToDER]. rewrite Base64.Std_roundtrip by done.
  cbn [result_bind]. by rewrite IH.
Qed.

End Correct.

(** ** A concrete instance of the encoder *)

Module Concrete.

(** Values as trees, and back. *)
Fixpoint toTree (v : cval) : gen_tree (Z + list Z + string) :=
  match v with
  | CInt z => GenLeaf (inl (inl z))
  | CBytes b => GenLeaf (inl (inr b))
  | CText s => GenLeaf (inr s)
  | CArray l => GenNode 0 (toTree <$> l)
  | CMap l => GenNode 1 ((fun e => GenNode 0 [toTree e.1; toTree e.2]) <$> l)
  | CTag n v => GenNode 2 [GenLeaf (inl (inl n)); toTree v]
  end.

Fixpoint fromTree (t : gen_tree (Z + list Z + string)) : cval :=
  match t with
  | GenLeaf (inl (inl z)) => CInt z
  | GenLeaf (inl (inr b)) => CBytes b
  | GenLeaf (inr s) => CText s
  | GenNode 0 l => CArray (fromTree <$> l)
  | GenNode 1 l =>
      CMap ((fun t => match t with
                      | GenNode _ [a; b] => (fromTree a, fromTree b)
                      | _ => (CInt 0, CInt 0)
                      end) <$> l)
  | GenNode _ [GenLeaf (inl (inl n)); v] => CTag n (fromTree v)
  | GenNode _ _ => CInt 0
  end.

Lemma fromTree_toTree v : fromTree (toTree v) = v.
Proof.
  revert v. fix IH 1. intros [z|b|s|l|l|n v]; cbn [toTree fromTree]; [done..| | |by rewrite IH].
  - f_equal. induction l as [|v l IHl]; [done|]. rewrite !fmap_cons, IHl. by rewrite IH.
  - f_equal. induction l as [|[k v] l IHl]; [done|]. rewrite !fmap_cons, IHl. cbn [fst snd].
    by rewrite !IH.
Qed.

(** Reading the claims back from their map. *)
Definition readClaims (v : cval) : result cwtClaims :=
  match v with
  | CMap ((CInt 2, CText sub) :: (CInt 6, CInt iat) ::
          (CInt 65533, CMap ((CText _, CBytes lst) :: (CText _, CInt b) :: agg)) :: ttl) =>
      Ok (MkCwtClaims sub iat
            (match ttl with [(_, CInt t)] => t | _ => 0 end)
            (MkCwtStatusListClaim b lst (match agg with [(_, CText a)] => a | _ => "" end)))
  | _ => Err (ErrMsg "cbor: cannot unmarshal")
  end.

#[export] Instance cbor : Cbor := {
  Marshal v := Ok (Token.Concrete.posBytes (encode (toTree v)));
  Unmarshal b :=
    match decode (Token.Concrete.bytesPos b) with
    | Some t => Ok (fromTree t)
    | None => Err (ErrMsg "cbor: unexpected EOF")
    end;
  asBytes v := match v with CBytes b => Ok b | _ => Err (ErrMsg "cbor: cannot unmarshal") end;
  asClaims := readClaims
}.

#[export] Instance cbor_laws : CborLaws cbor.
Proof.
  split.
  - intros v b [= <-]. apply Token.Concrete.posBytes_ok.
  - intros v b _ [= <-]. unfold Unmarshal, cbor.
    by rewrite Token.Concrete.bytesPos_posBytes, decode_encode, fromTree_toTree.
  - done.
  - intros [sub iat ttl [b lst agg]]. unfold asClaims, cbor, claimsValue, statusListValue, readClaims.
    simpl. f_equal. f_equal.
    + by destruct (Z.eqb_spec ttl 0) as [->|].
    + by case_bool_decide; subst.
Qed.

(** With the concrete signer every list without a certificate chain is
    built. *)
Lemma BuildCWTToken_ok p nonce :
  Token.X5C p = [] ->
  exists token, @BuildCWTToken Token.Concrete.ecdsa Token.Concrete.zlib cbor Token.Concrete.key p nonce = Ok token.
Proof.
  intros Hx. unfold BuildCWTToken.
  change (Signer.Public Token.Concrete.key) with (Some Token.Concrete.pub).
  change (Signer.BitSize Token.Concrete.pub =? 256) with true. cbn [negb].
  unfold Token.compressLst, protectedMap, signCOSESign1, Marshal, cbor. rewrite Hx. cbn [result_bind].
  match goal with |- context [Sha256.Sum256 ?m] =>
    destruct (Token.Concrete.toySign_ok nonce (Sha256.Sum256 m)) as [sig Hsig] end.
  unfold Signer.SignDER, Token.Concrete.ecdsa. rewrite Hsig. by eexists.
Qed.

End Concrete.

(** ** Properties *)

(** C19: the round trip of a published CWT. Whatever [BuildCWTToken] signs, for
    a list whose URL is UTF-8, [ParseCWTToken] accepts under the signer's public key: the COSE_Sign1
    structure, the signature over the Sig_structure and the claims come back
    with the list's URL, the signing second, the ttl, the width, and, after
    decompression, exactly the packed bitmap that was signed. *)
Theorem cwt_roundtrip `{!Signer.Ecdsa} `{!Token.Zlib} `{!Cbor}
    `{!Signer.EcdsaLaws _} `{!Token.ZlibLaws _} `{!CborLaws _}
    (key : Signer.signer) (pub : Signer.public) (p : Token.TokenParams) (nonce : Z) (token : list Z) :
  Signer.Public key = Some pub -> bytes_ok (Bitmap.data (Token.tBitmap p)) ->
  GoStrings.ValidString (Token.ListURL p) = true -> BuildCWTToken key p nonce = Ok token ->
  exists c, ParseCWTToken token pub = Ok c /\ rSubject c = Token.ListURL p /\
    rIssuedAt c = Token.IssuedAt p / second * second /\ rTTL c = Token.TTL p /\
    rBits c = Bitmap.bits (Token.tBitmap p) /\ rLst c = Bitmap.data (Token.tBitmap p).
Proof.
  intros Hpub Hdata Hurl Hb. eexists.
  split; [by apply (BuildCWTToken_parse key pub p nonce)|]. done.
Qed.

#[local] Existing Instances Token.Concrete.ecdsa Token.Concrete.ecdsa_laws Token.Concrete.zlib
  Token.Concrete.zlib_laws Concrete.cbor Concrete.cbor_laws.

Lemma cwt_roundtrip_witness :
  exists token c, BuildCWTToken Token.Concrete.key Token.Concrete.params 5 = Ok token /\
    ParseCWTToken token Token.Concrete.pub = Ok c /\ rLst c = [0xC9; 0x44; 0xF9].
Proof.
  destruct (Concrete.BuildCWTToken_ok Token.Concrete.params 5 eq_refl) as [token E].
  destruct (cwt_roundtrip Token.Concrete.key Token.Concrete.pub Token.Concrete.params 5 token)
    as (c & Hc & _ & _ & _ & _ & Hd); [reflexivity| |vm_compute; reflexivity|exact E|].
  - apply (bool_decide_unpack _). vm_compute. exact I.
  - exists token, c. split_and!; [exact E|exact Hc|exact Hd].
Defined.

End Cwt.
