(* ===== verification/Prog.v ===== *)
(** * Programs as sequences of atomic steps

    A handler of the service is a sequence of atomic interactions with the
    world it shares with every other handler (one SQL statement or
    transaction, one Redis command or script, a clock reading, a random draw)
    and of pure computation between them. [prog W A] is that sequence: a tree
    of atomic state transformers. One definition of a handler gives

    - its sequential meaning, [run];
    - its concurrent meaning, [pool_step]: any number of handlers, the
      scheduler picking one and running its next atomic step.

    [rg] is rely-guarantee reasoning over such programs: every step keeps an
    invariant [I] and stays in a relation [R] of allowed evolutions of the
    world, assuming the other threads do the same. [pool_safe] is its
    soundness: the invariant holds in every interleaving. *)

From S2P Require Import Prelude.

Inductive prog (W : Type) (A : Type) : Type :=
| Ret (a : A)
| Step {R : Type} (act : W -> R * W) (k : R -> prog W A).
Arguments Ret {W A} a.
Arguments Step {W A R} act k.

Fixpoint bind {W A B} (p : prog W A) (f : A -> prog W B) : prog W B :=
  match p with
  | Ret a => f a
  | Step act k => Step act (fun r => bind (k r) f)
  end.

(** Go's [x, err := p; if err != nil { return err }]. *)
Definition bindErr {W A B} (p : prog W (result A)) (f : A -> prog W (result B)) :
    prog W (result B) :=
  bind p (fun r => match r with Ok a => f a | Err e => Ret (Err e) end).

#[global] Arguments bind : simpl never.
#[global] Arguments bindErr : simpl never.

(** One atomic step. *)
Definition act {W A} (f : W -> A * W) : prog W A := Step f Ret.

Declare Scope prog_scope.
Delimit Scope prog_scope with prog.
#[global] Open Scope prog_scope.

Notation "'let!' x ':=' p 'in' k" := (bind p (fun x => k))
  (at level 10, x binder, p at level 100, k at level 200) : prog_scope.

Notation "'try!' x ':=' p 'in' k" := (bindErr p (fun x => k))
  (at level 10, x binder, p at level 100, k at level 200) : prog_scope.

Notation "p ';;!' k" := (bind p (fun _ => k))
  (at level 100, k at level 200, right associativity) : prog_scope.

(** [for _, x := range l { body }], stopping at the first error. *)
Fixpoint forErr {W A} (l : list A) (body : A -> prog W (result unit)) : prog W (result unit) :=
  match l with
  | [] => Ret (Ok tt)
  | x :: l => try! _ := body x in forErr l body
  end.

(** The same loop when the body's error is only logged. *)
Fixpoint forLog {W A} (l : list A) (body : A -> prog W (result unit)) : prog W unit :=
  match l with
  | [] => Ret tt
  | x :: l => let! _ := body x in forLog l body
  end.

(** ** Sequential meaning *)

Fixpoint run {W A} (p : prog W A) (w : W) : A * W :=
  match p with
  | Ret a => (a, w)
  | Step act k => let rw := act w in run (k rw.1) rw.2
  end.

Lemma run_bind {W A B} (p : prog W A) (f : A -> prog W B) w :
  run (bind p f) w = run (f (run p w).1) (run p w).2.
Proof. revert w. induction p as [a|R ac k IH]; intros w; simpl; [done|]. apply IH. Qed.

Lemma run_bindErr {W A B} (p : prog W (result A)) (f : A -> prog W (result B)) w :
  run (bindErr p f) w =
    match (run p w).1 with
    | Ok a => run (f a) (run p w).2
    | Err e => (Err e, (run p w).2)
    end.
Proof. unfold bindErr. rewrite run_bind. by destruct (run p w).1. Qed.

Lemma run_act {W A} (f : W -> A * W) w : run (act f) w = f w.
Proof. simpl. by destruct (f w). Qed.

(** The first [n] steps of a program, and what is left of it. *)
Fixpoint runFor {W A} (n : nat) (p : prog W A) (w : W) : prog W A * W :=
  match n, p with
  | S n, Step act k => let rw := act w in runFor n (k rw.1) rw.2
  | _, _ => (p, w)
  end.

(** Postconditions of sequential runs. *)
Definition wp {W A} (p : prog W A) (Q : A -> W -> Prop) (w : W) : Prop :=
  Q (run p w).1 (run p w).2.

Lemma wp_ret {W A} (a : A) (Q : A -> W -> Prop) w : Q a w -> wp (Ret a) Q w.
Proof. done. Qed.

Lemma wp_bind {W A B} (p : prog W A) (f : A -> prog W B) Q w :
  wp p (fun a w' => wp (f a) Q w') w -> wp (bind p f) Q w.
Proof. unfold wp. by rewrite run_bind. Qed.

Lemma wp_bindErr {W A B} (p : prog W (result A)) (f : A -> prog W (result B)) Q w :
  wp p (fun r w' => match r with Ok a => wp (f a) Q w' | Err e => Q (Err e) w' end) w ->
  wp (bindErr p f) Q w.
Proof. unfold wp. rewrite run_bindErr. by destruct (run p w).1. Qed.

Lemma wp_act {W A} (f : W -> A * W) Q w : Q (f w).1 (f w).2 -> wp (act f) Q w.
Proof. unfold wp. by rewrite run_act. Qed.

Lemma wp_mono {W A} (p : prog W A) (Q Q' : A -> W -> Prop) w :
  wp p Q w -> (forall a w', Q a w' -> Q' a w') -> wp p Q' w.
Proof. unfold wp. auto. Qed.

(** The loop rule: an invariant kept by every iteration that succeeds, and
    implying the postcondition of an iteration that fails. *)
Lemma wp_forErr {W A} (l : list A) (body : A -> prog W (result unit))
    (Inv : list A -> W -> Prop) (Q : result unit -> W -> Prop) w :
  (forall x l w, Inv (x :: l) w ->
     wp (body x) (fun r w' => match r with Ok _ => Inv l w' | Err e => Q (Err e) w' end) w) ->
  (forall w, Inv [] w -> Q (Ok tt) w) ->
  Inv l w -> wp (forErr l body) Q w.
Proof.
  intros Hbody Hend. revert w. induction l as [|x l IH]; intros w HI; simpl; [by apply Hend|].
  apply wp_bindErr. eapply wp_mono; [by apply Hbody|]. intros [u|e] w'; auto.
Qed.

(** A loop that succeeds has done its work for each element, if the work,
    once done, stays done along the relation [R] that every iteration keeps. *)
Lemma wp_forErr_each {W A} (R : relation W) `{!PreOrder R} (I : W -> Prop) (D : A -> W -> Prop)
    (l : list A) (body : A -> prog W (result unit)) w :
  (forall x w w', R w w' -> D x w -> D x w') ->
  (forall x w1, x ∈ l -> R w w1 -> I w1 ->
     wp (body x) (fun r w2 => I w2 /\ R w1 w2 /\ match r with Ok _ => D x w2 | Err _ => True end) w1) ->
  I w ->
  wp (forErr l body) (fun r w' => I w' /\ R w w' /\
    match r with Ok _ => Forall (fun x => D x w') l | Err _ => True end) w.
Proof.
  intros HD. revert w. induction l as [|x l IH]; intros w Hbody HI; cbn [forErr].
  { apply wp_ret. split_and!; [done|reflexivity|constructor]. }
  apply wp_bindErr. eapply wp_mono; [apply Hbody; [left|reflexivity|done]|].
  intros [u|e] w1 (HI1 & HR1 & Hx); [|done]. eapply wp_mono; [apply IH; [|done]|].
  - intros y w2 Hy HR2. apply Hbody; [by right|by etrans].
  - intros r w2 (HI2 & HR2 & Hr). split_and!; [done|by etrans|]. destruct r; [|done].
    constructor; [by apply (HD x w1)|done].
Qed.

Lemma wp_forLog {W A} (l : list A) (body : A -> prog W (result unit))
    (Inv : list A -> W -> Prop) (Q : unit -> W -> Prop) w :
  (forall x l w, Inv (x :: l) w -> wp (body x) (fun _ w' => Inv l w') w) ->
  (forall w, Inv [] w -> Q tt w) ->
  Inv l w -> wp (forLog l body) Q w.
Proof.
  intros Hbody Hend. revert w. induction l as [|x l IH]; intros w HI; simpl; [by apply Hend|].
  apply wp_bind. eapply wp_mono; [by apply Hbody|]. auto.
Qed.

(** ** Frames *)

(** Every step of the program stays in [R], from whatever world it is taken,
    and the value it returns satisfies [Q]. *)
Fixpoint each {W A} (R : relation W) (p : prog W A) (Q : A -> Prop) : Prop :=
  match p with
  | Ret a => Q a
  | Step ac k => forall w, R w (ac w).2 /\ each R (k (ac w).1) Q
  end.

Section Each.
Context {W : Type} (R : relation W).

Lemma each_mono {A} (p : prog W A) (Q Q' : A -> Prop) :
  each R p Q -> (forall a, Q a -> Q' a) -> each R p Q'.
Proof.
  induction p as [a|T ac k IH]; cbn [each]; [auto|]. intros H HQ w. destruct (H w) as [? Hk]. eauto.
Qed.

Lemma each_ret {A} (a : A) (Q : A -> Prop) : Q a -> each R (Ret a) Q.
Proof. done. Qed.

Lemma each_act {A} (f : W -> A * W) (Q : A -> Prop) :
  (forall w, R w (f w).2 /\ Q (f w).1) -> each R (act f) Q.
Proof. done. Qed.

Lemma each_bind {A B} (p : prog W A) (f : A -> prog W B) (Q : B -> Prop) :
  each R p (fun a => each R (f a) Q) -> each R (bind p f) Q.
Proof.
  induction p as [a|T ac k IH]; cbn [each bind]; [done|]. intros H w. destruct (H w) as [? Hk]. auto.
Qed.

Lemma each_bindErr {A B} (p : prog W (result A)) (f : A -> prog W (result B)) (Q : result B -> Prop) :
  each R p (fun r => match r with Ok a => each R (f a) Q | Err e => Q (Err e) end) -> each R (bindErr p f) Q.
Proof. intros H. apply each_bind. eapply each_mono; [exact H|]. by intros [a|e]. Qed.

Lemma each_rel {A} (R' : relation W) (p : prog W A) (Q : A -> Prop) :
  (forall w w', R w w' -> R' w w') -> each R p Q -> each R' p Q.
Proof.
  intros HR. induction p as [a|T ac k IH]; cbn [each]; [done|]. intros H w. destruct (H w) as [? Hk]. auto.
Qed.

Lemma each_wp `{!PreOrder R} {A} (p : prog W A) (Q : A -> Prop) w :
  each R p Q -> wp p (fun a w' => R w w' /\ Q a) w.
Proof.
  revert w. induction p as [a|T ac k IH]; intros w; cbn [each]; [by split; [reflexivity|]|].
  intros H. destruct (H w) as [HR Hk]. unfold wp in *. cbn [run].
  destruct (IH _ (ac w).2 Hk) as [HR' HQ]. split; [by etrans|done].
Qed.

End Each.

(** Two things that are true of the same run. *)
Lemma wp_and {W A} (p : prog W A) (Q Q' : A -> W -> Prop) w :
  wp p Q w -> wp p Q' w -> wp p (fun a w' => Q a w' /\ Q' a w') w.
Proof. done. Qed.

(** ** Concurrent meaning *)

Section Pool.
Context {W A : Type}.

(** A world and the threads running in it. *)
Definition config : Type := W * list (prog W A).

(** One step: some thread runs its next atomic action, or a new thread that
    satisfies [ok] (a request arrives, a timer fires) joins the pool. *)
Inductive pool_step (ok : prog W A -> Prop) : config -> config -> Prop :=
| pool_step_thread w ps i R (ac : W -> R * W) (k : R -> prog W A) :
    ps !! i = Some (Step ac k) ->
    pool_step ok (w, ps) ((ac w).2, <[i := k (ac w).1]> ps)
| pool_step_spawn w ps (p : prog W A) :
    ok p -> pool_step ok (w, ps) (w, ps ++ [p]).

(** A thread may run to its end without the others. *)
Lemma pool_run (ok : prog W A -> Prop) w ps i p :
  ps !! i = Some p -> rtc (pool_step ok) (w, ps) ((run p w).2, <[i := Ret (run p w).1]> ps).
Proof.
  revert w ps. induction p as [a|R ac k IH]; intros w ps Hi.
  - cbn [run fst snd]. by rewrite list_insert_id.
  - eapply rtc_l; [by apply (pool_step_thread ok w ps i R ac k)|].
    specialize (IH (ac w).1 (ac w).2 (<[i := k (ac w).1]> ps)).
    rewrite list_insert_insert_eq in IH. cbn [run]. destruct (ac w) as [x w']. apply IH.
    apply list_lookup_insert_eq. by apply lookup_lt_Some in Hi.
Qed.

(** And it may be interrupted after any number of steps. *)
Lemma pool_runFor (ok : prog W A -> Prop) n w ps i p :
  ps !! i = Some p ->
  rtc (pool_step ok) (w, ps) ((runFor n p w).2, <[i := (runFor n p w).1]> ps).
Proof.
  revert w ps p. induction n as [|n IH]; intros w ps p Hi.
  { cbn [runFor fst snd]. by rewrite list_insert_id. }
  destruct p as [a|R ac k]; [cbn [runFor fst snd]; by rewrite list_insert_id|].
  eapply rtc_l; [by apply (pool_step_thread ok w ps i R ac k)|].
  specialize (IH (ac w).2 (<[i := k (ac w).1]> ps) (k (ac w).1)).
  rewrite list_insert_insert_eq in IH. cbn [runFor]. apply IH.
  apply list_lookup_insert_eq. by apply lookup_lt_Some in Hi.
Qed.

(** Two threads, one after the other. *)
Lemma pool_run_two (ok : prog W A -> Prop) w w1 w2 p q x y :
  run p w = (x, w1) -> run q w1 = (y, w2) -> rtc (pool_step ok) (w, [p; q]) (w2, [Ret x; Ret y]).
Proof.
  intros Hp Hq. pose proof (pool_run ok w [p; q] 0 p eq_refl) as H1. rewrite Hp in H1.
  pose proof (pool_run ok w1 [Ret x; q] 1 q eq_refl) as H2. rewrite Hq in H2. by etrans.
Qed.

End Pool.

Section RelyGuarantee.
Context {W : Type} (I : W -> Prop) (R : relation W) `{!PreOrder R}.

(** [rg p Q w0]: started when the world was last seen as [w0], the program [p]
    keeps [I] and [R] at each of its steps, if the others do, and returns in a
    world that satisfies [Q]. *)
Fixpoint rg {A} (p : prog W A) (Q : A -> W -> Prop) (w0 : W) : Prop :=
  match p with
  | Ret a => Q a w0
  | Step ac k =>
      forall w, R w0 w -> I w ->
        I (ac w).2 /\ R w (ac w).2 /\ rg (k (ac w).1) Q (ac w).2
  end.

Lemma rg_mono {A} (p : prog W A) (Q Q' : A -> W -> Prop) w :
  rg p Q w -> (forall a w', Q a w' -> Q' a w') -> rg p Q' w.
Proof.
  revert w. induction p as [a|T ac k IH]; intros w; simpl; [auto|].
  intros H HQ w1 HR HI. destruct (H w1 HR HI) as (? & ? & ?). eauto.
Qed.

Lemma rg_bind {A B} (p : prog W A) (f : A -> prog W B) Q w :
  rg p (fun a w' => rg (f a) Q w') w -> rg (bind p f) Q w.
Proof.
  revert w. induction p as [a|T ac k IH]; intros w; simpl; [done|].
  intros H w1 HR HI. destruct (H w1 HR HI) as (? & ? & ?). auto.
Qed.

Lemma rg_bindErr {A B} (p : prog W (result A)) (f : A -> prog W (result B)) Q w :
  rg p (fun r w' => match r with Ok a => rg (f a) Q w' | Err e => Q (Err e) w' end) w ->
  rg (bindErr p f) Q w.
Proof. intros H. apply rg_bind. eapply rg_mono; [exact H|]. by intros [a|e] w'. Qed.

(** A program that keeps the discipline keeps the invariant when it runs
    alone. *)
Lemma rg_run {A} (p : prog W A) (Q : A -> W -> Prop) w :
  rg p Q w -> I w -> I (run p w).2 /\ R w (run p w).2 /\ Q (run p w).1 (run p w).2.
Proof.
  revert w. induction p as [a|T ac k IH]; intros w; simpl; [done|].
  intros H HI. destruct (H w ltac:(reflexivity) HI) as (HI' & HR & Hk).
  destruct (IH _ _ Hk HI') as (? & ? & ?). split_and!; try done. by etrans.
Qed.

(** Threads are safe when they keep the discipline from wherever the world may
    have evolved to. *)
Definition threads_safe {A} (Q : A -> W -> Prop) (c : config (W := W) (A := A)) : Prop :=
  I c.1 /\ Forall (fun p => exists w0, R w0 c.1 /\ rg p Q w0) c.2.

(** What a thread has to satisfy to join the pool. *)
Definition joins {A} (Q : A -> W -> Prop) (p : prog W A) : Prop := forall w, I w -> rg p Q w.

Lemma pool_step_preserves {A} (Q : A -> W -> Prop) c c' :
  threads_safe Q c -> pool_step (joins Q) c c' -> threads_safe Q c' /\ R c.1 c'.1.
Proof.
  intros [HI Hps] Hstep. destruct Hstep as [w ps i T ac k Hi|w ps p Hp]; simpl in *.
  - pose proof (Forall_lookup_1 _ _ _ _ Hps Hi) as (w0 & HR & Hrg). simpl in Hrg.
    destruct (Hrg w HR HI) as (HI' & HR' & Hk). split; [|done]. split; [done|]. simpl.
    apply Forall_insert.
    + eapply Forall_impl; [exact Hps|]. intros q (w1 & Hw1 & Hq). exists w1. split; [|done].
      by etrans.
    + exists (ac w).2. split; [reflexivity|done].
  - split; [|reflexivity]. split; [done|]. simpl. apply Forall_app. split; [done|].
    apply Forall_singleton. exists w. split; [reflexivity|auto].
Qed.

(** Soundness: in every interleaving the invariant holds and the world only
    evolves along [R]. *)
Lemma pool_safe {A} (Q : A -> W -> Prop) c c' :
  threads_safe Q c -> rtc (pool_step (joins Q)) c c' -> threads_safe Q c' /\ R c.1 c'.1.
Proof.
  intros Hc Hsteps. induction Hsteps as [c|c1 c2 c3 Hstep Hsteps IH]; [by split|].
  destruct (pool_step_preserves Q c1 c2 Hc Hstep) as [Hc2 HR].
  destruct (IH Hc2) as [Hc3 HR']. split; [done|]. by etrans.
Qed.

End RelyGuarantee.

(** The same for one thread among them, which may promise more than the others
    when it ends. *)
Section Distinguished.
Context {W : Type} (I : W -> Prop) (R : relation W) `{!PreOrder R}.

Lemma pool_thread {A} (Q Qi : A -> W -> Prop) c c' i p w0 :
  threads_safe I R Q c -> rtc (pool_step (joins I R Q)) c c' ->
  c.2 !! i = Some p -> R w0 c.1 -> rg I R p Qi w0 ->
  exists p' w0', c'.2 !! i = Some p' /\ R w0' c'.1 /\ rg I R p' Qi w0'.
Proof.
  intros Hc Hsteps. revert p w0. induction Hsteps as [c|c1 c2 c3 Hstep Hsteps IH]; intros p w0 Hi HR Hp; [eauto|].
  destruct (pool_step_preserves I R Q c1 c2 Hc Hstep) as [Hc2 HR2].
  destruct Hstep as [w ps j T ac k Hj|w ps q Hq]; cbn [fst snd] in *.
  - destruct (decide (j = i)) as [->|Hne].
    + assert (p = Step ac k) as -> by congruence. destruct (Hp w HR (proj1 Hc)) as (_ & _ & Hk).
      eapply IH; [done| |reflexivity|exact Hk].
      apply list_lookup_insert_eq. by apply lookup_lt_Some in Hi.
    + apply (IH Hc2 p w0); [|by etrans|exact Hp]. by rewrite list_lookup_insert_ne.
  - eapply IH; [done| |exact HR|exact Hp]. rewrite lookup_app_l; [done|]. by apply lookup_lt_Some in Hi.
Qed.

(** What a program has seen of the world stays in its postcondition. *)
Lemma rg_since {A} (p : prog W A) (Q : A -> W -> Prop) w0 :
  rg I R p Q w0 -> I w0 -> rg I R p (fun a w => I w /\ R w0 w /\ Q a w) w0.
Proof.
  intros Hp HI. assert (forall w, R w w0 -> rg I R p (fun a w' => I w' /\ R w w' /\ Q a w') w0) as H;
    [|by apply H].
  revert w0 HI Hp. induction p as [a|T ac k IH]; intros w0 HI Hp w HR; cbn [rg] in *; [done|].
  intros w1 HR1 HI1. destruct (Hp w1 HR1 HI1) as (HI2 & HR2 & Hk). split_and!; [done|done|].
  apply IH; [done|done|]. etrans; [exact HR|]. by etrans.
Qed.

End Distinguished.

(** ** Histories

    A program may be run with a history beside the world, that [next] extends at
    every step and no step reads. Every run of a pool is the run of the pool with
    histories that forgets them. *)
Section History.
Context {W G : Type} (next : G -> W -> W -> G).

Fixpoint annotate {A} (p : prog W A) : prog (W * G) A :=
  match p with
  | Ret a => Ret a
  | Step ac k =>
      Step (fun wg => let rw := ac wg.1 in (rw.1, (rw.2, next wg.2 wg.1 rw.2))) (fun r => annotate (k r))
  end.

Lemma annotate_pool {A} (ok : prog W A -> Prop) c c' g :
  rtc (pool_step ok) c c' ->
  exists g', rtc (pool_step (fun q => exists p, ok p /\ q = annotate p))
    ((c.1, g), annotate <$> c.2) ((c'.1, g'), annotate <$> c'.2).
Proof.
  intros Hsteps. revert g. induction Hsteps as [c|c1 c2 c3 Hstep _ IH]; intros g; [by exists g|].
  destruct Hstep as [w ps i T ac k Hi|w ps p Hp]; cbn [fst snd] in *.
  - destruct (IH (next g w (ac w).2)) as [g' Hg]. exists g'. eapply rtc_l; [|exact Hg].
    rewrite list_fmap_insert.
    exact (pool_step_thread _ (w, g) (annotate <$> ps) i _ _ (fun r => annotate (k r))
      ltac:(by rewrite list_lookup_fmap, Hi)).
  - destruct (IH g) as [g' Hg]. exists g'. eapply rtc_l; [|exact Hg]. rewrite fmap_app.
    apply pool_step_spawn. eauto.
Qed.

Context (I : W * G -> Prop) (R : relation (W * G)).

(** Rules for annotated programs. *)
Lemma annotate_bind {A B} (p : prog W A) (f : A -> prog W B) Q wg :
  rg I R (annotate p) (fun a wg' => rg I R (annotate (f a)) Q wg') wg -> rg I R (annotate (bind p f)) Q wg.
Proof.
  revert wg. induction p as [a|T ac k IH]; intros wg; cbn [annotate rg bind]; [done|].
  intros H w1 HR HI. destruct (H w1 HR HI) as (? & ? & ?). auto.
Qed.

Lemma annotate_bindErr {A B} (p : prog W (result A)) (f : A -> prog W (result B)) Q wg :
  rg I R (annotate p) (fun r wg' => match r with
    | Ok a => rg I R (annotate (f a)) Q wg'
    | Err e => Q (Err e) wg'
    end) wg ->
  rg I R (annotate (bindErr p f)) Q wg.
Proof. intros H. apply annotate_bind. eapply rg_mono; [exact H|]. by intros [a|e] wg'. Qed.

End History.
