(* ===== verification/Float64.v ===== *)
(** * float64: the conversions and operations the sources use

    IEEE 754 binary64 in software, the standard library's [spec_float] with
    precision 53 and exponent bound 1024. *)

From Stdlib Require Import SpecFloat.
From S2P Require Import Prelude.

Module Float64.

Definition prec : Z := 53.
Definition emax : Z := 1024.

(** [float64(n)] of an integer, rounded to nearest even. *)
Definition ofInt (n : Z) : spec_float := binary_normalize prec emax n 0 false.

Definition mul : spec_float -> spec_float -> spec_float := SFmul prec emax.
Definition add : spec_float -> spec_float -> spec_float := SFadd prec emax.
Definition sub : spec_float -> spec_float -> spec_float := SFsub prec emax.
Definition div : spec_float -> spec_float -> spec_float := SFdiv prec emax.

(** A finite float without its fraction, towards zero. *)
Definition truncate (x : spec_float) : option Z :=
  match x with
  | S754_zero _ => Some 0
  | S754_finite sgn m e => let z := Z.shiftl (Zpos m) e in Some (if sgn then - z else z)
  | _ => None
  end.

(** The conversions [uint64(x)] and [int64(x)]; what they give out of range
    is up to the implementation. *)
Class Conversion := {
  outOfRange : spec_float -> Z
}.

Section Convert.
Context `{!Conversion}.

Definition toUint64 (x : spec_float) : Z :=
  match truncate x with
  | Some z => if (0 <=? z) && (z <? 2 ^ 64) then z else u64 (outOfRange x)
  | None => u64 (outOfRange x)
  end.

Definition toInt64 (x : spec_float) : Z :=
  match truncate x with
  | Some z => if (minInt64 <=? z) && (z <=? maxInt64) then z else i64 (outOfRange x)
  | None => i64 (outOfRange x)
  end.

(** [Duration.Seconds()]: whole seconds plus the rest over 10^9. *)
Definition Seconds (d : Z) : spec_float :=
  add (ofInt (Z.quot d second)) (div (ofInt (Z.rem d second)) (ofInt second)).

End Convert.

Example Seconds_hour : truncate (Seconds hour) = Some 3600.
Proof. vm_compute. reflexivity. Qed.

Example Seconds_half : truncate (Seconds 1500000000) = Some 1.
Proof. vm_compute. reflexivity. Qed.

End Float64.
