(* ===== verification/Debounce.v ===== *)
(** * internal/publisher/debounce.go: the leading-edge debouncer

    [Trigger] is the method of [leadingDebouncer] with the two clock readings
    it makes as arguments and the effect it asks for ([go fire()], or
    [afterFunc(delay, ...)]) as a value; [timerBody] is the function the timer
    runs before it fires. [dstep] is the state machine the debouncer, its
    timers and the clock form; the theorems are its rate limit and that each
    trigger is followed by a fire or has a timer waiting. *)

From S2P Require Import Prelude.

Module Debounce.

Record leadingDebouncer := MkDebouncer {
  lastFired : gmap string Z;
  pending : gset string
}.

Definition newLeadingDebouncer : leadingDebouncer := MkDebouncer ∅ ∅.

Inductive effect : Type :=
| Nothing
| GoFire
| AfterFunc (delay : Z).

(** [now1] is the reading used for [elapsed], [now2] the one stored. *)
Definition Trigger (d : leadingDebouncer) (key : string) (floor now1 now2 : Z) :
    leadingDebouncer * effect :=
  if decide (key ∈ pending d) then (d, Nothing)
  else
    let elapsed := timeSub now1 (default zeroTime (lastFired d !! key)) in
    if floor <=? elapsed then
      (MkDebouncer (<[key := now2]> (lastFired d)) (pending d), GoFire)
    else
      (MkDebouncer (lastFired d) ({[key]} ∪ pending d), AfterFunc (floor - elapsed)).

Definition timerBody (d : leadingDebouncer) (key : string) (now : Z) : leadingDebouncer :=
  MkDebouncer (<[key := now]> (lastFired d)) (pending d ∖ {[key]}).

(** ** The state machine *)

Record dsys := MkDsys {
  clock : Z;
  deb : leadingDebouncer;
  timers : list (string * Z);   (* key, instant the timer is due *)
  fires : list (string * Z);    (* key, instant, newest first *)
  trigs : list (string * Z)     (* calls of Trigger, newest first *)
}.

Definition dinit (now : Z) : dsys := MkDsys now newLeadingDebouncer [] [] [].

(** What one call of [Trigger] between the clock readings [now1] and [now2] does
    to the system. *)
Definition trigger_sys (s : dsys) (key : string) (floor now1 now2 : Z) : dsys :=
  match Trigger (deb s) key floor now1 now2 with
  | (d, Nothing) => MkDsys now2 d (timers s) (fires s) ((key, now1) :: trigs s)
  | (d, GoFire) => MkDsys now2 d (timers s) ((key, now2) :: fires s) ((key, now1) :: trigs s)
  | (d, AfterFunc delay) =>
      MkDsys now2 d ((key, now2 + delay) :: timers s) (fires s) ((key, now1) :: trigs s)
  end.

(** A timer never runs before it is due; it may run later. *)
Inductive dstep (floor : Z) : dsys -> dsys -> Prop :=
| dstep_trigger s key now1 now2 :
    clock s <= now1 <= now2 -> dstep floor s (trigger_sys s key floor now1 now2)
| dstep_timer s pre key due post now :
    timers s = pre ++ (key, due) :: post -> clock s <= now -> due <= now ->
    dstep floor s (MkDsys now (timerBody (deb s) key now) (pre ++ post)
                     ((key, now) :: fires s) (trigs s)).

(** ** Invariant *)

(** Instants at which [key] fired, newest first. *)
Definition firesOf (key : string) (l : list (string * Z)) : list Z :=
  (filter (fun e => e.1 = key) l).*2.

(** Consecutive instants are at least [floor] apart. *)
Fixpoint spaced (floor : Z) (l : list Z) : Prop :=
  match l with
  | t2 :: ((t1 :: _) as rest) => t1 + floor <= t2 /\ spaced floor rest
  | _ => True
  end.

Record dinv (floor : Z) (s : dsys) : Prop := {
  dinv_clock : 0 <= clock s;
  dinv_last : forall key, lastFired (deb s) !! key = head (firesOf key (fires s));
  dinv_past : forall key t, lastFired (deb s) !! key = Some t -> t <= clock s;
  dinv_spaced : forall key, spaced floor (firesOf key (fires s));
  dinv_pending : forall key, key ∈ pending (deb s) <-> key ∈ (timers s).*1;
  dinv_nodup : NoDup (timers s).*1;
  dinv_due : forall key due, (key, due) ∈ timers s ->
      exists t, lastFired (deb s) !! key = Some t /\ t + floor <= due <= clock s + floor;
  dinv_covered : forall key t, (key, t) ∈ trigs s ->
      key ∈ pending (deb s) \/ exists t', (key, t') ∈ fires s /\ t <= t';
  dinv_trigs : forall key t, (key, t) ∈ trigs s -> t <= clock s
}.

Lemma firesOf_cons_eq key t l : firesOf key ((key, t) :: l) = t :: firesOf key l.
Proof. unfold firesOf. by rewrite filter_cons_True. Qed.

Lemma firesOf_cons_ne key key' t l : key' <> key -> firesOf key ((key', t) :: l) = firesOf key l.
Proof. intros H. unfold firesOf. by rewrite filter_cons_False. Qed.

Lemma spaced_cons floor t l :
  spaced floor l -> (forall t1, head l = Some t1 -> t1 + floor <= t) -> spaced floor (t :: l).
Proof. destruct l as [|t1 l]; simpl; [done|]. intros H Ht. split; [by apply Ht|done]. Qed.

Lemma filter_unique_key (l : list (string * Z)) k v :
  NoDup l.*1 -> (k, v) ∈ l -> filter (fun e => e.1 = k) l = [(k, v)].
Proof.
  induction l as [|[k' v'] l IH]; simpl; [by intros _ ?%elem_of_nil|].
  intros [Hk Hnd]%NoDup_cons Hin. apply elem_of_cons in Hin as [[= -> ->]|Hin].
  - rewrite filter_cons_True by done. f_equal.
    destruct (filter _ l) as [|[k1 v1] m] eqn:E; [done|]. exfalso. apply Hk.
    assert ((k1, v1) ∈ filter (fun e => e.1 = k') l) as H1 by (rewrite E; left).
    apply list_elem_of_filter in H1 as [H1 H2]. simpl in H1. subst k1.
    apply list_elem_of_fmap. by exists (k', v1).
  - rewrite filter_cons_False; [by apply IH|]. simpl. intros ->. apply Hk.
    apply list_elem_of_fmap. by exists (k, v).
Qed.

(** The elapsed time of a key that has never fired is larger than any floor. *)
Lemma elapsed_never now : 0 <= now -> timeSub now zeroTime = maxInt64.
Proof. unfold timeSub, zeroTime, maxInt64, minInt64, second. lia. Qed.

Lemma elapsed_fired now t floor :
  0 <= floor <= maxInt64 -> t <= now -> (floor <= timeSub now t <-> t + floor <= now).
Proof. unfold timeSub, maxInt64, minInt64. lia. Qed.

(** Firing [key] at [now], by whichever path, extends its log at the allowed
    rate. *)
Lemma spaced_fire floor s key now :
  dinv floor s ->
  (forall t, lastFired (deb s) !! key = Some t -> t + floor <= now) ->
  forall k, spaced floor (firesOf k ((key, now) :: fires s)).
Proof.
  intros Hinv Hlast k. destruct (decide (key = k)) as [->|Hne].
  - rewrite firesOf_cons_eq. apply spaced_cons; [by apply Hinv|].
    intros t1 Ht1. apply Hlast. by rewrite (dinv_last _ _ Hinv).
  - rewrite firesOf_cons_ne by done. by apply Hinv.
Qed.

Lemma last_fire s key now l :
  (forall k, lastFired (deb s) !! k = head (firesOf k l)) ->
  forall k, <[key := now]> (lastFired (deb s)) !! k = head (firesOf k ((key, now) :: l)).
Proof.
  intros H k. destruct (decide (key = k)) as [->|Hne].
  - by rewrite lookup_insert_eq, firesOf_cons_eq.
  - by rewrite lookup_insert_ne, firesOf_cons_ne by done.
Qed.

Lemma dinv_init floor now : 0 <= now -> dinv floor (dinit now).
Proof. intros H. split; simpl; try done; set_solver by (constructor). Qed.

Lemma dinv_coalesce floor s key now1 now2 :
  dinv floor s -> clock s <= now1 <= now2 -> key ∈ pending (deb s) ->
  dinv floor (MkDsys now2 (deb s) (timers s) (fires s) ((key, now1) :: trigs s)).
Proof.
  intros [] Ht Hp. split; simpl; try done; try lia.
  - intros k t Hk. apply dinv_past0 in Hk. lia.
  - intros k due Hk. destruct (dinv_due0 k due Hk) as (t & ? & ?). exists t. split; [done|lia].
  - intros k t [[= -> ->]|Hk]%elem_of_cons; [by left|auto].
  - intros k t [[= -> ->]|Hk]%elem_of_cons; [lia|]. apply dinv_trigs0 in Hk. lia.
Qed.

Lemma dinv_fire_now floor s key now1 now2 :
  0 <= floor <= maxInt64 -> dinv floor s -> clock s <= now1 <= now2 -> key ∉ pending (deb s) ->
  floor <= timeSub now1 (default zeroTime (lastFired (deb s) !! key)) ->
  dinv floor (MkDsys now2 (MkDebouncer (<[key := now2]> (lastFired (deb s))) (pending (deb s)))
                (timers s) ((key, now2) :: fires s) ((key, now1) :: trigs s)).
Proof.
  intros Hf Hinv Ht Hp He. pose proof Hinv as []. split; simpl; try done; try lia.
  - by apply last_fire.
  - intros k t. rewrite lookup_insert. case_decide; [intros [= <-]; lia|].
    intros Hk%dinv_past0. lia.
  - apply spaced_fire; [done|]. intros t Hl. rewrite Hl in He. simpl in He.
    apply dinv_past0 in Hl. apply elapsed_fired in He; lia.
  - intros k due Hk. destruct (dinv_due0 k due Hk) as (t & Hl & ?). exists t. split; [|lia].
    rewrite lookup_insert_ne; [done|]. intros ->. apply Hp, dinv_pending0.
    apply list_elem_of_fmap. by exists (k, due).
  - intros k t [[= -> ->]|Hk]%elem_of_cons.
    + right. exists now2. split; [left|lia].
    + destruct (dinv_covered0 k t Hk) as [?|(t' & ? & ?)]; [by left|].
      right. exists t'. split; [by right|done].
  - intros k t [[= -> ->]|Hk]%elem_of_cons; [lia|]. apply dinv_trigs0 in Hk. lia.
Qed.

Lemma dinv_schedule floor s key now1 now2 :
  0 <= floor <= maxInt64 -> dinv floor s -> clock s <= now1 <= now2 -> key ∉ pending (deb s) ->
  timeSub now1 (default zeroTime (lastFired (deb s) !! key)) < floor ->
  dinv floor (MkDsys now2 (MkDebouncer (lastFired (deb s)) ({[key]} ∪ pending (deb s)))
    ((key, now2 + (floor - timeSub now1 (default zeroTime (lastFired (deb s) !! key)))) :: timers s)
    (fires s) ((key, now1) :: trigs s)).
Proof.
  intros Hf Hinv Ht Hp He. pose proof Hinv as []. split; simpl; try done; try lia.
  - intros k t Hk%dinv_past0. lia.
  - intros k. rewrite elem_of_cons, elem_of_union, elem_of_singleton, dinv_pending0. done.
  - apply NoDup_cons. split; [by rewrite <- dinv_pending0|done].
  - intros k due [[= -> ->]|Hk]%elem_of_cons.
    + destruct (lastFired (deb s) !! key) as [t|] eqn:Hl; simpl in *.
      * exists t. split; [done|]. apply dinv_past0 in Hl.
        unfold timeSub, maxInt64, minInt64 in *. lia.
      * rewrite elapsed_never in He by lia. lia.
    + destruct (dinv_due0 k due Hk) as (t & Hl & ?). exists t. split; [done|lia].
  - intros k t [[= -> ->]|Hk]%elem_of_cons; [left; set_solver|].
    destruct (dinv_covered0 k t Hk); [left; set_solver|by right].
  - intros k t [[= -> ->]|Hk]%elem_of_cons; [lia|]. apply dinv_trigs0 in Hk. lia.
Qed.

Lemma dinv_timer floor s pre key due post now :
  dinv floor s -> timers s = pre ++ (key, due) :: post -> clock s <= now -> due <= now ->
  dinv floor (MkDsys now (timerBody (deb s) key now) (pre ++ post)
                ((key, now) :: fires s) (trigs s)).
Proof.
  intros Hinv Htm Hc Hdue. pose proof Hinv as []. rewrite Htm in *.
  rewrite fmap_app, fmap_cons in *. simpl in *.
  pose proof dinv_nodup0 as Hnd. apply NoDup_app in Hnd as (Hn1 & Hn2 & [Hn3 Hn4]%NoDup_cons).
  split; simpl; try done; try lia.
  - by apply last_fire.
  - intros k t. rewrite lookup_insert. case_decide; [intros [= <-]; lia|].
    intros Hk%dinv_past0. lia.
  - apply spaced_fire; [done|]. intros t Hl.
    destruct (dinv_due0 key due) as (t' & Hl' & ?); [set_solver|]. simplify_eq. lia.
  - intros k. rewrite fmap_app, elem_of_difference, elem_of_singleton, dinv_pending0.
    set_solver.
  - rewrite fmap_app. apply NoDup_app. set_solver.
  - intros k d Hk. destruct (dinv_due0 k d) as (t & Hl & ?); [set_solver|].
    exists t. split; [|lia]. rewrite lookup_insert_ne; [done|]. intros ->.
    assert (k ∈ pre.*1 \/ k ∈ post.*1) as [?|?]; [|set_solver..].
    apply elem_of_app in Hk as [Hk|Hk]; [left|right]; apply list_elem_of_fmap; by exists (k, d).
  - intros k t Hk. destruct (decide (k = key)) as [->|Hne].
    + right. exists now. split; [left|]. apply dinv_trigs0 in Hk. lia.
    + destruct (dinv_covered0 k t Hk) as [?|(t' & ? & ?)]; [left; set_solver|].
      right. exists t'. split; [by right|done].
  - intros k t Hk%dinv_trigs0. lia.
Qed.

Lemma dstep_inv floor s s' :
  0 <= floor <= maxInt64 -> dinv floor s -> dstep floor s s' -> dinv floor s'.
Proof.
  intros Hf Hinv Hstep. destruct Hstep as [s key now1 now2 Ht|s pre key due post now Htm Hc Hd].
  - unfold trigger_sys, Trigger. case_decide as Hp; [by apply dinv_coalesce|].
    destruct (Z.leb_spec floor (timeSub now1 (default zeroTime (lastFired (deb s) !! key)))).
    + by apply dinv_fire_now.
    + by apply dinv_schedule.
  - by eapply dinv_timer.
Qed.

Lemma dsteps_inv floor now s :
  0 <= now -> 0 <= floor <= maxInt64 -> rtc (dstep floor) (dinit now) s -> dinv floor s.
Proof.
  intros Hn Hf Hsteps. pose proof (dinv_init floor now Hn) as Hinv. revert Hinv.
  induction Hsteps as [s|s1 s2 s3 Hstep _ IH]; [done|].
  intros Hinv. apply IH. by eapply dstep_inv.
Qed.

(** ** Properties *)

(** C26: the rate limit of the debouncer. Whatever the interleaving of triggers
    and timers, two consecutive publishes of one list are never less than the
    floor (the list's ttl) apart. *)
Theorem debounce_rate_limit (floor now : Z) (s : dsys) (key : string) :
  0 <= now -> 0 <= floor <= maxInt64 -> rtc (dstep floor) (dinit now) s ->
  spaced floor (firesOf key (fires s)).
Proof. intros Hn Hf Hs. by apply (dsteps_inv floor now s Hn Hf Hs). Qed.

(** At most one timer waits for a key. *)
Lemma one_timer floor s key : dinv floor s -> (length (filter (fun e => e.1 = key) (timers s)) <= 1)%nat.
Proof.
  intros Hinv. destruct (filter _ (timers s)) as [|[k v] l] eqn:E; [simpl; lia|].
  assert ((k, v) ∈ filter (fun e => e.1 = key) (timers s)) as Hin by (rewrite E; left).
  apply list_elem_of_filter in Hin as [Hk Hin]. simpl in Hk. subst k.
  rewrite (filter_unique_key _ _ _ (dinv_nodup _ _ Hinv) Hin) in E. by injection E as <-.
Qed.

(** C27: what the debouncer remembers of a trigger. In every reachable state
    there is at most one timer for a key, however many triggers came in; and
    each call of [Trigger] has been followed by a fire of its key, at or after
    the instant of the call, or else that one timer is there, due at most one
    floor after the current instant. A fire is the call of the function that
    was passed to [Trigger]; what that function does, and when a timer that is
    due runs, is not said here. *)
Theorem debounce_no_lost_trigger (floor now : Z) (s : dsys) (key : string) (t : Z) :
  0 <= now -> 0 <= floor <= maxInt64 -> rtc (dstep floor) (dinit now) s ->
  (key, t) ∈ trigs s ->
  (length (filter (fun e => e.1 = key) (timers s)) <= 1)%nat /\
  ((exists t', (key, t') ∈ fires s /\ t <= t') \/
   (exists due, filter (fun e => e.1 = key) (timers s) = [(key, due)] /\ due <= clock s + floor)).
Proof.
  intros Hn Hf Hs Ht. pose proof (dsteps_inv floor now s Hn Hf Hs) as Hinv.
  split; [by eapply one_timer|]. destruct Hinv.
  destruct (dinv_covered0 key t Ht) as [Hp|?]; [right|by left].
  apply dinv_pending0, list_elem_of_fmap in Hp as ([k due] & -> & Hin). exists due.
  destruct (dinv_due0 k due Hin) as (? & _ & ?). split; [|simpl; lia].
  apply (filter_unique_key _ _ _ dinv_nodup0 Hin).
Qed.

(** A publish at once, then a second write ten seconds later: the second one
    waits for a timer. *)
Definition burst : dsys :=
  trigger_sys (trigger_sys (dinit 0) "l" (60 * second) 0 0) "l" (60 * second)
    (10 * second) (10 * second).

Lemma burst_reachable : rtc (dstep (60 * second)) (dinit 0) burst.
Proof.
  eapply rtc_l; [apply (dstep_trigger _ (dinit 0) "l" 0 0); simpl; lia|].
  apply rtc_once, dstep_trigger. vm_compute. split; discriminate.
Qed.

(** The timer of the second write runs when it is due. *)
Definition burstDone : dsys :=
  MkDsys (60 * second) (timerBody (deb burst) "l" (60 * second)) [] (("l", 60 * second) :: fires burst) (trigs burst).

Lemma burstDone_reachable : rtc (dstep (60 * second)) (dinit 0) burstDone.
Proof.
  eapply rtc_r; [exact burst_reachable|].
  apply (dstep_timer (60 * second) burst [] "l" (60 * second) [] (60 * second)); vm_compute; [reflexivity|discriminate..].
Qed.

Lemma debounce_rate_limit_witness :
  firesOf "l" (fires burstDone) = [60 * second; 0] /\ spaced (60 * second) (firesOf "l" (fires burstDone)).
Proof.
  split; [vm_compute; reflexivity|].
  apply (debounce_rate_limit (60 * second) 0 burstDone "l"); [lia| |exact burstDone_reachable].
  vm_compute. split; discriminate.
Defined.

Lemma debounce_no_lost_trigger_witness :
  (length (filter (fun e => e.1 = "l") (timers burst)) <= 1)%nat /\
  ((exists t', ("l", t') ∈ fires burst /\ 10 * second <= t') \/
   (exists due, filter (fun e => e.1 = "l") (timers burst) = [("l", due)] /\
      due <= clock burst + 60 * second)).
Proof.
  apply (debounce_no_lost_trigger (60 * second) 0 burst "l" (10 * second));
    [lia|vm_compute; split; discriminate|exact burst_reachable|].
  vm_compute. left.
Defined.

(** The test suite's burst: the delay scheduled is the floor less the time
    elapsed. *)
Example burst_delay : timers burst = [("l", 60 * second)].
Proof. vm_compute. reflexivity. Qed.

End Debounce.
