(* ===== verification/World.v ===== *)
(** * The world the services share

    The tables of the Postgres schema (store/postgres.go, as/shard.go), the
    Redis keyspace of each shard, each process's publisher state, the clock,
    and the two things a Go program cannot control: which external calls fail
    and when ([w_script]), and what the random sources return ([w_entropy]).
    The primitives at the end are the atomic steps every component is made of:
    [pgCall] (one SQL statement or transaction), [redisCall] (one command or
    script), [getNow], [randN], [randBytes].

    A call that fails either had no effect ([FailBefore]: connection refused,
    transaction rolled back) or took effect with its reply lost ([FailAfter]:
    the connection broke after the commit). Each call runs its statement or
    command at most once: go-redis's own retries after a network error, which
    could repeat an INCR whose reply was lost, are not modelled. Time passes only
    at calls, by the [t_dt] of the script; there is one clock, in nanoseconds,
    for the processes and Postgres, whose timestamptz rounds to microseconds. *)

From S2P Require Import Prelude Prog Debounce.

(** ** Postgres *)

Inductive list_state : Type := ACTIVE | FROZEN | ARCHIVED.

#[export] Instance list_state_eq_dec : EqDecision list_state.
Proof. solve_decision. Defined.

(** Table [lists]; [bigint] columns hold signed 64-bit integers. *)
Record list_row := MkListRow {
  r_id : string;
  r_bits : Z;
  r_size : Z;
  r_cursor : Z;
  r_fpe_key : list Z;
  r_max_exp : option Z;
  r_state : list_state;
  r_created_at : Z;
  r_archived_at : option Z;
  r_purged : bool;
  r_shard_id : string;
  r_purged_at : option Z
}.

(** Table [allocations], keyed by (list_id, idx). *)
Record alloc_row := MkAllocRow {
  al_issuer_id : string;
  al_exp : Z;
  al_created_at : Z
}.

(** Table [issuer_usage], keyed by (issuer_id, shard_id). *)
Record usage_row := MkUsageRow {
  us_index_count : Z;
  us_updated_at : Z
}.

(** Table [issuer_shard], keyed by issuer_id. *)
Record shard_row := MkShardRow {
  sr_shard_id : string;
  sr_created_at : Z
}.

Record pg := MkPg {
  lists : gmap string list_row;
  allocations : gmap (string * Z) alloc_row;
  issuer_usage : gmap (string * string) usage_row;
  issuer_shard : gmap string shard_row
}.

Definition pgEmpty : pg := MkPg ∅ ∅ ∅ ∅.

Definition setLists (db : pg) (l : gmap string list_row) : pg :=
  MkPg l (allocations db) (issuer_usage db) (issuer_shard db).

(** ** Redis *)

Inductive rval : Type :=
| RBytes (b : list Z)
| RInt (n : Z).

(** ** A process's publisher *)

Record Published := MkPublished {
  Token : string;
  CWT : list Z;
  Version : Z;
  pBits : Z;
  TTL : Z
}.

Record pub_state := MkPubState {
  cache : gmap string Published;
  debounce : Debounce.leadingDebouncer
}.

Definition pubEmpty : pub_state := MkPubState ∅ Debounce.newLeadingDebouncer.

(** A publish the debouncer asked for: at once (a goroutine), or when its timer
    is due. *)
Record job := MkJob {
  j_proc : string;
  j_list : string;
  j_ttl : Z;
  j_due : option Z
}.

(** ** The world *)

Inductive fault : Type := NoFault | FailBefore | FailAfter.

Record tick := MkTick {
  t_fault : fault;
  t_dt : N
}.

Record world := MkWorld {
  w_pg : pg;
  w_redis : gmap string (gmap string rval);   (* shard -> keyspace *)
  w_pubs : gmap string pub_state;             (* process -> publisher *)
  w_jobs : list job;
  w_clock : Z;
  w_script : list tick;
  w_entropy : list Z
}.

Definition set_pg (w : world) (db : pg) : world :=
  MkWorld db (w_redis w) (w_pubs w) (w_jobs w) (w_clock w) (w_script w) (w_entropy w).

Definition set_redis (w : world) (m : gmap string (gmap string rval)) : world :=
  MkWorld (w_pg w) m (w_pubs w) (w_jobs w) (w_clock w) (w_script w) (w_entropy w).

Definition set_pubs (w : world) (m : gmap string pub_state) : world :=
  MkWorld (w_pg w) (w_redis w) m (w_jobs w) (w_clock w) (w_script w) (w_entropy w).

Definition set_jobs (w : world) (l : list job) : world :=
  MkWorld (w_pg w) (w_redis w) (w_pubs w) l (w_clock w) (w_script w) (w_entropy w).

Definition set_env (w : world) (clock : Z) (script : list tick) (entropy : list Z) : world :=
  MkWorld (w_pg w) (w_redis w) (w_pubs w) (w_jobs w) clock script entropy.

Definition redisOf (w : world) (shard : string) : gmap string rval := default ∅ (w_redis w !! shard).

Definition pubOf (w : world) (proc : string) : pub_state := default pubEmpty (w_pubs w !! proc).

(** ** Primitives *)

(** The next entry of the script: time passes, and the call may fail. *)
Definition popTick (w : world) : fault * world :=
  match w_script w with
  | [] => (NoFault, w)
  | t :: s => (t_fault t, set_env w (w_clock w + Z.of_N (t_dt t)) s (w_entropy w))
  end.

Definition ioError {A} : result A := Err (ErrMsg "i/o error").

(** One SQL statement or transaction [f], given the value of [now()]. *)
Definition pgAct {A} (f : Z -> pg -> result A * pg) (w : world) : result A * world :=
  let '(ft, w) := popTick w in
  let '(r, db) := f (w_clock w) (w_pg w) in
  match ft with
  | NoFault => (r, set_pg w db)
  | FailBefore => (ioError, w)
  | FailAfter => (ioError, set_pg w db)
  end.

Definition pgCall {A} (f : Z -> pg -> result A * pg) : prog world (result A) := act (pgAct f).

(** One Redis command or script on the instance of [shard]. *)
Definition redisAct {A} (shard : string) (f : gmap string rval -> result A * gmap string rval)
    (w : world) : result A * world :=
  let '(ft, w) := popTick w in
  let '(r, m) := f (redisOf w shard) in
  match ft with
  | NoFault => (r, set_redis w (<[shard := m]> (w_redis w)))
  | FailBefore => (ioError, w)
  | FailAfter => (ioError, set_redis w (<[shard := m]> (w_redis w)))
  end.

Definition redisCall {A} (shard : string)
    (f : gmap string rval -> result A * gmap string rval) : prog world (result A) :=
  act (redisAct shard f).

(** [time.Now()]. *)
Definition getNow : prog world Z := act (fun w => (w_clock w, w)).

(** A random number below [n]: [rand.IntN(n)], [rand.Uint64N(n)]. *)
Definition randN (n : Z) : prog world Z :=
  act (fun w =>
    match w_entropy w with
    | [] => (0, w)
    | e :: es => (e mod n, set_env w (w_clock w) (w_script w) es)
    end).

(** [crypto/rand.Read] of [n] bytes, which never fails. *)
Definition randBytes (n : nat) : prog world (result (list Z)) :=
  act (fun w =>
    let bs := take n (w_entropy w) in
    (Ok ((u8 <$> bs) ++ replicate (n - length bs) 0),
     set_env w (w_clock w) (w_script w) (drop n (w_entropy w)))).

(** ** The primitives change only their own part of the world *)

Lemma popTick_frame w :
  w_pg (popTick w).2 = w_pg w /\ w_redis (popTick w).2 = w_redis w /\
  w_pubs (popTick w).2 = w_pubs w /\ w_jobs (popTick w).2 = w_jobs w /\
  w_entropy (popTick w).2 = w_entropy w /\ w_clock w <= w_clock (popTick w).2.
Proof. unfold popTick. destruct (w_script w); simpl; split_and!; done || lia. Qed.

(** What a Postgres call does: nothing, or its statement at the instant it
    runs; an answer other than an I/O error is the statement's. *)
Lemma pgAct_cases {A} (f : Z -> pg -> result A * pg) w :
  let w' := (pgAct f w).2 in
  exists now, w_clock w <= now /\ w_clock w' = now /\
    w_redis w' = w_redis w /\ w_pubs w' = w_pubs w /\ w_jobs w' = w_jobs w /\
    w_entropy w' = w_entropy w /\
    (((pgAct f w).1 = (f now (w_pg w)).1 /\ w_pg w' = (f now (w_pg w)).2) \/
     ((pgAct f w).1 = ioError /\ (w_pg w' = w_pg w \/ w_pg w' = (f now (w_pg w)).2))).
Proof.
  unfold pgAct. pose proof (popTick_frame w) as (Hpg & Hr & Hp & Hj & He & Hc).
  destruct (popTick w) as [ft w1]. simpl in *.
  destruct (f (w_clock w1) (w_pg w1)) as [r db] eqn:E. rewrite Hpg in E.
  exists (w_clock w1). destruct ft; simpl; split_and!; try done; rewrite ?E; auto.
Qed.

Lemma redisAct_cases {A} shard (f : gmap string rval -> result A * gmap string rval) w :
  let w' := (redisAct shard f w).2 in
  w_pg w' = w_pg w /\ w_pubs w' = w_pubs w /\ w_jobs w' = w_jobs w /\
  w_entropy w' = w_entropy w /\ w_clock w <= w_clock w' /\
  (forall s, s <> shard -> redisOf w' s = redisOf w s) /\
  (((redisAct shard f w).1 = (f (redisOf w shard)).1 /\
     redisOf w' shard = (f (redisOf w shard)).2) \/
   ((redisAct shard f w).1 = ioError /\
     (redisOf w' shard = redisOf w shard \/ redisOf w' shard = (f (redisOf w shard)).2))).
Proof.
  unfold redisAct. pose proof (popTick_frame w) as (Hpg & Hr & Hp & Hj & He & Hc).
  destruct (popTick w) as [ft w1]. simpl in *.
  assert (forall s, redisOf w1 s = redisOf w s) as Hro by (intros s; unfold redisOf; by rewrite Hr).
  rewrite Hro. destruct (f (redisOf w shard)) as [r m] eqn:E.
  assert (forall s, redisOf (set_redis w1 (<[shard := m]> (w_redis w1))) s =
            if decide (s = shard) then m else redisOf w s) as Hins.
  { intros s. unfold redisOf; simpl. destruct (decide (s = shard)) as [->|].
    - by rewrite lookup_insert_eq.
    - rewrite lookup_insert_ne by done. apply Hro. }
  destruct ft; simpl; split_and!; try done; try (intros s Hs);
    rewrite ?Hins, ?Hro, ?decide_True, ?decide_False by done; auto.
Qed.

(** With an empty script every call is answered, and no time passes. *)
Lemma pgAct_calm {A} (f : Z -> pg -> result A * pg) w :
  w_script w = [] ->
  pgAct f w = ((f (w_clock w) (w_pg w)).1, set_pg w (f (w_clock w) (w_pg w)).2).
Proof. intros H. unfold pgAct, popTick. rewrite H. by destruct (f _ _). Qed.

Lemma redisAct_calm {A} shard (f : gmap string rval -> result A * gmap string rval) w :
  w_script w = [] ->
  redisAct shard f w =
    ((f (redisOf w shard)).1, set_redis w (<[shard := (f (redisOf w shard)).2]> (w_redis w))).
Proof. intros H. unfold redisAct, popTick. rewrite H. by destruct (f _). Qed.

(** ** Steps that touch no shared data *)

(** The tables, the keyspaces and the publishers are as they were; only time,
    the failure script and the random source may have moved. *)
Definition quiet (w w' : world) : Prop :=
  w_pg w' = w_pg w /\ (forall s, redisOf w' s = redisOf w s) /\ w_pubs w' = w_pubs w.

#[export] Instance quiet_preorder : PreOrder quiet.
Proof.
  split; [done|]. intros w1 w2 w3 (H1 & H2 & H3) (H4 & H5 & H6).
  split_and!; [congruence| |congruence]. intros s. by rewrite H5.
Qed.

Lemma wp_randN n (Q : Z -> world -> Prop) w :
  (forall z w', quiet w w' -> Q z w') -> wp (randN n) Q w.
Proof. intros H. apply wp_act. destruct (w_entropy w); by apply H. Qed.

Lemma wp_randN_range n (Q : Z -> world -> Prop) w :
  0 < n -> (forall z w', 0 <= z < n -> quiet w w' -> Q z w') -> wp (randN n) Q w.
Proof.
  intros Hn H. apply wp_act. destruct (w_entropy w); apply H; try done; try lia.
  by apply Z.mod_pos_bound.
Qed.

Lemma wp_getNow (Q : Z -> world -> Prop) w : Q (w_clock w) w -> wp getNow Q w.
Proof. by intros H. Qed.

(** A command that only reads the keyspace. *)
Lemma wp_redis_read {A} shard (f : gmap string rval -> result A * gmap string rval)
    (Q : result A -> world -> Prop) w :
  (forall m, (f m).2 = m) ->
  (forall w', quiet w w' -> Q (f (redisOf w shard)).1 w') ->
  (forall w', quiet w w' -> Q ioError w') ->
  wp (redisCall shard f) Q w.
Proof.
  intros Hf Hok Herr. apply wp_act.
  pose proof (redisAct_cases shard f w) as (Hpg & Hpub & _ & _ & _ & Hs & Hcase).
  assert (quiet w (redisAct shard f w).2) as Hq.
  { split_and!; [done| |done]. intros s. destruct (decide (s = shard)) as [->|]; [|by apply Hs].
    destruct Hcase as [[_ ->]|[_ [->| ->]]]; by rewrite ?Hf. }
  destruct Hcase as [[-> _]|[-> _]]; auto.
Qed.

(** A statement that only reads the tables. *)
Lemma wp_pg_read {A} (f : Z -> pg -> result A * pg) (Q : result A -> world -> Prop) w :
  (forall now db, (f now db).2 = db) ->
  (forall now w', w_clock w <= now -> quiet w w' -> w_clock w' = now -> Q (f now (w_pg w)).1 w') ->
  (forall w', quiet w w' -> Q ioError w') ->
  wp (pgCall f) Q w.
Proof.
  intros Hf Hok Herr. apply wp_act.
  pose proof (pgAct_cases f w) as (now & Hle & Hnow & Hr & Hpub & _ & _ & Hcase).
  assert (quiet w (pgAct f w).2) as Hq.
  { split_and!; [|intros s; unfold redisOf; by rewrite Hr|done].
    destruct Hcase as [[_ ->]|[_ [->| ->]]]; by rewrite ?Hf. }
  destruct Hcase as [[-> _]|[-> _]]; eauto.
Qed.

(** A statement: if it answers, it ran at the instant of its answer; if the
    connection failed, it ran or it did not. Nothing else is touched. *)
Lemma wp_pg {A} (f : Z -> pg -> result A * pg) (Q : result A -> world -> Prop) w :
  (forall w', w_clock w <= w_clock w' -> (forall s, redisOf w' s = redisOf w s) ->
     w_pubs w' = w_pubs w -> w_jobs w' = w_jobs w ->
     w_pg w' = (f (w_clock w') (w_pg w)).2 -> Q (f (w_clock w') (w_pg w)).1 w') ->
  (forall w', w_clock w <= w_clock w' -> (forall s, redisOf w' s = redisOf w s) ->
     w_pubs w' = w_pubs w -> w_jobs w' = w_jobs w ->
     w_pg w' = w_pg w \/ w_pg w' = (f (w_clock w') (w_pg w)).2 -> Q ioError w') ->
  wp (pgCall f) Q w.
Proof.
  intros Hok Herr. apply wp_act.
  destruct (pgAct_cases f w) as (now & Hle & Hnow & Hr & Hpub & Hj & _ & Hcase).
  subst now. assert (forall s, redisOf (pgAct f w).2 s = redisOf w s) as Hro.
  { intros s. unfold redisOf. by rewrite Hr. }
  destruct Hcase as [[-> Hpg]|[-> Hpg]]; auto.
Qed.

(** A Redis command, as far as the tables are concerned. *)
Lemma wp_redis_frame {A} shard (f : gmap string rval -> result A * gmap string rval)
    (Q : result A -> world -> Prop) w :
  (forall r w', w_clock w <= w_clock w' -> w_pg w' = w_pg w -> w_pubs w' = w_pubs w ->
     w_jobs w' = w_jobs w -> Q r w') ->
  wp (redisCall shard f) Q w.
Proof.
  intros HQ. apply wp_act.
  destruct (redisAct_cases shard f w) as (Hpg & Hpub & Hj & _ & Hc & _). by apply HQ.
Qed.
