(* ===== verification/ListId.v ===== *)
(** * internal/listid: list identifiers that carry their shard

    [New] is the shard, a separator and the hexadecimal form of sixteen random
    bytes; [ParseShard] reads the shard back. The router relies on the second
    being the inverse of the first, the pool on fresh identifiers being
    distinct when their random bytes are. *)

From Stdlib Require Import Ascii.
From S2P Require Import Prelude Prog World GoStrings.

Module ListId.

Definition separator : string := ".".

(** The pure part of [New]: the identifier of given random bytes. *)
Definition mk (shardID : string) (b : list Z) : string :=
  shardID +:+ separator +:+ GoStrings.EncodeToString b.

Definition New (shardID : string) : prog world (result string) :=
  if GoStrings.Contains shardID separator then
    Ret (Err (ErrMsg "listid: shard_id must not contain the separator"))
  else
    try! b := randBytes 16 in
    Ret (Ok (mk shardID b)).

Definition ParseShard (listID : string) : option string :=
  let i := GoStrings.Index listID separator in
  if (i <=? 0) || (i =? GoStrings.len listID - 1) then None
  else Some (GoStrings.sliceTo listID (Z.to_nat i)).

(** ** Lemmas *)

Lemma Contains_false shardID :
  GoStrings.Contains shardID separator = false -> GoStrings.Index shardID separator = -1.
Proof.
  unfold GoStrings.Contains, GoStrings.Index.
  destruct (String.index 0 separator shardID) as [n|]; [|done]. intros H%Z.leb_gt. lia.
Qed.

Lemma ParseShard_mk shardID b :
  shardID <> "" -> GoStrings.Contains shardID separator = false -> b <> [] ->
  ParseShard (mk shardID b) = Some shardID.
Proof.
  intros Hne Hc Hb. unfold ParseShard.
  change (mk shardID b) with (shardID +:+ String "."%char (GoStrings.EncodeToString b)).
  rewrite (GoStrings.Index_first shardID) by (by apply Contains_false).
  rewrite GoStrings.len_app.
  assert (0 < GoStrings.len shardID) by (destruct shardID; [done|]; unfold GoStrings.len; simpl; lia).
  assert (GoStrings.len (String "."%char (GoStrings.EncodeToString b)) = 1 + 2 * Z.of_nat (length b)) as ->.
  { unfold GoStrings.len. cbn [String.length]. rewrite GoStrings.EncodeToString_length. lia. }
  assert (0 < Z.of_nat (length b)) by (destruct b; [done|]; simpl; lia).
  replace (_ || _) with false by lia. unfold GoStrings.len.
  by rewrite Nat2Z.id, GoStrings.sliceTo_app.
Qed.

Lemma randBytes_spec n w :
  exists b, (run (randBytes n) w).1 = Ok b /\ bytes_ok b /\ length b = n.
Proof.
  eexists. split_and!; [reflexivity| |].
  - apply Forall_app. split.
    + apply Forall_fmap, Forall_forall. intros z _. apply u8_range.
    + apply Forall_replicate. lia.
  - rewrite length_app, length_fmap, length_replicate, length_take. lia.
Qed.

Lemma append_inj s t u : s +:+ t = s +:+ u -> t = u.
Proof.
  induction s as [|c s IH]; [done|].
  change (String c (s +:+ t) = String c (s +:+ u) -> t = u). intros [= H]. auto.
Qed.

(** The identifier determines the random bytes. *)
Lemma mk_inj shardID b c : bytes_ok b -> bytes_ok c -> mk shardID b = mk shardID c -> b = c.
Proof.
  intros Hb Hc H. unfold mk in H. do 2 apply append_inj in H.
  by apply GoStrings.EncodeToString_inj.
Qed.

(** ** Properties *)

(** C28: the shard of a new list can be read back from its identifier. For a
    shard name that is not empty, [New] either refuses it (it contains the
    separator) or returns an identifier from which [ParseShard] recovers
    exactly that shard, whatever the random bytes were. *)
Theorem listid_roundtrip (shardID : string) (w : world) :
  shardID <> "" ->
  if GoStrings.Contains shardID separator
  then exists e, (run (New shardID) w).1 = Err e
  else exists id, (run (New shardID) w).1 = Ok id /\ ParseShard id = Some shardID.
Proof.
  intros Hne. unfold New. destruct (GoStrings.Contains shardID separator) eqn:Hc.
  - by eexists.
  - rewrite run_bindErr. destruct (randBytes_spec 16 w) as (b & -> & Hb & Hlen).
    eexists. split; [reflexivity|]. apply ParseShard_mk; [done..|]. by intros ->.
Qed.

Lemma listid_roundtrip_witness :
  exists id, (run (New "iad") (MkWorld pgEmpty ∅ ∅ [] 0 [] [171; 205])).1 = Ok id /\
    id = "iad.abcd0000000000000000000000000000" /\ ParseShard id = Some "iad".
Proof.
  destruct (listid_roundtrip "iad" (MkWorld pgEmpty ∅ ∅ [] 0 [] [171; 205]) ltac:(done))
    as (id & Hid & Hp).
  exists id. split_and!; [exact Hid| |exact Hp]. vm_compute in Hid. injection Hid as <-. reflexivity.
Defined.

End ListId.
