(* ===== verification/MetaStore.v ===== *)
(** * internal/store/postgres.go: list, allocation and accounting metadata

    Each method of [MetaStore] is a [prog] of one atomic call; the SQL it runs
    is the pure function of the same name with prefix [sql]. [ListMeta] is the
    Go struct, [scanListMeta] its conversion from a row. The theorems are about
    any sequence of statements by any number of processes: the tables keep
    their invariant ([pg_inv]), rows evolve only forward ([pg_evolves]), an
    allocation is all or nothing, and the accounting counts exactly the
    allocations. *)

From S2P Require Import Prelude Prog World Allocator.

Module MetaStore.

#[local] Opaque Allocator.Index Allocator.New.

(** ** Data *)

Record ListMeta := MkListMeta {
  ID : string;
  Bits : Z;
  Size : Z;
  Cursor : Z;
  FPEKey : list Z;
  MaxExp : option Z;
  State : list_state;
  CreatedAt : Z;
  ArchivedAt : option Z;
  ShardID : string;
  Purged : bool;
  PurgedAt : option Z
}.

Definition Remaining (lm : ListMeta) : Z :=
  if Size lm <=? Cursor lm then 0 else u64 (Size lm - Cursor lm).

Record Usage := MkUsage {
  IssuerID : string;
  uShardID : string;
  IndexCount : Z;
  UpdatedAt : Z
}.

(** A scanned row: the [bigint] columns become [uint64]. *)
Definition scanListMeta (r : list_row) : ListMeta :=
  MkListMeta (r_id r) (r_bits r) (u64 (r_size r)) (u64 (r_cursor r)) (r_fpe_key r) (r_max_exp r)
    (r_state r) (r_created_at r) (r_archived_at r) (r_shard_id r) (r_purged r) (r_purged_at r).

(** Columns changed by the [UPDATE] statements. *)
Definition setState (r : list_row) (s : list_state) : list_row :=
  MkListRow (r_id r) (r_bits r) (r_size r) (r_cursor r) (r_fpe_key r) (r_max_exp r) s
    (r_created_at r) (r_archived_at r) (r_purged r) (r_shard_id r) (r_purged_at r).

Definition setArchived (r : list_row) (t : Z) : list_row :=
  MkListRow (r_id r) (r_bits r) (r_size r) (r_cursor r) (r_fpe_key r) (r_max_exp r) ARCHIVED
    (r_created_at r) (Some t) (r_purged r) (r_shard_id r) (r_purged_at r).

Definition setPurged (r : list_row) (t : Z) : list_row :=
  MkListRow (r_id r) (r_bits r) (r_size r) (r_cursor r) (r_fpe_key r) (r_max_exp r) (r_state r)
    (r_created_at r) (r_archived_at r) true (r_shard_id r) (Some t).

Definition setCursor (r : list_row) (c : Z) (s : list_state) : list_row :=
  MkListRow (r_id r) (r_bits r) (r_size r) c (r_fpe_key r) (r_max_exp r) s
    (r_created_at r) (r_archived_at r) (r_purged r) (r_shard_id r) (r_purged_at r).

Definition setMaxExp (r : list_row) (e : option Z) : list_row :=
  MkListRow (r_id r) (r_bits r) (r_size r) (r_cursor r) (r_fpe_key r) e (r_state r)
    (r_created_at r) (r_archived_at r) (r_purged r) (r_shard_id r) (r_purged_at r).

(** ** Creating and reading lists *)

(** [bits integer NOT NULL]. *)
Definition int4_ok (z : Z) : bool := (- 2 ^ 31 <=? z) && (z <? 2 ^ 31).

Definition sqlCreateList (id : string) (bits size : Z) (fpeKey : list Z) (shardID : string)
    (now : Z) (db : pg) : result unit * pg :=
  if negb (int4_ok bits) then (Err (ErrMsg "integer out of range"), db)
  else
    match lists db !! id with
    | Some _ => (Err (ErrMsg "duplicate key value violates unique constraint"), db)
    | None =>
        (Ok tt, setLists db
           (<[id := MkListRow id bits (i64 size) 0 fpeKey None ACTIVE now None false shardID None]>
              (lists db)))
    end.

Definition CreateList (id : string) (bits size : Z) (fpeKey : list Z) (shardID : string) :
    prog world (result ListMeta) :=
  try! _ := pgCall (sqlCreateList id bits size fpeKey shardID) in
  Ret (Ok (MkListMeta id bits size 0 fpeKey None ACTIVE zeroTime None shardID false None)).

Definition createdBefore (r s : list_row) : Prop := r_created_at r <= r_created_at s.

#[export] Instance createdBefore_dec : RelDecision createdBefore.
Proof. intros r s. unfold createdBefore. apply _. Defined.

(** [SELECT ... FROM lists WHERE p ORDER BY created_at ASC]. *)
Definition sqlSelectLists (p : list_row -> bool) (now : Z) (db : pg) : result (list ListMeta) * pg :=
  (Ok (scanListMeta <$>
     merge_sort createdBefore (filter (fun r => p r = true) (map_to_list (lists db)).*2)), db).

Definition queryLists (p : list_row -> bool) : prog world (result (list ListMeta)) :=
  pgCall (sqlSelectLists p).

Definition isState (s : list_state) (r : list_row) : bool := bool_decide (r_state r = s).

Definition ActiveLists (shardID : string) : prog world (result (list ListMeta)) :=
  queryLists (fun r => bool_decide (r_shard_id r = shardID) && isState ACTIVE r).

Definition LiveLists (shardID : string) : prog world (result (list ListMeta)) :=
  queryLists (fun r => bool_decide (r_shard_id r = shardID) && (isState ACTIVE r || isState FROZEN r)).

Definition NoiseLists (shardID : string) : prog world (result (list ListMeta)) :=
  queryLists (fun r => bool_decide (r_shard_id r = shardID) &&
    (isState ACTIVE r || isState FROZEN r || isState ARCHIVED r) && negb (r_purged r)).

(** [nil, nil] when there is no such row. *)
Definition sqlGetList (id : string) (now : Z) (db : pg) : result (option ListMeta) * pg :=
  (Ok (scanListMeta <$> lists db !! id), db).

Definition GetList (id : string) : prog world (result (option ListMeta)) := pgCall (sqlGetList id).

(** ** The lifecycle statements *)

Definition sqlFreeze (listID : string) (now : Z) (db : pg) : result unit * pg :=
  match lists db !! listID with
  | Some r =>
      if isState ACTIVE r then (Ok tt, setLists db (<[listID := setState r FROZEN]> (lists db)))
      else (Ok tt, db)
  | None => (Ok tt, db)
  end.

Definition Freeze (listID : string) : prog world (result unit) := pgCall (sqlFreeze listID).

Definition FrozenListsPastGrace (cutoff : Z) : prog world (result (list ListMeta)) :=
  queryLists (fun r => isState FROZEN r &&
    match r_max_exp r with None => true | Some e => e <=? cutoff end).

Definition sqlArchive (listID : string) (now : Z) (db : pg) : result unit * pg :=
  match lists db !! listID with
  | Some r =>
      if isState FROZEN r then (Ok tt, setLists db (<[listID := setArchived r now]> (lists db)))
      else (Ok tt, db)
  | None => (Ok tt, db)
  end.

Definition Archive (listID : string) : prog world (result unit) := pgCall (sqlArchive listID).

(** A comparison with NULL is not true. *)
Definition leNull (o : option Z) (cutoff : Z) : bool :=
  match o with None => false | Some t => t <=? cutoff end.

Definition ArchivedListsPastRetention (cutoff : Z) : prog world (result (list ListMeta)) :=
  queryLists (fun r => isState ARCHIVED r && negb (r_purged r) && leNull (r_archived_at r) cutoff).

Definition sqlMarkPurged (listID : string) (now : Z) (db : pg) : result unit * pg :=
  match lists db !! listID with
  | Some r => (Ok tt, setLists db (<[listID := setPurged r now]> (lists db)))
  | None => (Ok tt, db)
  end.

Definition MarkPurged (listID : string) : prog world (result unit) := pgCall (sqlMarkPurged listID).

Definition PurgedListsPastDBRetention (cutoff : Z) : prog world (result (list ListMeta)) :=
  queryLists (fun r => r_purged r && leNull (r_purged_at r) cutoff).

(** Both deletes, in one transaction. *)
Definition sqlDeleteList (listID : string) (now : Z) (db : pg) : result unit * pg :=
  let allocs := filter (fun e => e.1.1 <> listID) (allocations db) in
  (Ok tt, MkPg (delete listID (lists db)) allocs (issuer_usage db) (issuer_shard db)).

Definition DeleteList (listID : string) : prog world (result unit) := pgCall (sqlDeleteList listID).

(** ** Allocation *)

(** [GREATEST(max_exp, $2)], which ignores NULL. *)
Definition greatest (o : option Z) (e : Z) : option Z :=
  match o with None => Some e | Some m => Some (Z.max m e) end.

(** [INSERT ... ON CONFLICT DO UPDATE SET index_count = index_count + 1]. *)
Definition bumpUsage (issuerID shardID : string) (now : Z)
    (m : gmap (string * string) usage_row) : gmap (string * string) usage_row :=
  match m !! (issuerID, shardID) with
  | None => <[(issuerID, shardID) := MkUsageRow 1 now]> m
  | Some u => <[(issuerID, shardID) := MkUsageRow (us_index_count u + 1) now]> m
  end.

(** The sum that Postgres refuses: [index_count] is a [bigint]. *)
Definition usageFull (issuerID shardID : string) (m : gmap (string * string) usage_row) : bool :=
  match m !! (issuerID, shardID) with
  | None => false
  | Some u => maxInt64 <=? us_index_count u
  end.

(** The transaction: the guarded cursor update, the derived index, [max_exp],
    the allocation row and the accounting row; an error at any statement rolls
    everything back. *)
Definition sqlReserve (listID issuerID shardID : string) (exp : Z)
    (deriveIndex : Z -> result Z) (now : Z) (db : pg) : result Z * pg :=
  match lists db !! listID with
  | None => (Err ErrListFull, db)
  | Some r =>
      if (r_cursor r <? r_size r) && isState ACTIVE r then
        let cursor := r_cursor r in
        let state' := if r_size r <=? cursor + 1 then FROZEN else r_state r in
        let r1 := setCursor r (cursor + 1) state' in
        match deriveIndex (u64 cursor) with
        | Err e => (Err e, db)
        | Ok idx =>
            let r2 := setMaxExp r1 (greatest (r_max_exp r1) exp) in
            match allocations db !! (listID, i64 idx) with
            | Some _ => (Err (ErrMsg "duplicate key value violates unique constraint"), db)
            | None =>
                if usageFull issuerID shardID (issuer_usage db) then (Err (ErrMsg "bigint out of range"), db)
                else
                  (Ok idx,
                   MkPg (<[listID := r2]> (lists db))
                     (<[(listID, i64 idx) := MkAllocRow issuerID exp now]> (allocations db))
                     (bumpUsage issuerID shardID now (issuer_usage db)) (issuer_shard db))
            end
        end
      else (Err ErrListFull, db)
  end.

Definition ReserveCursorAndRecord (listID issuerID shardID : string) (exp : Z)
    (deriveIndex : Z -> result Z) : prog world (result Z) :=
  pgCall (sqlReserve listID issuerID shardID exp deriveIndex).

Definition sqlIsAllocated (listID : string) (idx now : Z) (db : pg) : result bool * pg :=
  (Ok (bool_decide (is_Some (allocations db !! (listID, i64 idx)))), db).

Definition IsAllocated (listID : string) (idx : Z) : prog world (result bool) :=
  pgCall (sqlIsAllocated listID idx).

Definition sqlOwner (listID : string) (idx now : Z) (db : pg) : result (option string) * pg :=
  (Ok (al_issuer_id <$> allocations db !! (listID, i64 idx)), db).

Definition CheckOwnership (listID : string) (idx : Z) (issuerID : string) : prog world (result unit) :=
  try! owner := pgCall (sqlOwner listID idx) in
  match owner with
  | None => Ret (Err ErrNotOwner)
  | Some o => if bool_decide (o = issuerID) then Ret (Ok tt) else Ret (Err ErrNotOwner)
  end.

(** [ORDER BY shard_id]. *)
Definition shardBefore (u v : Usage) : Prop := String.le (uShardID u) (uShardID v).

#[export] Instance shardBefore_dec : RelDecision shardBefore.
Proof. intros u v. unfold shardBefore. apply _. Defined.

Definition sqlGetUsage (issuerID : string) (now : Z) (db : pg) : result (list Usage) * pg :=
  (Ok (merge_sort shardBefore
     ((fun e => MkUsage e.1.1 e.1.2 (us_index_count e.2) (us_updated_at e.2)) <$>
        filter (fun e => e.1.1 = issuerID) (map_to_list (issuer_usage db)))), db).

Definition GetUsage (issuerID : string) : prog world (result (list Usage)) :=
  pgCall (sqlGetUsage issuerID).

(** ** The invariant of the tables *)

(** The allocator of a row: the one the handlers build from the row's key and
    size. *)
Definition rowAllocator (r : list_row) : result Allocator.Allocator :=
  Allocator.New (r_fpe_key r) (u64 (r_size r)).

Record row_ok (id : string) (r : list_row) : Prop := {
  row_id : r_id r = id;
  row_size : minInt64 <= r_size r <= maxInt64;
  row_cursor : 0 <= r_cursor r <= Z.max 0 (r_size r);
  row_active : r_state r = ACTIVE -> 0 < r_size r -> r_cursor r < r_size r;
  row_archived : r_state r = ARCHIVED <-> is_Some (r_archived_at r);
  row_purged : r_purged r = true -> r_state r = ARCHIVED;
  row_purged_at : r_purged r = true <-> is_Some (r_purged_at r);
  row_used : 0 < r_cursor r -> is_Some (r_max_exp r)
}.

(** The index that cursor position [c] of the row was given. *)
Definition cursorIndex (r : list_row) (c i : Z) : Prop :=
  exists a, rowAllocator r = Ok a /\ Allocator.Index a c = Ok i.

Record pg_inv (db : pg) : Prop := {
  inv_rows : forall id r, lists db !! id = Some r -> row_ok id r;
  (* every allocation is the index of a consumed cursor position *)
  inv_sound : forall id k al, allocations db !! (id, k) = Some al ->
    exists r c i, lists db !! id = Some r /\ 0 <= c < r_cursor r /\
      cursorIndex r c i /\ k = i64 i /\
      exists e, r_max_exp r = Some e /\ al_exp al <= e;
  (* and every consumed cursor position has its allocation *)
  inv_complete : forall id r c, lists db !! id = Some r -> 0 <= c < r_cursor r ->
    exists i, cursorIndex r c i /\ is_Some (allocations db !! (id, i64 i))
}.

(** The statements that change the tables, with what their callers guarantee:
    an index is derived with the allocator of the row it is for, and only
    archived lists are marked purged. *)
Inductive stmt : Type :=
| SCreate (id : string) (bits size : Z) (key : list Z) (shard : string)
| SFreeze (id : string)
| SArchive (id : string)
| SMarkPurged (id : string)
| SDelete (id : string)
| SReserve (id issuer shard : string) (exp : Z) (a : Allocator.Allocator).

Definition exec (s : stmt) (now : Z) (db : pg) : pg :=
  match s with
  | SCreate id bits size key shard => (sqlCreateList id bits size key shard now db).2
  | SFreeze id => (sqlFreeze id now db).2
  | SArchive id => (sqlArchive id now db).2
  | SMarkPurged id => (sqlMarkPurged id now db).2
  | SDelete id => (sqlDeleteList id now db).2
  | SReserve id issuer shard exp a =>
      (sqlReserve id issuer shard exp (Allocator.Index a) now db).2
  end.

Definition stmt_ok (s : stmt) (db : pg) : Prop :=
  match s with
  | SMarkPurged id => forall r, lists db !! id = Some r -> r_state r = ARCHIVED
  | SReserve id _ _ _ a => forall r, lists db !! id = Some r -> rowAllocator r = Ok a
  | _ => True
  end.

(** One statement, at some instant, by some process. *)
Inductive pg_step : pg -> pg -> Prop :=
| pg_step_stmt s now db : stmt_ok s db -> pg_step db (exec s now db).

(** One statement that is not the delete of a list. *)
Inductive live_step : pg -> pg -> Prop :=
| live_step_stmt s now db :
    stmt_ok s db -> (forall id, s <> SDelete id) -> live_step db (exec s now db).

(** Rows change only in ways that keep the allocator and move forward. *)
Definition state_le (s t : list_state) : bool :=
  match s, t with
  | ACTIVE, _ | FROZEN, FROZEN | FROZEN, ARCHIVED | ARCHIVED, ARCHIVED => true
  | _, _ => false
  end.

Record row_evolves (r r' : list_row) : Prop := {
  ev_id : r_id r' = r_id r;
  ev_bits : r_bits r' = r_bits r;
  ev_size : r_size r' = r_size r;
  ev_key : r_fpe_key r' = r_fpe_key r;
  ev_shard : r_shard_id r' = r_shard_id r;
  ev_created : r_created_at r' = r_created_at r;
  ev_cursor : r_cursor r <= r_cursor r';
  ev_cursor_active : r_state r <> ACTIVE -> r_cursor r' = r_cursor r;
  ev_state : state_le (r_state r) (r_state r') = true;
  ev_archived : forall t, r_archived_at r = Some t -> r_archived_at r' = Some t;
  ev_purged : r_purged r = true -> r_purged r' = true;
  ev_max_exp : forall e, r_max_exp r = Some e -> exists e', r_max_exp r' = Some e' /\ e <= e'
}.

(** Evolution of the tables while no row is deleted. *)
Record pg_evolves (db db' : pg) : Prop := {
  ev_rows : forall id r, lists db !! id = Some r ->
    exists r', lists db' !! id = Some r' /\ row_evolves r r';
  ev_allocs : forall k al, allocations db !! k = Some al -> allocations db' !! k = Some al
}.

#[export] Instance row_evolves_preorder : PreOrder row_evolves.
Proof.
  split.
  - intros r. split; auto; try lia; [by destruct (r_state r)|]. eauto with lia.
  - intros r1 r2 r3 [] []. split; try congruence; try lia; auto.
    + intros Hs. rewrite ev_cursor_active1; [auto|]. by destruct (r_state r1), (r_state r2).
    + by destruct (r_state r1), (r_state r2), (r_state r3).
    + intros e (e1 & He1 & ?)%ev_max_exp0. apply ev_max_exp1 in He1 as (e2 & ? & ?).
      exists e2. split; [done|lia].
Qed.

#[export] Instance pg_evolves_preorder : PreOrder pg_evolves.
Proof.
  split.
  - intros db. split; [|done]. intros id r H. exists r. by split.
  - intros db1 db2 db3 [H1 H2] [H3 H4]. split; [|auto].
    intros id r (r' & Hr' & He)%H1. apply H3 in Hr' as (r'' & Hr'' & He').
    exists r''. split; [done|]. by etrans.
Qed.

(** A row replaced in place by an evolved one. *)
Lemma evolves_update db id r r' :
  lists db !! id = Some r -> row_evolves r r' ->
  pg_evolves db (setLists db (<[id := r']> (lists db))).
Proof.
  intros Hr He. split; [|done]. simpl. intros id0 r0 H0. destruct (decide (id = id0)) as [->|].
  - exists r'. rewrite lookup_insert_eq. simplify_eq. done.
  - exists r0. by rewrite lookup_insert_ne by done.
Qed.

(** Updating columns other than the cursor keeps the allocation invariants. *)
Lemma inv_update db id r r' :
  pg_inv db -> lists db !! id = Some r -> row_ok id r' -> row_evolves r r' ->
  r_cursor r' = r_cursor r ->
  pg_inv (setLists db (<[id := r']> (lists db))).
Proof.
  intros [] Hr Hok He Hc.
  assert (forall c i, cursorIndex r' c i <-> cursorIndex r c i) as Hci.
  { intros c i. unfold cursorIndex, rowAllocator.
    by rewrite (ev_key _ _ He), (ev_size _ _ He). }
  split; simpl.
  - intros id0 r0 H0. destruct (decide (id = id0)) as [->|].
    + rewrite lookup_insert_eq in H0. by simplify_eq.
    + rewrite lookup_insert_ne in H0 by done. auto.
  - intros id0 k al Hal. destruct (inv_sound0 id0 k al Hal) as (r0 & c & i & Hr0 & ? & ? & ? & e & ? & ?).
    destruct (decide (id = id0)) as [->|].
    + simplify_eq. exists r', c, i. rewrite lookup_insert_eq, Hci, Hc.
      split_and!; try done; try lia. apply (ev_max_exp _ _ He) in H2 as (e' & ? & ?).
      exists e'. split; [done|lia].
    + exists r0, c, i. rewrite lookup_insert_ne by done. eauto 10.
  - intros id0 r0 c H0 Hc0. destruct (decide (id = id0)) as [->|].
    + rewrite lookup_insert_eq in H0. simplify_eq. rewrite Hc in Hc0.
      setoid_rewrite Hci. eauto.
    + rewrite lookup_insert_ne in H0 by done. eauto.
Qed.

(** Both at once: what every statement but the delete guarantees. *)
Definition keeps (db db' : pg) : Prop := pg_inv db' /\ pg_evolves db db'.

Lemma keeps_same db : pg_inv db -> keeps db db.
Proof. by split. Qed.

Lemma keeps_update db id r r' :
  pg_inv db -> lists db !! id = Some r -> row_ok id r' -> row_evolves r r' ->
  r_cursor r' = r_cursor r -> keeps db (setLists db (<[id := r']> (lists db))).
Proof. split; [by eapply inv_update|by eapply evolves_update]. Qed.

Lemma isState_true s r : isState s r = true <-> r_state r = s.
Proof. unfold isState. apply bool_decide_eq_true. Qed.

Lemma row_archived_at_None id r : row_ok id r -> r_state r <> ARCHIVED -> r_archived_at r = None.
Proof. intros [] H. destruct (r_archived_at r); [|done]. exfalso. apply H, row_archived0. eauto. Qed.

Lemma row_purged_false id r : row_ok id r -> r_state r <> ARCHIVED -> r_purged r = false.
Proof. intros [] H. destruct (r_purged r); [|done]. exfalso. auto. Qed.

Lemma freeze_keeps id now db : pg_inv db -> keeps db (sqlFreeze id now db).2.
Proof.
  intros Hinv. unfold sqlFreeze. destruct (lists db !! id) as [r|] eqn:Hr; [|by apply keeps_same].
  destruct (isState ACTIVE r) eqn:Hs; [|by apply keeps_same]. apply isState_true in Hs.
  pose proof (inv_rows db Hinv id r Hr) as Hok.
  pose proof (row_archived_at_None id r Hok ltac:(congruence)) as Hna.
  pose proof (row_purged_false id r Hok ltac:(congruence)) as Hnp.
  apply (keeps_update db id r); auto; destruct Hok; split; simpl; auto; try done; try lia.
  - rewrite Hna. split; [done|by intros []].
  - congruence.
  - by rewrite Hs.
  - eauto with lia.
Qed.

Lemma archive_keeps id now db : pg_inv db -> keeps db (sqlArchive id now db).2.
Proof.
  intros Hinv. unfold sqlArchive. destruct (lists db !! id) as [r|] eqn:Hr; [|by apply keeps_same].
  destruct (isState FROZEN r) eqn:Hs; [|by apply keeps_same]. apply isState_true in Hs.
  pose proof (inv_rows db Hinv id r Hr) as Hok.
  pose proof (row_archived_at_None id r Hok ltac:(congruence)) as Hna.
  apply (keeps_update db id r); auto; destruct Hok; split; simpl; auto; try done; try lia.
  - by rewrite Hs.
  - by rewrite Hna.
  - eauto with lia.
Qed.

Lemma mark_purged_keeps id now db :
  pg_inv db -> (forall r, lists db !! id = Some r -> r_state r = ARCHIVED) ->
  keeps db (sqlMarkPurged id now db).2.
Proof.
  intros Hinv Har. unfold sqlMarkPurged.
  destruct (lists db !! id) as [r|] eqn:Hr; [|by apply keeps_same].
  specialize (Har r eq_refl). pose proof (inv_rows db Hinv id r Hr) as Hok.
  apply (keeps_update db id r); auto; destruct Hok; split; simpl; auto; try done; try lia.
  - by rewrite Har.
  - eauto with lia.
Qed.

Lemma create_keeps id bits size key shard now db :
  pg_inv db -> keeps db (sqlCreateList id bits size key shard now db).2.
Proof.
  intros Hinv. unfold sqlCreateList. destruct (int4_ok bits); [|by apply keeps_same]. simpl.
  destruct (lists db !! id) eqn:Hr; [by apply keeps_same|].
  assert (forall id0 r, lists db !! id0 = Some r -> id0 <> id) as Hne by (intros; congruence).
  split; [destruct Hinv|]; split; simpl; try done.
  - intros id0 r0 H0. destruct (decide (id = id0)) as [->|].
    + rewrite lookup_insert_eq in H0. simplify_eq.
      pose proof (i64_range size). split; simpl; try done; try lia; by intros [].
    + rewrite lookup_insert_ne in H0 by done. auto.
  - intros id0 k al Hal. destruct (inv_sound0 id0 k al Hal) as (r0 & c & i & Hr0 & Hrest).
    exists r0, c, i. rewrite lookup_insert_ne by (symmetry; eauto). done.
  - intros id0 r0 c H0 Hc. destruct (decide (id = id0)) as [->|].
    + rewrite lookup_insert_eq in H0. simplify_eq. simpl in Hc. lia.
    + rewrite lookup_insert_ne in H0 by done. eauto.
  - intros id0 r0 H0. exists r0. rewrite lookup_insert_ne by (symmetry; eauto). by split.
Qed.

Lemma delete_inv id now db : pg_inv db -> pg_inv (sqlDeleteList id now db).2.
Proof.
  intros []. split; simpl.
  - intros id0 r0 [_ H0]%lookup_delete_Some. auto.
  - intros id0 k al [Hal Hne]%map_lookup_filter_Some. simpl in Hne.
    destruct (inv_sound0 id0 k al Hal) as (r0 & c & i & Hr0 & Hrest).
    exists r0, c, i. by rewrite lookup_delete_ne by done.
  - intros id0 r0 c [Hne H0]%lookup_delete_Some Hc.
    destruct (inv_complete0 id0 r0 c H0 Hc) as (i & Hi & al & Hal). exists i. split; [done|].
    exists al. apply map_lookup_filter_Some. split; [done|]. simpl. congruence.
Qed.

(** ** The allocation transaction *)

(** The row after a successful reservation. *)
Definition reservedRow (r : list_row) (exp : Z) : list_row :=
  setMaxExp
    (setCursor r (r_cursor r + 1) (if r_size r <=? r_cursor r + 1 then FROZEN else r_state r))
    (greatest (r_max_exp r) exp).

Lemma reserve_ok id issuer shard exp f now db idx db' :
  sqlReserve id issuer shard exp f now db = (Ok idx, db') ->
  exists r, lists db !! id = Some r /\ r_state r = ACTIVE /\ r_cursor r < r_size r /\
    f (u64 (r_cursor r)) = Ok idx /\ allocations db !! (id, i64 idx) = None /\
    db' = MkPg (<[id := reservedRow r exp]> (lists db))
            (<[(id, i64 idx) := MkAllocRow issuer exp now]> (allocations db))
            (bumpUsage issuer shard now (issuer_usage db)) (issuer_shard db).
Proof.
  unfold sqlReserve. intros H. destruct (lists db !! id) as [r|] eqn:Hr; [|done].
  destruct ((r_cursor r <? r_size r) && isState ACTIVE r) eqn:Hg; [|done].
  apply andb_true_iff in Hg as [Hc Hs%isState_true].
  destruct (f (u64 (r_cursor r))) as [i|e] eqn:Hf; [|done].
  destruct (allocations db !! (id, i64 i)) eqn:Ha; [done|].
  destruct (usageFull _ _ _); [done|]. simplify_eq.
  exists r. split_and!; try done. lia.
Qed.

Lemma reserve_err id issuer shard exp f now db e db' :
  sqlReserve id issuer shard exp f now db = (Err e, db') -> db' = db.
Proof. unfold sqlReserve. intros H. repeat (case_match; simplify_eq/=); done. Qed.

Lemma reservedRow_evolves r exp : r_state r = ACTIVE -> row_evolves r (reservedRow r exp).
Proof.
  intros Hs. split; simpl; auto; try lia; try congruence.
  - by rewrite Hs.
  - intros e He. rewrite He. simpl. eexists. split; [done|lia].
Qed.

Lemma reservedRow_ok id r exp :
  row_ok id r -> r_state r = ACTIVE -> r_cursor r < r_size r -> row_ok id (reservedRow r exp).
Proof.
  intros Hok Hs Hc. pose proof (row_archived_at_None id r Hok ltac:(congruence)) as Hna.
  pose proof (row_purged_false id r Hok ltac:(congruence)) as Hnp.
  destruct Hok. split; simpl; auto; try lia.
  - destruct (Z.leb_spec (r_size r) (r_cursor r + 1)); [done|lia].
  - rewrite Hna. split; [|by intros []]. destruct (_ <=? _); congruence.
  - congruence.
  - intros _. unfold greatest. destruct (r_max_exp r); eauto.
Qed.

Lemma row_allocator_wf id r a :
  row_ok id r -> rowAllocator r = Ok a -> 0 < r_size r ->
  Allocator.wf a /\ Allocator.n a = r_size r.
Proof.
  intros Hok HN Hpos. unfold rowAllocator in HN. destruct Hok. unfold maxInt64 in *.
  rewrite u64_small in HN by lia. split.
  - apply (Allocator.New_wf (r_fpe_key r) (r_size r)); [lia|done].
  - by apply Allocator.New_half in HN as (_ & ? & _).
Qed.

(** Indices of a row are distinct, in range, and survive the [bigint] column. *)
Lemma cursorIndex_range_at id r c i :
  row_ok id r -> 0 <= c < r_size r -> cursorIndex r c i -> 0 <= i < r_size r /\ i64 i = i.
Proof.
  intros Hok Hc (a & Ha & Hi).
  destruct (row_allocator_wf id r a Hok Ha ltac:(lia)) as [Hw Hn].
  destruct (Allocator.Index_ok_range a c i Hw ltac:(lia) Hi) as [_ Hr]. rewrite Hn in Hr.
  split; [done|]. apply i64_small. destruct Hok. unfold minInt64, maxInt64 in *. lia.
Qed.

Lemma cursorIndex_range id r c i :
  row_ok id r -> 0 <= c < r_cursor r -> cursorIndex r c i -> 0 <= i < r_size r /\ i64 i = i.
Proof. intros Hok Hc. apply (cursorIndex_range_at id r c i Hok). destruct Hok. lia. Qed.

Lemma cursorIndex_inj id r c d i :
  row_ok id r -> 0 < r_size r -> 0 <= c -> 0 <= d ->
  cursorIndex r c i -> cursorIndex r d i -> c = d.
Proof.
  intros Hok Hs Hc Hd (a & Ha & Hi) (a' & Ha' & Hi'). rewrite Ha in Ha'. injection Ha' as <-.
  destruct (row_allocator_wf id r a Hok Ha Hs) as [Hw _].
  exact (Allocator.Index_ok_inj a c d i Hw Hc Hd Hi Hi').
Qed.

Lemma cursorIndex_fun r c i j : cursorIndex r c i -> cursorIndex r c j -> i = j.
Proof. intros (a & Ha & Hi) (a' & Ha' & Hj). congruence. Qed.

Lemma reservedRow_cursorIndex r exp c i : cursorIndex (reservedRow r exp) c i <-> cursorIndex r c i.
Proof. done. Qed.

Lemma reserve_keeps id issuer shard exp a now db :
  pg_inv db -> (forall r, lists db !! id = Some r -> rowAllocator r = Ok a) ->
  keeps db (sqlReserve id issuer shard exp (Allocator.Index a) now db).2.
Proof.
  intros Hinv Ha.
  destruct (sqlReserve id issuer shard exp (Allocator.Index a) now db) as [[idx|e] db'] eqn:E.
  2: { apply reserve_err in E as ->. by apply keeps_same. }
  apply reserve_ok in E as (r & Hr & Hs & Hc & Hi & Hfresh & ->).
  pose proof (inv_rows db Hinv id r Hr) as Hok. specialize (Ha r Hr).
  assert (0 <= r_cursor r) as Hc0 by (destruct Hok; lia).
  rewrite u64_small in Hi by (destruct Hok; unfold maxInt64 in *; lia).
  assert (cursorIndex r (r_cursor r) idx) as Hci by (by exists a).
  assert (Hev := reservedRow_evolves r exp Hs). destruct Hinv.
  split; split; simpl.
  - intros id0 r0. rewrite lookup_insert. case_decide as Hd; [|apply inv_rows0].
    intros [= <-]. subst. by apply reservedRow_ok.
  - intros id0 k al. rewrite lookup_insert. case_decide as Hd.
    + intros [= <-]. injection Hd as <- <-. exists (reservedRow r exp), (r_cursor r), idx.
      rewrite lookup_insert_eq. simpl. split_and!; try done; try lia.
      unfold greatest. destruct (r_max_exp r); eexists; (split; [done|lia]).
    + intros Hal. destruct (inv_sound0 id0 k al Hal) as (r0 & c & i & Hr0 & ? & ? & ? & e & ? & ?).
      destruct (decide (id = id0)) as [<-|].
      * simplify_eq. exists (reservedRow r exp), c, i. rewrite lookup_insert_eq. simpl.
        split_and!; try done; try lia. destruct (ev_max_exp _ _ Hev e) as (e' & ? & ?); [done|].
        exists e'. split; [done|lia].
      * exists r0, c, i. rewrite lookup_insert_ne by done. eauto 10.
  - intros id0 r0 c. rewrite lookup_insert. case_decide as Hd.
    + intros [= <-] Hc'. subst id0. simpl in Hc'. setoid_rewrite reservedRow_cursorIndex.
      destruct (decide (c = r_cursor r)) as [->|].
      * exists idx. split; [done|]. rewrite lookup_insert_eq. eauto.
      * destruct (inv_complete0 id r c Hr ltac:(lia)) as (i & Hi' & al & Hal).
        exists i. split; [done|]. rewrite lookup_insert. case_decide; eauto.
    + intros Hr0 Hc'. destruct (inv_complete0 id0 r0 c Hr0 Hc') as (i & Hi' & al & Hal).
      exists i. split; [done|]. rewrite lookup_insert_ne by congruence. eauto.
  - intros id0 r0 Hr0. rewrite lookup_insert. case_decide as Hd; [|by exists r0].
    subst. simplify_eq. eauto.
  - intros k al Hal. rewrite lookup_insert_ne; [done|]. congruence.
Qed.

Lemma exec_keeps s now db :
  pg_inv db -> stmt_ok s db -> (forall id, s <> SDelete id) -> keeps db (exec s now db).
Proof.
  intros Hinv Hok Hnd. destruct s as [| | | |id|]; simpl in *;
    [apply create_keeps|apply freeze_keeps|apply archive_keeps|apply mark_purged_keeps| |apply reserve_keeps];
    try done. by destruct (Hnd id).
Qed.

Lemma exec_inv s now db : pg_inv db -> stmt_ok s db -> pg_inv (exec s now db).
Proof.
  intros Hinv Hok. destruct s; try (by apply exec_keeps). by apply delete_inv.
Qed.

Lemma pg_inv_empty : pg_inv pgEmpty.
Proof. split; simpl; intros *; by rewrite lookup_empty. Qed.

Lemma steps_inv db db' : pg_inv db -> rtc pg_step db db' -> pg_inv db'.
Proof.
  intros Hinv Hsteps. revert db db' Hsteps Hinv. apply rtc_invariant.
  intros db db' Hinv Hstep. destruct Hstep. by apply exec_inv.
Qed.

Lemma live_steps_keeps db db' : pg_inv db -> rtc live_step db db' -> keeps db db'.
Proof.
  intros Hinv Hsteps. revert Hinv. induction Hsteps as [db|db1 db2 db3 Hstep _ IH].
  { apply keeps_same. }
  intros Hinv. destruct Hstep as [s now db Hok Hnd].
  destruct (exec_keeps s now db Hinv Hok Hnd) as [Hinv2 Hev]. destruct (IH Hinv2).
  split; [done|]. by etrans.
Qed.

(** ** Accounting *)

(** Did the statement, run now, make an allocation for this issuer and shard? *)
Definition allocatesFor (issuerID shardID : string) (s : stmt) (now : Z) (db : pg) : Z :=
  match s with
  | SReserve id issuer shard exp a =>
      if is_ok (sqlReserve id issuer shard exp (Allocator.Index a) now db).1 &&
         bool_decide (issuer = issuerID /\ shard = shardID) then 1 else 0
  | _ => 0
  end.

(** A whole history of statements with their instants, and the allocations it
    made for an issuer on a shard. *)
Fixpoint execAll (h : list (Z * stmt)) (db : pg) : pg :=
  match h with
  | [] => db
  | (now, s) :: h => execAll h (exec s now db)
  end.

Fixpoint allocationsIn (issuerID shardID : string) (h : list (Z * stmt)) (db : pg) : Z :=
  match h with
  | [] => 0
  | (now, s) :: h =>
      allocatesFor issuerID shardID s now db + allocationsIn issuerID shardID h (exec s now db)
  end.

(** The count the accounting table holds, 0 without a row. *)
Definition usageCount (issuerID shardID : string) (db : pg) : Z :=
  from_option us_index_count 0 (issuer_usage db !! (issuerID, shardID)).

Lemma bumpUsage_count issuer shard now m k :
  from_option us_index_count 0 (bumpUsage issuer shard now m !! k) =
  from_option us_index_count 0 (m !! k) + (if bool_decide ((issuer, shard) = k) then 1 else 0).
Proof.
  unfold bumpUsage. case_bool_decide as Hk.
  - subst k. destruct (m !! (issuer, shard)); by rewrite lookup_insert_eq.
  - destruct (m !! (issuer, shard)); rewrite lookup_insert_ne by done; lia.
Qed.

Lemma exec_usage issuerID shardID s now db :
  usageCount issuerID shardID (exec s now db) =
  usageCount issuerID shardID db + allocatesFor issuerID shardID s now db.
Proof.
  unfold usageCount, allocatesFor. destruct s as [| | | | |id issuer shard exp a]; simpl; try lia;
    try (unfold sqlCreateList, sqlFreeze, sqlArchive, sqlMarkPurged; repeat case_match; simpl; lia).
  destruct (sqlReserve id issuer shard exp (Allocator.Index a) now db) as [[idx|e] db'] eqn:E; simpl.
  - apply reserve_ok in E as (r & _ & _ & _ & _ & _ & ->). simpl. rewrite bumpUsage_count.
    do 2 case_bool_decide; naive_solver.
  - apply reserve_err in E as ->. lia.
Qed.

(** ** Counting the allocations of a list *)

Definition allocationsOf (id : string) (db : pg) : gmap (string * Z) alloc_row :=
  filter (fun e => e.1.1 = id) (allocations db).

(** The indices given out so far are those of the consumed cursor positions. *)
Lemma allocated_iff db id r k :
  pg_inv db -> lists db !! id = Some r ->
  is_Some (allocations db !! (id, k)) <->
  exists c, 0 <= c < r_cursor r /\ cursorIndex r c k.
Proof.
  intros Hinv Hr. pose proof (inv_rows db Hinv id r Hr) as Hok. split.
  - intros (al & Hal). destruct (inv_sound db Hinv id k al Hal) as (r' & c & i & Hr' & Hc & Hi & -> & _).
    rewrite Hr in Hr'. injection Hr' as <-. exists c. split; [done|].
    by rewrite (proj2 (cursorIndex_range id r c i Hok Hc Hi)).
  - intros (c & Hc & Hi). destruct (inv_complete db Hinv id r c Hr Hc) as (i & Hi' & Hal).
    rewrite (cursorIndex_fun r c k i Hi Hi').
    by rewrite (proj2 (cursorIndex_range id r c i Hok Hc Hi')) in Hal.
Qed.

Lemma allocationsOf_size db id r :
  pg_inv db -> lists db !! id = Some r -> Z.of_nat (size (allocationsOf id db)) = r_cursor r.
Proof.
  intros Hinv Hr. pose proof (inv_rows db Hinv id r Hr) as Hok.
  assert (0 <= r_cursor r /\ (0 < r_cursor r -> 0 < r_size r)) as [Hc0 Hs0] by (destruct Hok; lia).
  destruct (seqZ_choice (cursorIndex r) (r_cursor r)) as [l Hl].
  { intros c Hc. destruct (inv_complete db Hinv id r c Hr Hc) as (i & Hi & _). by exists i. }
  assert ((map_to_list (allocationsOf id db)).*1 ≡ₚ (pair id) <$> l) as Hperm.
  { apply NoDup_Permutation.
    - apply NoDup_fst_map_to_list.
    - apply (NoDup_fmap_2 (pair id)). apply (Forall2_seqZ_NoDup _ _ _ Hl).
      intros c d k Hc Hd Hck Hdk. 
      exact (cursorIndex_inj id r c d k Hok ltac:(lia) ltac:(lia) ltac:(lia) Hck Hdk).
    - intros [id' k]. rewrite list_elem_of_fmap. split.
      + intros ([[id2 k2] al] & [= <- <-] & Hin). apply elem_of_map_to_list in Hin.
        apply map_lookup_filter_Some in Hin as [Hal Hid]. simpl in Hid. subst id'.
        apply list_elem_of_fmap. exists k. split; [done|].
        destruct (proj1 (allocated_iff db id r k Hinv Hr)) as (c & Hc & Hk); [by exists al|].
        destruct (Forall2_lookup_l _ _ _ (Z.to_nat c) c Hl) as (k' & Hk' & Hck').
        { apply lookup_seqZ. lia. }
        rewrite (cursorIndex_fun r c k k' Hk Hck'). by eapply list_elem_of_lookup_2.
      + intros (k' & [= -> ->] & Hin)%list_elem_of_fmap.
        destruct (Forall2_seqZ_elem _ _ _ k' Hl Hin) as (c & Hc & Hk).
        destruct (proj2 (allocated_iff db id r k' Hinv Hr)) as (al & Hal); [by exists c|].
        exists ((id, k'), al). split; [done|]. apply elem_of_map_to_list.
        by apply map_lookup_filter_Some. }
  apply Permutation_length in Hperm. rewrite !length_fmap, length_map_to_list in Hperm.
  apply Forall2_length in Hl. rewrite length_seqZ in Hl. lia.
Qed.

(** ** Histories *)

(** What the callers guarantee along a history. *)
Fixpoint history_ok (h : list (Z * stmt)) (db : pg) : Prop :=
  match h with
  | [] => True
  | (now, s) :: h => stmt_ok s db /\ history_ok h (exec s now db)
  end.

Lemma history_steps h db : history_ok h db -> rtc pg_step db (execAll h db).
Proof.
  revert db. induction h as [|[now s] h IH]; intros db; simpl; [by intros _|].
  intros [Hok Hh]. eapply rtc_l; [by constructor|auto].
Qed.

(** A list of four entries, two of them allocated. *)
Definition exampleKey : list Z := replicate 32 7.

Definition exampleAllocator : Allocator.Allocator := Allocator.MkAllocator exampleKey 4 1.

Definition exampleReserve : stmt := SReserve "s1.ab" "https://issuer" "s1" 500 exampleAllocator.

Definition exampleHistory : list (Z * stmt) :=
  [(10, SCreate "s1.ab" 2 4 exampleKey "s1"); (11, exampleReserve); (12, exampleReserve)].

Ltac run_history :=
  simpl; split_and!; try exact I; intros r Hr; vm_compute in Hr; injection Hr as <-;
  vm_compute; reflexivity.

Lemma exampleHistory_ok : history_ok exampleHistory pgEmpty.
Proof. run_history. Qed.

(** ** Properties *)

(** C10: whatever statements the processes ran, and in whatever order, the
    allocations of a list are exactly the indices of its consumed cursor
    positions: each is inside the list, their number is the cursor, and the
    cursor never passes the size. *)
Theorem allocations_match_cursor (db : pg) (id : string) (r : list_row) :
  rtc pg_step pgEmpty db -> lists db !! id = Some r ->
  Z.of_nat (size (allocationsOf id db)) = r_cursor r /\ r_cursor r <= Z.max 0 (r_size r) /\
  (forall k, is_Some (allocations db !! (id, k)) <->
     exists c, 0 <= c < r_cursor r /\ cursorIndex r c k) /\
  (forall k, is_Some (allocations db !! (id, k)) -> 0 <= k < r_size r).
Proof.
  intros Hreach Hr. pose proof (steps_inv _ _ pg_inv_empty Hreach) as Hinv.
  pose proof (inv_rows db Hinv id r Hr) as Hok.
  assert (Hiff := fun k => allocated_iff db id r k Hinv Hr). split_and!.
  - by apply allocationsOf_size.
  - destruct Hok. lia.
  - done.
  - intros k (c & Hc & Hk)%Hiff. by apply (cursorIndex_range id r c k).
Qed.

Lemma allocations_match_cursor_witness :
  let db := execAll exampleHistory pgEmpty in
  exists r, lists db !! "s1.ab" = Some r /\ r_cursor r = 2 /\
    Z.of_nat (size (allocationsOf "s1.ab" db)) = r_cursor r.
Proof.
  eexists. split_and!; [vm_compute; reflexivity|vm_compute; reflexivity|].
  apply (allocations_match_cursor (execAll exampleHistory pgEmpty) "s1.ab" _
           (history_steps _ _ exampleHistory_ok)).
  vm_compute. reflexivity.
Defined.

(** The transaction on reachable tables: the unique-key conflict and the
    conversions to [bigint] never get in the way. *)
Lemma sqlReserve_reachable db id issuer shard exp now r a :
  pg_inv db -> lists db !! id = Some r -> rowAllocator r = Ok a ->
  sqlReserve id issuer shard exp (Allocator.Index a) now db =
    if isState ACTIVE r && (r_cursor r <? r_size r) then
      match Allocator.Index a (r_cursor r) with
      | Ok idx =>
          if usageCount issuer shard db <? maxInt64 then
            (Ok idx,
             MkPg (<[id := setMaxExp
                      (setCursor r (r_cursor r + 1)
                         (if r_cursor r + 1 =? r_size r then FROZEN else ACTIVE))
                      (greatest (r_max_exp r) exp)]> (lists db))
               (<[(id, idx) := MkAllocRow issuer exp now]> (allocations db))
               (<[(issuer, shard) := MkUsageRow (usageCount issuer shard db + 1) now]> (issuer_usage db))
               (issuer_shard db))
          else (Err (ErrMsg "bigint out of range"), db)
      | Err e => (Err e, db)
      end
    else (Err ErrListFull, db).
Proof.
  intros Hinv Hr Ha. pose proof (inv_rows db Hinv id r Hr) as Hok.
  unfold sqlReserve. rewrite Hr, andb_comm.
  destruct (isState ACTIVE r) eqn:Hs; simpl; [|done].
  destruct (Z.ltb_spec (r_cursor r) (r_size r)) as [Hlt|]; [|done].
  assert (0 <= r_cursor r /\ r_size r < 2 ^ 64) as Hb
    by (destruct Hok; unfold maxInt64 in *; lia).
  rewrite u64_small by lia.
  destruct (Allocator.Index a (r_cursor r)) as [idx|e] eqn:Hi; [|done].
  assert (cursorIndex r (r_cursor r) idx) as Hci by (exists a; split; assumption).
  destruct (cursorIndex_range_at id r (r_cursor r) idx Hok ltac:(lia) Hci) as [Hrange Hi64].
  rewrite Hi64. destruct (allocations db !! (id, idx)) eqn:Hal.
  - destruct (proj1 (allocated_iff db id r idx Hinv Hr)) as (c & Hc & Hk); [by eexists|].
    pose proof (cursorIndex_inj id r c (r_cursor r) idx Hok ltac:(lia) ltac:(lia) ltac:(lia) Hk Hci).
    lia.
  - apply isState_true in Hs. rewrite Hs.
    replace (r_size r <=? r_cursor r + 1) with (r_cursor r + 1 =? r_size r) by (apply bool_eq_iff; lia).
    unfold usageFull, usageCount, bumpUsage.
    destruct (issuer_usage db !! (issuer, shard)) as [u|]; [cbn [from_option]|done].
    rewrite Z.leb_antisym. by destruct (us_index_count u <? maxInt64).
Qed.

(** C11: [ReserveCursorAndRecord] on a world whose tables are reachable, on
    every branch and under every failure. What it should do, at the instant of
    its transaction: a missing list, one that is not active and a full one are
    answered with [ErrListFull]; an index that cannot be derived and an
    accounting row that is full are errors; all of these change nothing.
    Otherwise it hands out the index of the cursor and, in the same commit,
    advances the cursor, freezes the list if that was the last position, raises
    [max_exp], records the owner and bumps the accounting row. If Postgres
    answers, that is the answer and the change; if it does not (no connection, a
    broken statement, a commit whose reply is lost) the caller gets an error and
    either all of the change was made or none of it. Nothing outside the tables
    is touched. *)
Theorem reserve_functional (w : world) (id issuer shard : string) (exp : Z) (a : Allocator.Allocator) :
  rtc pg_step pgEmpty (w_pg w) ->
  (forall r, lists (w_pg w) !! id = Some r -> rowAllocator r = Ok a) ->
  let db := w_pg w in
  let '(res, w') := run (ReserveCursorAndRecord id issuer shard exp (Allocator.Index a)) w in
  let now := w_clock w' in
  let expected :=
    match lists db !! id with
    | None => (Err ErrListFull, db)
    | Some r =>
        if isState ACTIVE r && (r_cursor r <? r_size r) then
          match Allocator.Index a (r_cursor r) with
          | Ok idx =>
              if usageCount issuer shard db <? maxInt64 then
                (Ok idx,
                 MkPg (<[id := setMaxExp
                          (setCursor r (r_cursor r + 1)
                             (if r_cursor r + 1 =? r_size r then FROZEN else ACTIVE))
                          (greatest (r_max_exp r) exp)]> (lists db))
                   (<[(id, idx) := MkAllocRow issuer exp now]> (allocations db))
                   (<[(issuer, shard) := MkUsageRow (usageCount issuer shard db + 1) now]> (issuer_usage db))
                   (issuer_shard db))
              else (Err (ErrMsg "bigint out of range"), db)
          | Err e => (Err e, db)
          end
        else (Err ErrListFull, db)
    end in
  w_clock w <= now /\ w_redis w' = w_redis w /\ w_pubs w' = w_pubs w /\ w_jobs w' = w_jobs w /\
  ((res = expected.1 /\ w_pg w' = expected.2) \/
   (res = ioError /\ (w_pg w' = db \/ w_pg w' = expected.2))) /\
  (w_script w = [] -> res = expected.1 /\ w_pg w' = expected.2).
Proof.
  intros Hreach Ha. pose proof (steps_inv _ _ pg_inv_empty Hreach) as Hinv.
  unfold ReserveCursorAndRecord, pgCall. rewrite run_act.
  pose proof (pgAct_cases (sqlReserve id issuer shard exp (Allocator.Index a)) w)
    as (now & Hle & Hnow & Hr & Hp & Hj & _ & Hcase).
  pose proof (pgAct_calm (sqlReserve id issuer shard exp (Allocator.Index a)) w) as Hcalm.
  destruct (pgAct _ w) as [res w']. cbn [fst snd] in *. subst now. cbn zeta.
  match goal with |- _ /\ _ /\ _ /\ _ /\ ((_ = fst ?ex /\ _) \/ _) /\ _ =>
    assert (sqlReserve id issuer shard exp (Allocator.Index a) (w_clock w') (w_pg w) = ex) as Heq end.
  { destruct (lists (w_pg w) !! id) as [r|] eqn:Hl; [by apply sqlReserve_reachable; auto|].
    unfold sqlReserve. by rewrite Hl. }
  rewrite <- Heq. split_and!; try done. intros Hs. specialize (Hcalm Hs).
  injection Hcalm as -> ->. by cbn.
Qed.

(** The next index of a list with two allocations; a list that does not exist;
    and a reservation whose reply is lost after the commit. *)
Lemma reserve_functional_witness :
  let w := MkWorld (execAll exampleHistory pgEmpty) ∅ ∅ [] 13 [] [] in
  let lost := MkWorld (execAll exampleHistory pgEmpty) ∅ ∅ [] 13 [MkTick FailAfter 5] [] in
  (exists i, (run (ReserveCursorAndRecord "s1.ab" "https://other" "s1" 900 (Allocator.Index exampleAllocator)) w).1
    = Ok i) /\
  (run (ReserveCursorAndRecord "s1.cd" "https://other" "s1" 900 (Allocator.Index exampleAllocator)) w).1
    = Err ErrListFull /\
  w_redis (run (ReserveCursorAndRecord "s1.ab" "https://other" "s1" 900 (Allocator.Index exampleAllocator)) lost).2 = ∅.
Proof.
  cbv zeta.
  pose proof (reserve_functional (MkWorld (execAll exampleHistory pgEmpty) ∅ ∅ [] 13 [] []) "s1.ab" "https://other"
    "s1" 900 exampleAllocator (history_steps _ _ exampleHistory_ok)) as H1.
  pose proof (reserve_functional (MkWorld (execAll exampleHistory pgEmpty) ∅ ∅ [] 13 [] []) "s1.cd" "https://other"
    "s1" 900 exampleAllocator (history_steps _ _ exampleHistory_ok)) as H2.
  pose proof (reserve_functional (MkWorld (execAll exampleHistory pgEmpty) ∅ ∅ [] 13 [MkTick FailAfter 5] [])
    "s1.ab" "https://other" "s1" 900 exampleAllocator (history_steps _ _ exampleHistory_ok)) as H3.
  assert (forall r, lists (execAll exampleHistory pgEmpty) !! "s1.ab" = Some r ->
            rowAllocator r = Ok exampleAllocator) as Ha.
  { intros r Hr. vm_compute in Hr. injection Hr as <-. vm_compute. reflexivity. }
  assert (forall r, lists (execAll exampleHistory pgEmpty) !! "s1.cd" = Some r ->
            rowAllocator r = Ok exampleAllocator) as Hb.
  { intros r Hr. vm_compute in Hr. discriminate Hr. }
  specialize (H1 Ha). specialize (H2 Hb). specialize (H3 Ha).
  destruct (run _ _) as [res1 w1] in H1 |- * at 1. 
  destruct (run _ _) as [res2 w2] in H2 |- * at 1.
  destruct (run _ _) as [res3 w3] in H3 |- *. cbv zeta in H1, H2, H3.
  destruct H1 as (_ & _ & _ & _ & _ & H1). destruct H2 as (_ & _ & _ & _ & _ & H2).
  destruct H3 as (_ & H3 & _). destruct (H1 eq_refl) as [Hr1 _]. destruct (H2 eq_refl) as [Hr2 _].
  split_and!; [eexists; cbn [fst]; rewrite Hr1; vm_compute; reflexivity|cbn [fst]; rewrite Hr2; vm_compute; reflexivity|].
  exact H3.
Defined.

(** An index is never handed out twice. If a reservation on a list
    succeeds, and after any statements other than the deletion of a list a
    second one on that list succeeds, the two indices differ; and the first
    allocation is still recorded for its issuer. *)
Theorem no_index_reuse (db db1 db2 db3 : pg) (id issuer issuer' shard shard' : string)
    (exp exp' now now' i j : Z) (a : Allocator.Allocator) :
  rtc pg_step pgEmpty db ->
  (forall r, lists db !! id = Some r -> rowAllocator r = Ok a) ->
  sqlReserve id issuer shard exp (Allocator.Index a) now db = (Ok i, db1) ->
  rtc live_step db1 db2 ->
  sqlReserve id issuer' shard' exp' (Allocator.Index a) now' db2 = (Ok j, db3) ->
  i <> j /\ allocations db3 !! (id, i64 i) = Some (MkAllocRow issuer exp now).
Proof.
  intros Hreach Ha Hi Hlive Hj. pose proof (steps_inv _ _ pg_inv_empty Hreach) as Hinv.
  pose proof (proj1 (reserve_keeps id issuer shard exp a now db Hinv Ha)) as Hinv1.
  rewrite Hi in Hinv1. simpl in Hinv1.
  destruct (live_steps_keeps db1 db2 Hinv1 Hlive) as [_ Hev].
  apply reserve_ok in Hi as (r & _ & _ & _ & _ & _ & ->).
  apply reserve_ok in Hj as (r' & _ & _ & _ & _ & Hfresh & ->). simpl.
  assert (allocations db2 !! (id, i64 i) = Some (MkAllocRow issuer exp now)) as Hal.
  { apply (ev_allocs _ _ Hev). simpl. apply lookup_insert_eq. }
  split; [congruence|]. rewrite lookup_insert_ne; [done|]. congruence.
Qed.

Lemma no_index_reuse_witness :
  let db := execAll [(10, SCreate "s1.ab" 2 4 exampleKey "s1")] pgEmpty in
  exists i j db1 db2,
    sqlReserve "s1.ab" "https://a" "s1" 5 (Allocator.Index exampleAllocator) 11 db = (Ok i, db1) /\
    sqlReserve "s1.ab" "https://b" "s1" 5 (Allocator.Index exampleAllocator) 12 db1 = (Ok j, db2) /\
    i <> j.
Proof.
  do 4 eexists. split_and!; [vm_compute; reflexivity|vm_compute; reflexivity|].
  eapply (no_index_reuse (execAll [(10, SCreate "s1.ab" 2 4 exampleKey "s1")] pgEmpty) _ _ _
            "s1.ab" "https://a" "https://b" "s1" "s1" 5 5 11 12 _ _ exampleAllocator).
  - apply history_steps. run_history.
  - intros r Hr. vm_compute in Hr. injection Hr as <-. vm_compute. reflexivity.
  - vm_compute. reflexivity.
  - apply rtc_refl.
  - vm_compute. reflexivity.
Defined.

(** C12: the lifecycle only moves forward. Along any statements other than a
    deletion, every list keeps its key, size, width and shard, its state goes
    only from ACTIVE to FROZEN to ARCHIVED, its cursor never decreases and
    stops once the list is not ACTIVE, the archival time and the purge mark
    are never undone, [max_exp] never decreases, and every allocation stays;
    and a purged list is always an archived one. *)
Theorem lifecycle_monotone (db db' : pg) (id : string) (r : list_row) :
  rtc pg_step pgEmpty db -> rtc live_step db db' -> lists db !! id = Some r ->
  exists r', lists db' !! id = Some r' /\ row_evolves r r' /\ row_ok id r' /\
    allocationsOf id db ⊆ allocationsOf id db'.
Proof.
  intros Hreach Hlive Hr. pose proof (steps_inv _ _ pg_inv_empty Hreach) as Hinv.
  destruct (live_steps_keeps db db' Hinv Hlive) as [Hinv' Hev].
  destruct (ev_rows _ _ Hev id r Hr) as (r' & Hr' & He). exists r'. split_and!; try done.
  - by apply (inv_rows db').
  - apply map_filter_subseteq_mono, map_subseteq_spec. apply (ev_allocs _ _ Hev).
Qed.

Lemma lifecycle_monotone_witness :
  let db := execAll exampleHistory pgEmpty in
  exists r r', lists (exec (SFreeze "s1.ab") 20 db) !! "s1.ab" = Some r' /\
    row_evolves r r' /\ r_state r = ACTIVE /\ r_state r' = FROZEN.
Proof.
  assert (exists r, lists (execAll exampleHistory pgEmpty) !! "s1.ab" = Some r /\ r_state r = ACTIVE)
    as (r & Hr & Hs) by (eexists; split; vm_compute; reflexivity).
  destruct (lifecycle_monotone (execAll exampleHistory pgEmpty)
    (exec (SFreeze "s1.ab") 20 (execAll exampleHistory pgEmpty)) "s1.ab" r
    (history_steps _ _ exampleHistory_ok)) as (r' & Hr' & He & _).
  - apply rtc_once, live_step_stmt; [exact I|discriminate].
  - exact Hr.
  - exists r, r'. split_and!; [exact Hr'|exact He|exact Hs|].
    vm_compute in Hr'. injection Hr' as <-. reflexivity.
Defined.

(** The accounting table counts exactly the successful allocations. After
    any history of statements on an empty database, the [index_count] of an
    issuer on a shard is the number of reservations made for them that
    succeeded; deleting lists does not reduce it. *)
Theorem usage_counts_allocations (issuerID shardID : string) (h : list (Z * stmt)) :
  usageCount issuerID shardID (execAll h pgEmpty) = allocationsIn issuerID shardID h pgEmpty.
Proof.
  enough (forall db, usageCount issuerID shardID (execAll h db) =
            usageCount issuerID shardID db + allocationsIn issuerID shardID h db) as H.
  { rewrite H. unfold usageCount. simpl. by rewrite lookup_empty. }
  induction h as [|[now s] h IH]; intros db; simpl; [lia|]. rewrite IH, exec_usage. lia.
Qed.

End MetaStore.
