(* ===== verification/BitmapStore.v ===== *)
(** * internal/store/redis.go: the bitmaps in Redis

    Redis is a map from keys to strings and integers ([World.rval]); each
    command the store sends is a function on it ([getrange], [setrange],
    [setnx], [incr], [get], [del]), with Redis's rules for missing keys,
    zero padding and the 512 MB limit. [setByteScript] is the Lua script, its
    [bit] library working on 32-bit signed integers. The refinement theorem
    relates the script to the in-memory [Bitmap.Set_]: for a status that fits the
    width a client that reads the list with [Snapshot] sees exactly its update
    of one entry; for one that does not, [Set_] is an error and the script
    writes the status cut to the width. *)

From S2P Require Import Prelude Prog World Bitmap.

Module BitmapStore.

#[local] Open Scope go_scope.

(** ** Redis commands *)

Definition errWrongType : error := ErrMsg "WRONGTYPE".

Definition maxStringLen : Z := 512 * 1024 * 1024.

(** The bytes of a string key; a missing key is the empty string. *)
Definition stringAt (m : gmap string rval) (key : string) : result (list Z) :=
  match m !! key with
  | None => Ok []
  | Some (RBytes d) => Ok d
  | Some (RInt _) => Err errWrongType
  end.

(** [GETRANGE key i i]. *)
Definition getrange (m : gmap string rval) (key : string) (i : Z) : result (list Z) :=
  let? d := stringAt m key in Ok (option_list (d !! Z.to_nat i)).

(** [SETRANGE key i c] for one byte [c]: pads with zero bytes up to [i]. *)
Definition setrange (m : gmap string rval) (key : string) (i c : Z) : result (gmap string rval) :=
  let? d := stringAt m key in
  if maxStringLen <? i + 1 then Err (ErrMsg "string exceeds maximum allowed size")
  else
    let d := d ++ replicate (Z.to_nat (i + 1) - length d) 0 in
    Ok (<[key := RBytes (<[Z.to_nat i := c]> d)]> m).

Definition setnx (key : string) (v : list Z) (m : gmap string rval) : result bool * gmap string rval :=
  if maxStringLen <? Z.of_nat (length v) then (Err (ErrMsg "invalid bulk length"), m)
  else
    match m !! key with
    | Some _ => (Ok false, m)
    | None => (Ok true, <[key := RBytes v]> m)
    end.

Definition incr (key : string) (m : gmap string rval) : result Z * gmap string rval :=
  match m !! key with
  | None => (Ok 1, <[key := RInt 1]> m)
  | Some (RInt n) =>
      if n =? maxInt64 then (Err (ErrMsg "increment or decrement would overflow"), m)
      else (Ok (n + 1), <[key := RInt (n + 1)]> m)
  | Some (RBytes _) => (Err (ErrMsg "value is not an integer or out of range"), m)
  end.

Definition get (key : string) (m : gmap string rval) : result (option rval) * gmap string rval :=
  (Ok (m !! key), m).

Definition del (k1 k2 : string) (m : gmap string rval) : result unit * gmap string rval :=
  (Ok tt, delete k2 (delete k1 m)).

(** ** Lua's [bit] library *)

(** Normalization to a signed 32-bit integer. *)
Definition tobit (x : Z) : Z := (x + 2 ^ 31) mod 2 ^ 32 - 2 ^ 31.

Definition lshift (x n : Z) : Z := tobit (Z.shiftl x (n mod 32)).

Definition band (x y : Z) : Z := tobit (Z.land (tobit x) (tobit y)).

Definition bor (x y : Z) : Z := tobit (Z.lor (tobit x) (tobit y)).

Definition bnot (x : Z) : Z := tobit (Z.lnot (tobit x)).

(** The byte the script stores. *)
Definition newByte (b bitOffset bits value : Z) : Z :=
  let mask := lshift 1 bits - 1 in
  let cleared := band b (bnot (lshift mask bitOffset)) in
  bor cleared (lshift (band value mask) bitOffset).

(** The whole script; [string.char] raises an error outside 0..255, and an
    error of the script leaves the key as it was. *)
Definition setByteScript (key : string) (byteIdx bitOffset bits value : Z) (m : gmap string rval) :
    result Z * gmap string rval :=
  match getrange m key byteIdx with
  | Err e => (Err e, m)
  | Ok cur =>
      let b := match cur with [c] => c | _ => 0 end in
      let nb := newByte b bitOffset bits value in
      if (nb <? 0) || (255 <? nb) then (Err (ErrMsg "bad argument to 'char'"), m)
      else
        match setrange m key byteIdx nb with
        | Err e => (Err e, m)
        | Ok m' => (Ok nb, m')
        end
  end.

(** ** The store *)

Definition bitmapKey (listID : string) : string := "bitmap:" +:+ listID.

Definition versionKey (listID : string) : string := "version:" +:+ listID.

(** [make([]byte, n)]. *)
Definition makeBytes (n : Z) : result (list Z) :=
  if n <? 0 then Err (Panic "makeslice: len out of range") else Ok (replicate (Z.to_nat n) 0).

Definition Init (shard listID : string) (byteLen : Z) : prog world (result unit) :=
  try! zeros := Ret (makeBytes byteLen) in
  try! _ := redisCall shard (setnx (bitmapKey listID) zeros) in
  Ret (Ok tt).

Definition SetStatus (shard listID : string) (byteIndex bitOffset bits value : Z) :
    prog world (result Z) :=
  try! _ := redisCall shard (setByteScript (bitmapKey listID) byteIndex bitOffset bits value) in
  try! v := redisCall shard (incr (versionKey listID)) in
  Ret (Ok v).

(** [copy(padded, raw)]. *)
Definition padTo (byteLen : Z) (raw : list Z) : list Z :=
  take (Z.to_nat byteLen) raw ++ replicate (Z.to_nat byteLen - length raw) 0.

Definition snapshotOf (byteLen : Z) (r : option rval) : result (list Z) :=
  match r with
  | None => makeBytes byteLen
  | Some (RInt _) => Err errWrongType
  | Some (RBytes raw) =>
      if negb (Z.of_nat (length raw) =? byteLen) then
        if byteLen <? 0 then Err (Panic "makeslice: len out of range")
        else Ok (padTo byteLen raw)
      else Ok raw
  end.

Definition Snapshot (shard listID : string) (byteLen : Z) : prog world (result (list Z)) :=
  try! r := redisCall shard (get (bitmapKey listID)) in Ret (snapshotOf byteLen r).

Definition versionOf (r : option rval) : result Z :=
  match r with
  | None => Ok 0
  | Some (RInt n) => Ok n
  | Some (RBytes _) => Err (ErrMsg "strconv.ParseInt: invalid syntax")
  end.

Definition Version (shard listID : string) : prog world (result Z) :=
  try! r := redisCall shard (get (versionKey listID)) in Ret (versionOf r).

Definition Purge (shard listID : string) : prog world (result unit) :=
  redisCall shard (del (bitmapKey listID) (versionKey listID)).

(** ** Keys *)

Lemma bitmapKey_inj i j : bitmapKey i = bitmapKey j -> i = j.
Proof. unfold bitmapKey. intros H. by simplify_eq. Qed.

Lemma versionKey_inj i j : versionKey i = versionKey j -> i = j.
Proof. unfold versionKey. intros H. by simplify_eq. Qed.

Lemma keys_disjoint i j : bitmapKey i <> versionKey j.
Proof. done. Qed.

(** ** The script computes the same byte as bitmap.go *)

Lemma tobit_small x : - 2 ^ 31 <= x < 2 ^ 31 -> tobit x = x.
Proof. intros H. unfold tobit. rewrite Z.mod_small by lia. lia. Qed.

(** For the four legal widths, with the field inside the byte. *)
Lemma newByte_putField b off w v :
  Bitmap.ValidBitWidth w = true -> 0 <= off -> off + w <= 8 -> 0 <= b < 256 -> 0 <= v < 256 ->
  newByte b off w v = Bitmap.putField b (Z.ones w) off (Z.land v (Z.ones w)).
Proof.
  intros Hw Ho How Hb Hv.
  assert (0 < w <= 8) as Hw8 by (Bitmap.widths Hw; lia).
  pose proof (land_ones_range v w ltac:(lia)) as Hvm.
  assert (0 < 2 ^ w <= 256) as Hpow.
  { split; [apply Z.pow_pos_nonneg; lia|]. change 256 with (2 ^ 8). apply Z.pow_le_mono_r; lia. }
  assert (2 ^ w * 2 ^ off <= 256) as Hpo.
  { rewrite <- Z.pow_add_r by lia. change 256 with (2 ^ 8). apply Z.pow_le_mono_r; lia. }
  assert (0 < 2 ^ off) as Hoff by (apply Z.pow_pos_nonneg; lia).
  assert (forall x, 0 <= x < 2 ^ w -> 0 <= Z.shiftl x off < 256) as Hsh.
  { intros x Hx. rewrite Z.shiftl_mul_pow2 by lia. nia. }
  assert (Z.ones w = 2 ^ w - 1) as Hones by (rewrite Z.ones_equiv; lia).
  pose proof (Hsh (Z.ones w) ltac:(lia)) as Hsm. pose proof (Hsh _ Hvm) as Hsv.
  assert (lshift 1 w - 1 = Z.ones w) as Hmask.
  { unfold lshift. rewrite Z.mod_small, Z.shiftl_1_l, tobit_small by lia. lia. }
  assert (forall x, 0 <= Z.shiftl x off < 256 -> lshift x off = Z.shiftl x off) as Hls.
  { intros x Hx. unfold lshift. rewrite Z.mod_small, tobit_small by lia. done. }
  assert (band v (Z.ones w) = Z.land v (Z.ones w)) as Hband.
  { unfold band. by rewrite (tobit_small v), (tobit_small (Z.ones w)), tobit_small by lia. }
  unfold newByte, Bitmap.putField. rewrite Hmask, Hband, !Hls by done.
  assert (bnot (Z.shiftl (Z.ones w) off) = Z.lnot (Z.shiftl (Z.ones w) off)) as ->.
  { unfold bnot. rewrite (tobit_small (Z.shiftl _ _)) by lia. apply tobit_small. unfold Z.lnot. lia. }
  rewrite (u8_small (Z.shiftl (Z.ones w) off)), (u8_small (Z.shiftl (Z.land v _) off)) by done.
  pose proof (ldiff_range b (Z.shiftl (Z.ones w) off) 8 ltac:(lia) Hb) as Hcl.
  assert (band b (Z.lnot (Z.shiftl (Z.ones w) off)) = Z.ldiff b (Z.shiftl (Z.ones w) off)) as ->.
  { unfold band. rewrite Z.ldiff_land in *.
    rewrite (tobit_small b), (tobit_small (Z.lnot _)) by (unfold Z.lnot; lia).
    apply tobit_small. lia. }
  pose proof (lor_range _ _ 8 ltac:(lia) Hcl Hsv).
  unfold bor. rewrite (tobit_small (Z.ldiff _ _)), (tobit_small (Z.shiftl _ _)) by lia.
  apply tobit_small. lia.
Qed.

(** ** What a reader of the keyspace sees *)

Lemma lookup_padTo L raw i :
  padTo L raw !! i = if decide (i < Z.to_nat L)%nat then Some (default 0 (raw !! i)) else None.
Proof.
  unfold padTo. case_decide as Hi.
  - destruct (decide (i < length raw)%nat) as [Hl|Hl].
    + rewrite lookup_app_l by (rewrite length_take; lia).
      rewrite lookup_take_lt by done. destruct (lookup_lt_is_Some_2 raw i Hl) as [x ->]. done.
    + rewrite lookup_app_r, length_take by (rewrite length_take; lia).
      rewrite (lookup_ge_None_2 raw) by lia. apply lookup_replicate_2. lia.
  - apply lookup_ge_None_2. rewrite length_app, length_take, length_replicate. lia.
Qed.

Lemma length_padTo L raw : length (padTo L raw) = Z.to_nat L.
Proof. unfold padTo. rewrite length_app, length_take, length_replicate. lia. Qed.

(** The bytes stored for a list; none if the key is missing. *)
Definition bitmapBytes (m : gmap string rval) (listID : string) : list Z :=
  match m !! bitmapKey listID with Some (RBytes d) => d | _ => [] end.

(** The version of a list; 0 if it was never written. *)
Definition version (m : gmap string rval) (listID : string) : Z :=
  match m !! versionKey listID with Some (RInt n) => n | _ => 0 end.

(** The list as a bitmap of [size] entries. *)
Definition view (m : gmap string rval) (listID : string) (size bits : Z) : Bitmap.Bitmap :=
  Bitmap.MkBitmap bits size (padTo (Bitmap.nBytes size bits) (bitmapBytes m listID)).

(** Keys hold what the store puts there: bytes under bitmap keys, counters
    under version keys. *)
Definition keyspace_ok (m : gmap string rval) : Prop :=
  forall listID,
    match m !! bitmapKey listID with
    | None => True
    | Some (RBytes d) => bytes_ok d
    | Some (RInt _) => False
    end /\
    match m !! versionKey listID with
    | None => True
    | Some (RInt n) => 0 <= n <= maxInt64
    | Some (RBytes _) => False
    end.

Lemma keyspace_ok_bytes m id : keyspace_ok m -> bytes_ok (bitmapBytes m id).
Proof.
  intros H. destruct (H id) as [Hb _]. unfold bitmapBytes.
  destruct (m !! bitmapKey id) as [[d|n]|]; done || apply Forall_nil_2.
Qed.

Lemma keyspace_ok_stringAt m id :
  keyspace_ok m -> stringAt m (bitmapKey id) = Ok (bitmapBytes m id).
Proof.
  intros H. destruct (H id) as [Hb _]. unfold stringAt, bitmapBytes.
  by destruct (m !! bitmapKey id) as [[d|n]|].
Qed.

Lemma keyspace_ok_set_bitmap m id d :
  keyspace_ok m -> bytes_ok d -> keyspace_ok (<[bitmapKey id := RBytes d]> m).
Proof.
  intros H Hd id'. destruct (H id') as [Hb Hv]. split.
  - rewrite lookup_insert. by case_decide.
  - rewrite lookup_insert_ne by apply keys_disjoint. done.
Qed.

Lemma keyspace_ok_set_version m id n :
  keyspace_ok m -> 0 <= n <= maxInt64 -> keyspace_ok (<[versionKey id := RInt n]> m).
Proof.
  intros H Hd id'. destruct (H id') as [Hb Hv]. split.
  - rewrite lookup_insert_ne by (symmetry; apply keys_disjoint). done.
  - rewrite lookup_insert. by case_decide.
Qed.

Lemma bytes_ok_padTo L raw : bytes_ok raw -> bytes_ok (padTo L raw).
Proof.
  intros H. apply Forall_app. split; [by apply Forall_take|]. apply Forall_replicate. lia.
Qed.

Lemma view_wf m id size bits :
  keyspace_ok m -> Bitmap.ValidBitWidth bits = true -> Bitmap.sizeOk size ->
  Bitmap.wf (view m id size bits).
Proof.
  intros Hm Hb Hs. unfold Bitmap.wf, view; simpl. split_and!; try done.
  - rewrite length_padTo, Z2Nat.id; [done|]. rewrite Bitmap.nBytes_eq by done.
    unfold Bitmap.sizeOk in Hs. Bitmap.widths Hb; Z.div_mod_to_equations; lia.
  - by apply bytes_ok_padTo, keyspace_ok_bytes.
Qed.

(** [Snapshot] returns the bytes of the view. *)
Lemma snapshotOf_view m id L :
  keyspace_ok m -> 0 <= L -> snapshotOf L (m !! bitmapKey id) = Ok (padTo L (bitmapBytes m id)).
Proof.
  intros Hm HL. destruct (Hm id) as [Hb _]. unfold snapshotOf, bitmapBytes.
  destruct (m !! bitmapKey id) as [[d|n]|]; [|done|].
  - destruct (Z.eqb_spec (Z.of_nat (length d)) L) as [He|]; cbn [negb].
    + unfold padTo. rewrite take_ge by lia.
      replace (Z.to_nat L - length d)%nat with 0%nat by lia. simpl. by rewrite app_nil_r.
    + by replace (L <? 0) with false by lia.
  - unfold makeBytes. replace (L <? 0) with false by lia. unfold padTo. simpl.
    by rewrite take_nil, Nat.sub_0_r.
Qed.

(** The script, on a key of the right kind. *)
Lemma script_bytes m id by_ off w v :
  keyspace_ok m -> Bitmap.ValidBitWidth w = true -> 0 <= off -> off + w <= 8 ->
  0 <= by_ < maxStringLen -> 0 <= v < 256 ->
  let raw := bitmapBytes m id in
  let nb := Bitmap.putField (default 0 (raw !! Z.to_nat by_)) (Z.ones w) off (Z.land v (Z.ones w)) in
  let raw' := <[Z.to_nat by_ := nb]> (raw ++ replicate (Z.to_nat (by_ + 1) - length raw) 0) in
  setByteScript (bitmapKey id) by_ off w v m = (Ok nb, <[bitmapKey id := RBytes raw']> m) /\
  bytes_ok raw'.
Proof.
  intros Hm Hw Ho How Hby Hv raw nb raw'.
  pose proof (keyspace_ok_bytes m id Hm) as Hraw. fold raw in Hraw.
  assert (0 <= default 0 (raw !! Z.to_nat by_) < 256) as Hd.
  { destruct (raw !! Z.to_nat by_) as [d|] eqn:E; simpl; [|lia].
    apply (Forall_lookup_1 _ _ _ _ Hraw E). }
  assert (0 < w) as Hw0 by (Bitmap.widths Hw; lia).
  pose proof (Bitmap.putField_range _ w off (Z.land v (Z.ones w)) Ho ltac:(lia) How
                (land_ones_range v w ltac:(lia)) Hd) as Hnb. fold nb in Hnb.
  split.
  - unfold setByteScript, getrange, setrange. rewrite (keyspace_ok_stringAt m id Hm).
    fold raw. cbn [result_bind].
    assert (forall o : option Z, match option_list o with [c] => c | _ => 0 end = default 0 o) as ->
      by (by intros []).
    rewrite newByte_putField by done. fold nb.
    replace ((nb <? 0) || (255 <? nb)) with false by lia.
    by replace (maxStringLen <? by_ + 1) with false by lia.
  - apply Forall_insert; [|done]. apply Forall_app. split; [done|]. apply Forall_replicate. lia.
Qed.

(** Whatever its arguments, a script that succeeds wrote bytes under the key. *)
Lemma script_ok_bytes m id by_ off w v nb m' :
  keyspace_ok m -> setByteScript (bitmapKey id) by_ off w v m = (Ok nb, m') ->
  exists raw', m' = <[bitmapKey id := RBytes raw']> m /\ bytes_ok raw'.
Proof.
  intros Hm. unfold setByteScript, getrange, setrange. rewrite (keyspace_ok_stringAt m id Hm).
  cbn [result_bind]. set (nb0 := newByte _ _ _ _). clearbody nb0.
  destruct ((nb0 <? 0) || (255 <? nb0)) eqn:Hr; [done|].
  destruct (maxStringLen <? by_ + 1); [done|]. intros [= <- <-]. eexists. split; [done|].
  apply Forall_insert; [|lia]. apply Forall_app.
  split; [by apply keyspace_ok_bytes|]. apply Forall_replicate. lia.
Qed.

Lemma bitmapBytes_set m id id' d :
  bitmapBytes (<[bitmapKey id := RBytes d]> m) id' =
    if decide (id = id') then d else bitmapBytes m id'.
Proof.
  unfold bitmapBytes. case_decide as Hd.
  - subst. by rewrite lookup_insert_eq.
  - rewrite lookup_insert_ne; [done|]. by intros ?%bitmapKey_inj.
Qed.

Lemma bitmapBytes_version m id id' n :
  bitmapBytes (<[versionKey id := RInt n]> m) id' = bitmapBytes m id'.
Proof. unfold bitmapBytes. by rewrite lookup_insert_ne by (symmetry; apply keys_disjoint). Qed.

(** Growing the stored string and setting one byte is, for a reader, setting
    that byte of the padded array. *)
Lemma padTo_insert L raw i c :
  0 <= i < L ->
  padTo L (<[Z.to_nat i := c]> (raw ++ replicate (Z.to_nat (i + 1) - length raw) 0)) =
  <[Z.to_nat i := c]> (padTo L raw).
Proof.
  intros Hi. apply list_eq. intros k. rewrite lookup_padTo.
  destruct (decide (k = Z.to_nat i)) as [->|Hne].
  - rewrite decide_True by lia. rewrite list_lookup_insert_eq.
    2: { rewrite length_app, length_replicate. lia. }
    by rewrite list_lookup_insert_eq by (rewrite length_padTo; lia).
  - rewrite !list_lookup_insert_ne, lookup_padTo by done. case_decide; [|done]. f_equal.
    destruct (decide (k < length raw)%nat).
    + by rewrite lookup_app_l by done.
    + rewrite lookup_app_r, (lookup_ge_None_2 raw) by lia.
      destruct (replicate _ _ !! _) eqn:E; [|done]. by apply lookup_replicate in E as [-> _].
Qed.

(** The script updates one entry of the view. *)
Lemma script_view m id size bits idx v :
  keyspace_ok m -> Bitmap.ValidBitWidth bits = true -> Bitmap.sizeOk size ->
  Bitmap.nBytes size bits <= maxStringLen -> 0 <= idx < size -> 0 <= v < 256 ->
  let '(byteIndex, bitOffset) := Bitmap.ByteOffset idx bits in
  exists nb raw' b',
    setByteScript (bitmapKey id) byteIndex bitOffset bits v m =
      (Ok nb, <[bitmapKey id := RBytes raw']> m) /\
    bytes_ok raw' /\
    Bitmap.Set_ (view m id size bits) idx (Z.land v (Z.ones bits)) = Ok b' /\
    view (<[bitmapKey id := RBytes raw']> m) id size bits = b'.
Proof.
  intros Hm Hb Hs Hmax Hi Hv.
  assert (Bitmap.sizeOk idx) as Hsi by (unfold Bitmap.sizeOk in *; lia).
  rewrite (Bitmap.ByteOffset_eq idx bits Hb Hsi).
  destruct (Bitmap.field_in_byte bits idx Hb ltac:(lia)) as [Ho How].
  pose proof (Bitmap.byte_in_data bits size idx Hb Hi) as Hby.
  rewrite <- (Bitmap.nBytes_eq size bits Hb Hs) in Hby.
  destruct (script_bytes m id (idx * bits / 8) (idx * bits mod 8) bits v Hm Hb Ho How ltac:(lia) Hv)
    as [Hscript Hok].
  do 3 eexists. split_and!; [exact Hscript|exact Hok| |reflexivity].
  unfold Bitmap.Set_. cbn [view Bitmap.size Bitmap.bits Bitmap.data]. replace (size <=? idx) with false by lia.
  assert (1 <= bits) as Hw by (Bitmap.widths Hb; lia).
  rewrite (Bitmap.fieldMask_eq bits Hb), (Bitmap.ByteOffset_eq idx bits Hb Hsi).
  assert (Z.land v (Z.ones bits) <= Z.ones bits) as Hle.
  { pose proof (land_ones_range v bits ltac:(lia)). rewrite (Z.ones_equiv bits) at 2. lia. }
  apply Z.ltb_ge in Hle. rewrite Hle. rewrite lookup_padTo, decide_True by lia.
  f_equal. unfold view; simpl. f_equal.
  rewrite bitmapBytes_set, decide_True by done. by rewrite padTo_insert by lia.
Qed.

Lemma view_set_version m id id' n size bits :
  view (<[versionKey id := RInt n]> m) id' size bits = view m id' size bits.
Proof. unfold view. by rewrite bitmapBytes_version. Qed.

Lemma version_set_bitmap m id id' d :
  version (<[bitmapKey id := RBytes d]> m) id' = version m id'.
Proof. unfold version. by rewrite lookup_insert_ne by apply keys_disjoint. Qed.

Lemma version_set m id id' n :
  version (<[versionKey id := RInt n]> m) id' = if decide (id = id') then n else version m id'.
Proof.
  unfold version. case_decide as Hd.
  - subst. by rewrite lookup_insert_eq.
  - rewrite lookup_insert_ne; [done|]. by intros ?%versionKey_inj.
Qed.

(** [INCR] adds one to the version, or fails and changes nothing. *)
Lemma incr_version m id :
  keyspace_ok m ->
  incr (versionKey id) m =
    (Ok (version m id + 1), <[versionKey id := RInt (version m id + 1)]> m) /\
    version m id < maxInt64 \/
  exists e, incr (versionKey id) m = (Err e, m).
Proof.
  intros Hm. destruct (Hm id) as [_ Hv]. unfold incr, version.
  destruct (m !! versionKey id) as [[d|n]|]; [done| |by left].
  destruct (Z.eqb_spec n maxInt64); [right; by eexists|left]. split; [done|lia].
Qed.

Lemma version_nonneg m id : keyspace_ok m -> 0 <= version m id.
Proof.
  intros Hm. destruct (Hm id) as [_ Hv]. unfold version.
  destruct (m !! versionKey id) as [[]|]; done || lia.
Qed.

(** [Version] returns it. *)
Lemma versionOf_version m id : keyspace_ok m -> versionOf (m !! versionKey id) = Ok (version m id).
Proof.
  intros Hm. destruct (Hm id) as [_ Hv]. unfold version, versionOf.
  by destruct (m !! versionKey id) as [[]|].
Qed.

(** Two keyspaces that agree on every list but [id]. *)
Definition same_but (id : string) (m m' : gmap string rval) : Prop :=
  forall k, k <> bitmapKey id -> k <> versionKey id -> m' !! k = m !! k.

(** The entry written, in the terms of the abstract list of statuses. *)
Definition written (m : gmap string rval) (id : string) (size bits idx v : Z) : list Z :=
  <[Z.to_nat idx := Z.land v (Z.ones bits)]> (Bitmap.statuses (view m id size bits)).

(** The script, in those terms. *)
Lemma script_written m id size bits idx v :
  keyspace_ok m -> Bitmap.ValidBitWidth bits = true -> Bitmap.sizeOk size ->
  Bitmap.nBytes size bits <= maxStringLen -> 0 <= idx < size -> 0 <= v < 256 ->
  let '(byteIndex, bitOffset) := Bitmap.ByteOffset idx bits in
  exists nb raw',
    setByteScript (bitmapKey id) byteIndex bitOffset bits v m =
      (Ok nb, <[bitmapKey id := RBytes raw']> m) /\
    bytes_ok raw' /\
    Bitmap.statuses (view (<[bitmapKey id := RBytes raw']> m) id size bits) =
      written m id size bits idx v.
Proof.
  intros Hm Hb Hs Hmax Hi Hv. pose proof (script_view m id size bits idx v Hm Hb Hs Hmax Hi Hv) as H.
  destruct (Bitmap.ByteOffset idx bits) as [byteIndex bitOffset].
  destruct H as (nb & raw' & b' & Hrun & Hok & Hset & <-). exists nb, raw'. split_and!; [done..|].
  assert (1 <= bits) as Hw by (Bitmap.widths Hb; lia).
  destruct (Bitmap.Set_entry (view m id size bits) idx (Z.land v (Z.ones bits)))
    as (b'' & Hset' & _ & _ & Hsz & He);
    [by apply view_wf|done|apply land_ones_range; simpl; lia|].
  rewrite Hset in Hset'. injection Hset' as <-. by apply Bitmap.statuses_ext.
Qed.

(** [SetStatus] in a run, with any failures. *)
Definition setStatusPost (w : world) (shard id : string) (size bits idx v : Z) (r : result Z) (w' : world) : Prop :=
  let m := redisOf w shard in
  let m' := redisOf w' shard in
  let now := Bitmap.statuses (view m' id size bits) in
  keyspace_ok m' /\ same_but id m m' /\ w_pg w' = w_pg w /\
  (forall s, s <> shard -> redisOf w' s = redisOf w s) /\
  match r with
  | Ok ver => now = written m id size bits idx v /\ ver = version m id + 1 /\ version m' id = ver
  | Err _ =>
      (now = Bitmap.statuses (view m id size bits) /\ version m' id = version m id) \/
      (now = written m id size bits idx v /\
       (version m' id = version m id \/ version m' id = version m id + 1))
  end.

Lemma SetStatus_run w shard id size bits idx v :
  keyspace_ok (redisOf w shard) -> Bitmap.ValidBitWidth bits = true -> Bitmap.sizeOk size ->
  Bitmap.nBytes size bits <= maxStringLen -> 0 <= idx < size -> 0 <= v < 256 ->
  let '(byteIndex, bitOffset) := Bitmap.ByteOffset idx bits in
  let '(r, w') := run (SetStatus shard id byteIndex bitOffset bits v) w in
  setStatusPost w shard id size bits idx v r w'.
Proof.
  intros Hm Hb Hs Hmax Hi Hv. unfold setStatusPost.
  pose proof (script_written _ id size bits idx v Hm Hb Hs Hmax Hi Hv) as Hscr.
  destruct (Bitmap.ByteOffset idx bits) as [byteIndex bitOffset].
  destruct Hscr as (nb & raw' & Hrun & Hraw & Hnow). set (m := redisOf w shard) in *.
  set (m1 := <[bitmapKey id := RBytes raw']> m) in *.
  assert (keyspace_ok m1) as Hm1 by (by apply keyspace_ok_set_bitmap).
  assert (same_but id m m1) as Hsame1.
  { intros k Hk _. unfold m1. by rewrite lookup_insert_ne by done. }
  unfold SetStatus, redisCall. rewrite run_bindErr, run_act.
  pose proof (redisAct_cases shard (setByteScript (bitmapKey id) byteIndex bitOffset bits v) w)
    as (Hpg & _ & _ & _ & _ & Hother & Hcase).
  fold m in Hcase. rewrite Hrun in Hcase.
  destruct (redisAct shard _ w) as [r1 w1]. cbn [fst snd] in *.
  destruct Hcase as [[-> Hw1]|[-> [Hw1|Hw1]]].
  - rewrite run_bindErr, run_act.
    pose proof (redisAct_cases shard (incr (versionKey id)) w1)
      as (Hpg2 & _ & _ & _ & _ & Hother2 & Hcase2).
    destruct (redisAct shard (incr (versionKey id)) w1) as [r2 w2]. cbn [fst snd] in *. rewrite Hw1 in Hcase2.
    assert (w_pg w2 = w_pg w) as Hpgw by congruence.
    assert (forall s, s <> shard -> redisOf w2 s = redisOf w s) as Hoth.
    { intros s Hs'. rewrite Hother2, Hother by done. done. }
    assert (version m1 id = version m id) as Hver by apply version_set_bitmap.
    destruct (incr_version m1 id Hm1) as [[Hinc Hlt]|[e Hinc]]; rewrite Hinc in Hcase2; simpl in Hcase2.
    + assert (forall n, 0 <= n <= maxInt64 -> keyspace_ok (<[versionKey id := RInt n]> m1)) as Hm2.
      { intros n Hn. by apply keyspace_ok_set_version. }
      pose proof (version_nonneg m1 id Hm1) as H0.
      assert (same_but id m (<[versionKey id := RInt (version m1 id + 1)]> m1)) as Hsame2.
      { intros k Hk Hk'. rewrite lookup_insert_ne by done. by apply Hsame1. }
      destruct Hcase2 as [[-> Hw2]|[-> [Hw2|Hw2]]]; cbn [run ioError]; rewrite Hw2; split_and!;
        rewrite ?view_set_version, ?version_set, ?decide_True by done; auto with lia.
    + destruct Hcase2 as [[-> Hw2]|[-> [Hw2|Hw2]]]; cbn [run ioError]; rewrite Hw2; split_and!; auto.
  - cbn [run ioError]. rewrite Hw1. split_and!; auto. by intros k.
  - cbn [run ioError]. rewrite Hw1. split_and!; auto. right. split; [done|]. left. apply version_set_bitmap.
Qed.

(** The commands of [SetStatus], whatever their arguments, keep the shape of
    every keyspace and touch only this list's keys. *)
Lemma script_ok m id by_ off w v :
  keyspace_ok m -> keyspace_ok (setByteScript (bitmapKey id) by_ off w v m).2.
Proof.
  intros Hm. destruct (setByteScript (bitmapKey id) by_ off w v m) as [[nb|e] m'] eqn:E; simpl.
  - destruct (script_ok_bytes m id by_ off w v nb m' Hm E) as (raw' & -> & Hraw).
    by apply keyspace_ok_set_bitmap.
  - unfold setByteScript in E. by repeat case_match; simplify_eq.
Qed.

Lemma incr_ok m id : keyspace_ok m -> keyspace_ok (incr (versionKey id) m).2.
Proof.
  intros Hm. destruct (incr_version m id Hm) as [[-> Hlt]|[e ->]]; [|done]. simpl.
  pose proof (version_nonneg m id Hm). apply keyspace_ok_set_version; [done|lia].
Qed.

Lemma setnx_ok m id n : keyspace_ok m -> keyspace_ok (setnx (bitmapKey id) (replicate n 0) m).2.
Proof.
  intros Hm. unfold setnx. repeat case_match; simpl; try done.
  apply keyspace_ok_set_bitmap; [done|]. apply Forall_replicate. lia.
Qed.

Lemma del_ok m id : keyspace_ok m -> keyspace_ok (del (bitmapKey id) (versionKey id) m).2.
Proof.
  intros Hm id'. destruct (Hm id') as [Hb Hv]. simpl. split.
  - rewrite lookup_delete_ne by (symmetry; apply keys_disjoint). rewrite lookup_delete. by case_decide.
  - rewrite lookup_delete. case_decide; [done|].
    by rewrite lookup_delete_ne by apply keys_disjoint.
Qed.

(** An entry after a write. *)
Lemma entry_written (m : gmap string rval) id size bits idx v (b : Bitmap.Bitmap) i :
  Bitmap.size b = size -> 0 <= idx < size -> 0 <= i < size ->
  Bitmap.statuses b = written m id size bits idx v ->
  Bitmap.entry b i = if decide (i = idx) then Z.land v (Z.ones bits)
                     else Bitmap.entry (view m id size bits) i.
Proof.
  intros Hsz Hx Hi Hst. apply (inj Some). rewrite <- Bitmap.lookup_statuses by lia.
  rewrite Hst. unfold written. case_decide as Hd.
  - subst. apply list_lookup_insert_eq. rewrite Bitmap.length_statuses. simpl. lia.
  - rewrite list_lookup_insert_ne by lia. apply Bitmap.lookup_statuses. simpl. lia.
Qed.

Lemma view_same_but id id' m m' size bits :
  same_but id m m' -> id' <> id ->
  view m' id' size bits = view m id' size bits.
Proof.
  intros Hs Hne. unfold view, bitmapBytes. rewrite Hs; [done| |done].
  by intros ?%bitmapKey_inj.
Qed.

(** [SETNX] of zeros shows a reader what a missing key does. *)
Lemma setnx_view m id n id' size bits :
  view (setnx (bitmapKey id) (replicate n 0) m).2 id' size bits = view m id' size bits.
Proof.
  unfold setnx. case_match; [done|]. destruct (m !! bitmapKey id) eqn:Hm; [done|]. cbn [snd].
  unfold view. f_equal. rewrite bitmapBytes_set. case_decide as Hd; [|done]. subst id'.
  unfold bitmapBytes. rewrite Hm. apply list_eq. intros i. rewrite !lookup_padTo. case_decide; [|done].
  f_equal. destruct (replicate n 0 !! i) eqn:E; [|done]. by apply lookup_replicate in E as [-> _].
Qed.

Lemma setnx_version m id v id' : version (setnx (bitmapKey id) v m).2 id' = version m id'.
Proof. unfold setnx. repeat case_match; cbn [snd]; try done. apply version_set_bitmap. Qed.

(** ** Properties *)

(** C16: the Lua script against [Bitmap.Set]. On a keyspace of the right shape,
    for an index inside a list of a legal width whose bytes fit in a Redis
    string, the script stores a key and touches no other. For a status that
    fits the width, a reader's view of the list is then the bitmap that
    bitmap.go's [Set] would have made of the old view. For one that does not
    fit the two disagree: [Set] refuses it, and the script writes what is left
    of it after cutting it to the width. *)
Theorem script_refines_Set (m : gmap string rval) (id : string) (size bits idx v : Z) :
  keyspace_ok m -> Bitmap.ValidBitWidth bits = true -> Bitmap.sizeOk size ->
  Bitmap.nBytes size bits <= maxStringLen -> 0 <= idx < size -> 0 <= v < 256 ->
  let '(byteIndex, bitOffset) := Bitmap.ByteOffset idx bits in
  exists nb m',
    setByteScript (bitmapKey id) byteIndex bitOffset bits v m = (Ok nb, m') /\ keyspace_ok m' /\
    (forall k, k <> bitmapKey id -> m' !! k = m !! k) /\
    if v <? 2 ^ bits then Bitmap.Set_ (view m id size bits) idx v = Ok (view m' id size bits)
    else Bitmap.Set_ (view m id size bits) idx v = Err (ErrMsg "statuslist: status does not fit") /\
         Bitmap.Set_ (view m id size bits) idx (v mod 2 ^ bits) = Ok (view m' id size bits).
Proof.
  intros Hm Hb Hs Hmax Hi Hv. pose proof (script_view m id size bits idx v Hm Hb Hs Hmax Hi Hv) as H.
  assert (0 <= bits) as Hb0 by (Bitmap.widths Hb; lia).
  destruct (Bitmap.ByteOffset idx bits) as [byteIndex bitOffset].
  destruct H as (nb & raw' & b' & Hrun & Hok & Hset & <-).
  rewrite Z.land_ones in Hset by done.
  exists nb. eexists. split_and!; [exact Hrun|by apply keyspace_ok_set_bitmap| |].
  - intros k Hk. by rewrite lookup_insert_ne.
  - destruct (Z.ltb_spec v (2 ^ bits)) as [Hfit|Hbig]; [by rewrite Z.mod_small in Hset by lia|].
    split; [|exact Hset]. unfold Bitmap.Set_, view. cbn [Bitmap.size Bitmap.bits Bitmap.data].
    replace (size <=? idx) with false by lia. rewrite Bitmap.fieldMask_eq by done.
    assert (Z.ones bits = 2 ^ bits - 1) as Hones by (rewrite Z.ones_equiv; lia).
    by replace (Z.ones bits <? v) with true by lia.
Qed.

Lemma keyspace_ok_empty : keyspace_ok ∅.
Proof. intros id. by rewrite !lookup_empty. Qed.

(** INVALID on a list of two bits, where the two agree, and SUSPENDED on a list
    of one bit, which the script turns into VALID. *)
Lemma script_refines_Set_witness :
  (exists nb m', setByteScript (bitmapKey "s.1") 1 2 2 1 ∅ = (Ok nb, m') /\
    Bitmap.Set_ (view ∅ "s.1" 8 2) 5 1 = Ok (view m' "s.1" 8 2)) /\
  (exists nb m', setByteScript (bitmapKey "s.1") 0 5 1 2 ∅ = (Ok nb, m') /\
    Bitmap.Set_ (view ∅ "s.1" 8 1) 5 2 = Err (ErrMsg "statuslist: status does not fit") /\
    Bitmap.Set_ (view ∅ "s.1" 8 1) 5 0 = Ok (view m' "s.1" 8 1)).
Proof.
  split.
  - destruct (script_refines_Set ∅ "s.1" 8 2 5 1 keyspace_ok_empty ltac:(reflexivity)
      ltac:(split; lia) ltac:(vm_compute; discriminate) ltac:(lia) ltac:(lia))
      as (nb & m' & Hrun & _ & _ & Hset).
    exists nb, m'. split; [exact Hrun|exact Hset].
  - destruct (script_refines_Set ∅ "s.1" 8 1 5 2 keyspace_ok_empty ltac:(reflexivity)
      ltac:(split; lia) ltac:(vm_compute; discriminate) ltac:(lia) ltac:(lia))
      as (nb & m' & Hrun & _ & _ & Hno & Hset).
    exists nb, m'. split_and!; [exact Hrun|exact Hno|exact Hset].
Defined.

(** C17: [SetStatus] under failures of Redis. If it returns a version, the one
    entry was written, and the version is the old one plus one. If it returns
    an error the entry was written or not, and the version moved only if it
    was; no other list, shard or table is ever touched, and no other entry. *)
Theorem SetStatus_spec (w : world) (shard id : string) (size bits idx v : Z) :
  keyspace_ok (redisOf w shard) -> Bitmap.ValidBitWidth bits = true -> Bitmap.sizeOk size ->
  Bitmap.nBytes size bits <= maxStringLen -> 0 <= idx < size -> 0 <= v < 256 ->
  let '(byteIndex, bitOffset) := Bitmap.ByteOffset idx bits in
  let '(r, w') := run (SetStatus shard id byteIndex bitOffset bits v) w in
  let m := redisOf w shard in
  let m' := redisOf w' shard in
  let now := Bitmap.statuses (view m' id size bits) in
  keyspace_ok m' /\ same_but id m m' /\ w_pg w' = w_pg w /\
  (forall s, s <> shard -> redisOf w' s = redisOf w s) /\
  match r with
  | Ok ver => now = written m id size bits idx v /\ ver = version m id + 1 /\ version m' id = ver
  | Err _ =>
      (now = Bitmap.statuses (view m id size bits) /\ version m' id = version m id) \/
      (now = written m id size bits idx v /\
       (version m' id = version m id \/ version m' id = version m id + 1))
  end.
Proof.
  intros Hm Hb Hs Hmax Hi Hv. pose proof (SetStatus_run w shard id size bits idx v Hm Hb Hs Hmax Hi Hv) as H.
  destruct (Bitmap.ByteOffset idx bits). destruct (run _ w). exact H.
Qed.

Lemma SetStatus_spec_witness :
  let w := MkWorld pgEmpty ∅ ∅ [] 0 [] [] in
  let '(r, w') := run (SetStatus "s" "s.1" 1 2 2 1) w in
  r = Ok 1 /\ Bitmap.statuses (view (redisOf w' "s") "s.1" 8 2) = [0; 0; 0; 0; 0; 1; 0; 0].
Proof.
  pose proof (SetStatus_spec (MkWorld pgEmpty ∅ ∅ [] 0 [] []) "s" "s.1" 8 2 5 1
    keyspace_ok_empty ltac:(reflexivity) ltac:(split; lia) ltac:(vm_compute; discriminate)
    ltac:(lia) ltac:(lia)) as H.
  assert (Bitmap.ByteOffset 5 2 = (1, 2)) as Hbo by reflexivity. rewrite Hbo in H.
  cbv zeta. destruct (run (SetStatus "s" "s.1" 1 2 2 1) _) as [r w'] eqn:E.
  vm_compute in E. injection E as <- <-.
  destruct H as (_ & _ & _ & _ & Hnow & _). split; [reflexivity|exact Hnow].
Defined.

End BitmapStore.
