(* ===== verification/Rely.v ===== *)
(** * The discipline every handler preserves

    The contract between the processes that share the database, in
    rely-guarantee form: at every step the tables satisfy [MetaStore.pg_inv]
    and evolve along [MetaStore.pg_evolves] (no list is deleted), every list
    has a legal width and a size that fits in Redis ([rows_good]), and every
    keyspace holds what its store puts there. The contract can be sharpened
    for one allocated entry, whose status then only its owner may change
    ([Watching]). The rules here reduce "a handler keeps the contract in every interleaving" to facts
    about single statements; each component proves it for its own programs,
    and System.v puts them together with [pool_safe]. What a handler learnt
    from a query stays true while it runs ([known]). *)

From S2P Require Import Prelude Prog World Allocator Bitmap MetaStore BitmapStore.

Module Rely.

#[local] Existing Instances MetaStore.row_evolves_preorder MetaStore.pg_evolves_preorder.

(** Lists the bitmap store can hold. *)
Definition list_good (bits size : Z) : Prop :=
  Bitmap.ValidBitWidth bits = true /\ 0 < size < 2 ^ 60 /\
  Bitmap.nBytes size bits <= BitmapStore.maxStringLen.

Definition rows_good (db : pg) : Prop :=
  forall id r, lists db !! id = Some r -> list_good (r_bits r) (r_size r).

#[export] Instance list_good_dec bits size : Decision (list_good bits size).
Proof. unfold list_good. apply _. Defined.

(** On a concrete database, by evaluation. *)
Lemma rows_good_check db :
  bool_decide (map_Forall (fun _ r => list_good (r_bits r) (r_size r)) (lists db)) = true -> rows_good db.
Proof. intros H%bool_decide_eq_true id r Hr. exact (H id r Hr). Qed.

Record Inv (w : world) : Prop := {
  inv_pg : MetaStore.pg_inv (w_pg w);
  inv_good : rows_good (w_pg w);
  inv_redis : forall shard, BitmapStore.keyspace_ok (redisOf w shard)
}.

Definition Ev (w w' : world) : Prop := MetaStore.pg_evolves (w_pg w) (w_pg w').

#[export] Instance Ev_preorder : PreOrder Ev.
Proof. unfold Ev. split; [intros w; reflexivity|]. intros w1 w2 w3 H1 H2. by etrans. Qed.

(** ** An entry under watch

    The contract can be sharpened for one allocated entry: as long as its list
    is not archived, no step changes its status, unless to the one status that
    its owner may be writing meanwhile ([wa_sets]), and no step takes back the
    version of the list. Every component proves its programs safe for any
    watch; with none, the contract is the one above. *)

Record watch := MkWatch {
  wa_shard : string;
  wa_list : string;
  wa_idx : Z;
  wa_owner : string;
  wa_sets : option Z
}.

Class Watching := watched : option watch.

(** Entry [i] of the list of row [r], as a reader of the shard's Redis sees it. *)
Definition entryOf (w : world) (shard id : string) (r : list_row) (i : Z) : Z :=
  Bitmap.entry (BitmapStore.view (redisOf w shard) id (r_size r) (r_bits r)) i.

(** The entry is allocated to its owner. *)
Definition held (a : watch) (db : pg) : Prop :=
  exists al, allocations db !! (wa_list a, wa_idx a) = Some al /\ al_issuer_id al = wa_owner a.

(** What the owner writes reads as [e] in a list of this width. *)
Definition ownerSets (a : watch) (bits e : Z) : Prop :=
  exists v, wa_sets a = Some v /\ e = Z.land v (Z.ones bits).

(** From one reading of the entry and the version to a later one. *)
Definition moves (a : watch) (bits : Z) (old new : Z * Z) : Prop :=
  (new.1 = old.1 \/ ownerSets a bits new.1) /\ old.2 <= new.2.

#[export] Instance moves_preorder a bits : PreOrder (moves a bits).
Proof.
  unfold moves. split; [intros x; by split; [left|]|]. intros x y z [[Hxy|Hxy] ?] [[->|Hyz] ?]; auto with lia.
Qed.

(** The entry and the version of its list, in the keyspace [m]. *)
Definition reading (a : watch) (r : list_row) (m : gmap string rval) : Z * Z :=
  (Bitmap.entry (BitmapStore.view m (wa_list a) (r_size r) (r_bits r)) (wa_idx a), BitmapStore.version m (wa_list a)).

(** From [w] to [w'] the entry moved as it may, unless its list is archived. *)
Definition unmoved (a : watch) (w w' : world) : Prop :=
  forall r r', lists (w_pg w) !! wa_list a = Some r -> lists (w_pg w') !! wa_list a = Some r' ->
    r_state r' <> ARCHIVED ->
    moves a (r_bits r) (reading a r (redisOf w (wa_shard a))) (reading a r (redisOf w' (wa_shard a))).

Section Discipline.
Context {W : Watching}.

Definition onWatch (P : watch -> Prop) : Prop := match watched with Some a => P a | None => True end.

(** The invariant and the relation of the discipline. *)
Definition InvW (w : world) : Prop := Inv w /\ onWatch (fun a => held a (w_pg w)).

Definition EvW (w w' : world) : Prop := Ev w w' /\ onWatch (fun a => unmoved a w w').

Lemma unmoved_trans a w1 w2 w3 :
  Ev w1 w2 -> Ev w2 w3 -> unmoved a w1 w2 -> unmoved a w2 w3 -> unmoved a w1 w3.
Proof.
  intros HE1 HE2 H1 H2 r1 r3 Hr1 Hr3 Hs3.
  destruct (MetaStore.ev_rows _ _ HE1 _ _ Hr1) as (r2 & Hr2 & He12).
  destruct (MetaStore.ev_rows _ _ HE2 _ _ Hr2) as (r3' & Hr3' & He23).
  rewrite Hr3 in Hr3'. injection Hr3' as <-.
  assert (r_state r2 <> ARCHIVED) as Hs2.
  { intros Hs2. pose proof (MetaStore.ev_state _ _ He23) as Hst. rewrite Hs2 in Hst. by destruct (r_state r3). }
  specialize (H1 r1 r2 Hr1 Hr2 Hs2). specialize (H2 r2 r3 Hr2 Hr3 Hs3).
  unfold reading in *. rewrite (MetaStore.ev_size _ _ He12), (MetaStore.ev_bits _ _ He12) in H2. by etrans.
Qed.

#[export] Instance EvW_preorder : PreOrder EvW.
Proof.
  unfold EvW, onWatch. split.
  - intros w. split; [reflexivity|]. destruct watched; [|done]. intros r r' _ _ _. reflexivity.
  - intros w1 w2 w3 [HE1 H1] [HE2 H2]. split; [by etrans|]. destruct watched as [a|]; [|done].
    by apply (unmoved_trans a w1 w2 w3).
Qed.

(** What the discipline asks of one step. *)
Lemma InvW_step w w' : InvW w -> Inv w' -> Ev w w' -> InvW w'.
Proof.
  intros [_ Ha] HI HE. split; [done|]. revert Ha. unfold onWatch. destruct watched as [a|]; [|done].
  intros (al & Hal & Ho). exists al. split; [|done]. by apply (MetaStore.ev_allocs _ _ HE).
Qed.

(** A step that leaves the keyspaces alone. *)
Lemma EvW_redis w w' : Ev w w' -> (forall s, redisOf w' s = redisOf w s) -> EvW w w'.
Proof.
  intros HE Hr. split; [done|]. unfold onWatch. destruct watched as [a|]; [|done].
  intros r r' _ _ _. by rewrite Hr.
Qed.

(** [p] keeps the contract, and returns in a world satisfying [Q]. *)
Definition safe {A} (p : prog world A) (Q : A -> world -> Prop) (w : world) : Prop := rg InvW EvW p Q w.

(** Facts about the tables that the allowed evolutions preserve. *)
Definition stable (P : pg -> Prop) : Prop :=
  forall db db', MetaStore.pg_evolves db db' -> P db -> P db'.

(** ** Rules *)

Lemma safe_ret {A} (a : A) Q w : Q a w -> safe (Ret a) Q w.
Proof. done. Qed.

Lemma safe_mono {A} (p : prog world A) (Q Q' : A -> world -> Prop) w :
  safe p Q w -> (forall a w', Q a w' -> Q' a w') -> safe p Q' w.
Proof. apply rg_mono. Qed.

Lemma safe_bind {A B} (p : prog world A) (f : A -> prog world B) Q w :
  safe p (fun a w' => safe (f a) Q w') w -> safe (bind p f) Q w.
Proof. apply rg_bind. Qed.

Lemma safe_bindErr {A B} (p : prog world (result A)) (f : A -> prog world (result B)) Q w :
  safe p (fun r w' => match r with Ok a => safe (f a) Q w' | Err e => Q (Err e) w' end) w ->
  safe (bindErr p f) Q w.
Proof. apply rg_bindErr. Qed.

(** In a run of its own, a program that keeps the contract keeps the
    invariant. *)
Lemma safe_wp {A} (p : prog world A) (Q : A -> world -> Prop) w :
  safe p Q w -> InvW w -> wp p (fun a w' => Inv w' /\ Ev w w' /\ Q a w') w.
Proof. intros Hp HI. destruct (rg_run InvW EvW p Q w Hp HI) as ([? _] & [? _] & ?). done. Qed.

(** The invariant depends on the tables and the keyspaces only. *)
Lemma Inv_same w w' :
  Inv w -> w_pg w' = w_pg w -> (forall s, redisOf w' s = redisOf w s) -> Inv w'.
Proof. intros [] Hpg Hr. split; rewrite ?Hpg; [done..|]. intros s. by rewrite Hr. Qed.

(** One step: the invariant and the evolution of the tables, and the entry
    under watch. *)
Lemma safe_step {A} (f : world -> A * world) (Q : A -> world -> Prop) w0 :
  (forall w, Ev w0 w -> InvW w ->
     Inv (f w).2 /\ EvW w (f w).2 /\ (Ev w0 (f w).2 -> Inv (f w).2 -> Q (f w).1 (f w).2)) ->
  safe (act f) Q w0.
Proof.
  intros Hf w [HR _] HI. destruct (Hf w HR HI) as (HI' & HE' & HQ).
  split_and!; [by apply (InvW_step w); [| |apply HE']|done|]. apply HQ; [|done].
  etrans; [exact HR|apply HE'].
Qed.

(** A step that leaves the shared data alone. *)
Lemma safe_act {A} (f : world -> A * world) (Q : A -> world -> Prop) w0 :
  (forall w, w_pg (f w).2 = w_pg w /\ w_redis (f w).2 = w_redis w) ->
  (forall r w', Ev w0 w' -> Inv w' -> Q r w') -> safe (act f) Q w0.
Proof.
  intros Hf HQ. apply safe_step. intros w HR [HI _]. destruct (Hf w) as [Hpg Hr].
  assert (forall s, redisOf (f w).2 s = redisOf w s) as Hro by (intros s; unfold redisOf; by rewrite Hr).
  split_and!; [by apply (Inv_same w)| |by apply HQ].
  apply EvW_redis; [|done]. unfold Ev. rewrite Hpg. reflexivity.
Qed.

Lemma safe_getNow Q w0 : (forall t w', Ev w0 w' -> Inv w' -> Q t w') -> safe getNow Q w0.
Proof. by apply safe_act. Qed.

Lemma safe_randN n Q w0 : (forall t w', Ev w0 w' -> Inv w' -> Q t w') -> safe (randN n) Q w0.
Proof. apply safe_act. intros w. by destruct (w_entropy w). Qed.

Lemma safe_randBytes n Q w0 :
  (forall r w', Ev w0 w' -> Inv w' -> Q r w') -> safe (randBytes n) Q w0.
Proof. by apply safe_act. Qed.

(** The command [f] moves the entry under watch as it may be. *)
Definition spared {A} (shard : string) (f : gmap string rval -> result A * gmap string rval) (w : world) : Prop :=
  onWatch (fun a => wa_shard a = shard -> forall r, lists (w_pg w) !! wa_list a = Some r ->
    r_state r <> ARCHIVED ->
    moves a (r_bits r) (reading a r (redisOf w shard)) (reading a r (f (redisOf w shard)).2)).

(** A command that keeps the shape of the keyspace. *)
Lemma safe_redis {A} shard (f : gmap string rval -> result A * gmap string rval) Q w0 :
  (forall m, BitmapStore.keyspace_ok m -> BitmapStore.keyspace_ok (f m).2) ->
  (forall w, Ev w0 w -> InvW w -> spared shard f w) ->
  (forall r w', Ev w0 w' -> Inv w' -> Q r w') -> safe (redisCall shard f) Q w0.
Proof.
  intros Hf Hsp HQ. apply safe_step. intros w HR HIW. pose proof HIW as [HI _]. specialize (Hsp w HR HIW).
  destruct (redisAct_cases shard f w) as (Hpg & _ & _ & _ & _ & Hother & Hcase).
  set (w' := (redisAct shard f w).2) in *.
  assert (redisOf w' shard = redisOf w shard \/ redisOf w' shard = (f (redisOf w shard)).2) as Hm
    by (destruct Hcase as [[_ ?]|[_ ?]]; tauto).
  split_and!; [| |by apply HQ].
  - destruct HI as [Hi Hg Hk]. split; rewrite ?Hpg; [done..|]. intros s.
    destruct (decide (s = shard)) as [->|]; [|by rewrite Hother]. destruct Hm as [-> | ->]; auto.
  - split; [unfold Ev; rewrite Hpg; reflexivity|]. revert Hsp. unfold spared, onWatch.
    destruct watched as [a|]; [|done]. intros Hsp r r' Hr Hr' Hs. rewrite Hpg, Hr in Hr'. injection Hr' as <-.
    destruct (decide (wa_shard a = shard)) as [He|]; [|by rewrite Hother].
    rewrite He. destruct Hm as [-> | ->]; [done|]. by apply Hsp.
Qed.

Lemma spared_read {A} shard (f : gmap string rval -> result A * gmap string rval) w :
  (forall m, (f m).2 = m) -> spared shard f w.
Proof. intros Hf. unfold spared, onWatch. destruct watched; [|done]. intros _ r _ _. by rewrite Hf. Qed.

(** One statement that keeps the tables' invariant and evolution, and leaves
    good rows good. *)
Definition preserves (db db' : pg) : Prop :=
  MetaStore.keeps db db' /\ (rows_good db -> rows_good db').

Lemma preserves_same db : MetaStore.pg_inv db -> preserves db db.
Proof. intros H. split; [by apply MetaStore.keeps_same|done]. Qed.

(** Rows that keep their width and size. *)
Lemma rows_good_update db l id r r' :
  rows_good db -> lists db !! id = Some r -> r_bits r' = r_bits r -> r_size r' = r_size r ->
  l = <[id := r']> (lists db) -> rows_good (setLists db l).
Proof.
  intros Hg Hr Hb Hs -> id' r''. simpl. rewrite lookup_insert. case_decide; [|apply Hg].
  intros [= <-]. rewrite Hb, Hs. by apply (Hg id).
Qed.

Lemma freeze_preserves id now db : MetaStore.pg_inv db -> preserves db (MetaStore.sqlFreeze id now db).2.
Proof.
  intros H. split; [by apply MetaStore.freeze_keeps|]. intros Hg. unfold MetaStore.sqlFreeze.
  destruct (lists db !! id) as [r|] eqn:Hr; [|done]. case_match; [|done].
  by apply (rows_good_update db _ id r (MetaStore.setState r FROZEN)).
Qed.

Lemma archive_preserves id now db : MetaStore.pg_inv db -> preserves db (MetaStore.sqlArchive id now db).2.
Proof.
  intros H. split; [by apply MetaStore.archive_keeps|]. intros Hg. unfold MetaStore.sqlArchive.
  destruct (lists db !! id) as [r|] eqn:Hr; [|done]. case_match; [|done].
  by apply (rows_good_update db _ id r (MetaStore.setArchived r now)).
Qed.

Lemma mark_purged_preserves id now db :
  MetaStore.pg_inv db -> (forall r, lists db !! id = Some r -> r_state r = ARCHIVED) ->
  preserves db (MetaStore.sqlMarkPurged id now db).2.
Proof.
  intros H Ha. split; [by apply MetaStore.mark_purged_keeps|]. intros Hg. unfold MetaStore.sqlMarkPurged.
  destruct (lists db !! id) as [r|] eqn:Hr; [|done].
  by apply (rows_good_update db _ id r (MetaStore.setPurged r now)).
Qed.

Lemma create_preserves id bits size key shard now db :
  MetaStore.pg_inv db -> list_good bits size ->
  preserves db (MetaStore.sqlCreateList id bits size key shard now db).2.
Proof.
  intros H Hls. split; [by apply MetaStore.create_keeps|]. intros Hg. unfold MetaStore.sqlCreateList.
  repeat case_match; simpl; try done. intros id' r. simpl. rewrite lookup_insert.
  case_decide; [|apply Hg]. intros [= <-]. simpl. rewrite i64_small; [done|].
  unfold list_good, minInt64, maxInt64 in *. lia.
Qed.

Lemma reserve_preserves id issuer shard exp a now db :
  MetaStore.pg_inv db -> (forall r, lists db !! id = Some r -> MetaStore.rowAllocator r = Ok a) ->
  preserves db (MetaStore.sqlReserve id issuer shard exp (Allocator.Index a) now db).2.
Proof.
  intros H Ha. split; [by apply MetaStore.reserve_keeps|]. intros Hg.
  destruct (MetaStore.sqlReserve _ _ _ _ _ _ _) as [[idx|e] db'] eqn:E.
  - apply MetaStore.reserve_ok in E as (r & Hr & _ & _ & _ & _ & ->).
    apply (rows_good_update db _ id r (MetaStore.reservedRow r exp)); done.
  - by apply MetaStore.reserve_err in E as ->.
Qed.

Lemma safe_pg {A} (f : Z -> pg -> result A * pg) (Q : result A -> world -> Prop) w0 :
  (forall now db, MetaStore.pg_inv db -> MetaStore.pg_evolves (w_pg w0) db -> preserves db (f now db).2) ->
  (forall now w w', Ev w0 w -> InvW w -> Ev w0 w' -> Inv w' -> w_pg w' = (f now (w_pg w)).2 ->
     Q (f now (w_pg w)).1 w') ->
  (forall w', Ev w0 w' -> Inv w' -> Q ioError w') ->
  safe (pgCall f) Q w0.
Proof.
  intros Hf HQ Herr. apply safe_step. intros w HR HIW. pose proof HIW as [HI _].
  destruct (pgAct_cases f w) as (now & _ & _ & Hr & _ & _ & _ & Hcase).
  destruct (Hf now (w_pg w) (inv_pg w HI) HR) as [[Hinv Hev] Hgood].
  set (w' := (pgAct f w).2) in *.
  assert (w_pg w' = w_pg w \/ w_pg w' = (f now (w_pg w)).2) as Hpg by (destruct Hcase; tauto).
  assert (forall s, redisOf w' s = redisOf w s) as Hro by (intros s; unfold redisOf; by rewrite Hr).
  assert (Inv w' /\ Ev w w') as [HI' HE'].
  { destruct HI as [Hi Hg Hk]. unfold Ev.
    destruct Hpg as [Hpg | Hpg]; (split; [split|]; rewrite ?Hpg); auto; try reflexivity;
      intros s; by rewrite Hro. }
  split_and!; [done|by apply EvW_redis|]. intros HE0 _.
  destruct Hcase as [[-> Hpg']|[-> _]]; [by apply (HQ now w)|by apply Herr].
Qed.

Lemma safe_forErr {A} (l : list A) (body : A -> prog world (result unit))
    (Q : result unit -> world -> Prop) w0 :
  Inv w0 ->
  (forall x w, x ∈ l -> Ev w0 w -> Inv w ->
     safe (body x) (fun r w' => Ev w w' /\ Inv w' /\
       match r with Ok _ => True | Err e => Q (Err e) w' end) w) ->
  (forall w, Ev w0 w -> Inv w -> Q (Ok tt) w) -> safe (forErr l body) Q w0.
Proof.
  revert w0. induction l as [|x l IH]; intros w0 HI Hbody Hend; cbn [forErr].
  { apply safe_ret, Hend; [reflexivity|done]. }
  apply safe_bindErr. eapply safe_mono; [apply Hbody; [left|reflexivity|done]|].
  intros [u|e] w' (HE & HI' & He); [|done]. apply IH; [done| |].
  - intros y w Hy HE' HI2. apply Hbody; [by right| |done]. etrans; [exact HE|exact HE'].
  - intros w HE' HI2. apply Hend; [|done]. etrans; [exact HE|exact HE'].
Qed.

Lemma safe_forLog {A} (l : list A) (body : A -> prog world (result unit))
    (Q : unit -> world -> Prop) w0 :
  Inv w0 ->
  (forall x w, x ∈ l -> Ev w0 w -> Inv w -> safe (body x) (fun _ w' => Ev w w' /\ Inv w') w) ->
  (forall w, Ev w0 w -> Inv w -> Q tt w) -> safe (forLog l body) Q w0.
Proof.
  revert w0. induction l as [|x l IH]; intros w0 HI Hbody Hend; cbn [forLog].
  { apply safe_ret, Hend; [reflexivity|done]. }
  apply safe_bind. eapply safe_mono; [apply Hbody; [left|reflexivity|done]|].
  intros r w' [HE HI']. apply IH; [done| |].
  - intros y w Hy HE' HI2. apply Hbody; [by right| |done]. etrans; [exact HE|exact HE'].
  - intros w HE' HI2. apply Hend; [|done]. etrans; [exact HE|exact HE'].
Qed.

(** ** The methods of MetaStore *)

(** [lm] was read from a row that satisfied [p], and that row, or what it has
    become, is still there. *)
Definition known (p : list_row -> bool) (lm : MetaStore.ListMeta) (db : pg) : Prop :=
  exists r0 r, lm = MetaStore.scanListMeta r0 /\ p r0 = true /\
    lists db !! MetaStore.ID lm = Some r /\ MetaStore.row_evolves r0 r.

Lemma known_stable p lm : stable (known p lm).
Proof.
  intros db db' Hev (r0 & r & Hlm & Hp & Hr & He).
  destruct (MetaStore.ev_rows _ _ Hev _ _ Hr) as (r' & Hr' & He').
  exists r0, r'. split_and!; try done. by etrans.
Qed.

(** Rows a query returns. *)
Lemma sqlSelectLists_rows p now db l :
  MetaStore.pg_inv db -> (MetaStore.sqlSelectLists p now db).1 = Ok l ->
  Forall (fun lm => exists r, lm = MetaStore.scanListMeta r /\ p r = true /\
                              lists db !! MetaStore.ID lm = Some r) l.
Proof.
  intros Hinv [= <-]. apply Forall_forall. intros lm (r & -> & Hr)%list_elem_of_fmap.
  rewrite merge_sort_Permutation in Hr. apply list_elem_of_filter in Hr as [Hp Hr].
  apply list_elem_of_fmap in Hr as ([id r'] & -> & Hin%elem_of_map_to_list). simpl in *.
  exists r'. split_and!; [done|done|].
  simpl. by rewrite (MetaStore.row_id _ _ (MetaStore.inv_rows db Hinv id r' Hin)).
Qed.

(** And every row the query selects is returned. *)
Lemma sqlSelectLists_all p now db l id r :
  (MetaStore.sqlSelectLists p now db).1 = Ok l ->
  lists db !! id = Some r -> p r = true -> MetaStore.scanListMeta r ∈ l.
Proof.
  intros [= <-] Hr Hp. apply list_elem_of_fmap_2. rewrite merge_sort_Permutation.
  apply list_elem_of_filter. split; [done|]. apply list_elem_of_fmap.
  exists (id, r). split; [done|]. by apply elem_of_map_to_list.
Qed.

Lemma sqlSelectLists_known p now db l :
  MetaStore.pg_inv db -> (MetaStore.sqlSelectLists p now db).1 = Ok l ->
  Forall (fun lm => known p lm db) l.
Proof.
  intros Hinv Hl. eapply Forall_impl; [by apply (sqlSelectLists_rows p now db l)|].
  intros lm (r & -> & Hp & Hr). by exists r, r.
Qed.

Lemma safe_queryLists p Q w0 :
  (forall l w', Ev w0 w' -> Inv w' -> Forall (fun lm => known p lm (w_pg w')) l -> Q (Ok l) w') ->
  (forall w', Ev w0 w' -> Inv w' -> Q ioError w') ->
  safe (MetaStore.queryLists p) Q w0.
Proof.
  intros HQ Herr. apply safe_pg; [by intros; apply preserves_same| |done].
  intros now w w' HE HI HE' HI' Hpg. apply HQ; [done|done|]. rewrite Hpg.
  apply (sqlSelectLists_known p now); [apply (proj1 HI)|done].
Qed.

(** A statement that only reads. *)
Lemma safe_pg_read {A} (f : Z -> pg -> result A * pg) (Q : result A -> world -> Prop) w0 :
  (forall now db, (f now db).2 = db) ->
  (forall now w', Ev w0 w' -> Inv w' -> Q (f now (w_pg w')).1 w') ->
  (forall w', Ev w0 w' -> Inv w' -> Q ioError w') ->
  safe (pgCall f) Q w0.
Proof.
  intros Hf HQ Herr. apply safe_pg; [|intros now w w' _ _ HE' HI' Hpg|done].
  - intros now db Hinv _. rewrite Hf. by apply preserves_same.
  - rewrite Hf in Hpg. rewrite <- Hpg. by apply HQ.
Qed.

Lemma safe_GetList id Q w0 :
  (forall o w', Ev w0 w' -> Inv w' ->
     match o with Some lm => known (fun _ => true) lm (w_pg w') /\ MetaStore.ID lm = id | None => True end ->
     Q (Ok o) w') ->
  (forall w', Ev w0 w' -> Inv w' -> Q ioError w') ->
  safe (MetaStore.GetList id) Q w0.
Proof.
  intros HQ Herr. apply safe_pg_read; [done| |done]. intros now w' HE HI. apply HQ; [done|done|].
  destruct (lists (w_pg w') !! id) as [r|] eqn:Hr; simpl; [|done].
  pose proof (MetaStore.row_id _ _ (MetaStore.inv_rows _ (inv_pg w' HI) id r Hr)) as Hid.
  split; [|done]. exists r, r. split_and!; try done. simpl. by rewrite Hid.
Qed.

(** Statements that keep the tables whatever they are. *)
Lemma safe_pg_any {A} (f : Z -> pg -> result A * pg) (Q : result A -> world -> Prop) w0 :
  (forall now db, MetaStore.pg_inv db -> preserves db (f now db).2) ->
  (forall r w', Ev w0 w' -> Inv w' -> Q r w') -> safe (pgCall f) Q w0.
Proof. intros Hf HQ. apply safe_pg; auto. Qed.

Lemma safe_CreateList id bits size k shard Q w0 :
  list_good bits size ->
  (forall r w', Ev w0 w' -> Inv w' -> Q r w') ->
  safe (MetaStore.CreateList id bits size k shard) Q w0.
Proof.
  intros Hg HQ. apply safe_bindErr, safe_pg_any; [intros; by apply create_preserves|].
  intros [u|e] w' HE HI; [apply safe_ret|]; by apply HQ.
Qed.

Lemma safe_Freeze id Q w0 :
  (forall r w', Ev w0 w' -> Inv w' -> Q r w') -> safe (MetaStore.Freeze id) Q w0.
Proof. apply safe_pg_any. intros. by apply freeze_preserves. Qed.

Lemma safe_Archive id Q w0 :
  (forall r w', Ev w0 w' -> Inv w' -> Q r w') -> safe (MetaStore.Archive id) Q w0.
Proof. apply safe_pg_any. intros. by apply archive_preserves. Qed.

(** Marking purged a list that is known to be archived. *)
Lemma safe_MarkPurged id r0 Q w0 :
  lists (w_pg w0) !! id = Some r0 -> r_state r0 = ARCHIVED ->
  (forall r w', Ev w0 w' -> Inv w' -> Q r w') -> safe (MetaStore.MarkPurged id) Q w0.
Proof.
  intros Hr Hs HQ. apply safe_pg; [|auto|auto].
  intros now db Hinv Hev. apply mark_purged_preserves; [done|].
  destruct (MetaStore.ev_rows _ _ Hev _ _ Hr) as (r' & Hr' & He). intros r Hr2.
  rewrite Hr' in Hr2. injection Hr2 as <-.
  pose proof (MetaStore.ev_state _ _ He) as Hst. rewrite Hs in Hst. by destruct (r_state r').
Qed.

(** Index [idx] of list [id] is not the one under watch. *)
Definition unwatched (id : string) (idx : Z) : Prop :=
  onWatch (fun a => (wa_list a, wa_idx a) <> (id, idx)).

(** Byte [v] may be written to it: it is not the one under watch, or [v] is what
    the owner of that may be writing. *)
Definition writable (id : string) (idx v : Z) : Prop :=
  onWatch (fun a => (wa_list a, wa_idx a) <> (id, idx) \/ wa_sets a = Some v).

Lemma unwatched_writable id idx v : unwatched id idx -> writable id idx v.
Proof. unfold unwatched, writable, onWatch. destruct watched; auto. Qed.

(** Allocated indices are indices of their list. *)
Lemma allocation_range w id k al r :
  Inv w -> allocations (w_pg w) !! (id, k) = Some al -> lists (w_pg w) !! id = Some r -> 0 <= k < r_size r.
Proof.
  intros HI Hal Hr. destruct (MetaStore.inv_sound _ (inv_pg w HI) _ _ _ Hal) as (r' & c & i & Hr' & Hc & Hi & -> & _).
  rewrite Hr in Hr'. injection Hr' as <-.
  destruct (MetaStore.cursorIndex_range id r c i (MetaStore.inv_rows _ (inv_pg w HI) _ _ Hr) Hc Hi) as [? ->]. done.
Qed.

(** Reserving with the allocator of the metadata that was read. *)
Lemma safe_Reserve p lm issuer shard exp a Q w0 :
  known p lm (w_pg w0) -> Allocator.New (MetaStore.FPEKey lm) (MetaStore.Size lm) = Ok a ->
  (forall r w', Ev w0 w' -> Inv w' ->
     match r with
     | Ok idx => exists r' al, lists (w_pg w') !! MetaStore.ID lm = Some r' /\
         allocations (w_pg w') !! (MetaStore.ID lm, i64 idx) = Some al /\
         al_issuer_id al = issuer /\ al_exp al = exp /\
         0 <= idx < r_size r' /\ r_bits r' = MetaStore.Bits lm /\ unwatched (MetaStore.ID lm) idx
     | Err _ => True
     end -> Q r w') ->
  safe (MetaStore.ReserveCursorAndRecord (MetaStore.ID lm) issuer shard exp (Allocator.Index a)) Q w0.
Proof.
  intros Hk HN HQ. apply safe_pg.
  - intros now db Hinv Hev. apply reserve_preserves; [done|].
    apply (known_stable p lm _ db Hev) in Hk as (r0 & r & -> & _ & Hr & He).
    intros r' Hr'. rewrite Hr in Hr'. injection Hr' as <-. unfold MetaStore.rowAllocator.
    by rewrite (MetaStore.ev_key _ _ He), (MetaStore.ev_size _ _ He).
  - intros now w w' HE HI HE' HI' Hpg. apply HQ; [done|done|].
    destruct (MetaStore.sqlReserve _ _ _ _ _ _ _) as [[idx|e] db'] eqn:Er; simpl in *; [|done].
    pose proof (known_stable p lm _ (w_pg w) HE Hk) as (r0 & r & -> & _ & Hr & He).
    apply MetaStore.reserve_ok in Er as (r1 & Hr1 & _ & Hc & Hidx & Hfree & ->).
    cbn [MetaStore.ID MetaStore.scanListMeta] in *. rewrite Hr in Hr1. injection Hr1 as <-.
    destruct HI as [HI Hheld]. pose proof (MetaStore.inv_rows _ (inv_pg w HI) _ _ Hr) as Hok.
    pose proof (MetaStore.row_size _ _ Hok). pose proof (MetaStore.row_cursor _ _ Hok).
    rewrite u64_small in Hidx by (unfold maxInt64 in *; lia).
    destruct (MetaStore.cursorIndex_range_at _ r (r_cursor r) idx Hok ltac:(lia)) as [Hrange Hi64].
    { exists a. split; [|done]. unfold MetaStore.rowAllocator.
      by rewrite (MetaStore.ev_key _ _ He), (MetaStore.ev_size _ _ He). }
    rewrite Hi64 in Hfree. rewrite Hpg. simpl. eexists _, _.
    split_and!; [apply lookup_insert_eq|apply lookup_insert_eq|done|done|apply Hrange|apply Hrange|..].
    + apply (MetaStore.ev_bits _ _ He).
    + unfold unwatched, onWatch in *. destruct watched as [wa|]; [|done].
      destruct Hheld as (al & Hal & _). intros Heq. rewrite Heq in Hal. congruence.
  - intros w' HE' HI'. by apply HQ.
Qed.

Lemma safe_CheckOwnership listID idx issuer (Q : result unit -> world -> Prop) w0 :
  0 <= idx < 2 ^ 64 ->
  (forall r w', Ev w0 w' -> Inv w' ->
     match r with
     | Ok _ => (exists al, allocations (w_pg w') !! (listID, idx) = Some al /\ al_issuer_id al = issuer) /\
               onWatch (fun a => (wa_list a, wa_idx a) = (listID, idx) -> wa_owner a = issuer)
     | Err _ => True
     end -> Q r w') ->
  safe (MetaStore.CheckOwnership listID idx issuer) Q w0.
Proof.
  intros Hidx HQ. apply safe_bindErr, safe_pg; [by intros; apply preserves_same| |intros w' HE HI; by apply HQ].
  intros now w w1 _ [_ Hheld] HE1 HI1 Hpg. cbn [snd fst MetaStore.sqlOwner] in *. rewrite <- Hpg in *.
  destruct (allocations (w_pg w1) !! (listID, i64 idx)) as [al|] eqn:Hal; simpl; [|by apply safe_ret, HQ].
  case_bool_decide as Ho; [|by apply safe_ret, HQ]. apply safe_ret, HQ; [done|done|].
  destruct (MetaStore.inv_sound _ (inv_pg w1 HI1) _ _ _ Hal) as (r & c & i & Hr & _).
  pose proof (allocation_range w1 _ _ _ r HI1 Hal Hr) as Hrange.
  apply i64_nonneg_iff in Hidx as Hn. rewrite i64_small in Hal by (unfold minInt64, maxInt64; lia).
  split; [by exists al|]. unfold onWatch in *. destruct watched as [wa|]; [|done].
  destruct Hheld as (al' & Hal' & <-). intros Heq. rewrite Heq in Hal'. congruence.
Qed.

(** Whoever is told that an index is free is not told so of the one under
    watch. *)
Lemma safe_IsAllocated listID idx (Q : result bool -> world -> Prop) w0 :
  (forall b w', Ev w0 w' -> Inv w' -> (b = false -> unwatched listID (i64 idx)) -> Q (Ok b) w') ->
  (forall w', Ev w0 w' -> Inv w' -> Q ioError w') ->
  safe (MetaStore.IsAllocated listID idx) Q w0.
Proof.
  intros HQ Herr. apply safe_pg; [by intros; apply preserves_same| |done].
  intros now w w' HE [HI Hheld] HE' HI' Hpg. apply HQ; [done|done|]. intros Hb%bool_decide_eq_false.
  unfold unwatched, onWatch in *. destruct watched as [wa|]; [|done].
  destruct Hheld as (al & Hal & _). intros Heq. apply Hb. rewrite <- Heq. by eexists.
Qed.

(** ** The methods of BitmapStore *)

(** The write goes to an entry of the list that is not under watch, or is the
    one its owner may make. *)
Definition elsewhere (id : string) (by_ off bits v : Z) (db : pg) : Prop :=
  exists r idx, lists db !! id = Some r /\ r_bits r = bits /\ 0 <= idx < r_size r /\
    (by_, off) = Bitmap.ByteOffset idx bits /\ 0 <= v < 256 /\ writable id idx v.

Lemma elsewhere_stable id by_ off bits v : stable (elsewhere id by_ off bits v).
Proof.
  intros db db' Hev (r & idx & Hr & Hb & Hi & Ho & Hv & Hu).
  destruct (MetaStore.ev_rows _ _ Hev _ _ Hr) as (r' & Hr' & He). exists r', idx.
  rewrite (MetaStore.ev_bits _ _ He), (MetaStore.ev_size _ _ He). done.
Qed.

Lemma script_spared shard id by_ off bits v w :
  InvW w -> elsewhere id by_ off bits v (w_pg w) ->
  spared shard (BitmapStore.setByteScript (BitmapStore.bitmapKey id) by_ off bits v) w.
Proof.
  intros [HI Hheld] (r & idx & Hr & <- & Hi & Ho & Hv & Hu). unfold spared, writable, onWatch in *.
  destruct watched as [a|]; [|done]. intros _ ra Hra _.
  destruct (inv_good w HI _ _ Hr) as (Hb & Hs & Hmax).
  pose proof (BitmapStore.script_written (redisOf w shard) id (r_size r) (r_bits r) idx v
    (inv_redis w HI shard) Hb ltac:(unfold Bitmap.sizeOk; lia) Hmax Hi Hv) as Hscr.
  rewrite <- Ho in Hscr. destruct Hscr as (nb & raw' & -> & _ & Hst). cbn [snd].
  destruct (decide (wa_list a = id)) as [He|Hne].
  - rewrite He in *. rewrite Hr in Hra. injection Hra as <-.
    destruct Hheld as (al & Hal & _). rewrite He in Hal.
    pose proof (allocation_range w _ _ _ r HI Hal Hr) as Hai.
    split; [|unfold reading; cbn [snd]; by rewrite BitmapStore.version_set_bitmap]. unfold reading. cbn [fst]. rewrite He.
    rewrite (BitmapStore.entry_written _ _ _ _ _ _ _ (wa_idx a) (eq_refl : Bitmap.size (BitmapStore.view _ _ _ _) = _)
      Hi Hai Hst). case_decide as Hd; [|by left]. subst idx. destruct Hu as [Hu|Hu]; [congruence|]. right. by exists v.
  - unfold reading, BitmapStore.view. rewrite BitmapStore.version_set_bitmap.
    by rewrite BitmapStore.bitmapBytes_set, decide_False by done.
Qed.

Lemma incr_spared shard id w : InvW w -> spared shard (BitmapStore.incr (BitmapStore.versionKey id)) w.
Proof.
  intros [HI _]. unfold spared, onWatch. destruct watched as [a|]; [|done]. intros _ r _ _.
  destruct (BitmapStore.incr_version _ id (inv_redis w HI shard)) as [[-> _]|[e ->]]; [|reflexivity].
  unfold reading. cbn [snd]. rewrite BitmapStore.view_set_version, BitmapStore.version_set. split; [by left|].
  cbn [snd]. case_decide; subst; lia.
Qed.

Lemma safe_SetStatus shard id by_ off bits v (Q : result Z -> world -> Prop) w0 :
  elsewhere id by_ off bits v (w_pg w0) ->
  (forall r w', Ev w0 w' -> Inv w' -> Q r w') ->
  safe (BitmapStore.SetStatus shard id by_ off bits v) Q w0.
Proof.
  intros Hw HQ. apply safe_bindErr, safe_redis; [intros; by apply BitmapStore.script_ok| |].
  { intros w HE HI. apply script_spared; [done|]. by apply (elsewhere_stable _ _ _ _ _ _ _ HE). }
  intros [nb|e] w1 HE1 HI1; [|by apply HQ].
  apply safe_bindErr, safe_redis; [intros; by apply BitmapStore.incr_ok|by intros; apply incr_spared|].
  intros [n|e] w2 HE2 HI2; [apply safe_ret|]; (apply HQ; [by etrans|done]).
Qed.

Lemma safe_Init shard id n (Q : result unit -> world -> Prop) w0 :
  Inv w0 -> (forall r w', Ev w0 w' -> Inv w' -> Q r w') -> safe (BitmapStore.Init shard id n) Q w0.
Proof.
  intros HI HQ. apply safe_bindErr, safe_ret. unfold BitmapStore.makeBytes. destruct (n <? 0).
  { apply HQ; [reflexivity|done]. }
  apply safe_bindErr, safe_redis; [intros; by apply BitmapStore.setnx_ok| |].
  { intros w HE [HI' _]. unfold spared, onWatch. destruct watched as [a|]; [|done]. intros _ r _ _.
    unfold reading. by rewrite BitmapStore.setnx_view, BitmapStore.setnx_version. }
  intros [b|e] w1 HE1 HI1; [apply safe_ret|]; by apply HQ.
Qed.

(** Deleting the keys of a list that is archived. *)
Lemma safe_Purge shard id r0 (Q : result unit -> world -> Prop) w0 :
  lists (w_pg w0) !! id = Some r0 -> r_state r0 = ARCHIVED ->
  (forall r w', Ev w0 w' -> Inv w' -> Q r w') -> safe (BitmapStore.Purge shard id) Q w0.
Proof.
  intros Hr0 Hs. apply safe_redis; [intros; by apply BitmapStore.del_ok|].
  intros w HE HI. unfold spared, onWatch. destruct watched as [a|]; [|done]. intros _ r Hr Hns.
  destruct (MetaStore.ev_rows _ _ HE _ _ Hr0) as (r' & Hr' & He).
  assert (wa_list a <> id) as Hne.
  { intros Hid. rewrite Hid, Hr' in Hr. injection Hr as ->.
    pose proof (MetaStore.ev_state _ _ He) as Hst. rewrite Hs in Hst. by destruct (r_state r). }
  unfold reading, BitmapStore.view, BitmapStore.bitmapBytes, BitmapStore.version, BitmapStore.del. cbn [snd].
  rewrite !lookup_delete_ne; [done|..].
  all: by first [intros ?%BitmapStore.bitmapKey_inj|intros ?%BitmapStore.versionKey_inj|idtac].
Qed.

Lemma safe_Snapshot shard id n (Q : result (list Z) -> world -> Prop) w0 :
  (forall r w', Ev w0 w' -> Inv w' -> Q r w') -> safe (BitmapStore.Snapshot shard id n) Q w0.
Proof.
  intros HQ. apply safe_bindErr, safe_redis; [done|by intros; apply spared_read|].
  intros [b|e] w1 HE1 HI1; [apply safe_ret|]; by apply HQ.
Qed.

Lemma safe_Version shard id (Q : result Z -> world -> Prop) w0 :
  (forall r w', Ev w0 w' -> Inv w' -> Q r w') -> safe (BitmapStore.Version shard id) Q w0.
Proof.
  intros HQ. apply safe_bindErr, safe_redis; [done|by intros; apply spared_read|].
  intros [b|e] w1 HE1 HI1; [apply safe_ret|]; by apply HQ.
Qed.

End Discipline.

(** Nothing is under watch. *)
Definition nobody : Watching := None.

Lemma nobody_InvW w : Inv w -> InvW (W := nobody) w.
Proof. by split. Qed.

(** ** Automation *)

(** Chains of evolutions. *)
Ltac ev :=
  first [ reflexivity | assumption
        | match goal with H : Ev ?a _ |- Ev ?a _ => transitivity (ltac:(
            match type of H with Ev _ ?b => exact b end)); [exact H|]; clear H; ev end ].

(** A program that ends here, when the postcondition holds of every world the
    contract allows. *)
Ltac rely_done :=
  try apply safe_ret;
  match goal with
  | HQ : forall r w', Ev _ w' -> Inv w' -> _ |- _ => apply HQ; [ev|assumption]
  | HQ : forall c m w', Ev _ w' -> Inv w' -> _ |- _ => apply HQ; [ev|assumption]
  end.

End Rely.
