(* ===== verification/Pool.v ===== *)
(** * internal/pool: the pool of ACTIVE lists of a shard

    [ChooseByPowerOfTwo] draws its two positions from the world's random
    source; [EnsureHealthy], [createList], [PickForAllocation] and one tick of
    [Run] are programs over the world. The theorems: the choice is a candidate
    and never the fuller of the two drawn; a successful [EnsureHealthy] leaves
    at least [Width] distinct ACTIVE lists of the shard, none of those it kept
    past its age; and every program keeps the contract of Rely. *)

From S2P Require Import Prelude Prog World GoStrings ListId Allocator Bitmap MetaStore BitmapStore Rely.

Module Pool.

(** [candidates[i]]. *)
Definition at_ (candidates : list MetaStore.ListMeta) (i : Z) : option MetaStore.ListMeta :=
  candidates !! Z.to_nat i.

Definition ChooseByPowerOfTwo (candidates : list MetaStore.ListMeta) :
    prog world (option MetaStore.ListMeta) :=
  match candidates with
  | [] => Ret None
  | [c] => Ret (Some c)
  | _ =>
      let n := Z.of_nat (length candidates) in
      let! i := randN n in
      let! j := randN (n - 1) in
      let j := if i <=? j then j + 1 else j in
      match at_ candidates i, at_ candidates j with
      | Some a, Some b =>
          Ret (Some (if MetaStore.Remaining a <? MetaStore.Remaining b then b else a))
      | _, _ => Ret None
      end
  end.

Record Manager := MkManager {
  ShardID : string;
  Width : Z;
  Capacity : Z;
  mBits : Z;
  MaxAge : Z
}.

(** A configuration whose lists the store can hold. *)
Definition manager_ok (m : Manager) : Prop := Rely.list_good (mBits m) (Capacity m).

(** Freezing the lists past their age; the others, in order. *)
Fixpoint freezeAged (m : Manager) (active : list MetaStore.ListMeta) :
    prog world (result (list MetaStore.ListMeta)) :=
  match active with
  | [] => Ret (Ok [])
  | lm :: rest =>
      let! now := getNow in
      if (0 <? MaxAge m) && (MaxAge m <=? timeSub now (MetaStore.CreatedAt lm)) then
        try! _ := MetaStore.Freeze (MetaStore.ID lm) in
        freezeAged m rest
      else
        try! remaining := freezeAged m rest in
        Ret (Ok (lm :: remaining))
  end.

Definition createList (m : Manager) : prog world (result MetaStore.ListMeta) :=
  try! id := ListId.New (ShardID m) in
  let! kb := randBytes Allocator.KeySize in
  try! key := Ret (Allocator.NewKey (fun _ => kb)) in
  try! lm := MetaStore.CreateList id (mBits m) (Capacity m) key (ShardID m) in
  let byteLen := i64 (Bitmap.nBytes (MetaStore.Size lm) (MetaStore.Bits lm)) in
  try! _ := BitmapStore.Init (ShardID m) (MetaStore.ID lm) byteLen in
  Ret (Ok lm).

(** The lists created until there are [missing] more. *)
Fixpoint topUp (m : Manager) (missing : nat) : prog world (result (list MetaStore.ListMeta)) :=
  match missing with
  | O => Ret (Ok [])
  | S missing =>
      try! lm := createList m in
      try! rest := topUp m missing in
      Ret (Ok (lm :: rest))
  end.

(** The lists the method counts at its end. *)
Definition ensureHealthy (m : Manager) : prog world (result (list MetaStore.ListMeta)) :=
  try! active := MetaStore.ActiveLists (ShardID m) in
  try! remaining := freezeAged m active in
  try! created := topUp m (Z.to_nat (Width m) - length remaining) in
  Ret (Ok (remaining ++ created)).

Definition EnsureHealthy (m : Manager) : prog world (result unit) :=
  try! _ := ensureHealthy m in Ret (Ok tt).

Definition PickForAllocation (m : Manager) : prog world (result (option MetaStore.ListMeta)) :=
  try! active := MetaStore.ActiveLists (ShardID m) in
  try! active :=
    match active with
    | [] => try! _ := EnsureHealthy m in MetaStore.ActiveLists (ShardID m)
    | _ => Ret (Ok active)
    end in
  let! lm := ChooseByPowerOfTwo active in Ret (Ok lm).

(** One tick of [Run]; the error is logged. *)
Definition runTick (m : Manager) : prog world unit := let! _ := EnsureHealthy m in Ret tt.

(** ** The contract *)

#[local] Existing Instance Rely.Ev_preorder.

Lemma safe_ListIdNew {WA : Rely.Watching} shard Q w0 :
  (forall r w', Rely.Ev w0 w' -> Rely.Inv w' -> Q r w') -> Rely.Inv w0 ->
  Rely.safe (ListId.New shard) Q w0.
Proof.
  intros HQ HI. unfold ListId.New. case_match; [Rely.rely_done|].
  apply Rely.safe_bindErr, Rely.safe_randBytes. intros [b|e] w' HE HI'; Rely.rely_done.
Qed.

Lemma safe_createList {WA : Rely.Watching} m (Q : result MetaStore.ListMeta -> world -> Prop) w0 :
  manager_ok m -> (forall r w', Rely.Ev w0 w' -> Rely.Inv w' -> Q r w') -> Rely.Inv w0 ->
  Rely.safe (createList m) Q w0.
Proof.
  intros Hm HQ HI. unfold createList. apply Rely.safe_bindErr, safe_ListIdNew; [|done].
  intros [id|e] w1 HE1 HI1; [|Rely.rely_done].
  apply Rely.safe_bind, Rely.safe_randBytes. intros kb w2 HE2 HI2.
  apply Rely.safe_bindErr, Rely.safe_ret. destruct (Allocator.NewKey _) as [k|e]; [|Rely.rely_done].
  apply Rely.safe_bindErr, Rely.safe_CreateList; [done|]. intros [lm|e] w3 HE3 HI3; [|Rely.rely_done].
  apply Rely.safe_bindErr, Rely.safe_Init; [done|]. intros [u|e] w4 HE4 HI4; Rely.rely_done.
Qed.

Lemma safe_topUp {WA : Rely.Watching} m n (Q : result (list MetaStore.ListMeta) -> world -> Prop) w0 :
  manager_ok m -> (forall r w', Rely.Ev w0 w' -> Rely.Inv w' -> Q r w') -> Rely.Inv w0 ->
  Rely.safe (topUp m n) Q w0.
Proof.
  intros Hm. revert Q w0. induction n as [|n IH]; intros Q w0 HQ HI; cbn [topUp]; [Rely.rely_done|].
  apply Rely.safe_bindErr, safe_createList; [done| |done].
  intros [lm|e] w1 HE1 HI1; [|Rely.rely_done].
  apply Rely.safe_bindErr, IH; [|done]. intros [l|e] w2 HE2 HI2; Rely.rely_done.
Qed.

Lemma safe_freezeAged {WA : Rely.Watching} m l (Q : result (list MetaStore.ListMeta) -> world -> Prop) w0 :
  (forall r w', Rely.Ev w0 w' -> Rely.Inv w' -> Q r w') -> Rely.Inv w0 ->
  Rely.safe (freezeAged m l) Q w0.
Proof.
  revert Q w0. induction l as [|lm l IH]; intros Q w0 HQ HI; cbn [freezeAged]; [Rely.rely_done|].
  apply Rely.safe_bind, Rely.safe_getNow. intros now w1 HE1 HI1. case_match.
  - apply Rely.safe_bindErr, Rely.safe_Freeze. intros [u|e] w2 HE2 HI2; [|Rely.rely_done].
    apply IH; [|done]. intros r w3 HE3 HI3. Rely.rely_done.
  - apply Rely.safe_bindErr, IH; [|done]. intros [l'|e] w2 HE2 HI2; Rely.rely_done.
Qed.

Lemma safe_EnsureHealthy {WA : Rely.Watching} m (Q : result unit -> world -> Prop) w0 :
  manager_ok m -> (forall r w', Rely.Ev w0 w' -> Rely.Inv w' -> Q r w') -> Rely.safe (EnsureHealthy m) Q w0.
Proof.
  intros Hm HQ. unfold EnsureHealthy, ensureHealthy.
  apply Rely.safe_bindErr, Rely.safe_bindErr, Rely.safe_queryLists; [|intros; Rely.rely_done].
  intros l w1 HE1 HI1 _. apply Rely.safe_bindErr, safe_freezeAged; [|done].
  intros [rem|e] w2 HE2 HI2; [|Rely.rely_done].
  apply Rely.safe_bindErr, safe_topUp; [done| |done]. intros [c|e] w3 HE3 HI3; Rely.rely_done.
Qed.

(** The row filter of [ActiveLists]. *)
Definition activeOn (shard : string) (r : list_row) : bool :=
  bool_decide (r_shard_id r = shard) && MetaStore.isState ACTIVE r.

(** The choice is one of the candidates. *)
Lemma safe_Choose {WA : Rely.Watching} l (Q : option MetaStore.ListMeta -> world -> Prop) w0 :
  (forall o w', Rely.Ev w0 w' -> Rely.Inv w' ->
     match o with Some lm => lm ∈ l | None => True end -> Q o w') -> Rely.Inv w0 ->
  Rely.safe (ChooseByPowerOfTwo l) Q w0.
Proof.
  intros HQ HI. unfold ChooseByPowerOfTwo.
  destruct l as [|a [|b l]]; [apply HQ; [reflexivity|done|done]| |].
  { apply HQ; [reflexivity|done|left]. }
  apply Rely.safe_bind, Rely.safe_randN. intros i w1 HE1 HI1.
  apply Rely.safe_bind, Rely.safe_randN. intros j w2 HE2 HI2.
  set (l' := a :: b :: l) in *. set (j' := if i <=? j then j + 1 else j).
  destruct (at_ l' i) as [x|] eqn:Hx; [|apply HQ; [Rely.ev|done|done]].
  destruct (at_ l' j') as [y|] eqn:Hy; [|apply HQ; [Rely.ev|done|done]].
  apply HQ; [Rely.ev|done|]. apply list_elem_of_lookup_2 in Hx, Hy. by case_match.
Qed.

(** What PickForAllocation returns is a list that was active. *)
Lemma safe_PickForAllocation {WA : Rely.Watching} m (Q : result (option MetaStore.ListMeta) -> world -> Prop) w0 :
  manager_ok m ->
  (forall r w', Rely.Ev w0 w' -> Rely.Inv w' ->
     match r with
     | Ok (Some lm) => Rely.known (activeOn (ShardID m)) lm (w_pg w')
     | _ => True
     end -> Q r w') ->
  Rely.safe (PickForAllocation m) Q w0.
Proof.
  intros Hm HQ. unfold PickForAllocation.
  assert (forall l w, Rely.Ev w0 w -> Rely.Inv w ->
    Forall (fun lm => Rely.known (activeOn (ShardID m)) lm (w_pg w)) l ->
    Rely.safe (let! lm := ChooseByPowerOfTwo l in Ret (Ok lm)) Q w) as Hpick.
  { intros l w HE HI Hl. apply Rely.safe_bind, safe_Choose; [|done].
    intros o w' HE' HI' Ho. apply Rely.safe_ret, HQ; [Rely.ev|done|].
    destruct o as [lm|]; [|done]. rewrite Forall_forall in Hl.
    by eapply Rely.known_stable; [exact HE'|apply Hl]. }
  apply Rely.safe_bindErr, Rely.safe_queryLists; [|intros w' HE HI; by apply HQ].
  intros l w1 HE1 HI1 Hl. apply Rely.safe_bindErr. destruct l as [|a l]; [|by apply Rely.safe_ret, Hpick].
  apply Rely.safe_bindErr, safe_EnsureHealthy; [done|]. intros [u|e] w2 HE2 HI2.
  2: { apply HQ; [Rely.ev|done|done]. }
  apply Rely.safe_queryLists.
  - intros l w3 HE3 HI3 Hl3. apply Hpick; [Rely.ev|done|done].
  - intros w3 HE3 HI3. apply HQ; [Rely.ev|done|done].
Qed.

(** ** What EnsureHealthy establishes *)

(** Distinct ACTIVE lists of a shard. *)
Definition activeIds (db : pg) (shard : string) (ids : list string) : Prop :=
  NoDup ids /\
  Forall (fun id => exists r, lists db !! id = Some r /\ r_state r = ACTIVE /\ r_shard_id r = shard) ids.

(** ACTIVE rows that a statement leaves alone. *)
Lemma activeIds_frame db db' shard ids :
  activeIds db shard ids ->
  (forall id, id ∈ ids -> lists db' !! id = lists db !! id) -> activeIds db' shard ids.
Proof.
  intros [Hnd Hf] Heq. split; [done|]. rewrite Forall_forall in *. intros id Hid.
  rewrite Heq by done. auto.
Qed.

Definition ids (l : list MetaStore.ListMeta) : list string := MetaStore.ID <$> l.

Lemma freezeAged_active m l keep w :
  activeIds (w_pg w) (ShardID m) (ids l ++ keep) ->
  wp (freezeAged m l) (fun r w' => match r with
    | Ok rem => activeIds (w_pg w') (ShardID m) (ids rem ++ keep)
    | Err _ => True end) w.
Proof.
  revert keep w. induction l as [|lm l IH]; intros keep w Hact; cbn [freezeAged]; [by apply wp_ret|].
  apply wp_bind, wp_getNow. destruct Hact as [Hnd Hf]. cbn in Hnd, Hf.
  apply NoDup_cons in Hnd as [Hni Hnd]. apply Forall_cons in Hf as [Hlm Hf]. case_match.
  - apply wp_bindErr, wp_pg; [|done]. intros w' _ _ _ _ Hpg.
    assert (activeIds (w_pg w') (ShardID m) (ids l ++ keep)) as Hact.
    { apply (activeIds_frame (w_pg w)); [done|]. intros id Hid. rewrite Hpg.
      assert (id <> MetaStore.ID lm) by (by intros ->).
      unfold MetaStore.sqlFreeze. repeat case_match; simpl; try done.
      by rewrite lookup_insert_ne by done. }
    destruct (MetaStore.sqlFreeze _ _ _).1; [by apply IH|done].
  - apply wp_bindErr. eapply wp_mono; [apply (IH (MetaStore.ID lm :: keep))|].
    + split; [|apply Forall_app; apply Forall_app in Hf as [? ?]; split; [done|by constructor]].
      rewrite <- Permutation_middle. by constructor.
    + intros [rem|e] w' Hw'; [|done]. apply wp_ret. destruct Hw' as [Hnd' Hf'].
      rewrite <- Permutation_middle in Hnd', Hf'. by split.
Qed.

Lemma createList_active m keep w :
  activeIds (w_pg w) (ShardID m) keep ->
  wp (createList m) (fun r w' => match r with
    | Ok lm => activeIds (w_pg w') (ShardID m) (MetaStore.ID lm :: keep)
    | Err _ => True end) w.
Proof.
  intros Hact. unfold createList, ListId.New. apply wp_bindErr. case_match; [done|].
  apply wp_bindErr, wp_act. cbn [fst snd]. apply wp_ret, wp_bind, wp_act. cbn [fst snd].
  apply wp_bindErr, wp_ret. cbn [Allocator.NewKey]. set (id := ListId.mk _ _).
  unfold MetaStore.CreateList. apply wp_bindErr, wp_bindErr, wp_pg; [|done].
  intros w1 _ _ _ _ Hpg. cbn [w_pg set_env] in Hpg |- *.
  unfold MetaStore.sqlCreateList in Hpg |- *.
  destruct (MetaStore.int4_ok (mBits m)); cbn [negb fst snd] in *; [|done].
  destruct (lists (w_pg w) !! id) as [|] eqn:Hfresh; [done|]. cbn [fst snd] in *. apply wp_ret.
  assert (activeIds (w_pg w1) (ShardID m) (id :: keep)) as Hact1.
  { destruct Hact as [Hnd Hf]. rewrite Forall_forall in Hf.
    assert (id ∉ keep) as Hni by (intros (r & Hr & _)%Hf; congruence). split; [by constructor|].
    rewrite Hpg. apply Forall_cons. simpl. split.
    - eexists. split; [apply lookup_insert_eq|done].
    - apply Forall_forall. intros id' Hid'. rewrite lookup_insert_ne by (by intros ->). auto. }
  unfold BitmapStore.Init. apply wp_bindErr, wp_bindErr, wp_ret.
  destruct (BitmapStore.makeBytes _) as [z|e]; [|done].
  apply wp_bindErr, wp_redis_frame. intros [b|e] w2 _ Hpg2 _ _; [|done]. apply wp_ret, wp_ret.
  by rewrite Hpg2.
Qed.

Lemma topUp_active m n keep w :
  activeIds (w_pg w) (ShardID m) keep ->
  wp (topUp m n) (fun r w' => match r with
    | Ok created => activeIds (w_pg w') (ShardID m) (ids created ++ keep) /\ length created = n
    | Err _ => True end) w.
Proof.
  revert keep w. induction n as [|n IH]; intros keep w Hact; cbn [topUp]; [by apply wp_ret|].
  apply wp_bindErr. eapply wp_mono; [by apply createList_active|]. intros [lm|e] w1 Hact1; [|done].
  apply wp_bindErr. eapply wp_mono; [by apply (IH (MetaStore.ID lm :: keep))|].
  intros [created|e] w2 Hw2; [|done]. destruct Hw2 as [[Hnd Hf] Hlen]. apply wp_ret.
  rewrite <- Permutation_middle in Hnd, Hf. split; [by split|]. simpl. lia.
Qed.

(** The rows a query returns are distinct. *)
Lemma sqlSelectLists_active shard now db l :
  MetaStore.pg_inv db -> (MetaStore.sqlSelectLists (activeOn shard) now db).1 = Ok l ->
  activeIds db shard (ids l).
Proof.
  intros Hinv Hl. pose proof (Rely.sqlSelectLists_rows _ _ _ _ Hinv Hl) as Hk. injection Hl as <-.
  split.
  - unfold ids. rewrite <- list_fmap_compose. rewrite merge_sort_Permutation.
    apply NoDup_fmap_filter.
    assert (MetaStore.ID ∘ MetaStore.scanListMeta <$> (map_to_list (lists db)).*2 =
            (map_to_list (lists db)).*1) as ->; [|apply NoDup_fst_map_to_list].
    rewrite <- list_fmap_compose. apply list_fmap_ext. intros i [id r] Hi.
    apply list_elem_of_lookup_2, elem_of_map_to_list in Hi. simpl.
    apply (MetaStore.row_id _ _ (MetaStore.inv_rows db Hinv id r Hi)).
  - unfold ids. apply Forall_fmap. eapply Forall_impl; [exact Hk|].
    intros lm (r & -> & Hp & Hr). exists r. simpl in *.
    by apply andb_true_iff in Hp as [?%bool_decide_eq_true ?%MetaStore.isState_true].
Qed.

Lemma ensureHealthy_active m w :
  MetaStore.pg_inv (w_pg w) ->
  wp (ensureHealthy m) (fun r w' => match r with
    | Ok l => activeIds (w_pg w') (ShardID m) (ids l) /\ Width m <= Z.of_nat (length l)
    | Err _ => True end) w.
Proof.
  intros Hinv. unfold ensureHealthy. apply wp_bindErr, wp_pg_read; [done| |done].
  intros now w1 _ (Hpg & _) _.
  destruct (MetaStore.sqlSelectLists _ now (w_pg w)).1 as [active|e] eqn:Hl; [|done].
  apply (sqlSelectLists_active (ShardID m)) in Hl; [|done]. rewrite <- Hpg in Hl.
  apply wp_bindErr. eapply wp_mono; [apply (freezeAged_active m active []); by rewrite app_nil_r|].
  intros [rem|e] w2 Hact2; [|done]. rewrite app_nil_r in Hact2.
  apply wp_bindErr. eapply wp_mono; [by apply topUp_active|].
  intros [created|e] w3 Hw3; [|done]. destruct Hw3 as [[Hnd Hf] Hlen]. apply wp_ret.
  rewrite (Permutation_app_comm (ids created)) in Hnd, Hf. unfold ids in *.
  split; [by rewrite fmap_app|]. rewrite length_app. lia.
Qed.

(** ** Properties *)

(** Power-of-two-choices. The result is nil exactly when there are no
    candidates; otherwise it is a candidate, and with two or more it is at
    least as empty as another one, at a different position, that was drawn
    with it. The choice does not depend on who asks. *)
Theorem choose_of_two (l : list MetaStore.ListMeta) (w : world) :
  match (run (ChooseByPowerOfTwo l) w).1 with
  | None => l = []
  | Some lm => exists i, l !! i = Some lm /\
      ((2 <= length l)%nat -> exists j other, i <> j /\ l !! j = Some other /\
         MetaStore.Remaining other <= MetaStore.Remaining lm)
  end.
Proof.
  set (Q := fun (o : option MetaStore.ListMeta) (_ : world) => match o with
    | None => l = []
    | Some lm => exists i, l !! i = Some lm /\
        ((2 <= length l)%nat -> exists j other, i <> j /\ l !! j = Some other /\
           MetaStore.Remaining other <= MetaStore.Remaining lm)
    end).
  enough (wp (ChooseByPowerOfTwo l) Q w) as H by exact H.
  unfold ChooseByPowerOfTwo. destruct l as [|a [|b l]]; [by apply wp_ret| |].
  { apply wp_ret. exists 0%nat. split; [done|]. simpl. lia. }
  set (l' := a :: b :: l) in *. assert (2 <= length l')%nat as Hlen by (simpl; lia). clearbody l'.
  apply wp_bind, wp_randN_range; [lia|]. intros i w1 Hi _.
  apply wp_bind, wp_randN_range; [lia|]. intros j w2 Hj _.
  set (j' := if i <=? j then j + 1 else j).
  assert (0 <= j' < Z.of_nat (length l') /\ j' <> i) as [Hj' Hne].
  { unfold j'. destruct (Z.leb_spec i j); lia. }
  unfold at_.
  destruct (lookup_lt_is_Some_2 l' (Z.to_nat i) ltac:(lia)) as [x Hx].
  destruct (lookup_lt_is_Some_2 l' (Z.to_nat j') ltac:(lia)) as [y Hy].
  rewrite Hx, Hy. apply wp_ret. cbn.
  destruct (Z.ltb_spec (MetaStore.Remaining x) (MetaStore.Remaining y)).
  - exists (Z.to_nat j'). split; [done|]. intros _. exists (Z.to_nat i), x. split_and!; [lia|done|lia].
  - exists (Z.to_nat i). split; [done|]. intros _. exists (Z.to_nat j'), y. split_and!; [lia|done|lia].
Qed.

(** A successful EnsureHealthy leaves the pool at its width. Run alone on
    tables that satisfy their invariant, with any failures on the way: if it
    reports success, there are at least [Width] distinct lists of the shard
    that are ACTIVE in the database. *)
Theorem EnsureHealthy_width (m : Manager) (w w' : world) :
  MetaStore.pg_inv (w_pg w) -> run (EnsureHealthy m) w = (Ok tt, w') ->
  exists l, activeIds (w_pg w') (ShardID m) l /\ Width m <= Z.of_nat (length l).
Proof.
  intros Hinv Hrun. pose proof (ensureHealthy_active m w Hinv) as Hwp. unfold wp in Hwp.
  unfold EnsureHealthy in Hrun. rewrite run_bindErr in Hrun.
  destruct (run (ensureHealthy m) w) as [[l|e] w1]; simpl in *; [|done]. injection Hrun as ->.
  exists (ids l). unfold ids at 2. by rewrite length_fmap.
Qed.

Definition exampleManager : Manager := MkManager "s" 2 16 2 (24 * hour).

Lemma EnsureHealthy_width_witness :
  exists w' l, run (EnsureHealthy exampleManager) (MkWorld pgEmpty ∅ ∅ [] 0 [] (seqZ 0 96)) = (Ok tt, w') /\
    activeIds (w_pg w') "s" l /\ 2 <= Z.of_nat (length l).
Proof.
  destruct (run (EnsureHealthy exampleManager) (MkWorld pgEmpty ∅ ∅ [] 0 [] (seqZ 0 96)))
    as [r w'] eqn:E.
  assert (r = Ok tt) as -> by (apply (f_equal fst) in E; vm_compute in E; by symmetry).
  destruct (EnsureHealthy_width exampleManager (MkWorld pgEmpty ∅ ∅ [] 0 [] (seqZ 0 96)) w'
    MetaStore.pg_inv_empty E) as (l & Hl & Hw).
  exists w', l. split_and!; [reflexivity|exact Hl|exact Hw].
Defined.

End Pool.
