(* ===== verification/Gc.v ===== *)
(** * internal/gc: the archive, purge and delete sweep

    [Sweep] is the three-phase pass of [Sweeper]; [shard] is the shard whose
    Redis its bitmap store talks to. The theorems: a sweep archives only lists
    all of whose credentials expired at least a grace period ago, whatever
    fails on the way; a successful sweep archives every list that has earned it,
    and purges those of its own shard that are past retention; and, a defect of
    the queries, which do not select by shard: it also marks purged the archived
    lists of the other shards, whose bitmaps it cannot reach. *)

From S2P Require Import Prelude Prog World MetaStore BitmapStore Rely.

Module Gc.

Record Sweeper := MkSweeper {
  shard : string;
  Grace : Z;
  Retention : Z;
  DBRetention : Z
}.

Definition archiveAll (l : list MetaStore.ListMeta) : prog world (result unit) :=
  forErr l (fun lm => MetaStore.Archive (MetaStore.ID lm)).

Definition purgeAll (s : Sweeper) (l : list MetaStore.ListMeta) : prog world (result unit) :=
  forErr l (fun lm =>
    try! _ := BitmapStore.Purge (shard s) (MetaStore.ID lm) in
    MetaStore.MarkPurged (MetaStore.ID lm)).

Definition deleteAll (l : list MetaStore.ListMeta) : prog world (result unit) :=
  forErr l (fun lm => MetaStore.DeleteList (MetaStore.ID lm)).

Definition Sweep (s : Sweeper) : prog world (result unit) :=
  let! now := getNow in
  try! frozen := MetaStore.FrozenListsPastGrace (now + durNeg (Grace s)) in
  try! _ := archiveAll frozen in
  try! archived := MetaStore.ArchivedListsPastRetention (now + durNeg (Retention s)) in
  try! _ := purgeAll s archived in
  if DBRetention s <=? 0 then Ret (Ok tt)
  else
    try! purged := MetaStore.PurgedListsPastDBRetention (now + durNeg (DBRetention s)) in
    deleteAll purged.

(** One tick of [Run]; the error is logged. *)
Definition runTick (s : Sweeper) : prog world unit := let! _ := Sweep s in Ret tt.

(** ** The contract, when rows are kept forever *)

#[local] Existing Instance Rely.Ev_preorder.
#[local] Existing Instances MetaStore.row_evolves_preorder MetaStore.pg_evolves_preorder.

Lemma safe_archiveAll {WA : Rely.Watching} l (Q : result unit -> world -> Prop) w0 :
  Rely.Inv w0 -> (forall r w', Rely.Ev w0 w' -> Rely.Inv w' -> Q r w') ->
  Rely.safe (archiveAll l) Q w0.
Proof.
  intros HI HQ. apply Rely.safe_forErr; [done| |by intros; apply HQ].
  intros lm w _ HE HI'. apply Rely.safe_Archive. intros [u|e] w' HE' HI2; split_and!; try done.
  Rely.rely_done.
Qed.

(** The row filter of [ArchivedListsPastRetention]. *)
Definition pastRetention (cutoff : Z) (r : list_row) : bool :=
  MetaStore.isState ARCHIVED r && negb (r_purged r) && MetaStore.leNull (r_archived_at r) cutoff.

Lemma pastRetention_archived cutoff r : pastRetention cutoff r = true -> r_state r = ARCHIVED.
Proof.
  unfold pastRetention. rewrite !andb_true_iff. intros [[H _] _]. by apply MetaStore.isState_true.
Qed.

(** A list a query found archived is archived now. *)
Lemma known_archived cutoff lm db :
  Rely.known (pastRetention cutoff) lm db ->
  exists r, lists db !! MetaStore.ID lm = Some r /\ r_state r = ARCHIVED.
Proof.
  intros (r0 & r & _ & Hp & Hr & He). exists r. split; [done|].
  pose proof (MetaStore.ev_state _ _ He) as Hst.
  rewrite (pastRetention_archived _ _ Hp) in Hst. by destruct (r_state r).
Qed.

Lemma safe_purgeAll {WA : Rely.Watching} s cutoff l (Q : result unit -> world -> Prop) w0 :
  Rely.Inv w0 -> Forall (fun lm => Rely.known (pastRetention cutoff) lm (w_pg w0)) l ->
  (forall r w', Rely.Ev w0 w' -> Rely.Inv w' -> Q r w') -> Rely.safe (purgeAll s l) Q w0.
Proof.
  intros HI Hl HQ. apply Rely.safe_forErr; [done| |by intros; apply HQ]. intros lm w Hin HE HI'.
  rewrite Forall_forall in Hl.
  assert (forall w, Rely.Ev w0 w -> exists r, lists (w_pg w) !! MetaStore.ID lm = Some r /\ r_state r = ARCHIVED)
    as Harch.
  { intros w' HEw. apply (known_archived cutoff), (Rely.known_stable _ _ (w_pg w0)); [done|by apply Hl]. }
  destruct (Harch w HE) as (rw & Hrw & Hsw). apply Rely.safe_bindErr, (Rely.safe_Purge _ _ rw); [done|done|].
  intros [u|e] w1 HE1 HI1; [|split_and!; [done|done|Rely.rely_done]].
  destruct (Harch w1) as (r & Hr & Hs); [Rely.ev|].
  apply (Rely.safe_MarkPurged _ r); [done|done|].
  intros [u'|e] w2 HE2 HI2; split_and!; try done; try Rely.ev. Rely.rely_done.
Qed.

Lemma safe_Sweep {WA : Rely.Watching} s (Q : result unit -> world -> Prop) w0 :
  DBRetention s <= 0 -> (forall r w', Rely.Ev w0 w' -> Rely.Inv w' -> Q r w') ->
  Rely.safe (Sweep s) Q w0.
Proof.
  intros Hdb HQ. unfold Sweep. apply Rely.safe_bind, Rely.safe_getNow. intros now w1 HE1 HI1.
  apply Rely.safe_bindErr, Rely.safe_queryLists; [|intros; Rely.rely_done].
  intros frozen w2 HE2 HI2 _. apply Rely.safe_bindErr, safe_archiveAll; [done|].
  intros [u|e] w3 HE3 HI3; [|Rely.rely_done].
  apply Rely.safe_bindErr, Rely.safe_queryLists; [|intros; Rely.rely_done].
  intros archived w4 HE4 HI4 Hk. apply Rely.safe_bindErr, (safe_purgeAll s _ archived _ _ HI4 Hk).
  intros [u'|e] w5 HE5 HI5; [|Rely.rely_done].
  replace (DBRetention s <=? 0) with true by lia. Rely.rely_done.
Qed.

(** ** What a sweep archives *)

(** A list that has earned archival: frozen, and every credential expired by
    the cutoff. *)
Definition earned (cutoff : Z) (r : list_row) : Prop :=
  r_state r = FROZEN /\ match r_max_exp r with None => True | Some e => e <= cutoff end.

(** Since [db0], only lists in [good] were archived. *)
Definition onlyArchived (good : string -> Prop) (db0 db : pg) : Prop :=
  forall id r', lists db !! id = Some r' -> exists r, lists db0 !! id = Some r /\
    (r_state r' = ARCHIVED -> r_state r = ARCHIVED \/ good id).

Lemma onlyArchived_refl good db : onlyArchived good db db.
Proof. intros id r Hr. exists r. auto. Qed.

Lemma archive_only good id now db0 db :
  good id -> onlyArchived good db0 db -> onlyArchived good db0 (MetaStore.sqlArchive id now db).2.
Proof.
  intros Hg H. unfold MetaStore.sqlArchive. repeat case_match; simpl; try done.
  intros id' r' Hr'. simpl in Hr'. rewrite lookup_insert in Hr'. case_decide as Hd; [|by apply H].
  subst id'. simplify_eq. match goal with Hl : lists db !! id = Some _ |- _ => apply H in Hl end.
  naive_solver.
Qed.

Lemma purged_only good id now db0 db :
  onlyArchived good db0 db -> onlyArchived good db0 (MetaStore.sqlMarkPurged id now db).2.
Proof.
  intros H. unfold MetaStore.sqlMarkPurged. case_match eqn:Hl; simpl; [|done].
  intros id' r' Hr'. simpl in Hr'. rewrite lookup_insert in Hr'. case_decide as Hd; [|by apply H].
  subst id'. simplify_eq. by apply H in Hl.
Qed.

Lemma delete_only good id now db0 db :
  onlyArchived good db0 db -> onlyArchived good db0 (MetaStore.sqlDeleteList id now db).2.
Proof. intros H id' r'. simpl. intros [_ Hr']%lookup_delete_Some. by apply H. Qed.

(** A statement that keeps a property of the tables keeps it in a run,
    failures included. *)
Lemma wp_keeps {A} (P : pg -> Prop) (f : Z -> pg -> result A * pg) w :
  (forall now db, P db -> P (f now db).2) -> P (w_pg w) -> wp (pgCall f) (fun _ w' => P (w_pg w')) w.
Proof.
  intros Hf H. apply wp_pg; intros w' _ _ _ _ Hpg.
  - rewrite Hpg. auto.
  - destruct Hpg as [-> | ->]; auto.
Qed.

Lemma wp_keeps_loop (P : pg -> Prop) (l : list MetaStore.ListMeta) body w :
  (forall lm w, lm ∈ l -> P (w_pg w) -> wp (body lm) (fun _ w' => P (w_pg w')) w) ->
  P (w_pg w) -> wp (forErr l body) (fun _ w' => P (w_pg w')) w.
Proof.
  revert w. induction l as [|lm l IH]; intros w Hbody H; cbn [forErr]; [by apply wp_ret|].
  apply wp_bindErr. eapply wp_mono; [apply Hbody; [left|done]|].
  intros [u|e] w' H'; [|done]. apply IH; [|done]. intros lm' w'' Hin. apply Hbody. by right.
Qed.

Lemma Sweep_only s w :
  MetaStore.pg_inv (w_pg w) ->
  let good id := exists r, lists (w_pg w) !! id = Some r /\ earned (w_clock w + durNeg (Grace s)) r in
  wp (Sweep s) (fun _ w' => onlyArchived good (w_pg w) (w_pg w')) w.
Proof.
  intros Hinv good. unfold Sweep. apply wp_bind, wp_getNow.
  apply wp_bindErr, wp_pg_read; [done| |].
  2: { intros w' (-> & _). apply onlyArchived_refl. }
  intros now w1 _ (Hpg & _) _.
  destruct (MetaStore.sqlSelectLists _ now (w_pg w)).1 as [frozen|e] eqn:Hl.
  2: { rewrite Hpg. apply onlyArchived_refl. }
  assert (forall lm, lm ∈ frozen -> good (MetaStore.ID lm)) as Hgood.
  { pose proof (Rely.sqlSelectLists_rows _ _ _ _ Hinv Hl) as Hrows. rewrite Forall_forall in Hrows.
    intros lm (r & -> & Hp & Hr)%Hrows. exists r. split; [done|].
    apply andb_true_iff in Hp as [?%MetaStore.isState_true Hm]. split; [done|].
    destruct (r_max_exp r); [lia|done]. }
  apply wp_bindErr. eapply wp_mono.
  { apply (wp_keeps_loop (onlyArchived good (w_pg w))); [|rewrite Hpg; apply onlyArchived_refl].
    intros lm w' Hin H. apply wp_keeps; [|done]. intros. by apply archive_only; [apply Hgood|]. }
  intros [u|e] w2 H2; [|done].
  apply wp_bindErr, wp_pg_read; [done| |by intros w' (-> & _)].
  intros now' w3 _ (Hpg3 & _) _. rewrite <- Hpg3 in H2.
  destruct (MetaStore.sqlSelectLists _ now' (w_pg w2)).1 as [archived|e]; [|done].
  apply wp_bindErr. eapply wp_mono.
  { apply (wp_keeps_loop (onlyArchived good (w_pg w))); [|exact H2].
    intros lm w' _ Ho. apply wp_bindErr, wp_redis_frame.
    intros [v|e] w'' _ Hp _ _; rewrite <- Hp in Ho.
    - apply wp_keeps; [|done]. intros. by apply purged_only.
    - done. }
  intros [u'|e] w4 H4; [|done]. destruct (DBRetention s <=? 0); [by apply wp_ret|].
  apply wp_bindErr, wp_pg_read; [done| |by intros w' (-> & _)].
  intros now'' w5 _ (Hpg5 & _) _. rewrite <- Hpg5 in H4.
  destruct (MetaStore.sqlSelectLists _ now'' (w_pg w4)).1 as [purged|e]; [|done].
  apply (wp_keeps_loop (onlyArchived good (w_pg w))); [|done].
  intros lm w' _ Ho. apply wp_keeps; [|done]. intros. by apply delete_only.
Qed.

(** ** What a sweep purges *)

(** Every purged list was archived by the cutoff. *)
Definition purgedDue (cutoff : Z) (db : pg) : Prop :=
  forall id r, lists db !! id = Some r -> r_purged r = true ->
    r_state r = ARCHIVED /\ MetaStore.leNull (r_archived_at r) cutoff = true.

Lemma purgedDue_mono c c' db : c <= c' -> purgedDue c db -> purgedDue c' db.
Proof.
  intros Hle H id r Hr Hp. destruct (H id r Hr Hp) as [? Ha]. split; [done|].
  unfold MetaStore.leNull in *. destruct (r_archived_at r); [lia|done].
Qed.

Lemma purgedDue_none c db :
  forallb (fun e => negb (r_purged e.2)) (map_to_list (lists db)) = true -> purgedDue c db.
Proof.
  intros H id r Hr Hp. rewrite forallb_forall in H.
  specialize (H (id, r)). rewrite <- list_elem_of_In, elem_of_map_to_list in H.
  apply H in Hr. simpl in Hr. by rewrite Hp in Hr.
Qed.

Lemma archive_due c id now db : purgedDue c db -> purgedDue c (MetaStore.sqlArchive id now db).2.
Proof.
  intros H. unfold MetaStore.sqlArchive. destruct (lists db !! id) as [r|] eqn:Hr; [|done].
  destruct (MetaStore.isState FROZEN r) eqn:Hf; [|done]. simpl.
  intros id' r'. simpl. rewrite lookup_insert. case_decide; [|by apply H].
  intros [= <-] Hp. simpl in *. apply MetaStore.isState_true in Hf.
  destruct (H _ _ Hr Hp) as [Ha _]. congruence.
Qed.

Lemma delete_due c id now db : purgedDue c db -> purgedDue c (MetaStore.sqlDeleteList id now db).2.
Proof. intros H id' r'. simpl. intros [_ Hr']%lookup_delete_Some. exact (H _ _ Hr'). Qed.

(** The rows of a query, whose purge is due, while the loop runs. *)
Definition purging (c : Z) (l : list MetaStore.ListMeta) (db : pg) : Prop :=
  purgedDue c db /\ forall lm, lm ∈ l -> exists r, lists db !! MetaStore.ID lm = Some r /\
    r_state r = ARCHIVED /\ MetaStore.leNull (r_archived_at r) c = true.

Lemma purged_due c l lm now db :
  lm ∈ l -> purging c l db -> purging c l (MetaStore.sqlMarkPurged (MetaStore.ID lm) now db).2.
Proof.
  intros Hin [H Hl]. unfold MetaStore.sqlMarkPurged.
  destruct (Hl lm Hin) as (r & Hr & Hs & Ha). rewrite Hr. simpl. split.
  - intros id' r'. simpl. rewrite lookup_insert. case_decide; [|by apply H]. by intros [= <-] _.
  - intros lm' Hin'. simpl. rewrite lookup_insert. case_decide; [|by apply Hl].
    by exists (MetaStore.setPurged r now).
Qed.

Lemma Sweep_due s c w :
  MetaStore.pg_inv (w_pg w) -> c <= w_clock w + durNeg (Retention s) -> purgedDue c (w_pg w) ->
  wp (Sweep s) (fun _ w' => purgedDue (w_clock w + durNeg (Retention s)) (w_pg w')) w.
Proof.
  intros Hinv Hc H0. set (cut := w_clock w + _) in *. apply (purgedDue_mono c cut) in H0; [|exact Hc].
  unfold Sweep. apply wp_bind, wp_getNow. apply wp_bindErr, wp_pg_read; [done| |by intros w' (-> & _)].
  intros now w1 _ (Hpg & _) _.
  destruct (MetaStore.sqlSelectLists _ now (w_pg w)).1 as [frozen|e]; [|by rewrite Hpg].
  apply wp_bindErr. eapply wp_mono.
  { apply (wp_keeps_loop (fun db => MetaStore.pg_inv db /\ purgedDue cut db)); [|by rewrite Hpg].
    intros lm w' Hin H.
    apply (wp_keeps (fun db => MetaStore.pg_inv db /\ purgedDue cut db)); [|done]. intros now' db [Hi Hd].
    split; [apply (MetaStore.archive_keeps _ now' db Hi)|by apply archive_due]. }
  intros [u|e] w2 [Hi2 H2]; [|done].
  apply wp_bindErr, wp_pg_read; [done| |by intros w' (-> & _)].
  intros now' w3 _ (Hpg3 & _) _.
  destruct (MetaStore.sqlSelectLists _ now' (w_pg w2)).1 as [archived|e] eqn:Hl; [|by rewrite Hpg3].
  assert (purging cut archived (w_pg w3)) as H3.
  { rewrite Hpg3. split; [done|]. pose proof (Rely.sqlSelectLists_rows _ _ _ _ Hi2 Hl) as Hrows.
    rewrite Forall_forall in Hrows. intros lm (r & -> & Hp & Hr)%Hrows.
    apply andb_true_iff in Hp as [[?%MetaStore.isState_true _]%andb_true_iff Ha].
    by exists r. }
  apply wp_bindErr. eapply wp_mono.
  { apply (wp_keeps_loop (purging cut archived)); [|exact H3].
    intros lm w' Hin Ho. apply wp_bindErr, wp_redis_frame.
    intros [v|e] w'' _ Hp _ _; rewrite <- Hp in Ho; [|done].
    apply wp_keeps; [|done]. intros. by apply purged_due. }
  intros [u'|e] w4 [H4 _]; [|done]. destruct (DBRetention s <=? 0); [by apply wp_ret|].
  apply wp_bindErr, wp_pg_read; [done| |by intros w' (-> & _)].
  intros now'' w5 _ (Hpg5 & _) _. rewrite <- Hpg5 in H4.
  destruct (MetaStore.sqlSelectLists _ now'' (w_pg w4)).1 as [purged|e]; [|done].
  apply (wp_keeps_loop (purgedDue cut)); [|done].
  intros lm w' _ Ho. apply wp_keeps; [|done]. intros. by apply delete_due.
Qed.

(** ** What a successful sweep has done *)

Definition pgInv (w : world) : Prop := MetaStore.pg_inv (w_pg w).

(** The tables evolve, keys of the sweeper's own Redis only disappear, and no
    other Redis is touched. *)
Definition sweeps (s : Sweeper) (w w' : world) : Prop :=
  Rely.Ev w w' /\
  (forall k, redisOf w (shard s) !! k = None -> redisOf w' (shard s) !! k = None) /\
  (forall sh, sh <> shard s -> redisOf w' sh = redisOf w sh).

#[local] Instance sweeps_preorder s : PreOrder (sweeps s).
Proof.
  split.
  - intros w. split_and!; [reflexivity|done|done].
  - intros w1 w2 w3 (H1 & H2 & H3) (H4 & H5 & H6).
    split_and!; [etrans; [exact H1|exact H4]|auto|]. intros sh Hsh. by rewrite H6, H3.
Qed.

Lemma quiet_sweeps s w w' : quiet w w' -> sweeps s w w'.
Proof.
  intros (Hpg & Hr & _). unfold sweeps, Rely.Ev. rewrite Hpg.
  split_and!; [reflexivity|by intros k; rewrite Hr|done].
Qed.

(** A statement that keeps the tables, in a run. *)
Lemma wp_pg_sweeps {A} s (f : Z -> pg -> result A * pg) (Q : result A -> world -> Prop) w :
  pgInv w -> (forall now db, MetaStore.pg_inv db -> db = w_pg w -> MetaStore.keeps db (f now db).2) ->
  (forall w', pgInv w' -> sweeps s w w' -> w_pg w' = (f (w_clock w') (w_pg w)).2 ->
     (forall sh, redisOf w' sh = redisOf w sh) -> Q (f (w_clock w') (w_pg w)).1 w') ->
  (forall w', pgInv w' -> sweeps s w w' -> Q ioError w') -> wp (pgCall f) Q w.
Proof.
  intros HI Hf HQ Herr.
  assert (forall w', w_pg w' = w_pg w \/ w_pg w' = (f (w_clock w') (w_pg w)).2 ->
    (forall sh, redisOf w' sh = redisOf w sh) -> pgInv w' /\ sweeps s w w') as Hboth.
  { intros w' Hpg Hr. destruct (Hf (w_clock w') (w_pg w) HI eq_refl) as [Hi He].
    unfold pgInv, sweeps, Rely.Ev.
    destruct Hpg as [-> | ->]; split_and!; try done; try reflexivity; intros k; by rewrite Hr. }
  apply wp_pg; intros w' _ Hr _ _ Hpg.
  - destruct (Hboth w' (or_intror Hpg) Hr). by apply HQ.
  - destruct (Hboth w' Hpg Hr). by apply Herr.
Qed.

Definition archivedIn (id : string) (w : world) : Prop :=
  exists r, lists (w_pg w) !! id = Some r /\ r_state r = ARCHIVED.

(** The row is marked purged; and the Redis of a shard holds nothing of it. *)
Definition purgedIn (id : string) (w : world) : Prop :=
  exists r, lists (w_pg w) !! id = Some r /\ r_purged r = true.

Definition erasedIn (sh id : string) (w : world) : Prop :=
  redisOf w sh !! BitmapStore.bitmapKey id = None /\
  redisOf w sh !! BitmapStore.versionKey id = None.

Lemma archivedIn_stable s id w w' : sweeps s w w' -> archivedIn id w -> archivedIn id w'.
Proof.
  intros (Hev & _) (r & Hr & Hs). destruct (MetaStore.ev_rows _ _ Hev _ _ Hr) as (r' & Hr' & He).
  exists r'. split; [done|]. pose proof (MetaStore.ev_state _ _ He) as Hst. rewrite Hs in Hst.
  by destruct (r_state r').
Qed.

Lemma purged_stable s id w w' :
  sweeps s w w' -> purgedIn id w /\ erasedIn (shard s) id w -> purgedIn id w' /\ erasedIn (shard s) id w'.
Proof.
  intros (Hev & Hk & _) ((r & Hr & Hp) & Hb & Hv). split; [|split; auto].
  destruct (MetaStore.ev_rows _ _ Hev _ _ Hr) as (r' & Hr' & He). exists r'. split; [done|].
  by apply (MetaStore.ev_purged _ _ He).
Qed.

(** The same, and archived rows stay as they are: the archiving phase. *)
Definition archives (s : Sweeper) (w w' : world) : Prop :=
  sweeps s w w' /\
  forall id r, lists (w_pg w) !! id = Some r -> r_state r = ARCHIVED -> lists (w_pg w') !! id = Some r.

#[local] Instance archives_preorder s : PreOrder (archives s).
Proof.
  split; [by split|]. intros w1 w2 w3 [H1 H2] [H3 H4]. split; [by etrans|auto].
Qed.

(** Archiving a list that is frozen, or already archived. *)
Lemma Archive_done s id r w :
  pgInv w -> lists (w_pg w) !! id = Some r -> r_state r <> ACTIVE ->
  wp (MetaStore.Archive id) (fun res w' => pgInv w' /\ archives s w w' /\
    match res with Ok _ => archivedIn id w' | Err _ => True end) w.
Proof.
  intros HI Hr Hs.
  assert (forall now id' r', lists (w_pg w) !! id' = Some r' -> r_state r' = ARCHIVED ->
    lists (MetaStore.sqlArchive id now (w_pg w)).2 !! id' = Some r') as Hkeep.
  { intros now id' r' Hr' Hs'. unfold MetaStore.sqlArchive. rewrite Hr.
    destruct (MetaStore.isState FROZEN r) eqn:Hf; [|done]. apply MetaStore.isState_true in Hf.
    simpl. rewrite lookup_insert_ne; [done|]. congruence. }
  assert (forall w', w_pg w' = w_pg w \/ w_pg w' = (MetaStore.sqlArchive id (w_clock w') (w_pg w)).2 ->
    (forall sh, redisOf w' sh = redisOf w sh) -> pgInv w' /\ archives s w w') as Hboth.
  { intros w' Hpg Hro.
    destruct (MetaStore.archive_keeps id (w_clock w') (w_pg w) HI) as [Hi He].
    unfold archives, sweeps, pgInv, Rely.Ev.
    destruct Hpg as [-> | ->]; split_and!; try done; try reflexivity; try (intros k; by rewrite Hro);
      eauto. }
  apply wp_pg; intros w' _ Hro _ _ Hpg.
  2: { destruct (Hboth w' Hpg Hro). by split_and!. }
  destruct (Hboth w' (or_intror Hpg) Hro) as [HI' Ha]. split_and!; [done|done|].
  unfold MetaStore.sqlArchive in *. rewrite Hr in *.
  destruct (MetaStore.isState FROZEN r) eqn:Hf; simpl in *.
  - eexists. rewrite Hpg. split; [apply lookup_insert_eq|done].
  - exists r. rewrite Hpg. split; [done|]. unfold MetaStore.isState in Hf.
    apply bool_decide_eq_false in Hf. by destruct (r_state r).
Qed.

Lemma Purge_done s id r w :
  pgInv w -> lists (w_pg w) !! id = Some r -> r_state r = ARCHIVED ->
  wp (try! _ := BitmapStore.Purge (shard s) id in MetaStore.MarkPurged id)
    (fun res w' => pgInv w' /\ sweeps s w w' /\
       match res with Ok _ => purgedIn id w' /\ erasedIn (shard s) id w' | Err _ => True end) w.
Proof.
  intros HI Hr Hs. apply wp_bindErr, wp_act.
  pose proof (redisAct_cases (shard s)
    (BitmapStore.del (BitmapStore.bitmapKey id) (BitmapStore.versionKey id)) w)
    as (Hpg & _ & _ & _ & _ & Hother & Hcase).
  destruct (redisAct (shard s) _ w) as [r1 w1]. cbn [fst snd] in *.
  assert (pgInv w1) as HI1 by (unfold pgInv; by rewrite Hpg).
  assert (sweeps s w w1) as Hsw1.
  { split_and!; [unfold Rely.Ev; rewrite Hpg; reflexivity| |done]. intros k Hk.
    destruct Hcase as [[_ ->]|[_ [->| ->]]]; [|done|]; simpl; by rewrite !lookup_delete_None; auto. }
  destruct Hcase as [[-> Hr1]|[-> _]]; [|done]. cbn [fst BitmapStore.del].
  apply (wp_pg_sweeps s); [done| | |].
  - intros now db Hinv ->. apply MetaStore.mark_purged_keeps; [done|].
    rewrite Hpg. intros r' Hr'. congruence.
  - intros w2 HI2 Hsw2 Hpg2 Hr2. split_and!; [done|by etrans|].
    unfold MetaStore.sqlMarkPurged in *. rewrite Hpg, Hr in *. simpl in *.
    unfold purgedIn, erasedIn. rewrite Hpg2, Hr2, Hr1. cbn [snd BitmapStore.del]. split_and!.
    + eexists. split; [apply lookup_insert_eq|done].
    + rewrite lookup_delete_ne by (symmetry; apply BitmapStore.keys_disjoint). apply lookup_delete_eq.
    + apply lookup_delete_eq.
  - intros w2 HI2 Hsw2. split_and!; [done|by etrans|done].
Qed.

Lemma Sweep_done s w :
  pgInv w -> DBRetention s <= 0 ->
  wp (Sweep s) (fun r w' => pgInv w' /\ sweeps s w w' /\
    match r with
    | Ok _ =>
        (forall id row, lists (w_pg w) !! id = Some row -> earned (w_clock w + durNeg (Grace s)) row ->
           archivedIn id w') /\
        (forall id row, lists (w_pg w) !! id = Some row ->
           pastRetention (w_clock w + durNeg (Retention s)) row = true ->
           purgedIn id w' /\ erasedIn (shard s) id w')
    | Err _ => True
    end) w.
Proof.
  intros HI Hdb. unfold Sweep. apply wp_bind, wp_getNow.
  apply wp_bindErr, wp_pg_read; [done| |].
  2: { intros w' Hq. split_and!; [|by apply quiet_sweeps|done]. unfold pgInv. by rewrite (proj1 Hq). }
  intros now w1 _ Hq1 _. pose proof (proj1 Hq1) as Hpg1.
  assert (pgInv w1) as HI1 by (unfold pgInv; by rewrite Hpg1).
  destruct (MetaStore.sqlSelectLists _ now (w_pg w)).1 as [frozen|e] eqn:Hl;
    [|split_and!; [done|by apply quiet_sweeps|done]].
  pose proof (Rely.sqlSelectLists_rows _ _ _ _ HI Hl) as Hrows. rewrite Forall_forall in Hrows.
  apply wp_bindErr. eapply wp_mono.
  { apply (wp_forErr_each (archives s) pgInv (fun lm => archivedIn (MetaStore.ID lm))); [| |done].
    - intros lm w2 w3 [Hsw _]. by apply archivedIn_stable with s.
    - intros lm w2 (r & -> & Hp & Hr)%Hrows Har HI2.
      rewrite <- Hpg1 in Hr. destruct Har as [(Hev & _) _].
      destruct (MetaStore.ev_rows _ _ Hev _ _ Hr) as (r' & Hr' & He).
      apply (Archive_done s _ r'); [done|done|]. intros Hact.
      pose proof (MetaStore.ev_state _ _ He) as Hst. rewrite Hact in Hst.
      apply andb_true_iff in Hp as [Hf%MetaStore.isState_true _]. by rewrite Hf in Hst. }
  intros [u|e] w2 (HI2 & [Hsw2 Hkeep] & Harch).
  2: { split_and!; [done|etrans; [by apply quiet_sweeps|done]|done]. }
  assert (sweeps s w w2) as Hsw02 by (etrans; [by apply quiet_sweeps|done]).
  apply wp_bindErr, wp_pg_read; [done| |].
  2: { intros w' Hq. split_and!; [|etrans; [done|by apply quiet_sweeps]|done].
       unfold pgInv. by rewrite (proj1 Hq). }
  intros now' w3 _ Hq3 _. pose proof (proj1 Hq3) as Hpg3.
  assert (pgInv w3) as HI3 by (unfold pgInv; by rewrite Hpg3).
  assert (sweeps s w w3) as Hsw03 by (etrans; [done|by apply quiet_sweeps]).
  destruct (MetaStore.sqlSelectLists _ now' (w_pg w2)).1 as [archived|e] eqn:Hl2; [|done].
  pose proof (Rely.sqlSelectLists_rows _ _ _ _ HI2 Hl2) as Hrows2. rewrite Forall_forall in Hrows2.
  apply wp_bindErr. eapply wp_mono.
  { apply (wp_forErr_each (sweeps s) pgInv (fun lm w' =>
      purgedIn (MetaStore.ID lm) w' /\ erasedIn (shard s) (MetaStore.ID lm) w')); [| |done].
    - intros lm w4 w5. by apply purged_stable.
    - intros lm w4 (r & -> & Hp & Hr)%Hrows2 Hsw HI4. rewrite <- Hpg3 in Hr.
      destruct (archivedIn_stable s (MetaStore.ID (MetaStore.scanListMeta r)) w3 w4 Hsw) as (r' & Hr' & Hs').
      { exists r. split; [done|]. by apply pastRetention_archived in Hp. }
      by apply (Purge_done s _ r'). }
  intros [u'|e] w4 (HI4 & Hsw4 & Hpurg); [|by split_and!; [|etrans|]].
  replace (DBRetention s <=? 0) with true by lia. apply wp_ret.
  split_and!; [done|by etrans| |].
  - intros id row Hr [Hf Hm]. apply (archivedIn_stable s _ w2); [etrans; [by apply quiet_sweeps|done]|].
    rewrite Forall_forall in Harch.
    assert (MetaStore.ID (MetaStore.scanListMeta row) = id) as <-.
    { apply (MetaStore.row_id _ _ (MetaStore.inv_rows _ HI id row Hr)). }
    apply Harch. eapply Rely.sqlSelectLists_all; [exact Hl|exact Hr|].
    apply andb_true_iff. split; [by apply MetaStore.isState_true|]. destruct (r_max_exp row); [lia|done].
  - intros id row Hr Hp. rewrite Forall_forall in Hpurg.
    assert (MetaStore.ID (MetaStore.scanListMeta row) = id) as <-.
    { apply (MetaStore.row_id _ _ (MetaStore.inv_rows _ HI id row Hr)). }
    apply Hpurg. eapply Rely.sqlSelectLists_all; [exact Hl2| |exact Hp].
    rewrite <- Hpg1 in Hr. apply Hkeep; [exact Hr|]. by apply pastRetention_archived in Hp.
Qed.

(** Two lists: one of shard "s1" frozen with a credential that expired at 500,
    one of shard "b" archived at 30. *)
Definition exampleHistory : list (Z * MetaStore.stmt) :=
  MetaStore.exampleHistory ++
  [(20, MetaStore.SFreeze "s1.ab");
   (21, MetaStore.SCreate "b.1" 2 4 MetaStore.exampleKey "b");
   (22, MetaStore.SFreeze "b.1"); (30, MetaStore.SArchive "b.1")].

Definition exampleWorld : world :=
  MkWorld (MetaStore.execAll exampleHistory pgEmpty)
    {["b" := {[BitmapStore.bitmapKey "b.1" := RBytes [0]]}]} ∅ [] 1000 [] [].

Definition exampleSweeper : Sweeper := MkSweeper "a" 100 200 0.

Lemma gcWorld_inv : MetaStore.pg_inv (w_pg exampleWorld).
Proof.
  apply (MetaStore.steps_inv pgEmpty); [apply MetaStore.pg_inv_empty|].
  apply MetaStore.history_steps. MetaStore.run_history.
Qed.

(** ** Properties *)

(** C23: garbage collection never archives a list with a live credential.
    Whatever fails during a sweep of tables that satisfy their invariant, a
    list that the sweep took to ARCHIVED was FROZEN before, and every
    allocation recorded in it had expired at least the grace period before
    the sweep began. *)
Theorem sweep_archives_only_expired (s : Sweeper) (w w' : world) (res : result unit)
    (id : string) (row row' : list_row) :
  MetaStore.pg_inv (w_pg w) -> minInt64 < Grace s <= maxInt64 -> run (Sweep s) w = (res, w') ->
  lists (w_pg w) !! id = Some row -> r_state row <> ARCHIVED ->
  lists (w_pg w') !! id = Some row' -> r_state row' = ARCHIVED ->
  r_state row = FROZEN /\
  forall k al, allocations (w_pg w) !! (id, k) = Some al -> al_exp al + Grace s <= w_clock w.
Proof.
  intros Hinv Hg Hrun Hrow Hna Hrow' Har. pose proof (Sweep_only s w Hinv) as Hwp.
  unfold wp in Hwp. rewrite Hrun in Hwp. destruct (Hwp id row' Hrow') as (r & Hr & Himp).
  rewrite Hrow in Hr. injection Hr as <-. destruct (Himp Har) as [?|(r & Hr & Hs & Hm)]; [done|].
  rewrite Hrow in Hr. injection Hr as <-. split; [done|]. intros k al Hal.
  destruct (MetaStore.inv_sound _ Hinv id k al Hal) as (r & c & i & Hr & _ & _ & _ & e & He & Hle).
  rewrite Hrow in Hr. injection Hr as <-. rewrite He in Hm. unfold durNeg in Hm.
  rewrite i64_small in Hm by (unfold minInt64, maxInt64 in *; lia). lia.
Qed.

Lemma sweep_archives_only_expired_witness :
  exists row', lists (w_pg (run (Sweep exampleSweeper) exampleWorld).2) !! "s1.ab" = Some row' /\
    r_state row' = ARCHIVED /\
    forall k al, allocations (w_pg exampleWorld) !! ("s1.ab", k) = Some al -> al_exp al + 100 <= 1000.
Proof.
  assert (exists row, lists (w_pg exampleWorld) !! "s1.ab" = Some row /\ r_state row = FROZEN)
    as (row & Hrow & Hf) by (eexists; split; vm_compute; reflexivity).
  assert (exists row', lists (w_pg (run (Sweep exampleSweeper) exampleWorld).2) !! "s1.ab" = Some row' /\
    r_state row' = ARCHIVED) as (row' & Hrow' & Har) by (eexists; split; vm_compute; reflexivity).
  exists row'. split_and!; [exact Hrow'|exact Har|].
  apply (sweep_archives_only_expired exampleSweeper exampleWorld
    (run (Sweep exampleSweeper) exampleWorld).2 (run (Sweep exampleSweeper) exampleWorld).1
    "s1.ab" row row' gcWorld_inv); [unfold minInt64, maxInt64; simpl; lia| |exact Hrow| |exact Hrow'|exact Har].
  - by destruct (run (Sweep exampleSweeper) exampleWorld).
  - rewrite Hf. discriminate.
Defined.

(** C24: what a sweep that succeeds has done, when rows are kept forever
    ([DBRetention] not positive). Every list that was frozen and past the grace
    period is archived. Every list that was archived, not yet purged and past
    retention is marked purged; if it is of the sweeper's own shard, that
    shard's Redis holds neither its bitmap nor its version any more; if it is of
    another shard, that shard's Redis is as it was. The tables evolved only
    forward. *)
Theorem sweep_complete (s : Sweeper) (w w' : world) :
  MetaStore.pg_inv (w_pg w) -> DBRetention s <= 0 -> run (Sweep s) w = (Ok tt, w') ->
  MetaStore.pg_inv (w_pg w') /\ MetaStore.pg_evolves (w_pg w) (w_pg w') /\
  (forall sh, sh <> shard s -> redisOf w' sh = redisOf w sh) /\
  (forall id row, lists (w_pg w) !! id = Some row -> earned (w_clock w + durNeg (Grace s)) row ->
     archivedIn id w') /\
  (forall id row, lists (w_pg w) !! id = Some row ->
     pastRetention (w_clock w + durNeg (Retention s)) row = true ->
     purgedIn id w' /\
     if bool_decide (r_shard_id row = shard s) then erasedIn (r_shard_id row) id w'
     else redisOf w' (r_shard_id row) = redisOf w (r_shard_id row)).
Proof.
  intros Hinv Hdb Hrun. pose proof (Sweep_done s w Hinv Hdb) as Hwp. unfold wp in Hwp.
  rewrite Hrun in Hwp. destruct Hwp as (HI & (Hev & _ & Hoth) & Ha & Hp).
  split_and!; try done. intros id row Hr Hpast. destruct (Hp id row Hr Hpast) as [Hpu Her].
  split; [done|]. case_bool_decide as Hsh; [by rewrite Hsh|by apply Hoth].
Qed.

Lemma exampleSweep_ok :
  run (Sweep exampleSweeper) exampleWorld = (Ok tt, (run (Sweep exampleSweeper) exampleWorld).2).
Proof.
  assert ((run (Sweep exampleSweeper) exampleWorld).1 = Ok tt) as H by (vm_compute; reflexivity).
  destruct (run (Sweep exampleSweeper) exampleWorld). simpl in *. by rewrite H.
Qed.

(** The sweeper of shard "b" archives one list, and purges the other with its
    bitmap; the sweeper of shard "a" leaves that bitmap where it is. *)
Definition exampleSweeperB : Sweeper := MkSweeper "b" 100 200 0.

Lemma exampleSweepB_ok :
  run (Sweep exampleSweeperB) exampleWorld = (Ok tt, (run (Sweep exampleSweeperB) exampleWorld).2).
Proof.
  assert ((run (Sweep exampleSweeperB) exampleWorld).1 = Ok tt) as H by (vm_compute; reflexivity).
  destruct (run (Sweep exampleSweeperB) exampleWorld). simpl in *. by rewrite H.
Qed.

Lemma exampleRow_purgeable :
  exists row, lists (w_pg exampleWorld) !! "b.1" = Some row /\ r_shard_id row = "b" /\
    pastRetention (w_clock exampleWorld + durNeg 200) row = true.
Proof. eexists. split_and!; vm_compute; reflexivity. Qed.

Lemma sweep_complete_witness :
  archivedIn "s1.ab" (run (Sweep exampleSweeperB) exampleWorld).2 /\
  is_Some (redisOf exampleWorld "b" !! BitmapStore.bitmapKey "b.1") /\
  purgedIn "b.1" (run (Sweep exampleSweeperB) exampleWorld).2 /\
  erasedIn "b" "b.1" (run (Sweep exampleSweeperB) exampleWorld).2 /\
  purgedIn "b.1" (run (Sweep exampleSweeper) exampleWorld).2 /\
  redisOf (run (Sweep exampleSweeper) exampleWorld).2 "b" = redisOf exampleWorld "b".
Proof.
  destruct exampleRow_purgeable as (row & Hrow & Hsh & Hp).
  destruct (sweep_complete exampleSweeperB exampleWorld _ gcWorld_inv ltac:(simpl; lia)
    exampleSweepB_ok) as (_ & _ & _ & Ha & Hb).
  destruct (Hb "b.1" row Hrow Hp) as [Hb1 Hb2].
  destruct (sweep_complete exampleSweeper exampleWorld _ gcWorld_inv ltac:(simpl; lia)
    exampleSweep_ok) as (_ & _ & _ & _ & Hf).
  destruct (Hf "b.1" row Hrow Hp) as [Hf1 Hf2]. rewrite Hsh in Hb2, Hf2.
  split_and!; [|exists (RBytes [0]); vm_compute; reflexivity|exact Hb1|exact Hb2|exact Hf1|exact Hf2].
  eapply Ha; [vm_compute; reflexivity|]. split; [reflexivity|vm_compute; discriminate].
Defined.

(** The sweeper of one shard marks purged the lists of another whose
    bitmaps it never dropped. The queries do not select by shard: after a
    successful sweep by shard [shard s], an archived list of a different shard
    that is past retention has [purged] set, while its bitmap is still in its
    own shard's Redis; from then on no sweep of any shard selects it again. *)
Theorem sweep_marks_foreign_lists (s : Sweeper) (w w' : world) (id : string) (row : list_row) (v : rval) :
  MetaStore.pg_inv (w_pg w) -> DBRetention s <= 0 -> run (Sweep s) w = (Ok tt, w') ->
  lists (w_pg w) !! id = Some row -> r_shard_id row <> shard s ->
  pastRetention (w_clock w + durNeg (Retention s)) row = true ->
  redisOf w (r_shard_id row) !! BitmapStore.bitmapKey id = Some v ->
  redisOf w' (r_shard_id row) !! BitmapStore.bitmapKey id = Some v /\
  exists row', lists (w_pg w') !! id = Some row' /\ r_shard_id row' = r_shard_id row /\
    r_purged row' = true /\ forall cutoff, pastRetention cutoff row' = false.
Proof.
  intros Hinv Hdb Hrun Hrow Hsh Hp Hv. pose proof (Sweep_done s w Hinv Hdb) as Hwp. unfold wp in Hwp.
  rewrite Hrun in Hwp. destruct Hwp as (HI & (Hev & _ & Hoth) & _ & Hpurge).
  destruct (Hpurge id row Hrow Hp) as [(row' & Hrow' & Hp') _]. split; [by rewrite Hoth|].
  exists row'. split_and!; [done| |done|].
  - destruct (MetaStore.ev_rows _ _ Hev _ _ Hrow) as (r2 & Hr2 & He). simpl in *.
    rewrite Hr2 in Hrow'. injection Hrow' as <-. apply (MetaStore.ev_shard _ _ He).
  - intros cutoff. unfold pastRetention. by rewrite Hp', andb_false_r.
Qed.

Lemma sweep_marks_foreign_lists_witness :
  let w' := (run (Sweep exampleSweeper) exampleWorld).2 in
  redisOf w' "b" !! BitmapStore.bitmapKey "b.1" = Some (RBytes [0]) /\
  exists row', lists (w_pg w') !! "b.1" = Some row' /\ r_purged row' = true.
Proof.
  destruct exampleRow_purgeable as (row & Hrow & Hsh & Hp).
  destruct (sweep_marks_foreign_lists exampleSweeper exampleWorld _ "b.1" row (RBytes [0])
    gcWorld_inv ltac:(simpl; lia) exampleSweep_ok Hrow) as (Hb & row' & Hrow' & _ & Hp' & _).
  - rewrite Hsh. discriminate.
  - exact Hp.
  - rewrite Hsh. vm_compute. reflexivity.
  - rewrite Hsh in Hb. split; [exact Hb|]. exists row'. split; [exact Hrow'|exact Hp'].
Defined.

End Gc.
