(* ===== verification/Publisher.v ===== *)
(** * internal/publisher/publisher.go: building and caching the tokens

    [Publisher] holds a publisher's configuration; its mutable state, the
    cache and the debouncer, is the [pub_state] of its process in the world.
    [PublishIfStale], [MarkDirty] and the work they schedule ([dirtyPublish],
    [timerPublish]) and one tick of [Run] ([runTick]) are programs over the
    world. Section [Coherence] is the interleaving of status writes and
    publishes of one list, at the granularity of Redis commands: it shows why
    reading the version before the snapshot, and bumping it after the write,
    never leaves a stale token in the cache once the writes are done. *)

From S2P Require Import Prelude GoStrings Base64 Sha256 Signer Bitmap Token Cwt Prog Debounce World MetaStore BitmapStore Rely.

Module Publisher.

Section Publish.
Context `{!Signer.Ecdsa} `{!Token.Zlib} `{!Token.Json} `{!Cwt.Cbor}.

(** [bitmapsByShard] has an entry for each shard of [shards]. *)
Record Publisher := MkPublisher {
  proc : string;
  shards : list string;
  key : Signer.signer;
  keyID : string;
  baseURL : string;
  jwk : gmap string string;
  certChain : list string
}.

(** [p.cache[listID]] under the read lock. *)
Definition Get (p : Publisher) (listID : string) : prog world (option Published) :=
  act (fun w => (cache (pubOf w (proc p)) !! listID, w)).

(** [p.cache[listID] = pub] under the lock. *)
Definition store (p : Publisher) (listID : string) (pub : Published) : prog world unit :=
  act (fun w =>
    let ps := pubOf w (proc p) in
    (tt, set_pubs w (<[proc p := MkPubState (<[listID := pub]> (cache ps)) (debounce ps)]> (w_pubs w)))).

(** [int64((lm.Size*uint64(lm.Bits) + 7) / 8)]. *)
Definition byteLen (lm : MetaStore.ListMeta) : Z :=
  i64 (Bitmap.nBytes (MetaStore.Size lm) (MetaStore.Bits lm)).

Definition tokenParams (p : Publisher) (lm : MetaStore.ListMeta) (ttl now : Z) (bm : Bitmap.Bitmap) :
    Token.TokenParams :=
  Token.MkTokenParams (baseURL p +:+ "/lists/" +:+ MetaStore.ID lm) now ttl bm (keyID p)
    (Some (jwk p)) (certChain p).

(** The randomness one signature uses. *)
Definition nonce : prog world Z := randN (2 ^ 256).

(** Does the cached entry answer for this version and ttl? *)
Definition isFresh (c : Published) (liveVersion ttl : Z) : bool :=
  (Version c =? liveVersion) && (TTL c =? ttl).

(** The part after a cache miss: snapshot, build, sign, store. *)
Definition rebuild (p : Publisher) (lm : MetaStore.ListMeta) (ttl liveVersion : Z) :
    prog world (result Published) :=
  try! raw := BitmapStore.Snapshot (MetaStore.ShardID lm) (MetaStore.ID lm) (byteLen lm) in
  try! bm := Ret (Bitmap.WrapBitmap raw (MetaStore.Size lm) (MetaStore.Bits lm)) in
  let! now := getNow in
  let params := tokenParams p lm ttl now bm in
  let! n1 := nonce in
  try! token := Ret (Token.BuildToken (key p) params n1) in
  let! n2 := nonce in
  try! cwt := Ret (Cwt.BuildCWTToken (key p) params n2) in
  let pub := MkPublished token cwt liveVersion (MetaStore.Bits lm) ttl in
  store p (MetaStore.ID lm) pub ;;! Ret (Ok pub).

Definition PublishIfStale (p : Publisher) (lm : MetaStore.ListMeta) (ttl : Z) :
    prog world (result Published) :=
  if bool_decide (MetaStore.ShardID lm ∈ shards p) then
    try! liveVersion := BitmapStore.Version (MetaStore.ShardID lm) (MetaStore.ID lm) in
    let! cached := Get p (MetaStore.ID lm) in
    match cached with
    | Some c => if isFresh c liveVersion ttl then Ret (Ok c) else rebuild p lm ttl liveVersion
    | None => rebuild p lm ttl liveVersion
    end
  else Ret (Err (ErrMsg "publisher: no bitmap store configured for shard")).

(** The function MarkDirty hands to the debouncer; its errors are logged. *)
Definition dirtyPublish (p : Publisher) (listID : string) (ttl : Z) : prog world unit :=
  let! r := MetaStore.GetList listID in
  match r with
  | Ok (Some lm) => let! _ := PublishIfStale p lm ttl in Ret tt
  | _ => Ret tt
  end.

(** [time.Duration(ttlSeconds) * time.Second]. *)
Definition floor (ttl : Z) : Z := i64 (ttl * second).

(** The debouncer runs under its mutex; what it schedules becomes a job. *)
Definition MarkDirty (p : Publisher) (listID : string) (ttl : Z) : prog world unit :=
  act (fun w =>
    let ps := pubOf w (proc p) in
    let '(d, e) := Debounce.Trigger (debounce ps) listID (floor ttl) (w_clock w) (w_clock w) in
    let w := set_pubs w (<[proc p := MkPubState (cache ps) d]> (w_pubs w)) in
    match e with
    | Debounce.Nothing => (tt, w)
    | Debounce.GoFire => (tt, set_jobs w (MkJob (proc p) listID ttl None :: w_jobs w))
    | Debounce.AfterFunc delay =>
        (tt, set_jobs w (MkJob (proc p) listID ttl (Some (w_clock w + delay)) :: w_jobs w))
    end).

(** A job of this process taken from the pending ones: the goroutine, or the
    timer's function, which first updates the debouncer. *)
Definition takeJob (p : Publisher) (i : nat) : prog world (option job) :=
  act (fun w =>
    match w_jobs w !! i with
    | Some j =>
        let due := match j_due j with None => true | Some t => t <=? w_clock w end in
        if bool_decide (j_proc j = proc p) && due then
          let w1 := set_jobs w (delete i (w_jobs w)) in
          match j_due j with
          | None => (Some j, w1)
          | Some _ =>
              let ps := pubOf w1 (proc p) in
              let d := Debounce.timerBody (debounce ps) (j_list j) (w_clock w1) in
              (Some j, set_pubs w1 (<[proc p := MkPubState (cache ps) d]> (w_pubs w1)))
          end
        else (None, w)
    | None => (None, w)
    end).

Definition runJob (p : Publisher) (i : nat) : prog world unit :=
  let! j := takeJob p i in
  match j with
  | Some j => dirtyPublish p (j_list j) (j_ttl j)
  | None => Ret tt
  end.

(** One tick of [Run], with the lists and ttl its callback returned. *)
Definition runTick (p : Publisher) (lists : prog world (result (list MetaStore.ListMeta * Z))) :
    prog world unit :=
  let! r := lists in
  match r with
  | Err _ => Ret tt
  | Ok (ls, ttl) =>
      forLog ls (fun lm => let! r := PublishIfStale p lm ttl in
                           Ret (match r with Ok _ => Ok tt | Err e => Err e end))
  end.

End Publish.

(** New: the signer must be ECDSA, and its public half must render as a JWK
    (jose.JSONWebKey and encoding/json, both outside). *)
Class Jose `{!Signer.Ecdsa} := {
  marshalJWK : Signer.public -> result (list Z);
  unmarshalMap : list Z -> result (gmap string string)
}.

Section New.
Context `{!Signer.Ecdsa} `{!Jose}.
#[local] Open Scope go_scope.

Definition JWKFromPublicKey (pub : Signer.public) : result (gmap string string) :=
  let? raw := marshalJWK pub in unmarshalMap raw.

Definition New (proc_ : string) (shards_ : list string) (key_ : Signer.signer)
    (keyID_ baseURL_ : string) (certChain_ : list string) : result Publisher :=
  match Signer.Public key_ with
  | None => Err (ErrMsg "publisher: signing key's public half is not ECDSA")
  | Some pub =>
      let? jwk_ := JWKFromPublicKey pub in
      Ok (MkPublisher proc_ shards_ key_ keyID_ baseURL_ jwk_ certChain_)
  end.

End New.

(** ** The contract *)

#[local] Existing Instance Rely.Ev_preorder.

Section Contract.
Context `{!Signer.Ecdsa} `{!Token.Zlib} `{!Token.Json} `{!Cwt.Cbor}.

Lemma safe_rebuild {WA : Rely.Watching} p lm ttl lv (Q : result Published -> world -> Prop) w0 :
  (forall r w', Rely.Ev w0 w' -> Rely.Inv w' -> Q r w') -> Rely.safe (rebuild p lm ttl lv) Q w0.
Proof.
  intros HQ. unfold rebuild. apply Rely.safe_bindErr, Rely.safe_Snapshot.
  intros [raw|e] w1 HE1 HI1; [|Rely.rely_done]. apply Rely.safe_bindErr, Rely.safe_ret.
  destruct (Bitmap.WrapBitmap _ _ _) as [bm|e]; [|Rely.rely_done].
  apply Rely.safe_bind, Rely.safe_getNow. intros now w2 HE2 HI2.
  apply Rely.safe_bind, Rely.safe_randN. intros n1 w3 HE3 HI3. apply Rely.safe_bindErr, Rely.safe_ret.
  destruct (Token.BuildToken _ _ _) as [tok|e]; [|Rely.rely_done].
  apply Rely.safe_bind, Rely.safe_randN. intros n2 w4 HE4 HI4. apply Rely.safe_bindErr, Rely.safe_ret.
  destruct (Cwt.BuildCWTToken _ _ _) as [cwt|e]; [|Rely.rely_done].
  apply Rely.safe_bind, Rely.safe_act; [done|]. intros u w5 HE5 HI5. Rely.rely_done.
Qed.

Lemma safe_PublishIfStale {WA : Rely.Watching} p lm ttl (Q : result Published -> world -> Prop) w0 :
  Rely.Inv w0 -> (forall r w', Rely.Ev w0 w' -> Rely.Inv w' -> Q r w') ->
  Rely.safe (PublishIfStale p lm ttl) Q w0.
Proof.
  intros HI HQ. unfold PublishIfStale. case_bool_decide; [|Rely.rely_done].
  apply Rely.safe_bindErr, Rely.safe_Version. intros [v|e] w1 HE1 HI1; [|Rely.rely_done].
  apply Rely.safe_bind, Rely.safe_act; [done|]. intros cached w2 HE2 HI2.
  destruct cached as [c|]; [destruct (isFresh c v ttl)|]; [Rely.rely_done|..];
    apply safe_rebuild; intros r w3 HE3 HI3; Rely.rely_done.
Qed.

Lemma safe_dirtyPublish {WA : Rely.Watching} p listID ttl (Q : unit -> world -> Prop) w0 :
  (forall r w', Rely.Ev w0 w' -> Rely.Inv w' -> Q r w') -> Rely.safe (dirtyPublish p listID ttl) Q w0.
Proof.
  intros HQ. apply Rely.safe_bind, Rely.safe_GetList; [|intros; Rely.rely_done].
  intros [lm|] w1 HE1 HI1 _; [|Rely.rely_done].
  apply Rely.safe_bind, safe_PublishIfStale; [done|]. intros r w2 HE2 HI2. Rely.rely_done.
Qed.

Lemma safe_MarkDirty {WA : Rely.Watching} p listID ttl (Q : unit -> world -> Prop) w0 :
  (forall r w', Rely.Ev w0 w' -> Rely.Inv w' -> Q r w') -> Rely.safe (MarkDirty p listID ttl) Q w0.
Proof. apply Rely.safe_act. intros w. cbv beta zeta. by destruct (Debounce.Trigger _ _ _ _ _) as [d []]. Qed.

(** [MarkDirty] leaves the tables and the keyspaces alone. *)
Lemma MarkDirty_frame p id ttl w :
  wp (MarkDirty p id ttl)
    (fun _ w' => w_pg w' = w_pg w /\ forall s, redisOf w' s = redisOf w s) w.
Proof. apply wp_act. cbv beta zeta. by destruct (Debounce.Trigger _ _ _ _ _) as [d []]. Qed.

Lemma safe_runJob {WA : Rely.Watching} p i (Q : unit -> world -> Prop) w0 :
  (forall r w', Rely.Ev w0 w' -> Rely.Inv w' -> Q r w') -> Rely.safe (runJob p i) Q w0.
Proof.
  intros HQ. apply Rely.safe_bind, Rely.safe_act.
  { intros w. destruct (w_jobs w !! i) as [[q l t [due|]]|]; [| |done]; simpl; by destruct (_ && _). }
  intros [j|] w1 HE1 HI1; [|Rely.rely_done].
  apply safe_dirtyPublish. intros r w2 HE2 HI2. Rely.rely_done.
Qed.

Lemma safe_runTick {WA : Rely.Watching} p (ls : prog world (result (list MetaStore.ListMeta * Z)))
    (Q : unit -> world -> Prop) w0 :
  (forall Q' w, (forall r w', Rely.Ev w w' -> Rely.Inv w' -> Q' r w') -> Rely.safe ls Q' w) ->
  (forall r w', Rely.Ev w0 w' -> Rely.Inv w' -> Q r w') -> Rely.safe (runTick p ls) Q w0.
Proof.
  intros Hls HQ. apply Rely.safe_bind, Hls. intros [[l ttl]|e] w1 HE1 HI1; [|Rely.rely_done].
  apply Rely.safe_forLog; [done| |].
  - intros lm w2 _ HE2 HI2. apply Rely.safe_bind, safe_PublishIfStale; [done|].
    intros r w3 HE3 HI3. by apply Rely.safe_ret.
  - intros w2 HE2 HI2. Rely.rely_done.
Qed.

End Contract.

(** ** What a published token shows *)

Section Shows.
Context `{!Signer.Ecdsa} `{!Token.Zlib} `{!Token.Json} `{!Cwt.Cbor} `{!Token.JwtMethods}.

(** Both forms verify under [pub] and carry this list's URL, the ttl, and the
    bytes of the bitmap [bm]. *)
Definition shows (pub : Signer.public) (url : string) (bm : Bitmap.Bitmap) (c : Published) : Prop :=
  (forall now, exists cl, Token.ParseToken (Token c) pub now = Ok cl /\ Token.Subject cl = url /\
     Token.cTTL cl = TTL c /\ Token.slBits (Token.StatusList cl) = Bitmap.bits bm /\
     Token.DecodeLst (Token.Lst (Token.StatusList cl)) = Ok (Bitmap.data bm)) /\
  (exists cl, Cwt.ParseCWTToken (CWT c) pub = Ok cl /\ Cwt.rSubject cl = url /\
     Cwt.rTTL cl = TTL c /\ Cwt.rBits cl = Bitmap.bits bm /\ Cwt.rLst cl = Bitmap.data bm).

Definition listURL (p : Publisher) (lm : MetaStore.ListMeta) : string :=
  baseURL p +:+ "/lists/" +:+ MetaStore.ID lm.

(** The list as Redis holds it now. *)
Definition live (w : world) (lm : MetaStore.ListMeta) : Bitmap.Bitmap :=
  BitmapStore.view (redisOf w (MetaStore.ShardID lm)) (MetaStore.ID lm)
    (MetaStore.Size lm) (MetaStore.Bits lm).

Definition liveVersion (w : world) (lm : MetaStore.ListMeta) : Z :=
  BitmapStore.version (redisOf w (MetaStore.ShardID lm)) (MetaStore.ID lm).

(** What the publisher needs of the list. *)
Definition publishable (lm : MetaStore.ListMeta) : Prop :=
  Bitmap.ValidBitWidth (MetaStore.Bits lm) = true /\ Bitmap.sizeOk (MetaStore.Size lm).

Lemma byteLen_eq lm :
  publishable lm -> byteLen lm = Bitmap.nBytes (MetaStore.Size lm) (MetaStore.Bits lm) /\ 0 <= byteLen lm.
Proof.
  intros [Hb Hs]. unfold byteLen. rewrite (Bitmap.nBytes_eq _ _ Hb Hs).
  destruct (Bitmap.width_small _ _ Hb Hs) as [_ Hw].
  assert (0 <= (MetaStore.Size lm * MetaStore.Bits lm + 7) / 8 < 2 ^ 62) by (Z.div_mod_to_equations; lia).
  rewrite i64_small by (unfold minInt64, maxInt64; lia). lia.
Qed.

Context `{!Signer.EcdsaLaws _} `{!Token.ZlibLaws _} `{!Token.JsonLaws _} `{!Cwt.CborLaws _}.

(** Both builds of one bitmap. *)
Lemma builds_show p lm ttl now bm pub n1 n2 token cwt v :
  Signer.Public (key p) = Some pub -> bytes_ok (Bitmap.data bm) ->
  GoStrings.isASCII (listURL p lm) = true ->
  Token.BuildToken (key p) (tokenParams p lm ttl now bm) n1 = Ok token ->
  Cwt.BuildCWTToken (key p) (tokenParams p lm ttl now bm) n2 = Ok cwt ->
  shows pub (listURL p lm) bm (MkPublished token cwt v (MetaStore.Bits lm) ttl).
Proof.
  intros Hpub Hok Hurl Ht Hc. split.
  - intros t. destruct (Token.BuildToken_parse (key p) pub (tokenParams p lm ttl now bm) n1 token t Hpub Hok Hurl Ht) as (lst & Hp & Hd).
    eexists. split; [exact Hp|]. done.
  - eexists. split; [exact (Cwt.BuildCWTToken_parse (key p) pub (tokenParams p lm ttl now bm) n2 cwt Hpub Hok
      (GoStrings.ASCII_valid _ Hurl) Hc)|]. done.
Qed.

(** Only this publisher's cache entry for this list may differ. *)
Definition publishes (p : Publisher) (w w' : world) (f : gmap string Published -> gmap string Published) : Prop :=
  w_pg w' = w_pg w /\ (forall s, redisOf w' s = redisOf w s) /\
  (forall q, q <> proc p -> pubOf w' q = pubOf w q) /\
  debounce (pubOf w' (proc p)) = debounce (pubOf w (proc p)) /\
  cache (pubOf w' (proc p)) = f (cache (pubOf w (proc p))).

Lemma quiet_publishes p w w' : quiet w w' -> publishes p w w' id.
Proof.
  intros (Hpg & Hr & Hp). unfold publishes, pubOf. rewrite Hp. done.
Qed.

Lemma rebuild_spec p lm ttl lv pub w0 w :
  Signer.Public (key p) = Some pub -> publishable lm ->
  BitmapStore.keyspace_ok (redisOf w0 (MetaStore.ShardID lm)) ->
  GoStrings.isASCII (listURL p lm) = true -> quiet w0 w ->
  wp (rebuild p lm ttl lv)
    (fun r w' => match r with
                 | Err _ => publishes p w0 w' id
                 | Ok c => publishes p w0 w' (insert (MetaStore.ID lm) c) /\
                     Version c = lv /\ TTL c = ttl /\ shows pub (listURL p lm) (live w0 lm) c
                 end) w.
Proof.
  intros Hpub Hlm Hks Hurl Hq0. destruct (byteLen_eq lm Hlm) as [Hlen Hpos].
  assert (BitmapStore.keyspace_ok (redisOf w (MetaStore.ShardID lm))) as Hks1
    by (destruct Hq0 as (_ & Hr & _); by rewrite Hr).
  unfold rebuild, BitmapStore.Snapshot. apply wp_bindErr, wp_bindErr, wp_redis_read; [done| |].
  2: { intros w' Hq. apply quiet_publishes. by etrans. }
  intros w1 Hq1. cbn [BitmapStore.get fst]. apply wp_ret.
  rewrite BitmapStore.snapshotOf_view by done.
  apply wp_bindErr, wp_ret. destruct Hlm as [Hb Hs]. pose proof (BitmapStore.view_wf _ (MetaStore.ID lm) _ _ Hks Hb Hs) as Hwf.
  assert (Bitmap.WrapBitmap (BitmapStore.padTo (byteLen lm)
      (BitmapStore.bitmapBytes (redisOf w (MetaStore.ShardID lm)) (MetaStore.ID lm)))
      (MetaStore.Size lm) (MetaStore.Bits lm) = Ok (live w0 lm)) as ->.
  { destruct Hq0 as (_ & Hr & _). unfold live, BitmapStore.view. rewrite Hr, <- Hlen.
    unfold Bitmap.WrapBitmap. rewrite Hb, <- Hlen, BitmapStore.length_padTo, Z2Nat.id, Z.eqb_refl by lia.
    done. }
  apply wp_bind, wp_getNow, wp_bind, wp_randN. intros n1 w2 Hq2.
  apply wp_bindErr, wp_ret.
  destruct (Token.BuildToken (key p) _ n1) as [token|e] eqn:Et.
  2: { apply quiet_publishes. etrans; [exact Hq0|]. etrans; [exact Hq1|exact Hq2]. }
  apply wp_bind, wp_randN. intros n2 w3 Hq3. apply wp_bindErr, wp_ret.
  assert (quiet w0 w3) as Hq by (etrans; [exact Hq0|]; etrans; [exact Hq1|]; etrans; [exact Hq2|exact Hq3]).
  destruct (Cwt.BuildCWTToken (key p) _ n2) as [cwt|e] eqn:Ec; [|by apply quiet_publishes].
  apply wp_bind, wp_act. cbn [fst snd]. apply wp_ret. split_and!; [|done|done|].
  - destruct Hq as (Hpg & Hr & Hp). unfold publishes, pubOf, redisOf in *. simpl.
    split_and!; [done|done| | |].
    + intros q Hne. by rewrite lookup_insert_ne, Hp by done.
    + by rewrite lookup_insert_eq, Hp.
    + by rewrite lookup_insert_eq, Hp.
  - eapply builds_show; [exact Hpub|apply Hwf|exact Hurl|exact Et|exact Ec].
Qed.

Lemma PublishIfStale_wp p lm ttl pub w :
  Signer.Public (key p) = Some pub -> publishable lm ->
  BitmapStore.keyspace_ok (redisOf w (MetaStore.ShardID lm)) ->
  GoStrings.isASCII (listURL p lm) = true ->
  wp (PublishIfStale p lm ttl)
    (fun r w' => match r with
       | Err _ => publishes p w w' id
       | Ok c => Version c = liveVersion w lm /\ TTL c = ttl /\
           (publishes p w w' id /\ cache (pubOf w (proc p)) !! MetaStore.ID lm = Some c \/
            publishes p w w' (insert (MetaStore.ID lm) c) /\ shows pub (listURL p lm) (live w lm) c)
       end) w.
Proof.
  intros Hpub Hlm Hks Hurl. unfold PublishIfStale.
  case_bool_decide; [|by apply wp_ret, quiet_publishes].
  unfold BitmapStore.Version. apply wp_bindErr, wp_bindErr, wp_redis_read; [done| |].
  2: { intros w' Hq. by apply quiet_publishes. }
  intros w1 Hq1. cbn [BitmapStore.get fst]. apply wp_ret.
  assert (BitmapStore.versionOf
      (redisOf w (MetaStore.ShardID lm) !! BitmapStore.versionKey (MetaStore.ID lm)) =
      Ok (liveVersion w lm)) as ->.
  { by apply BitmapStore.versionOf_version. }
  assert (wp (rebuild p lm ttl (liveVersion w lm))
    (fun r w' => match r with
       | Err _ => publishes p w w' id
       | Ok c => Version c = liveVersion w lm /\ TTL c = ttl /\
           (publishes p w w' id /\ cache (pubOf w (proc p)) !! MetaStore.ID lm = Some c \/
            publishes p w w' (insert (MetaStore.ID lm) c) /\ shows pub (listURL p lm) (live w lm) c)
       end) w1) as Hrebuild.
  { eapply wp_mono; [by apply (rebuild_spec p lm ttl _ pub w)|].
    intros [c|e] w' Hr; [|done]. destruct Hr as (? & ? & ? & ?). split_and!; auto. }
  apply wp_bind, wp_act. cbn [fst snd].
  destruct (cache (pubOf w1 (proc p)) !! MetaStore.ID lm) as [c|] eqn:Hc; [|done].
  destruct (isFresh c (liveVersion w lm) ttl) eqn:Hf; [|done].
  apply andb_true_iff in Hf as [Hv%Z.eqb_eq Ht%Z.eqb_eq]. apply wp_ret.
  split_and!; [done..|]. left. split; [by apply quiet_publishes|].
  destruct Hq1 as (_ & _ & Hp). unfold pubOf in *. by rewrite Hp in Hc.
Qed.

End Shows.

(** ** Writes and publishes of one list, interleaved *)

Section Coherence.
Context (id : string) (byteLength : Z).

(** What a publish has done so far: read the version, or taken the snapshot. *)
Inductive phase : Type :=
| HasVersion (v : Z)
| HasSnapshot (v : Z) (bytes : list Z).

(** The keyspace of the shard, the writes between their script and their
    INCR, the publishes under way, and the cached version and bytes. *)
Record csys := MkCsys {
  c_redis : gmap string rval;
  c_inflight : nat;
  c_publishes : list phase;
  c_cache : option (Z * list Z)
}.

Definition currentBytes (s : csys) : list Z :=
  BitmapStore.padTo byteLength (BitmapStore.bitmapBytes (c_redis s) id).

Definition currentVersion (s : csys) : Z := BitmapStore.version (c_redis s) id.

(** The Redis commands of SetStatus and of PublishIfStale, each atomic. *)
Inductive cstep : csys -> csys -> Prop :=
| c_script s byteIdx bitOffset bits value nb m' :
    BitmapStore.setByteScript (BitmapStore.bitmapKey id) byteIdx bitOffset bits value (c_redis s) =
      (Ok nb, m') ->
    cstep s (MkCsys m' (S (c_inflight s)) (c_publishes s) (c_cache s))
| c_incr s n v m' :
    c_inflight s = S n ->
    BitmapStore.incr (BitmapStore.versionKey id) (c_redis s) = (Ok v, m') ->
    cstep s (MkCsys m' n (c_publishes s) (c_cache s))
| c_version s v :
    BitmapStore.versionOf (c_redis s !! BitmapStore.versionKey id) = Ok v ->
    cstep s (MkCsys (c_redis s) (c_inflight s) (HasVersion v :: c_publishes s) (c_cache s))
| c_snapshot s i v raw :
    c_publishes s !! i = Some (HasVersion v) ->
    BitmapStore.snapshotOf byteLength (c_redis s !! BitmapStore.bitmapKey id) = Ok raw ->
    cstep s (MkCsys (c_redis s) (c_inflight s) (<[i := HasSnapshot v raw]> (c_publishes s)) (c_cache s))
| c_store s i v raw :
    c_publishes s !! i = Some (HasSnapshot v raw) ->
    cstep s (MkCsys (c_redis s) (c_inflight s) (delete i (c_publishes s)) (Some (v, raw))).

(** A version and bytes taken at some moment: still current, or behind the
    number of scripts that have run. *)
Definition taken (s : csys) (v : Z) (raw : list Z) : Prop :=
  v <= currentVersion s /\
  (raw = currentBytes s \/ v < currentVersion s + Z.of_nat (c_inflight s)).

Definition phase_ok (s : csys) (ph : phase) : Prop :=
  match ph with
  | HasVersion v => v <= currentVersion s
  | HasSnapshot v raw => taken s v raw
  end.

Record cinv (s : csys) : Prop := {
  cinv_keys : BitmapStore.keyspace_ok (c_redis s);
  cinv_publishes : Forall (phase_ok s) (c_publishes s);
  cinv_cache : forall v raw, c_cache s = Some (v, raw) -> taken s v raw
}.

(** Steps that move the version forward, or leave it and the bytes, keep what
    was taken. *)
Lemma taken_mono s s' :
  currentVersion s <= currentVersion s' ->
  (currentBytes s' = currentBytes s /\
     currentVersion s + Z.of_nat (c_inflight s) <= currentVersion s' + Z.of_nat (c_inflight s') \/
   currentVersion s + Z.of_nat (c_inflight s) < currentVersion s' + Z.of_nat (c_inflight s')) ->
  forall v raw, taken s v raw -> taken s' v raw.
Proof.
  intros Hv Hcase v raw [Hle Hor]. split; [lia|].
  destruct Hcase as [[Hb Hn]|Hn]; [rewrite Hb|]; destruct Hor; auto with lia.
Qed.

Lemma cinv_mono s s' :
  cinv s -> BitmapStore.keyspace_ok (c_redis s') -> c_publishes s' = c_publishes s ->
  c_cache s' = c_cache s -> currentVersion s <= currentVersion s' ->
  (forall v raw, taken s v raw -> taken s' v raw) -> cinv s'.
Proof.
  intros [] Hk Hp Hc Hv Ht. split; [done| |].
  - rewrite Hp. eapply Forall_impl; [done|]. intros [v|v raw]; simpl; [lia|auto].
  - rewrite Hc. auto.
Qed.

Lemma cstep_inv s s' : 0 <= byteLength -> cinv s -> cstep s s' -> cinv s'.
Proof.
  intros HL Hinv Hstep. pose proof Hinv as [Hk Hp Hc]. destruct Hstep as
    [s by_ off bits val nb m' Hrun|s n v m' Hn Hrun|s v Hrun|s i v raw Hi Hrun|s i v raw Hi].
  - destruct (BitmapStore.script_ok_bytes _ _ _ _ _ _ _ _ Hk Hrun) as (raw' & -> & Hraw).
    apply (cinv_mono s); simpl; try done.
    + by apply BitmapStore.keyspace_ok_set_bitmap.
    + unfold currentVersion. simpl. by rewrite BitmapStore.version_set_bitmap.
    + apply taken_mono; unfold currentVersion; simpl; rewrite BitmapStore.version_set_bitmap; lia.
  - destruct (BitmapStore.incr_version (c_redis s) id Hk) as [[He Hlt]|[e He]]; rewrite He in Hrun;
      [|done]. injection Hrun as <- <-.
    assert (0 <= BitmapStore.version (c_redis s) id) by (by apply BitmapStore.version_nonneg).
    assert (currentVersion (MkCsys (<[BitmapStore.versionKey id :=
      RInt (BitmapStore.version (c_redis s) id + 1)]> (c_redis s)) n (c_publishes s) (c_cache s))
      = currentVersion s + 1) as Hv.
    { unfold currentVersion. simpl. by rewrite BitmapStore.version_set, decide_True. }
    apply (cinv_mono s); try done; try lia.
    + simpl. apply BitmapStore.keyspace_ok_set_version; [done|]. lia.
    + apply taken_mono; [lia|]. left. rewrite Hv, Hn. simpl. split; [|lia].
      unfold currentBytes. simpl. by rewrite BitmapStore.bitmapBytes_version.
  - assert (v = currentVersion s) as ->.
    { rewrite (BitmapStore.versionOf_version _ _ Hk) in Hrun. by injection Hrun. }
    split; simpl; [done| |done]. constructor; [simpl; reflexivity|done].
  - rewrite (BitmapStore.snapshotOf_view _ _ _ Hk HL) in Hrun. injection Hrun as <-.
    split; simpl; [done| |done]. apply Forall_insert; [done|].
    split; [exact (Forall_lookup_1 _ _ _ _ Hp Hi)|by left].
  - split; simpl; [done|by apply Forall_delete|]. intros v' raw' [= <- <-].
    exact (Forall_lookup_1 _ _ _ _ Hp Hi).
Qed.

Definition cinit (m : gmap string rval) : csys := MkCsys m 0 [] None.

Lemma cinv_reachable m s :
  0 <= byteLength -> BitmapStore.keyspace_ok m -> rtc cstep (cinit m) s -> cinv s.
Proof.
  intros HL Hm Hsteps. apply (rtc_invariant cstep cinv) in Hsteps; [done| |by split].
  intros s1 s2. by apply cstep_inv.
Qed.

End Coherence.

(** ** Properties *)

(** C20: what PublishIfStale returns, under any failures. If it returns a
    token, its version and ttl are the list's current version and the ttl
    asked for, and either the token was the cached one and nothing changed, or
    it is freshly built: its JWT and CWT forms both verify under the signer's
    key and carry exactly the bytes Redis holds for the list, and it is now
    the cached one. If it fails, the cache is as it was. In no case are the
    tables, the bitmaps or another process's publisher touched. *)
Theorem PublishIfStale_spec `{!Signer.Ecdsa} `{!Token.Zlib} `{!Token.Json} `{!Cwt.Cbor}
    `{!Token.JwtMethods} `{!Signer.EcdsaLaws _} `{!Token.ZlibLaws _} `{!Token.JsonLaws _}
    `{!Cwt.CborLaws _} (p : Publisher) (lm : MetaStore.ListMeta) (ttl : Z) (pub : Signer.public)
    (w : world) :
  Signer.Public (key p) = Some pub -> publishable lm ->
  BitmapStore.keyspace_ok (redisOf w (MetaStore.ShardID lm)) ->
  GoStrings.isASCII (listURL p lm) = true ->
  let '(r, w') := run (PublishIfStale p lm ttl) w in
  match r with
  | Err _ => publishes p w w' id
  | Ok c => Version c = liveVersion w lm /\ TTL c = ttl /\
      (publishes p w w' id /\ cache (pubOf w (proc p)) !! MetaStore.ID lm = Some c \/
       publishes p w w' (insert (MetaStore.ID lm) c) /\ shows pub (listURL p lm) (live w lm) c)
  end.
Proof.
  intros Hpub Hlm Hks Hurl. pose proof (PublishIfStale_wp p lm ttl pub w Hpub Hlm Hks Hurl) as Hwp.
  unfold wp in Hwp. destruct (run (PublishIfStale p lm ttl) w). exact Hwp.
Qed.

#[local] Existing Instances Token.Concrete.ecdsa Token.Concrete.ecdsa_laws Token.Concrete.zlib
  Token.Concrete.zlib_laws Token.Concrete.json Token.Concrete.json_laws Token.Concrete.methods
  Cwt.Concrete.cbor Cwt.Concrete.cbor_laws.

Definition examplePublisher : Publisher :=
  MkPublisher "verifier" ["s"] Token.Concrete.key "k1" "https://v.example" ∅ [].

Definition exampleList : MetaStore.ListMeta :=
  MetaStore.MkListMeta "s.1" 2 8 0 [] None ACTIVE 0 None "s" false None.

Definition exampleWorld : world :=
  (run (BitmapStore.SetStatus "s" "s.1" 1 2 2 1) (MkWorld pgEmpty ∅ ∅ [] 0 [] [])).2.

Lemma exampleWorld_ok : BitmapStore.keyspace_ok (redisOf exampleWorld "s").
Proof.
  replace (redisOf exampleWorld "s") with
    (<[BitmapStore.versionKey "s.1" := RInt 1]>
       (<[BitmapStore.bitmapKey "s.1" := RBytes [0; 4]]> (∅ : gmap string rval)))
    by (vm_compute; reflexivity).
  apply BitmapStore.keyspace_ok_set_version; [|unfold maxInt64; lia].
  apply BitmapStore.keyspace_ok_set_bitmap; [apply BitmapStore.keyspace_ok_empty|].
  repeat constructor; lia.
Qed.

(** Nothing fails in this world. *)
Lemma examplePublish_ok :
  wp (PublishIfStale examplePublisher exampleList 60) (fun r _ => is_ok r = true) exampleWorld.
Proof.
  assert (w_script exampleWorld = []) as Hcalm by (vm_compute; reflexivity).
  unfold PublishIfStale. rewrite bool_decide_true by set_solver.
  unfold BitmapStore.Version. apply wp_bindErr, wp_bindErr, wp_act. rewrite redisAct_calm by done.
  cbn [fst snd BitmapStore.get]. apply wp_ret.
  replace (BitmapStore.versionOf _) with (@Ok Z 1) by (vm_compute; reflexivity).
  set (w1 := set_redis _ _). apply wp_bind, wp_act. cbn [fst snd].
  replace (cache (pubOf w1 (proc examplePublisher)) !! MetaStore.ID exampleList)
    with (@None Published) by (vm_compute; reflexivity).
  unfold rebuild, BitmapStore.Snapshot. apply wp_bindErr, wp_bindErr, wp_act.
  rewrite redisAct_calm by (vm_compute; reflexivity). cbn [fst snd BitmapStore.get]. apply wp_ret.
  replace (BitmapStore.snapshotOf _ _) with (@Ok (list Z) [0; 4]) by (vm_compute; reflexivity).
  apply wp_bindErr, wp_ret.
  replace (Bitmap.WrapBitmap _ _ _) with (@Ok Bitmap.Bitmap (Bitmap.MkBitmap 2 8 [0; 4]))
    by (vm_compute; reflexivity).
  apply wp_bind, wp_getNow, wp_bind, wp_randN. intros n1 w2 _. apply wp_bindErr, wp_ret.
  set (params := tokenParams _ _ _ _ _). change (key examplePublisher) with Token.Concrete.key.
  destruct (Token.Concrete.BuildToken_ok params n1) as [tok ->].
  apply wp_bind, wp_randN. intros n2 w3 _. apply wp_bindErr, wp_ret. change (key examplePublisher) with Token.Concrete.key.
  destruct (Cwt.Concrete.BuildCWTToken_ok params n2 eq_refl) as [cwt ->].
  apply wp_bind, wp_act. by apply wp_ret.
Qed.

Lemma PublishIfStale_spec_witness :
  exists c w', run (PublishIfStale examplePublisher exampleList 60) exampleWorld = (Ok c, w') /\
    Version c = 1 /\ TTL c = 60 /\
    shows Token.Concrete.pub "https://v.example/lists/s.1" (live exampleWorld exampleList) c.
Proof.
  pose proof (PublishIfStale_spec examplePublisher exampleList 60 Token.Concrete.pub exampleWorld
    ltac:(reflexivity) ltac:(repeat split; done || lia) exampleWorld_ok
    ltac:(vm_compute; reflexivity)) as Hspec.
  destruct (run (PublishIfStale examplePublisher exampleList 60) exampleWorld) as [[c|e] w'] eqn:E.
  - exists c, w'. destruct Hspec as (Hv & Ht & [[_ Hc]|[_ Hs]]); [vm_compute in Hc; discriminate|].
    split_and!; [reflexivity|exact Hv|exact Ht|exact Hs].
  - exfalso. pose proof examplePublish_ok as Hok. unfold wp in Hok. rewrite E in Hok. discriminate.
Defined.

(** The cache is never silently stale. Take any interleaving of status
    writes (script, then INCR) and publishes (version, then snapshot, then
    store) of one list, by any number of writers and publishers. Whenever no
    write is between its two commands, a cached token whose version equals the
    list's version was built from the bytes the list has now: a publisher that
    answers from its cache answers what it would have rebuilt. *)
Theorem cache_coherent (id : string) (byteLength : Z) (m : gmap string rval) (s : csys)
    (v : Z) (raw : list Z) :
  0 <= byteLength -> BitmapStore.keyspace_ok m ->
  rtc (cstep id byteLength) (cinit m) s ->
  c_inflight s = 0%nat -> c_cache s = Some (v, raw) -> v = currentVersion id s ->
  raw = currentBytes id byteLength s.
Proof.
  intros HL Hm Hsteps Hq Hc ->.
  destruct (cinv_cache _ _ _ (cinv_reachable id byteLength m s HL Hm Hsteps) _ _ Hc) as [_ [Ht|Ht]]; [done|].
  rewrite Hq in Ht. lia.
Qed.

(** One write, then one publish. *)
Definition example1 : gmap string rval :=
  (BitmapStore.setByteScript (BitmapStore.bitmapKey "s.1") 0 4 2 1 ∅).2.

Definition example2 : gmap string rval := (BitmapStore.incr (BitmapStore.versionKey "s.1") example1).2.

Definition exampleCsys : csys := MkCsys example2 0 [] (Some (1, [16; 0])).

Lemma exampleCsys_reachable : rtc (cstep "s.1" 2) (cinit ∅) exampleCsys.
Proof.
  apply (rtc_l _ _ (MkCsys example1 1 [] None)).
  { refine (c_script "s.1" 2 (cinit ∅) 0 4 2 1 16 example1 _). vm_compute. reflexivity. }
  apply (rtc_l _ _ (MkCsys example2 0 [] None)).
  { refine (c_incr "s.1" 2 (MkCsys example1 1 [] None) 0 1 example2 eq_refl _).
    vm_compute. reflexivity. }
  apply (rtc_l _ _ (MkCsys example2 0 [HasVersion 1] None)).
  { refine (c_version "s.1" 2 (MkCsys example2 0 [] None) 1 _). vm_compute. reflexivity. }
  apply (rtc_l _ _ (MkCsys example2 0 [HasSnapshot 1 [16; 0]] None)).
  { refine (c_snapshot "s.1" 2 (MkCsys example2 0 [HasVersion 1] None) 0 1 [16; 0] eq_refl _).
    vm_compute. reflexivity. }
  apply rtc_once.
  exact (c_store "s.1" 2 (MkCsys example2 0 [HasSnapshot 1 [16; 0]] None) 0 1 [16; 0] eq_refl).
Qed.

Lemma cache_coherent_witness :
  currentVersion "s.1" exampleCsys = 1 /\ [16; 0] = currentBytes "s.1" 2 exampleCsys.
Proof.
  assert (currentVersion "s.1" exampleCsys = 1) as Hv by (vm_compute; reflexivity).
  split; [exact Hv|].
  apply (cache_coherent "s.1" 2 ∅ exampleCsys 1 [16; 0]);
    [lia|exact BitmapStore.keyspace_ok_empty|exact exampleCsys_reachable|reflexivity..|].
  symmetry. exact Hv.
Defined.

End Publisher.
