(* ===== verification/Ingestion.v ===== *)
(** * internal/ingestion: allocation, status updates, accounting

    The issuer-facing HTTP service. A request reaches a handler as what gin
    and the middleware hand it: the authentication result ([Result], of the
    go-tokenauth package), the path parameters, and the outcome of binding the
    JSON body; a handler is a program over the world that returns a
    [response]. [route] puts the middleware of [Router] in front of it. The
    theorems: what a 201 and a 204 mean for the database and the bitmap, that
    nobody but the owner of an index can change a bitmap, and that a width-1
    list turns SUSPENDED into VALID. *)

From Stdlib Require Import Ascii.
From S2P Require Import Prelude GoStrings Sha256 Signer Allocator Bitmap Token Cwt Prog Debounce World MetaStore BitmapStore Rely Pool Publisher.

Module Ingestion.

(** ** Data *)

(** go-tokenauth's validation result, an input of the handlers: who the token
    is for, and in [TAC] the permissions for which its MustHaveTAC lets a
    request through. *)
Record Result := MkResult {
  UserID : string;
  TenantID : string;
  TAC : list string
}.

Inductive response : Type :=
| JSONError (code : Z) (message : string)
| Created (listURL : string) (index exp : Z)            (* 201 *)
| NoContent                                             (* 204 *)
| UsageOK (issuer : string) (usage : list (string * Z)) (* 200 *)
| Healthz (shard : string).                             (* 200 *)

Definition code (r : response) : Z :=
  match r with
  | JSONError c _ => c
  | Created _ _ _ => 201
  | NoContent => 204
  | UsageOK _ _ | Healthz _ => 200
  end.

Definition maxAllocateAttempts : nat := 5.

Definition statusNames (s : string) : option Z :=
  if bool_decide (s = "VALID") then Some Bitmap.StatusValid
  else if bool_decide (s = "INVALID") then Some Bitmap.StatusInvalid
  else if bool_decide (s = "SUSPENDED") then Some Bitmap.StatusSuspended
  else None.

Definition tacAllocate : string := "i".
Definition tacSetStatus : string := "w".
Definition tacAccounting : string := "r".

Section Handlers.
Context `{!Signer.Ecdsa}.

Record Server := MkServer {
  ShardID : string;
  BaseURL : string;
  MaxExpiry : Z;
  DefaultTTLSeconds : Z;
  pub : Publisher.Publisher;
  pool : Pool.Manager
}.

(** ** POST /allocate *)

(** The retry loop. *)
Fixpoint allocateLoop (attempts : nat) (s : Server) (issuerID : string) (exp : Z) :
    prog world response :=
  match attempts with
  | O => Ret (JSONError 503 "could not allocate after retrying against the active pool; try again shortly")
  | S attempts =>
      let! picked := Pool.PickForAllocation (pool s) in
      match picked with
      | Err _ => Ret (JSONError 500 "could not obtain an active list")
      | Ok None => Ret (JSONError 503 "no active list available")
      | Ok (Some lm) =>
          match Allocator.New (MetaStore.FPEKey lm) (MetaStore.Size lm) with
          | Err _ => Ret (JSONError 500 "internal allocator error")
          | Ok alloc =>
              let! reserved := MetaStore.ReserveCursorAndRecord (MetaStore.ID lm) issuerID (ShardID s)
                                 exp (Allocator.Index alloc) in
              match reserved with
              | Err ErrListFull => allocateLoop attempts s issuerID exp
              | Err _ => Ret (JSONError 500 "could not allocate an index")
              | Ok idx =>
                  let off := Bitmap.ByteOffset idx (MetaStore.Bits lm) in
                  let! set := BitmapStore.SetStatus (ShardID s) (MetaStore.ID lm) off.1 off.2
                                (MetaStore.Bits lm) (u8 Bitmap.StatusValid) in
                  match set with
                  | Err _ => Ret (JSONError 500 "could not initialize allocated index")
                  | Ok _ =>
                      Publisher.MarkDirty (pub s) (MetaStore.ID lm) (DefaultTTLSeconds s) ;;!
                      Ret (Created (BaseURL s +:+ "/lists/" +:+ MetaStore.ID lm) idx exp)
                  end
              end
          end
      end
  end.

(** [body]: [None] when ContentLength is 0, otherwise what binding gave, the
    zero time when the field is absent. *)
Definition handleAllocate (s : Server) (issuerID : string) (body : option (result Z)) :
    prog world response :=
  match body with
  | Some (Err _) => Ret (JSONError 400 "invalid request")
  | _ =>
      let reqExp := match body with Some (Ok e) => e | _ => zeroTime end in
      let! now := getNow in
      let maxExp := now + MaxExpiry s in
      if reqExp =? zeroTime then allocateLoop maxAllocateAttempts s issuerID maxExp
      else if maxExp <? reqExp then
        Ret (JSONError 400 "exp exceeds the maximum allowed expiration")
      else allocateLoop maxAllocateAttempts s issuerID reqExp
  end.

(** ** PATCH /status/{listID}/{idx} *)

(** [body]: the status string, or the binding error. *)
Definition handleSetStatus (s : Server) (issuerID listID idxParam : string) (body : result string) :
    prog world response :=
  match GoStrings.ParseUint idxParam with
  | Err _ => Ret (JSONError 400 "invalid index")
  | Ok idx =>
      match body with
      | Err _ => Ret (JSONError 400 "invalid request")
      | Ok name =>
          match statusNames name with
          | None => Ret (JSONError 400 "unknown status value; expected VALID, INVALID, or SUSPENDED")
          | Some status =>
              let! owner := MetaStore.CheckOwnership listID idx issuerID in
              match owner with
              | Err ErrNotOwner => Ret (JSONError 403 "you do not own this index")
              | Err _ => Ret (JSONError 500 "could not verify ownership")
              | Ok _ =>
                  let! got := MetaStore.GetList listID in
                  match got with
                  | Err _ | Ok None => Ret (JSONError 404 "list not found")
                  | Ok (Some lm) =>
                      if bool_decide (MetaStore.State lm = ARCHIVED) then
                        Ret (JSONError 410 "this status list has been archived; no further updates are possible")
                      else
                        let off := Bitmap.ByteOffset idx (MetaStore.Bits lm) in
                        let! set := BitmapStore.SetStatus (ShardID s) listID off.1 off.2
                                      (MetaStore.Bits lm) (u8 status) in
                        match set with
                        | Err _ => Ret (JSONError 500 "could not update status")
                        | Ok _ =>
                            Publisher.MarkDirty (pub s) listID (DefaultTTLSeconds s) ;;! Ret NoContent
                        end
                  end
              end
          end
      end
  end.

(** ** GET /accounting/me *)

Definition handleAccountingMe (issuerID : string) : prog world response :=
  let! r := MetaStore.GetUsage issuerID in
  match r with
  | Err _ => Ret (JSONError 500 "could not look up usage")
  | Ok usage =>
      Ret (UsageOK issuerID ((fun u => (MetaStore.uShardID u, MetaStore.IndexCount u)) <$> usage))
  end.

(** ** Routing and middleware *)

Inductive request : Type :=
| Allocate (body : option (result Z))
| SetStatus (listID idx : string) (body : result string)
| Accounting
| GetHealthz.

(** [requireShard], then go-tokenauth's [MustHaveTAC], whose verdict on each
    permission is part of the input, then the handler; [auth] is what
    [tokengin.TokenAuth] left in the context, [None] if it rejected the
    token. *)
Definition authed (s : Server) (auth : option Result) (tac : string)
    (handler : string -> prog world response) : prog world response :=
  match auth with
  | None => Ret (JSONError 401 "no authentication context")
  | Some result =>
      if negb (bool_decide (TenantID result = ShardID s)) then
        Ret (JSONError 403 "token is not authorized for this shard")
      else if bool_decide (tac ∈ TAC result) then handler (UserID result)
      else Ret (JSONError 403 "insufficient permissions")
  end.

Definition route (s : Server) (auth : option Result) (r : request) : prog world response :=
  match r with
  | GetHealthz => Ret (Healthz (ShardID s))
  | Allocate body => authed s auth tacAllocate (fun issuer => handleAllocate s issuer body)
  | SetStatus listID idx body =>
      authed s auth tacSetStatus (fun issuer => handleSetStatus s issuer listID idx body)
  | Accounting => authed s auth tacAccounting handleAccountingMe
  end.

(** The callback of the publisher's loop. *)
Definition ListsForPublishing (s : Server) : prog world (result (list MetaStore.ListMeta * Z)) :=
  try! lists := MetaStore.LiveLists (ShardID s) in Ret (Ok (lists, DefaultTTLSeconds s)).

End Handlers.

(** ** The contract *)

#[local] Existing Instance Rely.Ev_preorder.

Section Contract.
Context `{!Signer.Ecdsa}.

(** What a 201 to [issuer] has put into the tables for good. *)
Definition recorded (s : Server) (issuer : string) (resp : response) (db : pg) : Prop :=
  match resp with
  | Created url idx _ => exists listID al, url = BaseURL s +:+ "/lists/" +:+ listID /\
      allocations db !! (listID, i64 idx) = Some al /\ al_issuer_id al = issuer
  | _ => True
  end.

Lemma recorded_stable s issuer resp w w' :
  Rely.Ev w w' -> recorded s issuer resp (w_pg w) -> recorded s issuer resp (w_pg w').
Proof.
  intros HE. destruct resp; simpl; auto. intros (l & al & Hu & Ha & Hi). exists l, al.
  split_and!; [done| |done]. by apply (MetaStore.ev_allocs _ _ HE).
Qed.

Lemma safe_allocateLoop {WA : Rely.Watching} n s issuer exp (Q : response -> world -> Prop) w0 :
  Pool.manager_ok (pool s) -> Rely.Inv w0 ->
  (forall r w', Rely.Ev w0 w' -> Rely.Inv w' -> recorded s issuer r (w_pg w') -> Q r w') ->
  Rely.safe (allocateLoop n s issuer exp) Q w0.
Proof.
  intros Hm. revert w0. induction n as [|n IH]; intros w0 HI HR; cbn [allocateLoop];
    assert (forall c m w', Rely.Ev w0 w' -> Rely.Inv w' -> Q (JSONError c m) w') as HQ
      by (intros; by apply HR); [Rely.rely_done|].
  apply Rely.safe_bind, Pool.safe_PickForAllocation; [done|].
  intros [[lm|]|e] w1 HE1 HI1 Hk; [|Rely.rely_done..].
  destruct (Allocator.New _ _) as [a|e] eqn:HN; [|Rely.rely_done].
  apply Rely.safe_bind. eapply Rely.safe_Reserve; [exact Hk|exact HN|].
  intros [idx|e] w2 HE2 HI2 Hres.
  - destruct Hres as (r' & al & Hr' & Hal & Hiss & _ & Hrange & Hbits & Hun).
    apply Rely.safe_bind, Rely.safe_SetStatus.
    { exists r', idx. split_and!; try done; [apply Hrange..|]. by apply Rely.unwatched_writable. }
    intros [v|e] w3 HE3 HI3; [|Rely.rely_done].
    apply Rely.safe_bind, Publisher.safe_MarkDirty. intros u w4 HE4 HI4.
    apply Rely.safe_ret, HR; [Rely.ev|done|].
    apply (recorded_stable _ _ _ w2); [Rely.ev|]. simpl. by exists (MetaStore.ID lm), al.
  - destruct e; try Rely.rely_done. apply IH; [done|]. intros r w3 HE3 HI3. apply HR; [Rely.ev|done].
Qed.

Lemma safe_handleAllocate {WA : Rely.Watching} s issuer body (Q : response -> world -> Prop) w0 :
  Pool.manager_ok (pool s) -> Rely.Inv w0 ->
  (forall r w', Rely.Ev w0 w' -> Rely.Inv w' -> recorded s issuer r (w_pg w') -> Q r w') ->
  Rely.safe (handleAllocate s issuer body) Q w0.
Proof.
  intros Hm HI HR.
  assert (forall c m w', Rely.Ev w0 w' -> Rely.Inv w' -> Q (JSONError c m) w') as HQ
    by (intros; by apply HR).
  assert (forall e, Rely.safe (let! now := getNow in
      let maxExp := now + MaxExpiry s in
      if e =? zeroTime then allocateLoop maxAllocateAttempts s issuer maxExp
      else if maxExp <? e then Ret (JSONError 400 "exp exceeds the maximum allowed expiration")
      else allocateLoop maxAllocateAttempts s issuer e) Q w0) as Hgo.
  { intros e. apply Rely.safe_bind, Rely.safe_getNow. intros now w1 HE1 HI1. cbv zeta.
    repeat case_match; try Rely.rely_done;
      (apply safe_allocateLoop; [done|done|]; intros r w2 HE2 HI2; apply HR; [Rely.ev|done]). }
  unfold handleAllocate. destruct body as [[e|e]|]; [apply Hgo|Rely.rely_done|apply Hgo].
Qed.

(** A request for a status by the owner of the entry under watch. *)
Definition ownerWrites {WA : Rely.Watching} (issuer listID idxParam : string) : Prop :=
  match Rely.watched with
  | Some a => issuer = Rely.wa_owner a /\ listID = Rely.wa_list a /\
              GoStrings.ParseUint idxParam = Ok (Rely.wa_idx a)
  | None => False
  end.

(** The status of the body is the one that the owner of the entry under watch
    may be writing, if it names one. *)
Definition ownerMay {WA : Rely.Watching} (body : result string) : Prop :=
  match body with
  | Ok name => forall st, statusNames name = Some st -> Rely.onWatch (fun a => Rely.wa_sets a = Some (u8 st))
  | Err _ => True
  end.

(** A caller that owns the index it writes leaves the entry under watch alone,
    or is its owner and writes what it may. *)
Lemma elsewhere_owned {WA : Rely.Watching} w1 w2 issuer listID idxParam idx al lm st :
  GoStrings.ParseUint idxParam = Ok idx ->
  (ownerWrites issuer listID idxParam -> Rely.onWatch (fun a => Rely.wa_sets a = Some (u8 st))) ->
  allocations (w_pg w1) !! (listID, idx) = Some al ->
  Rely.onWatch (fun a => (Rely.wa_list a, Rely.wa_idx a) = (listID, idx) -> Rely.wa_owner a = issuer) ->
  Rely.Ev w1 w2 -> Rely.Inv w2 -> Rely.known (fun _ => true) lm (w_pg w2) -> MetaStore.ID lm = listID ->
  let off := Bitmap.ByteOffset idx (MetaStore.Bits lm) in
  Rely.elsewhere listID off.1 off.2 (MetaStore.Bits lm) (u8 st) (w_pg w2).
Proof.
  intros Hp Hno Hal Ho HE HI (r0 & r & -> & _ & Hr & He) <-. cbv zeta.
  apply (MetaStore.ev_allocs _ _ HE) in Hal.
  pose proof (Rely.allocation_range w2 _ _ _ r HI Hal Hr) as Hrange. exists r, idx.
  split_and!; try done; [apply (MetaStore.ev_bits _ _ He)|apply Hrange|apply Hrange|apply u8_range|apply u8_range|].
  unfold Rely.writable, Rely.onWatch, ownerWrites in *. destruct Rely.watched as [a|]; [|done].
  destruct (decide ((Rely.wa_list a, Rely.wa_idx a) = (r_id r0, idx))) as [Heq|]; [|by left].
  right. apply Hno. injection Heq as H1 H2. rewrite H1, H2 in *. split_and!; [symmetry; auto|done..].
Qed.

Lemma safe_handleSetStatus {WA : Rely.Watching} s issuer listID idxParam body (Q : response -> world -> Prop) w0 :
  (ownerWrites issuer listID idxParam -> ownerMay body) -> Rely.Inv w0 ->
  (forall r w', Rely.Ev w0 w' -> Rely.Inv w' -> Q r w') ->
  Rely.safe (handleSetStatus s issuer listID idxParam body) Q w0.
Proof.
  intros Hno HI HQ. unfold handleSetStatus.
  destruct (GoStrings.ParseUint idxParam) as [idx|] eqn:Hp; [|Rely.rely_done].
  destruct body as [name|]; [|Rely.rely_done]. destruct (statusNames name) as [st|] eqn:Hst; [|Rely.rely_done].
  apply Rely.safe_bind, Rely.safe_CheckOwnership; [by apply GoStrings.ParseUint_range in Hp|].
  intros [u|e] w1 HE1 HI1 Hown; [|destruct e; Rely.rely_done]. destruct Hown as [(al & Hal & Hiss) Hwatch].
  apply Rely.safe_bind, Rely.safe_GetList; [|intros; Rely.rely_done].
  intros [lm|] w2 HE2 HI2 Hk; [destruct Hk as [Hk Hid]|Rely.rely_done]. case_bool_decide; [Rely.rely_done|].
  apply Rely.safe_bind, Rely.safe_SetStatus.
  { apply (elsewhere_owned w1 w2 issuer listID idxParam idx al); try done. intros Ho. by apply (Hno Ho). }
  intros [v|e] w3 HE3 HI3; [|Rely.rely_done].
  apply Rely.safe_bind, Publisher.safe_MarkDirty. intros x w4 HE4 HI4. Rely.rely_done.
Qed.

(** A request that is not the owner's for the entry under watch, or asks for
    what the owner may ask for. *)
Definition leavesWatched {WA : Rely.Watching} (auth : option Result) (r : request) : Prop :=
  match auth, r with
  | Some res, SetStatus listID idx body => ownerWrites (UserID res) listID idx -> ownerMay body
  | _, _ => True
  end.

Lemma safe_route {WA : Rely.Watching} s auth r (Q : response -> world -> Prop) w0 :
  Pool.manager_ok (pool s) -> leavesWatched auth r -> Rely.Inv w0 ->
  (forall r w', Rely.Ev w0 w' -> Rely.Inv w' -> Q r w') -> Rely.safe (route s auth r) Q w0.
Proof.
  intros Hm Hl HI HQ.
  assert (forall tac h, (forall res, auth = Some res -> Rely.safe (h (UserID res)) Q w0) ->
    Rely.safe (authed s auth tac h) Q w0) as Hauth.
  { intros tac h Hh. unfold authed. destruct auth as [res|]; [|Rely.rely_done].
    repeat case_bool_decide; simpl; try Rely.rely_done. by apply Hh. }
  destruct r as [body|listID idx body| |]; simpl; [| | |Rely.rely_done]; apply Hauth; intros res ->.
  - apply safe_handleAllocate; [done|done|]. auto.
  - by apply safe_handleSetStatus.
  - apply Rely.safe_bind, Rely.safe_pg_read; [done|intros now w1 HE1 HI1|intros w1 HE1 HI1];
      simpl; Rely.rely_done.
Qed.

Lemma safe_ListsForPublishing {WA : Rely.Watching} s (Q : result (list MetaStore.ListMeta * Z) -> world -> Prop) w0 :
  (forall r w', Rely.Ev w0 w' -> Rely.Inv w' -> Q r w') -> Rely.safe (ListsForPublishing s) Q w0.
Proof.
  intros HQ. apply Rely.safe_bindErr, Rely.safe_queryLists; [|intros; Rely.rely_done].
  intros l w1 HE1 HI1 _. Rely.rely_done.
Qed.

End Contract.

(** ** Runs of the handlers *)

Section Runs.
Context `{!Signer.Ecdsa}.

(** [SetStatus], whatever its arguments, leaves the tables and the other
    shards alone. *)
Lemma SetStatus_frame shard id by_ off bits v w :
  wp (BitmapStore.SetStatus shard id by_ off bits v)
    (fun _ w' => w_pg w' = w_pg w /\ forall s, s <> shard -> redisOf w' s = redisOf w s) w.
Proof.
  apply wp_bindErr, wp_act.
  pose proof (redisAct_cases shard (BitmapStore.setByteScript (BitmapStore.bitmapKey id) by_ off bits v) w)
    as (Hpg & _ & _ & _ & _ & Hoth & _).
  destruct (redisAct _ _ w) as [[nb|e] w1]; cbn [fst snd] in *; [|done].
  apply wp_bindErr, wp_act.
  pose proof (redisAct_cases shard (BitmapStore.incr (BitmapStore.versionKey id)) w1)
    as (Hpg2 & _ & _ & _ & _ & Hoth2 & _).
  destruct (redisAct _ _ w1) as [[n|e] w2]; cbn [fst snd] in *; try apply wp_ret;
    (split; [congruence|]); intros s Hs; by rewrite Hoth2, Hoth.
Qed.

(** What has to be true for a status update to get as far as Redis. *)
Definition mayWrite (w : world) (issuer listID idxParam : string) : Prop :=
  exists idx al r, GoStrings.ParseUint idxParam = Ok idx /\
    allocations (w_pg w) !! (listID, i64 idx) = Some al /\ al_issuer_id al = issuer /\
    lists (w_pg w) !! listID = Some r /\ r_state r <> ARCHIVED.

(** A status update up to its write: either it ends with an error and nothing
    has changed, or the caller may write. *)
Lemma handleSetStatus_wp s issuer listID idxParam body (Q : response -> world -> Prop) w :
  (forall c m w', c <> 204 -> quiet w w' -> Q (JSONError c m) w') ->
  (forall idx name st al r w1, GoStrings.ParseUint idxParam = Ok idx -> body = Ok name ->
     statusNames name = Some st -> allocations (w_pg w) !! (listID, i64 idx) = Some al ->
     al_issuer_id al = issuer -> lists (w_pg w) !! listID = Some r -> r_state r <> ARCHIVED ->
     quiet w w1 ->
     let off := Bitmap.ByteOffset idx (r_bits r) in
     wp (BitmapStore.SetStatus (ShardID s) listID off.1 off.2 (r_bits r) (u8 st))
       (fun res w2 => match res with
          | Err _ => Q (JSONError 500 "could not update status") w2
          | Ok _ => wp (Publisher.MarkDirty (pub s) listID (DefaultTTLSeconds s))
                      (fun _ w3 => Q NoContent w3) w2
          end) w1) ->
  wp (handleSetStatus s issuer listID idxParam body) Q w.
Proof.
  intros Herr Hok. unfold handleSetStatus.
  destruct (GoStrings.ParseUint idxParam) as [idx|e]; [|by apply wp_ret, Herr].
  destruct body as [name|e]; [|by apply wp_ret, Herr].
  destruct (statusNames name) as [st|] eqn:Hst; [|by apply wp_ret, Herr].
  unfold MetaStore.CheckOwnership. apply wp_bind, wp_bindErr, wp_pg_read; [done| |].
  2: { intros w1 Hq. by apply wp_ret, Herr. }
  intros now w1 _ Hq1 _. cbn [MetaStore.sqlOwner fst].
  destruct (allocations (w_pg w) !! (listID, i64 idx)) as [al|] eqn:Hal; simpl;
    [|by apply wp_ret, wp_ret, Herr].
  case_bool_decide as Ho; apply wp_ret; [|by apply wp_ret, Herr].
  apply wp_bind, wp_pg_read; [done| |].
  2: { intros w2 Hq. apply wp_ret, Herr; [done|by etrans]. }
  intros now2 w2 _ Hq2 _. cbn [MetaStore.sqlGetList fst]. rewrite (proj1 Hq1).
  assert (quiet w w2) as Hq by (by etrans).
  destruct (lists (w_pg w) !! listID) as [r|] eqn:Hr; simpl; [|by apply wp_ret, Herr].
  case_bool_decide as Hs; [by apply wp_ret, Herr|]. apply wp_bind.
  eapply wp_mono; [by apply (Hok idx name st al r w2)|].
  intros [v|e] w3 H3; [|by apply wp_ret]. apply wp_bind. eapply wp_mono; [exact H3|].
  intros u w4 H4. by apply wp_ret.
Qed.

Lemma list_good_sizeOk bits size : Rely.list_good bits size -> Bitmap.sizeOk size.
Proof. intros (_ & Hs & _). unfold Bitmap.sizeOk. lia. Qed.

(** An allocated index lies in its list. *)
Lemma allocated_range w listID idx al r :
  Rely.Inv w -> 0 <= idx < 2 ^ 64 -> allocations (w_pg w) !! (listID, i64 idx) = Some al ->
  lists (w_pg w) !! listID = Some r -> 0 <= idx < r_size r.
Proof.
  intros HI Hidx Hal Hr.
  destruct (MetaStore.inv_sound _ (Rely.inv_pg w HI) _ _ _ Hal) as (r' & c & i & Hr' & Hc & Hi & Heq & _).
  rewrite Hr in Hr'. injection Hr' as <-.
  destruct (MetaStore.cursorIndex_range listID r c i
    (MetaStore.inv_rows _ (Rely.inv_pg w HI) _ _ Hr) Hc Hi) as [Hrange Hi64].
  assert (idx = i) as ->; [|done]. rewrite Hi64 in Heq.
  pose proof (u64_i64 idx) as Hu. rewrite Heq in Hu.
  rewrite !u64_small in Hu by (destruct (Rely.inv_good w HI _ _ Hr) as (_ & ? & _); lia). lia.
Qed.

Lemma statusNames_range name st : statusNames name = Some st -> 0 <= st < 3.
Proof. unfold statusNames. repeat case_bool_decide; intros [= <-]; vm_compute; split; congruence. Qed.

(** A 204: the one entry has the status, cut to the width of the list. *)
Lemma handleSetStatus_204 s issuer listID idxParam body w r :
  Rely.Inv w -> lists (w_pg w) !! listID = Some r ->
  wp (handleSetStatus s issuer listID idxParam body)
    (fun resp w' => resp = NoContent ->
       w_pg w' = w_pg w /\ (forall sh, sh <> ShardID s -> redisOf w' sh = redisOf w sh) /\
       BitmapStore.same_but listID (redisOf w (ShardID s)) (redisOf w' (ShardID s)) /\
       exists idx name st, GoStrings.ParseUint idxParam = Ok idx /\ body = Ok name /\
         statusNames name = Some st /\ 0 <= idx < r_size r /\
         Bitmap.statuses (BitmapStore.view (redisOf w' (ShardID s)) listID (r_size r) (r_bits r)) =
           <[Z.to_nat idx := Z.land st (Z.ones (r_bits r))]>
             (Bitmap.statuses (BitmapStore.view (redisOf w (ShardID s)) listID (r_size r) (r_bits r))) /\
         BitmapStore.version (redisOf w' (ShardID s)) listID =
           BitmapStore.version (redisOf w (ShardID s)) listID + 1) w.
Proof.
  intros HI Hr. apply handleSetStatus_wp; [done|].
  intros idx name st al r' w1 Hidx Hname Hst Hal Ho Hr' Hna Hq. rewrite Hr in Hr'. injection Hr' as <-.
  destruct (Rely.inv_good w HI _ _ Hr) as (Hb & Hsz & Hmax).
  pose proof (allocated_range w listID idx al r HI (GoStrings.ParseUint_range _ _ Hidx) Hal Hr) as Hrange.
  pose proof (statusNames_range _ _ Hst) as Hst3.
  destruct Hq as (Hpg1 & Hr1 & _).
  assert (0 <= u8 st < 256) as Hu8 by apply u8_range.
  pose proof (BitmapStore.SetStatus_run w1 (ShardID s) listID (r_size r) (r_bits r) idx (u8 st)) as Hrun.
  rewrite Hr1 in Hrun.
  specialize (Hrun (Rely.inv_redis w HI _) Hb ltac:(unfold Bitmap.sizeOk; lia) Hmax Hrange Hu8).
  cbv zeta. destruct (Bitmap.ByteOffset idx (r_bits r)) as [bi bo]. cbn [fst snd].
  unfold wp at 1. destruct (run _ w1) as [[ver|e] w2]; simpl; [|done].
  destruct Hrun as (_ & Hsame & Hpg2 & Hoth & Hnow & Hv & Hv'). rewrite Hr1 in *.
  eapply wp_mono; [apply Publisher.MarkDirty_frame|]. intros u w3 [Hpg3 Hr3] _.
  rewrite Hr3. split_and!; [congruence| |done|].
  - intros sh Hsh. by rewrite Hr3, Hoth, Hr1.
  - exists idx, name, st. split_and!; try done; try lia.
    rewrite Hnow. unfold BitmapStore.written. by rewrite u8_small by lia.
Qed.

(** What a 201 promises, in the world it was answered in. *)
Definition allocated (s : Server) (issuer : string) (exp : Z) (w0 w' : world)
    (url : string) (idx : Z) : Prop :=
  exists listID r t, url = BaseURL s +:+ "/lists/" +:+ listID /\
    lists (w_pg w') !! listID = Some r /\ r_shard_id r = Pool.ShardID (pool s) /\
    0 <= idx < r_size r /\
    allocations (w_pg w0) !! (listID, idx) = None /\
    allocations (w_pg w') !! (listID, idx) = Some (MkAllocRow issuer exp t) /\
    Bitmap.statuses (BitmapStore.view (redisOf w' (ShardID s)) listID (r_size r) (r_bits r))
      !! Z.to_nat idx = Some Bitmap.StatusValid.

(** The write that follows a reservation. *)
Lemma reset_wp s listID size bits idx (Q : response -> world -> Prop) w :
  BitmapStore.keyspace_ok (redisOf w (ShardID s)) -> Rely.list_good bits size -> 0 <= idx < size ->
  (forall w', w_pg w' = w_pg w ->
     Bitmap.statuses (BitmapStore.view (redisOf w' (ShardID s)) listID size bits)
       !! Z.to_nat idx = Some Bitmap.StatusValid -> Q (Created (BaseURL s +:+ "/lists/" +:+ listID) idx 0) w') ->
  let off := Bitmap.ByteOffset idx bits in
  wp (BitmapStore.SetStatus (ShardID s) listID off.1 off.2 bits (u8 Bitmap.StatusValid))
    (fun res w2 => match res with
       | Err _ => True
       | Ok _ => wp (Publisher.MarkDirty (pub s) listID (DefaultTTLSeconds s))
                   (fun _ w3 => Q (Created (BaseURL s +:+ "/lists/" +:+ listID) idx 0) w3) w2
       end) w.
Proof.
  intros Hk (Hb & Hsz & Hmax) Hi HQ. cbv zeta.
  pose proof (BitmapStore.SetStatus_run w (ShardID s) listID size bits idx (u8 Bitmap.StatusValid)
    Hk Hb ltac:(unfold Bitmap.sizeOk; lia) Hmax Hi ltac:(apply u8_range)) as Hrun.
  destruct (Bitmap.ByteOffset idx bits) as [bi bo]. cbn [fst snd].
  unfold wp at 1. destruct (run _ w) as [[ver|e] w2]; simpl; [|done].
  destruct Hrun as (_ & _ & Hpg & _ & Hnow & _).
  eapply wp_mono; [apply Publisher.MarkDirty_frame|]. intros u w3 [Hpg3 Hr3]. apply HQ; [congruence|].
  rewrite Hr3, Hnow. unfold BitmapStore.written.
  change (u8 Bitmap.StatusValid) with 0. rewrite Z.land_0_l. apply list_lookup_insert_eq.
  rewrite Bitmap.length_statuses. simpl. lia.
Qed.

Lemma allocateLoop_wp n s issuer exp w0 w :
  Pool.manager_ok (pool s) -> Rely.Inv w -> Rely.Ev w0 w ->
  wp (allocateLoop n s issuer exp)
    (fun resp w' => match resp with
       | Created url idx e => e = exp /\ allocated s issuer exp w0 w' url idx
       | _ => True end) w.
Proof.
  intros Hm. revert w. induction n as [|n IH]; intros w HI HE; cbn [allocateLoop]; [by apply wp_ret|].
  apply wp_bind. eapply wp_mono.
  { apply (Rely.safe_wp (W := Rely.nobody)); [|by apply Rely.nobody_InvW].
    apply (Pool.safe_PickForAllocation _ (fun r w' => match r with
      | Ok (Some lm) => Rely.known (Pool.activeOn (Pool.ShardID (pool s))) lm (w_pg w')
      | _ => True end)); [done|]. auto. }
  intros [[lm|]|e] w1 (HI1 & HE1 & Hk); [|by apply wp_ret..].
  destruct (Allocator.New _ _) as [a|e] eqn:HN; [|by apply wp_ret].
  assert (Rely.Ev w0 w1) as HE01 by (etrans; [exact HE|exact HE1]).
  apply wp_bind, wp_pg; [|by intros; apply wp_ret].
  intros w2 _ Hr2 _ _ Hpg2.
  destruct Hk as (r0 & r & -> & Hp & Hr & Hev). set (lm := MetaStore.scanListMeta r0) in *.
  assert (MetaStore.rowAllocator r = Ok a) as Ha.
  { unfold MetaStore.rowAllocator. by rewrite (MetaStore.ev_key _ _ Hev), (MetaStore.ev_size _ _ Hev). }
  destruct (MetaStore.sqlReserve _ _ _ _ _ _ _) as [[idx|e] db'] eqn:Er; cbn [fst snd] in *.
  2: { destruct e; try (by apply wp_ret). apply IH.
       - apply MetaStore.reserve_err in Er as ->. by apply (Rely.Inv_same w1).
       - apply MetaStore.reserve_err in Er as ->. unfold Rely.Ev. rewrite Hpg2. exact HE01. }
  apply MetaStore.reserve_ok in Er as (r' & Hr' & Hs & Hc & Hi & Hfresh & ->).
  rewrite Hr in Hr'. injection Hr' as <-.
  pose proof (MetaStore.inv_rows _ (Rely.inv_pg _ HI1) _ _ Hr) as Hok.
  pose proof (Rely.inv_good _ HI1 _ _ Hr) as Hgood.
  assert (0 <= r_cursor r) as Hc0 by (destruct Hok; lia).
  rewrite u64_small in Hi by (destruct Hgood as (_ & ? & _); lia).
  destruct (MetaStore.cursorIndex_range_at _ r (r_cursor r) idx Hok ltac:(lia)
    (ex_intro _ a (conj Ha Hi))) as [Hrange Hi64]. rewrite Hi64 in *.
  assert (MetaStore.Bits lm = r_bits r) as Hbits by (unfold lm; simpl; by rewrite (MetaStore.ev_bits _ _ Hev)).
  rewrite Hbits. apply wp_bind. eapply wp_mono.
  { apply (reset_wp s (MetaStore.ID lm) (r_size r) (r_bits r) idx (fun resp w' => match resp with
      | Created url i _ => allocated s issuer exp w0 w' url i | _ => True end));
      [rewrite Hr2; apply HI1|exact Hgood|exact Hrange|].
    intros w3 Hpg3 Hst. exists (MetaStore.ID lm), (MetaStore.reservedRow r exp), (w_clock w2).
    rewrite Hpg3, Hpg2. split_and!; try done; try lia.
    - apply lookup_insert_eq.
    - simpl. apply andb_true_iff in Hp as [Hsh%bool_decide_eq_true _].
      by rewrite (MetaStore.ev_shard _ _ Hev).
    - simpl. lia.
    - destruct (allocations (w_pg w0) !! (MetaStore.ID lm, idx)) eqn:Hold; [|done].
      apply (MetaStore.ev_allocs _ _ HE01) in Hold. congruence.
    - apply lookup_insert_eq. }
  intros [v|e] w3 H3; [|by apply wp_ret]. apply wp_bind. eapply wp_mono; [exact H3|].
  intros u w4 H4. by apply wp_ret.
Qed.

Lemma handleAllocate_wp s issuer body w :
  Pool.manager_ok (pool s) -> Rely.Inv w ->
  wp (handleAllocate s issuer body) (fun resp w' => match resp with
    | Created url idx exp => allocated s issuer exp w w' url idx /\ exp <= w_clock w + MaxExpiry s /\
        match body with
        | Some (Ok e) => exp = if e =? zeroTime then w_clock w + MaxExpiry s else e
        | _ => exp = w_clock w + MaxExpiry s
        end
    | _ => True end) w.
Proof.
  intros Hm HI.
  unfold handleAllocate.
  assert (forall e, wp (allocateLoop maxAllocateAttempts s issuer e) (fun resp w' => match resp with
    | Created url idx e' => e' = e /\ allocated s issuer e w w' url idx | _ => True end) w) as Hloop
    by (intros e; by apply allocateLoop_wp).
  destruct body as [[e|e]|]; [| |].
  - apply wp_bind, wp_getNow. cbv zeta. destruct (e =? zeroTime).
    + eapply wp_mono; [apply Hloop|]. intros [] w2 H2; try done. destruct H2 as [-> H2].
      split_and!; done || lia.
    + destruct (Z.ltb_spec (w_clock w + MaxExpiry s) e); [by apply wp_ret|].
      eapply wp_mono; [apply Hloop|]. intros [] w2 H2; try done. destruct H2 as [-> H2].
      split_and!; done || lia.
  - by apply wp_ret.
  - apply wp_bind, wp_getNow. cbv zeta. rewrite Z.eqb_refl.
    eapply wp_mono; [apply Hloop|]. intros [] w2 H2; try done. destruct H2 as [-> H2].
    split_and!; done || lia.
Qed.

(** The only answer with code 204. *)
Lemma handleSetStatus_code s issuer listID idxParam body w :
  wp (handleSetStatus s issuer listID idxParam body) (fun resp _ => code resp = 204 -> resp = NoContent) w.
Proof.
  apply handleSetStatus_wp; [by intros c m w' Hc _ ?|].
  intros idx name st al r w1 _ _ _ _ _ _ _ _. cbv zeta.
  unfold wp. destruct (run (BitmapStore.SetStatus _ _ _ _ _ _) w1) as [[v|e] w2]; done.
Qed.

End Runs.

(** ** An example: a list with two entries allocated to one issuer *)

#[local] Existing Instance Token.Concrete.ecdsa.

Definition exampleDB (bits : Z) : pg :=
  MetaStore.execAll
    [(10, MetaStore.SCreate "s1.ab" bits 4 MetaStore.exampleKey "s1");
     (11, MetaStore.exampleReserve); (12, MetaStore.exampleReserve)] pgEmpty.

Definition exampleWorld (bits : Z) : world := MkWorld (exampleDB bits) ∅ ∅ [] 100 [] [].

Definition exampleServer (shard : string) : Server :=
  MkServer shard "https://v.example" (24 * hour) 60
    (Publisher.MkPublisher "ingestion" [shard] Token.Concrete.key "k1" "https://v.example" ∅ [])
    (Pool.MkManager shard 1 16 2 0).

Lemma ingestionWorld_inv bits : bits = 1 \/ bits = 2 -> Rely.Inv (exampleWorld bits).
Proof.
  intros Hb. split.
  - apply (MetaStore.steps_inv pgEmpty); [apply MetaStore.pg_inv_empty|].
    apply MetaStore.history_steps. destruct Hb as [-> | ->]; MetaStore.run_history.
  - apply Rely.rows_good_check. destruct Hb as [-> | ->]; vm_compute; reflexivity.
  - intros shard. apply BitmapStore.keyspace_ok_empty.
Qed.

(** An index of the example that is allocated, and the row of its list. *)
Definition exampleIndex : string := "2".

Definition exampleRow (bits : Z) : list_row :=
  MkListRow "s1.ab" bits 4 2 MetaStore.exampleKey (Some 500) ACTIVE 10 None false "s1" None.

Lemma exampleRow_lookup bits : bits = 1 \/ bits = 2 ->
  lists (w_pg (exampleWorld bits)) !! "s1.ab" = Some (exampleRow bits).
Proof. intros [-> | ->]; vm_compute; reflexivity. Qed.

(** Runs the handler of the goal on the example, to its response. *)
Ltac run_handler E Hrun w' :=
  match goal with |- exists _, run ?p ?w = (?r, _) /\ _ =>
    assert ((run p w).1 = r) as E by (vm_compute; reflexivity);
    destruct (run p w) as [? w'] eqn:Hrun; cbn [fst] in E; subst
  end.

(** ** Properties *)

(** C7: what a 201 means. If POST /allocate answers 201, then in the world it
    answered in: the index is inside the list of the returned URL, a list of
    this shard; it was allocated to nobody before the request, and is now
    recorded for the caller with the returned expiry; its entry in the bitmap
    reads VALID, whatever was there before; and the expiry is the requested
    one, or the maximum if none was given, and never beyond the maximum. *)
Theorem allocate_created `{!Signer.Ecdsa} (s : Server) (issuer : string) (body : option (result Z))
    (w w' : world) (url : string) (idx exp : Z) :
  Pool.manager_ok (pool s) -> Rely.Inv w ->
  run (handleAllocate s issuer body) w = (Created url idx exp, w') ->
  allocated s issuer exp w w' url idx /\ exp <= w_clock w + MaxExpiry s /\
  match body with
  | Some (Ok e) => exp = if e =? zeroTime then w_clock w + MaxExpiry s else e
  | _ => exp = w_clock w + MaxExpiry s
  end.
Proof.
  intros Hm HI Hrun. pose proof (handleAllocate_wp s issuer body w Hm HI) as Hwp. unfold wp in Hwp.
  by rewrite Hrun in Hwp.
Qed.

Lemma allocate_created_witness :
  exists url idx exp w', run (handleAllocate (exampleServer "s1") "https://me" None) (exampleWorld 2)
    = (Created url idx exp, w') /\ allocated (exampleServer "s1") "https://me" exp (exampleWorld 2) w' url idx.
Proof.
  assert (exists url idx exp,
    (run (handleAllocate (exampleServer "s1") "https://me" None) (exampleWorld 2)).1 = Created url idx exp)
    as (url & idx & exp & E) by (do 3 eexists; vm_compute; reflexivity).
  destruct (run _ _) as [r w'] eqn:Hrun. cbn [fst] in E. subst r.
  exists url, idx, exp, w'. split; [reflexivity|].
  apply (allocate_created (exampleServer "s1") "https://me" None (exampleWorld 2) w' url idx exp
    ltac:(apply (bool_decide_unpack _); vm_compute; exact I)
    (ingestionWorld_inv 2 (or_intror eq_refl)) Hrun).
Defined.

(** C8: only the owner writes. Whatever PATCH /status request reaches the
    service, with whatever token: either nothing in the tables, the bitmaps or
    the publishers changes, or the token was accepted for this shard with the
    write permission, the index is recorded for the token's subject, and the
    list is not archived. *)
Theorem status_write_needs_owner `{!Signer.Ecdsa} (s : Server) (auth : option Result)
    (listID idxParam : string) (body : result string) (w : world) :
  let w' := (run (route s auth (SetStatus listID idxParam body)) w).2 in
  quiet w w' \/
  exists res, auth = Some res /\ TenantID res = ShardID s /\ tacSetStatus ∈ TAC res /\
    mayWrite w (UserID res) listID idxParam.
Proof.
  cbv zeta. cbn [route]. unfold authed. destruct auth as [res|]; [|by left].
  case_bool_decide as Ht; cbn [negb]; [|by left]. case_bool_decide as Hp; [|by left].
  enough (wp (handleSetStatus s (UserID res) listID idxParam body)
    (fun _ w' => quiet w w' \/ mayWrite w (UserID res) listID idxParam) w) as [Hq|Hm].
  - by left.
  - right. by exists res.
  - apply handleSetStatus_wp; [by left|].
    intros idx name st al r w1 Hidx _ _ Hal Ho Hr Hna _. cbv zeta.
    assert (mayWrite w (UserID res) listID idxParam) as Hm by (by exists idx, al, r).
    eapply wp_mono; [apply SetStatus_frame|]. intros [v|e] w2 _; [|by right].
    eapply wp_mono; [apply Publisher.MarkDirty_frame|]. by right.
Qed.

(** C9: what a 204 means. If PATCH /status answers 204, exactly one entry of
    the list changed in this shard's Redis: the one named, to the status
    named, cut to the width of the list; its version went up by one; no other
    list, no other shard and no table was touched. *)
Theorem status_updated `{!Signer.Ecdsa} (s : Server) (issuer listID idxParam : string)
    (body : result string) (w w' : world) (r : list_row) :
  Rely.Inv w -> lists (w_pg w) !! listID = Some r ->
  run (handleSetStatus s issuer listID idxParam body) w = (NoContent, w') ->
  w_pg w' = w_pg w /\ (forall sh, sh <> ShardID s -> redisOf w' sh = redisOf w sh) /\
  BitmapStore.same_but listID (redisOf w (ShardID s)) (redisOf w' (ShardID s)) /\
  exists idx name st, GoStrings.ParseUint idxParam = Ok idx /\ body = Ok name /\
    statusNames name = Some st /\ 0 <= idx < r_size r /\
    Bitmap.statuses (BitmapStore.view (redisOf w' (ShardID s)) listID (r_size r) (r_bits r)) =
      <[Z.to_nat idx := Z.land st (Z.ones (r_bits r))]>
        (Bitmap.statuses (BitmapStore.view (redisOf w (ShardID s)) listID (r_size r) (r_bits r))) /\
    BitmapStore.version (redisOf w' (ShardID s)) listID =
      BitmapStore.version (redisOf w (ShardID s)) listID + 1.
Proof.
  intros HI Hr Hrun. pose proof (handleSetStatus_204 s issuer listID idxParam body w r HI Hr) as Hwp.
  unfold wp in Hwp. rewrite Hrun in Hwp. by apply Hwp.
Qed.

Lemma status_updated_witness :
  exists w', run (handleSetStatus (exampleServer "s1") "https://issuer" "s1.ab" exampleIndex (Ok "SUSPENDED"))
    (exampleWorld 2) = (NoContent, w') /\ w_pg w' = w_pg (exampleWorld 2).
Proof.
  run_handler E Hrun w'. exists w'. split; [reflexivity|].
  apply (status_updated (exampleServer "s1") "https://issuer" "s1.ab" exampleIndex (Ok "SUSPENDED")
    (exampleWorld 2) w' (exampleRow 2) (ingestionWorld_inv 2 (or_intror eq_refl)) (exampleRow_lookup 2 (or_intror eq_refl)) Hrun).
Defined.

(** SUSPENDED on a list of one bit per entry. The handler accepts it, and
    answers 204; the entry then reads VALID. A credential that was INVALID
    before is published as valid again. *)
Theorem suspended_on_one_bit_list `{!Signer.Ecdsa} (s : Server) (issuer listID idxParam : string)
    (w w' : world) (r : list_row) :
  Rely.Inv w -> lists (w_pg w) !! listID = Some r -> r_bits r = 1 ->
  run (handleSetStatus s issuer listID idxParam (Ok "SUSPENDED")) w = (NoContent, w') ->
  exists idx, GoStrings.ParseUint idxParam = Ok idx /\
    Bitmap.statuses (BitmapStore.view (redisOf w' (ShardID s)) listID (r_size r) 1)
      !! Z.to_nat idx = Some Bitmap.StatusValid.
Proof.
  intros HI Hr Hb Hrun.
  pose proof (handleSetStatus_204 s issuer listID idxParam (Ok "SUSPENDED") w r HI Hr) as Hwp.
  unfold wp in Hwp. rewrite Hrun, Hb in Hwp. cbn [fst snd] in Hwp.
  destruct (Hwp eq_refl) as (_ & _ & _ & idx & name & st & Hi & [= <-] & [= <-] & Hrange & Hv & _).
  exists idx. split; [done|]. rewrite Hv. apply list_lookup_insert_eq.
  rewrite Bitmap.length_statuses. simpl. lia.
Qed.

Lemma suspended_on_one_bit_list_witness :
  exists w', run (handleSetStatus (exampleServer "s1") "https://issuer" "s1.ab" exampleIndex (Ok "SUSPENDED"))
    (exampleWorld 1) = (NoContent, w') /\
  exists idx, GoStrings.ParseUint exampleIndex = Ok idx /\
    Bitmap.statuses (BitmapStore.view (redisOf w' "s1") "s1.ab" 4 1) !! Z.to_nat idx = Some 0.
Proof.
  run_handler E Hrun w'. exists w'. split; [reflexivity|].
  apply (suspended_on_one_bit_list (exampleServer "s1") "https://issuer" "s1.ab" exampleIndex
    (exampleWorld 1) w' (exampleRow 1) (ingestionWorld_inv 1 (or_introl eq_refl)) (exampleRow_lookup 1 (or_introl eq_refl)) eq_refl Hrun).
Defined.

(** A list of another shard. The handler does not look at the shard of
    the list: a request for a list of another shard also gets its 204, but
    the bitmap of the list, in the Redis of its own shard, from which it is
    published, is as it was. *)
Theorem foreign_list_update_is_lost `{!Signer.Ecdsa} (s : Server) (issuer listID idxParam : string)
    (body : result string) (w w' : world) (r : list_row) :
  Rely.Inv w -> lists (w_pg w) !! listID = Some r -> r_shard_id r <> ShardID s ->
  run (handleSetStatus s issuer listID idxParam body) w = (NoContent, w') ->
  redisOf w' (r_shard_id r) = redisOf w (r_shard_id r).
Proof.
  intros HI Hr Hsh Hrun.
  pose proof (handleSetStatus_204 s issuer listID idxParam body w r HI Hr) as Hwp.
  unfold wp in Hwp. rewrite Hrun in Hwp. destruct (Hwp eq_refl) as (_ & Hoth & _). by apply Hoth.
Qed.

Lemma foreign_list_update_is_lost_witness :
  exists w', run (handleSetStatus (exampleServer "s2") "https://issuer" "s1.ab" exampleIndex (Ok "INVALID"))
    (exampleWorld 2) = (NoContent, w') /\ redisOf w' "s1" = redisOf (exampleWorld 2) "s1".
Proof.
  run_handler E Hrun w'. exists w'. split; [reflexivity|].
  apply (foreign_list_update_is_lost (exampleServer "s2") "https://issuer" "s1.ab" exampleIndex (Ok "INVALID")
    (exampleWorld 2) w' (exampleRow 2) (ingestionWorld_inv 2 (or_intror eq_refl)) (exampleRow_lookup 2 (or_intror eq_refl))
    ltac:(discriminate) Hrun).
Defined.

End Ingestion.
