(* ===== verification/Verifier.v ===== *)
(** * internal/verifier: GET /lists/{listID}

    The unauthenticated read side: content negotiation, the conditional
    request, and the archived-list policy, over the publisher. The theorems
    say what each answer means, and relate the retention window of the
    handler to the one of the garbage collector: after a sweep, a purged list
    is answered with 410, except in the very instant at which its window
    ends. *)

From Stdlib Require Import Ascii.
From S2P Require Import Prelude GoStrings Signer Bitmap Token Cwt Prog Debounce World MetaStore BitmapStore Rely Gc Publisher.

Module Verifier.

Definition jwtMediaType : string := "application/statuslist+jwt".
Definition cwtMediaType : string := "application/statuslist+cwt".

(** The media type of one element of the Accept header. *)
Definition mediaRange (part : string) : string :=
  GoStrings.TrimSpace (hd "" (GoStrings.Split part ";")).

Fixpoint firstAcceptable (parts : list string) : string :=
  match parts with
  | [] => ""
  | part :: rest =>
      let m := mediaRange part in
      if bool_decide (m = cwtMediaType) then cwtMediaType
      else if bool_decide (m = jwtMediaType) || bool_decide (m = "*/*") then jwtMediaType
      else firstAcceptable rest
  end.

Definition negotiateListFormat (accept : string) : string :=
  let accept := GoStrings.TrimSpace accept in
  if bool_decide (accept = "") || bool_decide (accept = "*/*") then jwtMediaType
  else firstAcceptable (GoStrings.Split accept ",").

Inductive response : Type :=
| JSONError (code : Z) (message : string)
| NotModified                                                        (* 304 *)
| Content (etag cacheControl contentType : string) (data : list Z)   (* 200 *)
| Healthz.                                                           (* 200 *)

(** The double quote around an entity tag. *)
Definition quote : string := String (ascii_of_nat 34) "".

Definition etagOf (version : Z) : string := quote +:+ GoStrings.FormatInt version +:+ quote.

Section Handlers.
Context `{!Signer.Ecdsa} `{!Token.Zlib} `{!Token.Json} `{!Cwt.Cbor}.

Record Server := MkServer {
  GCRetentionPeriod : Z;
  DefaultTTLSeconds : Z;
  pub : Publisher.Publisher
}.

(** [lm.ArchivedAt] is nil, or [time.Since] of it exceeds the period. *)
Definition retentionOver (s : Server) (now : Z) (archivedAt : option Z) : bool :=
  match archivedAt with
  | None => true
  | Some t => GCRetentionPeriod s <? timeSub now t
  end.

(** What follows the archived-list policy. *)
Definition serve (s : Server) (lm : MetaStore.ListMeta) (accept ifNoneMatch : string) :
    prog world response :=
  let format := negotiateListFormat accept in
  if bool_decide (format = "") then
    Ret (JSONError 406 ("Accept must include " +:+ jwtMediaType +:+ " or " +:+ cwtMediaType))
  else
    let! p := Publisher.PublishIfStale (pub s) lm (DefaultTTLSeconds s) in
    match p with
    | Err _ => Ret (JSONError 500 "could not publish list")
    | Ok p =>
        let etag := etagOf (Version p) in
        if bool_decide (ifNoneMatch = etag) then Ret NotModified
        else
          let cacheControl := "public, max-age=" +:+ GoStrings.FormatInt (TTL p) in
          if bool_decide (format = cwtMediaType) then
            Ret (Content etag cacheControl cwtMediaType (CWT p))
          else Ret (Content etag cacheControl jwtMediaType (GoStrings.bytesOf (World.Token p)))
    end.

Definition handleGetList (s : Server) (listID accept ifNoneMatch : string) : prog world response :=
  let! got := MetaStore.GetList listID in
  match got with
  | Err _ => Ret (JSONError 500 "lookup failed")
  | Ok None => Ret (JSONError 404 "list not found")
  | Ok (Some lm) =>
      if bool_decide (MetaStore.State lm = ARCHIVED) then
        let! now := getNow in
        if retentionOver s now (MetaStore.ArchivedAt lm) then
          Ret (JSONError 410 "this status list has been archived")
        else serve s lm accept ifNoneMatch
      else serve s lm accept ifNoneMatch
  end.

Inductive request : Type :=
| GetHealthz
| GetList (listID accept ifNoneMatch : string).

Definition route (s : Server) (r : request) : prog world response :=
  match r with
  | GetHealthz => Ret Healthz
  | GetList listID accept ifNoneMatch => handleGetList s listID accept ifNoneMatch
  end.

End Handlers.

(** ** Content negotiation *)

Lemma firstAcceptable_cases parts :
  firstAcceptable parts = "" \/ firstAcceptable parts = jwtMediaType \/
  firstAcceptable parts = cwtMediaType.
Proof. induction parts; simpl; repeat case_bool_decide; simpl; auto. Qed.

Lemma negotiate_cases accept :
  negotiateListFormat accept = "" \/ negotiateListFormat accept = jwtMediaType \/
  negotiateListFormat accept = cwtMediaType.
Proof.
  unfold negotiateListFormat. destruct (_ || _); [auto|apply firstAcceptable_cases].
Qed.

(** ** The contract *)

#[local] Existing Instance Rely.Ev_preorder.

Section Contract.
Context `{!Signer.Ecdsa} `{!Token.Zlib} `{!Token.Json} `{!Cwt.Cbor}.

Lemma safe_serve {WA : Rely.Watching} s lm accept inm (Q : response -> world -> Prop) w0 :
  Rely.Inv w0 -> (forall r w', Rely.Ev w0 w' -> Rely.Inv w' -> Q r w') ->
  Rely.safe (serve s lm accept inm) Q w0.
Proof.
  intros HI HQ. unfold serve. case_bool_decide; [Rely.rely_done|].
  apply Rely.safe_bind, Publisher.safe_PublishIfStale; [done|].
  intros [p|e] w1 HE1 HI1; [|Rely.rely_done]. repeat case_bool_decide; Rely.rely_done.
Qed.

Lemma safe_get {WA : Rely.Watching} s r (Q : response -> world -> Prop) w0 :
  Rely.Inv w0 -> (forall r w', Rely.Ev w0 w' -> Rely.Inv w' -> Q r w') ->
  Rely.safe (route s r) Q w0.
Proof.
  intros HI HQ. destruct r as [|listID accept inm]; [Rely.rely_done|].
  cbn [route]. unfold handleGetList.
  apply Rely.safe_bind, Rely.safe_GetList; [|intros; Rely.rely_done].
  intros [lm|] w1 HE1 HI1 _; [|Rely.rely_done].
  assert (forall w2, Rely.Ev w1 w2 -> Rely.Inv w2 -> Rely.safe (serve s lm accept inm) Q w2) as Hs.
  { intros w2 HE2 HI2. apply safe_serve; [done|]. intros r w3 HE3 HI3. Rely.rely_done. }
  case_bool_decide; [|apply Hs; [reflexivity|done]].
  apply Rely.safe_bind, Rely.safe_getNow. intros now w2 HE2 HI2.
  destruct (retentionOver _ _ _); [Rely.rely_done|by apply Hs].
Qed.

End Contract.

(** ** What the answers mean *)

Section Answers.
Context `{!Signer.Ecdsa} `{!Token.Zlib} `{!Token.Json} `{!Cwt.Cbor} `{!Token.JwtMethods}.

(** At [now], is the list past its retention window? *)
Definition gone (s : Server) (now : Z) (r : list_row) : Prop :=
  r_state r = ARCHIVED /\ retentionOver s now (r_archived_at r) = true.

(** The token [c] answers for the list of row [r] in world [w]: it has its
    version, and it was in the cache or it shows what Redis holds. *)
Definition current (s : Server) (pk : Signer.public) (w : world) (r : list_row) (c : Published) : Prop :=
  let lm := MetaStore.scanListMeta r in
  Version c = Publisher.liveVersion w lm /\ TTL c = DefaultTTLSeconds s /\
  (cache (pubOf w (Publisher.proc (pub s))) !! r_id r = Some c \/
   Publisher.shows pk (Publisher.listURL (pub s) lm) (Publisher.live w lm) c).

(** What an answer to GET in world [w] says, given at a time [now]. *)
Definition answers (s : Server) (pk : Signer.public) (listID accept inm : string) (w : world)
    (now : Z) (resp : response) : Prop :=
  match resp with
  | JSONError code _ =>
      code = 500 \/
      (code = 404 /\ lists (w_pg w) !! listID = None) \/
      (code = 410 /\ exists r, lists (w_pg w) !! listID = Some r /\ gone s now r) \/
      (code = 406 /\ negotiateListFormat accept = "")
  | NotModified =>
      exists r, lists (w_pg w) !! listID = Some r /\ ~ gone s now r /\
        inm = etagOf (Publisher.liveVersion w (MetaStore.scanListMeta r))
  | Content etag cacheControl contentType data =>
      exists r c, lists (w_pg w) !! listID = Some r /\ ~ gone s now r /\ current s pk w r c /\
        etag = etagOf (Publisher.liveVersion w (MetaStore.scanListMeta r)) /\ inm <> etag /\
        cacheControl = "public, max-age=" +:+ GoStrings.FormatInt (DefaultTTLSeconds s) /\
        contentType = negotiateListFormat accept /\
        (contentType = jwtMediaType /\ data = GoStrings.bytesOf (World.Token c) \/
         contentType = cwtMediaType /\ data = CWT c)
  | Healthz => False
  end.

Context `{!Signer.EcdsaLaws _} `{!Token.ZlibLaws _} `{!Token.JsonLaws _} `{!Cwt.CborLaws _}.

Lemma good_publishable w id r :
  Rely.Inv w -> lists (w_pg w) !! id = Some r -> Publisher.publishable (MetaStore.scanListMeta r).
Proof.
  intros HI Hr. destruct (Rely.inv_good w HI _ _ Hr) as (Hb & Hs & _). split; [exact Hb|].
  simpl. rewrite u64_small by lia. unfold Bitmap.sizeOk. lia.
Qed.

Lemma quiet_current s pk w w' r c :
  quiet w w' -> current s pk w' r c -> current s pk w r c.
Proof.
  intros (_ & Hr & Hp). unfold current, Publisher.liveVersion, Publisher.live, pubOf.
  by rewrite Hp, Hr.
Qed.

(** Only the cache of this process may change, by an entry of this list that
    has its version. *)
Definition readOnly (s : Server) (listID : string) (w w' : world) : Prop :=
  exists f, Publisher.publishes (pub s) w w' f /\
    forall m id c, f m !! id = Some c -> m !! id = Some c \/
      (id = listID /\ forall r, lists (w_pg w) !! listID = Some r ->
         Version c = Publisher.liveVersion w (MetaStore.scanListMeta r)).

Lemma quiet_readOnly s listID w w' : quiet w w' -> readOnly s listID w w'.
Proof. intros Hq. exists id. split; [by apply Publisher.quiet_publishes|auto]. Qed.

Lemma serve_wp s pk listID accept inm w0 w r now :
  Signer.Public (Publisher.key (pub s)) = Some pk -> Rely.Inv w0 -> quiet w0 w ->
  lists (w_pg w0) !! listID = Some r -> ~ gone s now r ->
  GoStrings.isASCII (Publisher.baseURL (pub s) +:+ "/lists/" +:+ listID) = true ->
  wp (serve s (MetaStore.scanListMeta r) accept inm)
    (fun resp w' => readOnly s listID w0 w' /\ answers s pk listID accept inm w0 now resp) w.
Proof.
  intros Hpk HI Hq Hr Hng Hurl. unfold serve. case_bool_decide as Hf.
  { apply wp_ret. split; [|simpl; auto 6]. by apply quiet_readOnly. }
  pose proof (MetaStore.row_id _ _ (MetaStore.inv_rows _ (Rely.inv_pg _ HI) _ _ Hr)) as Hid.
  assert (Publisher.listURL (pub s) (MetaStore.scanListMeta r) =
    Publisher.baseURL (pub s) +:+ "/lists/" +:+ listID) as Hu by (unfold Publisher.listURL; simpl; by rewrite Hid).
  assert (forall w' f, Publisher.publishes (pub s) w w' f ->
    (forall m i c, f m !! i = Some c -> m !! i = Some c \/
      (i = listID /\ Version c = Publisher.liveVersion w (MetaStore.scanListMeta r))) ->
    readOnly s listID w0 w') as Hro.
  { intros w' f (P1 & P2 & P3 & P4 & P5) Hnew. destruct Hq as (Q1 & Q2 & Q3). exists f. split.
    - unfold Publisher.publishes, pubOf in *. rewrite <- Q3. split_and!; try congruence; try done.
    - intros m i c Hi. destruct (Hnew m i c Hi) as [?|[-> Hv]]; [by left|right]. split; [done|].
      intros r' Hr'. rewrite Hr in Hr'. injection Hr' as <-. unfold Publisher.liveVersion in *. by rewrite <- Q2. }
  apply wp_bind. eapply wp_mono.
  { apply (Publisher.PublishIfStale_wp (pub s) (MetaStore.scanListMeta r) (DefaultTTLSeconds s) pk w Hpk).
    - by apply (good_publishable w0 listID).
    - destruct Hq as (_ & Hred & _). rewrite Hred. apply HI.
    - by rewrite Hu. }
  intros [c|e] w1 Hpub; [|apply wp_ret; split; [eapply Hro; [exact Hpub|auto]|simpl; auto]].
  destruct Hpub as (Hv & Ht & Hc).
  assert (current s pk w0 r c) as Hcur.
  { apply (quiet_current _ _ _ w); [done|]. split_and!; [done|done|]. destruct Hc as [[_ ?]|[_ ?]]; auto. }
  assert (readOnly s listID w0 w1) as Hro1.
  { destruct Hc as [[Hp _]|[Hp _]]; (eapply Hro; [exact Hp|]); [auto|].
    intros m i c' Hi. rewrite lookup_insert in Hi. case_decide as Hi'; [|auto]. injection Hi as <-. right.
    split; [|done]. simpl in Hi'. congruence. }
  assert (Version c = Publisher.liveVersion w0 (MetaStore.scanListMeta r)) as Hv0 by apply Hcur.
  case_bool_decide as He.
  { apply wp_ret. split; [done|]. exists r. by rewrite <- Hv0. }
  assert (forall ct data, ct = negotiateListFormat accept ->
    (ct = jwtMediaType /\ data = GoStrings.bytesOf (World.Token c) \/ ct = cwtMediaType /\ data = CWT c) ->
    readOnly s listID w0 w1 /\ answers s pk listID accept inm w0 now (Content (etagOf (Version c))
      ("public, max-age=" +:+ GoStrings.FormatInt (TTL c)) ct data)) as Hdone.
  { intros ct data Hct Hd. split; [done|]. exists r, c. rewrite <- Ht, <- Hv0. done. }
  case_bool_decide as Hcwt; apply wp_ret; apply Hdone; auto.
  destruct (negotiate_cases accept) as [?|[?|?]]; congruence.
Qed.

Lemma handleGetList_wp s pk listID accept inm w :
  Signer.Public (Publisher.key (pub s)) = Some pk -> Rely.Inv w ->
  GoStrings.isASCII (Publisher.baseURL (pub s) +:+ "/lists/" +:+ listID) = true ->
  wp (handleGetList s listID accept inm)
    (fun resp w' => readOnly s listID w w' /\ exists now, w_clock w <= now /\
       answers s pk listID accept inm w now resp) w.
Proof.
  intros Hpk HI Hurl. unfold handleGetList.
  assert (forall w', quiet w w' -> readOnly s listID w w') as Hro
    by (intros w' Hq; by apply quiet_readOnly).
  apply wp_bind, wp_pg_read; [done| |].
  2: { intros w' Hq. apply wp_ret. split; [by apply Hro|]. exists (w_clock w). simpl; auto with lia. }
  intros now w1 Hle Hq Hnow. cbn [MetaStore.sqlGetList fst].
  destruct (lists (w_pg w) !! listID) as [r|] eqn:Hr; simpl.
  2: { apply wp_ret. split; [by apply Hro|]. exists now. simpl; auto with lia. }
  assert (~ gone s now r -> wp (serve s (MetaStore.scanListMeta r) accept inm)
    (fun resp w' => readOnly s listID w w' /\ exists now, w_clock w <= now /\
       answers s pk listID accept inm w now resp) w1) as Hserve.
  { intros Hng. eapply wp_mono; [by apply (serve_wp s pk listID accept inm w w1 r now)|].
    intros resp w' [??]. eauto. }
  case_bool_decide as Hs; [|apply Hserve; by intros [? _]].
  apply wp_bind, wp_getNow. rewrite Hnow. destruct (retentionOver _ _ _) eqn:Ho.
  - apply wp_ret. split; [by apply Hro|]. exists now. split; [lia|]. right. right. left. split; [done|].
    exists r. by split.
  - apply Hserve. intros [_ ?]. congruence.
Qed.

End Answers.
#[local] Existing Instances Token.Concrete.ecdsa Token.Concrete.ecdsa_laws Token.Concrete.zlib
  Token.Concrete.zlib_laws Token.Concrete.json Token.Concrete.json_laws Token.Concrete.methods
  Cwt.Concrete.cbor Cwt.Concrete.cbor_laws.

(** An example: the lists of the garbage collector's example, and a verifier
    with the same retention. *)
Definition exampleServer : Server :=
  MkServer 200 60 (Publisher.MkPublisher "verifier" ["s1"; "b"] Token.Concrete.key "k1"
    "https://v.example" ∅ []).

Definition exampleWorld : world := MkWorld (w_pg Gc.exampleWorld) ∅ ∅ [] 1000 [] [].

Lemma verifierWorld_inv : Rely.Inv exampleWorld.
Proof.
  split.
  - apply Gc.gcWorld_inv.
  - apply Rely.rows_good_check. vm_compute. reflexivity.
  - intros shard. apply BitmapStore.keyspace_ok_empty.
Qed.

(** ** Properties *)

(** C21: what the answers of GET /lists/{id} mean, under any failures. A 404 is
    given only if there is no such list, a 410 only if it is archived and its
    retention window is over, a 406 only if the Accept header admits neither
    format, a 304 only if the tag sent is that of the current version. A 200
    carries the negotiated format of a token with the current version and
    ttl, which was the cached one or verifies and shows the bytes Redis
    holds. No request changes a table, a bitmap or another process. *)
Theorem get_list_answers `{!Signer.Ecdsa} `{!Token.Zlib} `{!Token.Json} `{!Cwt.Cbor}
    `{!Token.JwtMethods} `{!Signer.EcdsaLaws _} `{!Token.ZlibLaws _} `{!Token.JsonLaws _}
    `{!Cwt.CborLaws _} (s : Server) (pk : Signer.public) (listID accept inm : string) (w : world) :
  Signer.Public (Publisher.key (pub s)) = Some pk -> Rely.Inv w ->
  GoStrings.isASCII (Publisher.baseURL (pub s) +:+ "/lists/" +:+ listID) = true ->
  let '(resp, w') := run (handleGetList s listID accept inm) w in
  readOnly s listID w w' /\ exists now, w_clock w <= now /\ answers s pk listID accept inm w now resp.
Proof.
  intros Hpk HI Hurl. pose proof (handleGetList_wp s pk listID accept inm w Hpk HI Hurl) as Hwp.
  unfold wp in Hwp. destruct (run (handleGetList s listID accept inm) w). exact Hwp.
Qed.

Lemma get_list_answers_witness :
  exists resp w', run (handleGetList exampleServer "s1.ab" "*/*" "") exampleWorld = (resp, w') /\
    readOnly exampleServer "s1.ab" exampleWorld w' /\
    exists now, 1000 <= now /\
      answers exampleServer Token.Concrete.pub "s1.ab" "*/*" "" exampleWorld now resp.
Proof.
  pose proof (get_list_answers exampleServer Token.Concrete.pub "s1.ab" "*/*" "" exampleWorld
    ltac:(reflexivity) verifierWorld_inv ltac:(vm_compute; reflexivity)) as Hspec.
  destruct (run (handleGetList exampleServer "s1.ab" "*/*" "") exampleWorld) as [resp w'].
  exists resp, w'. split; [reflexivity|exact Hspec].
Defined.

(** C22: the retention windows of the collector and the verifier agree. Let a
    sweep run, whatever fails on the way, in tables in which every purged
    list was archived long enough ago. At any later time, a verifier with the
    same retention period answers a request for a purged list with 410 (or
    500 if the database fails): it never builds a token from the bitmap the
    sweep has removed. *)
Theorem purged_list_is_gone `{!Signer.Ecdsa} `{!Token.Zlib} `{!Token.Json} `{!Cwt.Cbor}
    (g : Gc.Sweeper) (s : Server) (listID accept inm : string) (w w1 w2 : world)
    (res : result unit) (cutoff : Z) (r : list_row) :
  MetaStore.pg_inv (w_pg w) -> Gc.purgedDue cutoff (w_pg w) ->
  cutoff <= w_clock w + durNeg (Gc.Retention g) ->
  GCRetentionPeriod s = Gc.Retention g -> minInt64 < Gc.Retention g < maxInt64 ->
  run (Gc.Sweep g) w = (res, w1) -> w_pg w2 = w_pg w1 -> w_clock w < w_clock w2 ->
  lists (w_pg w2) !! listID = Some r -> r_purged r = true ->
  exists m w3, run (handleGetList s listID accept inm) w2 = (JSONError 410 m, w3) \/
               run (handleGetList s listID accept inm) w2 = (JSONError 500 m, w3).
Proof.
  intros Hinv Hdue Hcut Hret Hrange Hsweep Hpg Hclock Hr Hp.
  pose proof (Gc.Sweep_due g cutoff w Hinv Hcut Hdue) as Hwp. unfold wp in Hwp.
  rewrite Hsweep in Hwp. cbn [fst snd] in Hwp. rewrite <- Hpg in Hwp.
  destruct (Hwp _ _ Hr Hp) as [Hst Ha]. unfold durNeg in Ha.
  rewrite i64_small in Ha by (unfold minInt64, maxInt64 in *; lia).
  enough (wp (handleGetList s listID accept inm)
    (fun resp _ => exists m, resp = JSONError 410 m \/ resp = JSONError 500 m) w2) as Hg.
  { unfold wp in Hg. destruct (run (handleGetList s listID accept inm) w2) as [resp w3].
    destruct Hg as (m & [Hg|Hg]); exists m, w3; simpl in Hg; rewrite Hg; auto. }
  unfold handleGetList. apply wp_bind, wp_pg_read; [done| |intros; apply wp_ret; eauto].
  intros now w3 Hle _ Hnow. cbn [MetaStore.sqlGetList fst]. rewrite Hr. simpl.
  rewrite bool_decide_eq_true_2 by done. apply wp_bind, wp_getNow. rewrite Hnow.
  assert (retentionOver s now (r_archived_at r) = true) as ->; [|apply wp_ret; eauto].
  unfold retentionOver, MetaStore.leNull, timeSub in *. destruct (r_archived_at r) as [t|]; [|done].
  rewrite Hret. apply Z.ltb_lt. apply Z.leb_le in Ha. unfold minInt64, maxInt64 in *. lia.
Qed.

(** The world of the collector's example, a nanosecond after the sweep. *)
Definition afterSweep : world :=
  MkWorld (w_pg (run (Gc.Sweep Gc.exampleSweeper) Gc.exampleWorld).2) ∅ ∅ [] 1001 [] [].

Definition afterRow : list_row :=
  MkListRow "b.1" 2 4 0 MetaStore.exampleKey None ARCHIVED 21 (Some 30) true "b" (Some 1000).

Lemma afterSweep_row : lists (w_pg afterSweep) !! "b.1" = Some afterRow.
Proof. vm_compute. reflexivity. Qed.

Lemma w_pg_of db : w_pg (MkWorld db ∅ ∅ [] 1001 [] []) = db.
Proof. reflexivity. Qed.

Lemma exampleSweep_pg : w_pg afterSweep = w_pg (run (Gc.Sweep Gc.exampleSweeper) Gc.exampleWorld).2.
Proof. unfold afterSweep. apply w_pg_of. Qed.

Lemma example_due : Gc.purgedDue 0 (w_pg Gc.exampleWorld).
Proof. apply Gc.purgedDue_none. vm_compute. reflexivity. Qed.

Lemma purged_list_is_gone_witness :
  exists m w3, run (handleGetList exampleServer "b.1" "" "") afterSweep = (JSONError 410 m, w3) \/
               run (handleGetList exampleServer "b.1" "" "") afterSweep = (JSONError 500 m, w3).
Proof.
  pose proof exampleSweep_pg as Hpg.
  destruct (run (Gc.Sweep Gc.exampleSweeper) Gc.exampleWorld) as [res w1] eqn:Hrun.
  apply (purged_list_is_gone Gc.exampleSweeper exampleServer "b.1" "" "" Gc.exampleWorld w1 afterSweep
    res 0 afterRow Gc.gcWorld_inv example_due); [| | |exact Hrun|exact Hpg| |exact afterSweep_row|].
  - change (w_clock Gc.exampleWorld) with 1000. change (durNeg _) with (-200). lia.
  - reflexivity.
  - change (Gc.Retention _) with 200. unfold minInt64, maxInt64. lia.
  - change (w_clock Gc.exampleWorld) with 1000. change (w_clock afterSweep) with 1001. lia.
  - reflexivity.
Defined.

(** At the instant in which the window ends the two disagree: the collector
    purges the list, and the verifier still serves it. *)
Lemma last_instant_disagrees (g : Gc.Sweeper) `{!Signer.Ecdsa} (s : Server) (r : list_row) (t : Z) :
  GCRetentionPeriod s = Gc.Retention g -> minInt64 < Gc.Retention g <= maxInt64 ->
  r_state r = ARCHIVED -> r_purged r = false -> r_archived_at r = Some t ->
  let now := t + Gc.Retention g in
  Gc.pastRetention (now + durNeg (Gc.Retention g)) r = true /\ ~ gone s now r.
Proof.
  intros Hret Hrange Hs Hp Ha now. split.
  - unfold Gc.pastRetention, MetaStore.isState, MetaStore.leNull, durNeg. rewrite Hs, Hp, Ha.
    rewrite i64_small by (unfold minInt64, maxInt64 in *; lia). simpl. apply Z.leb_le. lia.
  - intros [_ Ho]. rewrite Ha in Ho. simpl in Ho. apply Z.ltb_lt in Ho. unfold timeSub, now in Ho. lia.
Qed.

End Verifier.
