(* ===== verification/Decoy.v ===== *)
(** * internal/decoy: camouflage in unallocated entries

    One pass over a shard's lists that flips a random sample of the entries
    that no credential has. The theorems: a pass never touches an
    allocated entry and never moves an entry that was INVALID when it began,
    whatever fails; but, since the snapshot of the bitmap is taken once, two
    draws of one entry in a pass can move it from INVALID to SUSPENDED. *)

From Stdlib Require Import SpecFloat.
From S2P Require Import Prelude Float64 GoStrings Signer Sha256 Allocator Bitmap Prog Debounce World MetaStore BitmapStore Rely Pool Token Publisher Ingestion.

Module Decoy.

(** [rand.Float64()]: 53 random bits over 2^53. *)
Definition randFloat64 : prog world spec_float :=
  let! k := randN (2 ^ 53) in Ret (binary_normalize Float64.prec Float64.emax k (-53) false).

(** ** The pass *)

Section Noise.
Context `{!Signer.Ecdsa} `{!Float64.Conversion}.

Record Noiser := MkNoiser {
  pub : Publisher.Publisher;
  shardID : string;
  Rate : spec_float;
  DefaultTTLSeconds : Z
}.

Definition nextDecoyStatus (cur : Z) : prog world (Z * bool) :=
  if cur =? Bitmap.StatusValid then
    let! k := randN 2 in
    Ret (if k =? 0 then (Bitmap.StatusInvalid, true) else (Bitmap.StatusSuspended, true))
  else if cur =? Bitmap.StatusSuspended then
    let! k := randN 2 in
    Ret (if k =? 0 then (Bitmap.StatusValid, true) else (cur, false))
  else Ret (cur, false).

(** One round of the loop: whether it wrote. *)
Definition decoyDraw (n : Noiser) (lm : MetaStore.ListMeta) (alloc : Allocator.Allocator)
    (bm : Bitmap.Bitmap) (unallocated : Z) : prog world (result bool) :=
  let! k := randN unallocated in
  let pos := u64 (MetaStore.Cursor lm + k) in
  try! idx := Ret (Allocator.Index alloc pos) in
  try! cur := Ret (Bitmap.Get bm idx) in
  let! nc := nextDecoyStatus cur in
  if negb nc.2 then Ret (Ok false)
  else
    try! allocated := MetaStore.IsAllocated (MetaStore.ID lm) idx in
    if allocated then Ret (Ok false)
    else
      let off := Bitmap.ByteOffset idx (MetaStore.Bits lm) in
      try! _ := BitmapStore.SetStatus (shardID n) (MetaStore.ID lm) off.1 off.2
                  (MetaStore.Bits lm) (u8 nc.1) in
      Ret (Ok true).

Fixpoint decoyLoop (count : nat) (n : Noiser) (lm : MetaStore.ListMeta)
    (alloc : Allocator.Allocator) (bm : Bitmap.Bitmap) (unallocated : Z) (dirty : bool) :
    prog world (result bool) :=
  match count with
  | O => Ret (Ok dirty)
  | S count =>
      try! d := decoyDraw n lm alloc bm unallocated in
      decoyLoop count n lm alloc bm unallocated (dirty || d)
  end.

(** How many draws: the expected number, its fraction by a coin flip. *)
Definition drawCount (n : Noiser) (unallocated : Z) : prog world Z :=
  let expected := Float64.mul (Float64.ofInt unallocated) (Rate n) in
  let count := Float64.toUint64 expected in
  let! f := randFloat64 in
  Ret (if SFltb f (Float64.sub expected (Float64.ofInt count)) then u64 (count + 1) else count).

Definition sweepList (n : Noiser) (lm : MetaStore.ListMeta) : prog world (result unit) :=
  let unallocated := u64 (MetaStore.Size lm - MetaStore.Cursor lm) in
  if unallocated =? 0 then Ret (Ok tt)
  else
    let! count := drawCount n unallocated in
    if count =? 0 then Ret (Ok tt)
    else
      try! alloc := Ret (Allocator.New (MetaStore.FPEKey lm) (MetaStore.Size lm)) in
      try! raw := BitmapStore.Snapshot (shardID n) (MetaStore.ID lm) (Publisher.byteLen lm) in
      try! bm := Ret (Bitmap.WrapBitmap raw (MetaStore.Size lm) (MetaStore.Bits lm)) in
      try! dirty := decoyLoop (Z.to_nat count) n lm alloc bm unallocated false in
      if dirty then
        Publisher.MarkDirty (pub n) (MetaStore.ID lm) (DefaultTTLSeconds n) ;;! Ret (Ok tt)
      else Ret (Ok tt).

Definition Sweep (n : Noiser) : prog world (result unit) :=
  if SFleb (Rate n) (S754_zero false) then Ret (Ok tt)
  else
    try! ls := MetaStore.NoiseLists (shardID n) in
    forLog ls (sweepList n) ;;! Ret (Ok tt).

(** One tick of [Run]; the error is logged. *)
Definition runTick (n : Noiser) : prog world unit := let! _ := Sweep n in Ret tt.

End Noise.

(** ** What a pass may do to an entry *)

(** A status that decoys move, and where they move it. *)
Definition decoyMove (a b : Z) : Prop :=
  (a = Bitmap.StatusValid \/ a = Bitmap.StatusSuspended) /\
  (b = Bitmap.StatusValid \/ b = Bitmap.StatusInvalid \/ b = Bitmap.StatusSuspended).

(** From [w] to [w'] nothing but entries of this shard moved, and those are
    unallocated ones. *)
Record spares (shard : string) (w w' : world) : Prop := {
  sp_pg : w_pg w' = w_pg w;
  sp_other : forall s, s <> shard -> redisOf w' s = redisOf w s;
  sp_ok : BitmapStore.keyspace_ok (redisOf w shard) -> BitmapStore.keyspace_ok (redisOf w' shard);
  sp_entry : forall id r i, lists (w_pg w) !! id = Some r -> 0 <= i < r_size r ->
    Rely.entryOf w' shard id r i = Rely.entryOf w shard id r i \/
    (allocations (w_pg w) !! (id, i) = None /\
     decoyMove (Rely.entryOf w shard id r i) (Rely.entryOf w' shard id r i))
}.

Lemma decoyMove_trans a b c : decoyMove a b -> decoyMove b c -> decoyMove a c.
Proof. unfold decoyMove. tauto. Qed.

#[export] Instance spares_preorder shard : PreOrder (spares shard).
Proof.
  split.
  - intros w. split; [done|done|done|]. by left.
  - intros w1 w2 w3 [P1 O1 K1 E1] [P2 O2 K2 E2].
    split; [congruence|intros s Hs; by rewrite O2, O1|auto|]. intros id r i Hr Hi.
    rewrite P1 in E2. specialize (E1 id r i Hr Hi). specialize (E2 id r i Hr Hi).
    destruct E2 as [E2|[Ha E2]]; [by rewrite E2|]. right. split; [done|].
    destruct E1 as [E1|[_ E1]]; [by rewrite <- E1|]. by apply (decoyMove_trans _ _ _ E1).
Qed.

Lemma same_spares shard w w' :
  w_pg w' = w_pg w -> (forall s, redisOf w' s = redisOf w s) -> spares shard w w'.
Proof.
  intros Hpg Hr. split; [done|auto|by rewrite Hr|]. intros id r i _ _. unfold Rely.entryOf. rewrite Hr. auto.
Qed.

Lemma quiet_spares shard w w' : quiet w w' -> spares shard w w'.
Proof. intros (Hpg & Hr & _). by apply same_spares. Qed.

Section Runs.
Context `{!Signer.Ecdsa} `{!Float64.Conversion}.

(** The write of one draw, failures included. *)
Lemma SetStatus_spares shard id r idx v w :
  Rely.list_good (r_bits r) (r_size r) -> lists (w_pg w) !! id = Some r ->
  BitmapStore.keyspace_ok (redisOf w shard) ->
  0 <= idx < r_size r -> allocations (w_pg w) !! (id, idx) = None -> 0 <= v < 256 ->
  let off := Bitmap.ByteOffset idx (r_bits r) in
  wp (BitmapStore.SetStatus shard id off.1 off.2 (r_bits r) v)
    (fun _ w' => w_pg w' = w_pg w /\ (forall s, s <> shard -> redisOf w' s = redisOf w s) /\
       BitmapStore.keyspace_ok (redisOf w' shard) /\
       forall id' r' i, lists (w_pg w) !! id' = Some r' -> 0 <= i < r_size r' ->
         Rely.entryOf w' shard id' r' i = Rely.entryOf w shard id' r' i \/
         (id' = id /\ i = idx /\ Rely.entryOf w' shard id' r' i = Z.land v (Z.ones (r_bits r)))) w.
Proof.
  intros (Hb & Hs & Hmax) Hr Hk Hi Hal Hv. cbv zeta.
  pose proof (BitmapStore.SetStatus_run w shard id (r_size r) (r_bits r) idx v Hk Hb
    ltac:(unfold Bitmap.sizeOk; lia) Hmax Hi Hv) as Hrun.
  destruct (Bitmap.ByteOffset idx (r_bits r)) as [bi bo]. cbn [fst snd].
  unfold wp. destruct (run _ w) as [res w1]. cbn [fst snd].
  destruct Hrun as (Hk' & Hsame & Hpg & Hoth & Hres). split_and!; [done..|].
  intros id' r' i Hr' Hi'. unfold Rely.entryOf. destruct (decide (id' = id)) as [->|Hne].
  2: { left. by rewrite (BitmapStore.view_same_but id id' _ _ _ _ Hsame Hne). }
  rewrite Hr in Hr'. injection Hr' as <-.
  assert (Bitmap.statuses (BitmapStore.view (redisOf w1 shard) id (r_size r) (r_bits r)) =
      Bitmap.statuses (BitmapStore.view (redisOf w shard) id (r_size r) (r_bits r)) \/
    Bitmap.statuses (BitmapStore.view (redisOf w1 shard) id (r_size r) (r_bits r)) =
      BitmapStore.written (redisOf w shard) id (r_size r) (r_bits r) idx v) as [Hst|Hst]
    by (destruct res; naive_solver).
  - left. apply (inj Some). rewrite <- !Bitmap.lookup_statuses by (simpl; lia). by rewrite Hst.
  - rewrite (BitmapStore.entry_written _ _ _ _ _ _ _ i (eq_refl : Bitmap.size (BitmapStore.view _ _ _ _) = _)
      Hi Hi' Hst). case_decide; auto.
Qed.

(** A status the pass moves to, cut to any width. *)
Lemma decoy_cut next bits :
  Bitmap.ValidBitWidth bits = true ->
  next = Bitmap.StatusValid \/ next = Bitmap.StatusInvalid \/ next = Bitmap.StatusSuspended ->
  let v := Z.land (u8 next) (Z.ones bits) in
  v = Bitmap.StatusValid \/ v = Bitmap.StatusInvalid \/ v = Bitmap.StatusSuspended.
Proof.
  intros Hb. unfold Bitmap.ValidBitWidth in Hb.
  assert (bits = 1 \/ bits = 2 \/ bits = 4 \/ bits = 8) as [-> |[-> |[-> | ->]]] by lia;
    intros [-> |[-> | ->]]; vm_compute; auto.
Qed.

Lemma nextDecoyStatus_wp cur (Q : Z * bool -> world -> Prop) w :
  (forall next w', quiet w w' -> decoyMove cur next -> Q (next, true) w') ->
  (forall next w', quiet w w' -> Q (next, false) w') ->
  wp (nextDecoyStatus cur) Q w.
Proof.
  intros Ht Hf. unfold nextDecoyStatus, decoyMove in *. destruct (Z.eqb_spec cur Bitmap.StatusValid).
  { apply wp_bind, wp_randN. intros k w' Hq. apply wp_ret. destruct (k =? 0); apply Ht; tauto. }
  destruct (Z.eqb_spec cur Bitmap.StatusSuspended).
  { apply wp_bind, wp_randN. intros k w' Hq. apply wp_ret. destruct (k =? 0); [apply Ht; tauto|by apply Hf]. }
  by apply wp_ret, Hf.
Qed.

(** What the rounds of a pass over the list of row [r] share: the snapshot was
    taken in [w0]. *)
Definition passing (n : Noiser) (lm : MetaStore.ListMeta) (r : list_row) (a : Allocator.Allocator)
    (bm : Bitmap.Bitmap) (w0 : world) : Prop :=
  Rely.Inv w0 /\ lists (w_pg w0) !! MetaStore.ID lm = Some r /\ lm = MetaStore.scanListMeta r /\
  Allocator.New (MetaStore.FPEKey lm) (MetaStore.Size lm) = Ok a /\
  bm = BitmapStore.view (redisOf w0 (shardID n)) (MetaStore.ID lm) (r_size r) (r_bits r).

Lemma decoyDraw_wp n lm r a bm u w0 w :
  passing n lm r a bm w0 -> spares (shardID n) w0 w ->
  wp (decoyDraw n lm a bm u) (fun _ w' => spares (shardID n) w0 w') w.
Proof.
  intros (HI & Hr & Hlm & HN & Hbm) Hsp. pose proof (Rely.inv_good _ HI _ _ Hr) as Hgood.
  destruct Hgood as (Hb & Hs & Hmax). pose proof Hsp as [Hpg Hoth Hok Hent].
  assert (forall w', quiet w w' -> spares (shardID n) w0 w') as Hstay.
  { intros w' Hq. etrans; [exact Hsp|]. by apply quiet_spares. }
  unfold decoyDraw. apply wp_bind, wp_randN. intros k w1 Hq1. apply wp_bindErr, wp_ret.
  destruct (Allocator.Index a _) as [idx|e] eqn:Hidx; [|by apply Hstay].
  assert (MetaStore.Size lm = r_size r) as Hsz by (rewrite Hlm; simpl; apply u64_small; lia).
  assert (0 <= idx < r_size r) as Hrange.
  { pose proof (Allocator.New_wf _ (MetaStore.Size lm) a ltac:(rewrite Hsz; lia) HN) as Hw.
    destruct (Allocator.New_half _ _ _ HN) as (_ & Hn & _). rewrite Hsz in Hn.
    destruct (Allocator.Index_ok_range a _ idx Hw (proj1 (u64_range _)) Hidx) as [_ ?]. by rewrite Hn in *. }
  pose proof (BitmapStore.view_wf (redisOf w0 (shardID n)) (MetaStore.ID lm) (r_size r) _
    (Rely.inv_redis _ HI _) Hb ltac:(unfold Bitmap.sizeOk; lia)) as Hwf.
  apply wp_bindErr, wp_ret. rewrite Hbm, (Bitmap.Get_entry _ idx Hwf Hrange).
  apply wp_bind, nextDecoyStatus_wp; intros next w2 Hq2.
  2: { apply wp_ret, Hstay. by etrans. }
  intros Hmove. cbn [snd negb]. apply wp_bindErr. unfold MetaStore.IsAllocated.
  apply wp_pg_read; [done| |].
  2: { intros w3 Hq3. apply Hstay. etrans; [exact Hq1|]. by etrans. }
  intros now w3 _ Hq3 _. cbn [MetaStore.sqlIsAllocated fst].
  assert (quiet w w3) as Hq by (etrans; [exact Hq1|]; by etrans).
  case_bool_decide as Hal; [by apply wp_ret, Hstay|]. apply wp_bindErr.
  assert (w_pg w2 = w_pg w0) as Hpg2.
  { destruct Hq1 as (? & _), Hq2 as (? & _). congruence. }
  assert (w_pg w3 = w_pg w0) as Hpg3 by (destruct Hq3 as (? & _); congruence).
  rewrite Hpg2, i64_small in Hal by (unfold minInt64, maxInt64; lia).
  apply eq_None_not_Some in Hal. pose proof (Hstay w3 Hq) as [_ Hoth3 Hok3 Hent3].
  assert (MetaStore.Bits lm = r_bits r) as -> by (by rewrite Hlm).
  eapply wp_mono.
  { apply (SetStatus_spares (shardID n) (MetaStore.ID lm) r idx (u8 next) w3);
      [done|by rewrite Hpg3|by apply Hok3, HI|done|by rewrite Hpg3|apply u8_range]. }
  intros res w4 (Hpg4 & Hoth4 & Hok4 & Hent4).
  assert (spares (shardID n) w0 w4) as Hfin.
  { split; [congruence|intros sh Hsh; by rewrite Hoth4, Hoth3|done|].
    intros id' r' i Hr' Hi'. rewrite Hpg3 in Hent4.
    destruct (Hent4 id' r' i Hr' Hi') as [-> |(-> & -> & ->)]; [by apply Hent3|].
    right. rewrite Hr in Hr'. injection Hr' as <-. split; [done|].
    split; [exact (proj1 Hmove)|]. apply decoy_cut; [done|exact (proj2 Hmove)]. }
  destruct res; [by apply wp_ret|done].
Qed.

Lemma decoyLoop_wp count n lm r a bm u w0 w dirty :
  passing n lm r a bm w0 -> spares (shardID n) w0 w ->
  wp (decoyLoop count n lm a bm u dirty) (fun _ w' => spares (shardID n) w0 w') w.
Proof.
  intros Hp. revert w dirty. induction count as [|count IH]; intros w dirty Hsp; cbn [decoyLoop];
    [by apply wp_ret|].
  apply wp_bindErr. eapply wp_mono; [by apply (decoyDraw_wp n lm r a bm u w0)|].
  intros [d|e] w' Hsp'; [by apply IH|done].
Qed.

(** The snapshot of a good list, read in [w]. *)
Lemma Snapshot_wp shard id r (Q : result (list Z) -> world -> Prop) w :
  Rely.list_good (r_bits r) (r_size r) -> BitmapStore.keyspace_ok (redisOf w shard) ->
  (forall w', quiet w w' -> Q (Ok (Bitmap.data (BitmapStore.view (redisOf w shard) id (r_size r) (r_bits r)))) w') ->
  (forall w', quiet w w' -> Q ioError w') ->
  wp (BitmapStore.Snapshot shard id (i64 (Bitmap.nBytes (r_size r) (r_bits r)))) Q w.
Proof.
  intros (Hb & Hs & Hmax) Hk Hok Herr.
  pose proof (Bitmap.nBytes_eq (r_size r) (r_bits r) Hb ltac:(unfold Bitmap.sizeOk; lia)) as Hn.
  destruct (Bitmap.width_small (r_size r) (r_bits r) Hb ltac:(unfold Bitmap.sizeOk; lia)) as [_ Hw].
  assert (0 <= Bitmap.nBytes (r_size r) (r_bits r) < 2 ^ 62) as Hr
    by (rewrite Hn; Z.div_mod_to_equations; lia).
  rewrite i64_small by (unfold minInt64, maxInt64; lia).
  unfold BitmapStore.Snapshot. apply wp_bindErr, wp_redis_read; [done| |done].
  intros w' Hq. cbn [BitmapStore.get fst]. apply wp_ret.
  rewrite BitmapStore.snapshotOf_view by (done || lia). by apply Hok.
Qed.

Lemma sweepList_wp n lm r w :
  Rely.Inv w -> lists (w_pg w) !! MetaStore.ID lm = Some r -> lm = MetaStore.scanListMeta r ->
  wp (sweepList n lm) (fun _ w' => spares (shardID n) w w') w.
Proof.
  intros HI Hr Hlm. pose proof (Rely.inv_good _ HI _ _ Hr) as Hgood.
  unfold sweepList. destruct (_ =? 0); [by apply wp_ret|].
  unfold drawCount, randFloat64. apply wp_bind, wp_bind, wp_bind, wp_randN. intros k w1 Hq1.
  apply wp_ret, wp_ret. cbv beta. set (count := if SFltb _ _ then _ else _).
  destruct (count =? 0); [by apply wp_ret, quiet_spares|]. apply wp_bindErr, wp_ret.
  destruct (Allocator.New _ _) as [a|e] eqn:HN; [|by apply quiet_spares].
  assert (MetaStore.Size lm = r_size r) as Hsz
    by (rewrite Hlm; simpl; apply u64_small; destruct Hgood as (_ & ? & _); lia).
  assert (MetaStore.Bits lm = r_bits r) as Hbits by (by rewrite Hlm).
  assert (Rely.Inv w1) as HI1 by (destruct Hq1 as (? & ? & _); by apply (Rely.Inv_same w)).
  apply wp_bindErr. unfold Publisher.byteLen. rewrite Hsz, Hbits.
  apply Snapshot_wp; [done|apply HI1| |].
  2: { intros w2 Hq2. apply quiet_spares. by etrans. }
  intros w2 Hq2. apply wp_bindErr, wp_ret.
  set (bm := BitmapStore.view (redisOf w1 (shardID n)) (MetaStore.ID lm) (r_size r) (r_bits r)).
  destruct (Bitmap.WrapBitmap (Bitmap.data bm) (r_size r) (r_bits r)) as [bm'|e] eqn:Hbm.
  2: { apply quiet_spares. by etrans. }
  assert (bm' = bm) as ->.
  { unfold Bitmap.WrapBitmap in Hbm. repeat case_match; by simplify_eq. }
  assert (spares (shardID n) w1 w2) as Hsp2 by (by apply quiet_spares).
  assert (spares (shardID n) w w1) as Hsp1 by (by apply quiet_spares).
  apply wp_bindErr. eapply wp_mono.
  { apply (decoyLoop_wp _ n lm r a bm _ w1); [|exact Hsp2]. split_and!; try done.
    destruct Hq1 as (-> & _). exact Hr. }
  intros [dirty|e] w3 Hsp3; [|by etrans].
  assert (spares (shardID n) w w3) as Hsp by (by etrans).
  destruct dirty; [|by apply wp_ret].
  apply wp_bind. eapply wp_mono; [apply Publisher.MarkDirty_frame|]. intros u w4 [Hpg4 Hr4].
  apply wp_ret. etrans; [exact Hsp|]. by apply same_spares.
Qed.

Lemma spares_inv shard w w' : Rely.Inv w -> spares shard w w' -> Rely.Inv w'.
Proof.
  intros [Hpg Hg Hr] [Sp So Sk _]. split; [by rewrite Sp|by rewrite Sp|].
  intros sh. destruct (decide (sh = shard)) as [->|]; [by apply Sk|]. by rewrite So.
Qed.

Lemma Sweep_wp n w : Rely.Inv w -> wp (Sweep n) (fun _ w' => spares (shardID n) w w') w.
Proof.
  intros HI. unfold Sweep. destruct (SFleb _ _); [by apply wp_ret|].
  unfold MetaStore.NoiseLists, MetaStore.queryLists.
  apply wp_bindErr, wp_pg_read; [done| |by intros; apply quiet_spares].
  intros now w1 _ Hq _.
  destruct (MetaStore.sqlSelectLists _ now (w_pg w)).1 as [ls|e] eqn:Hl; [|by apply quiet_spares].
  pose proof (Rely.sqlSelectLists_rows _ _ _ _ (Rely.inv_pg _ HI) Hl) as Hrows. clear Hl.
  apply wp_bind, (wp_forLog _ _ (fun l w' => spares (shardID n) w w' /\
      Forall (fun lm => exists r, lm = MetaStore.scanListMeta r /\ lists (w_pg w) !! MetaStore.ID lm = Some r) l)).
  - intros lm l w2 [Hsp Hall]. apply Forall_cons in Hall as [(r & Hlm & Hr) Hall].
    eapply wp_mono; [apply (sweepList_wp n lm r)|].
    + by apply (spares_inv (shardID n) w).
    + by rewrite (sp_pg _ _ _ Hsp).
    + done.
    + intros u w3 Hsp3. split; [by etrans|done].
  - intros w2 [Hsp _]. by apply wp_ret.
  - split; [by apply quiet_spares|]. eapply Forall_impl; [exact Hrows|]. intros lm (r & -> & _ & Hr). eauto.
Qed.

End Runs.

(** ** The contract *)

#[local] Existing Instance Rely.Ev_preorder.

Section Contract.
Context `{!Signer.Ecdsa} `{!Float64.Conversion}.

(** An index the allocator of the list draws, and that the table says is free. *)
Lemma drawn_elsewhere {WA : Rely.Watching} p lm a pos idx nx w :
  Rely.Inv w -> Rely.known p lm (w_pg w) ->
  Allocator.New (MetaStore.FPEKey lm) (MetaStore.Size lm) = Ok a -> Allocator.Index a (u64 pos) = Ok idx ->
  Rely.unwatched (MetaStore.ID lm) (i64 idx) ->
  let off := Bitmap.ByteOffset idx (MetaStore.Bits lm) in
  Rely.elsewhere (MetaStore.ID lm) off.1 off.2 (MetaStore.Bits lm) (u8 nx) (w_pg w).
Proof.
  intros HI (r0 & r & -> & _ & Hr & He) HN Hidx Hu. cbv zeta.
  destruct (Rely.inv_good w HI _ _ Hr) as (_ & Hs & _).
  cbn [MetaStore.Size MetaStore.FPEKey MetaStore.Bits MetaStore.scanListMeta] in *.
  pose proof (MetaStore.ev_size _ _ He) as Hsz. rewrite u64_small in HN by lia.
  pose proof (Allocator.New_wf _ (r_size r0) a ltac:(lia) HN) as Hw.
  destruct (Allocator.New_half _ _ _ HN) as (_ & Hn & _).
  destruct (Allocator.Index_ok_range a _ idx Hw (proj1 (u64_range _)) Hidx) as [_ Hrange].
  rewrite Hn in Hrange. rewrite i64_small in Hu by (unfold minInt64, maxInt64; lia).
  exists r, idx. split_and!; try done; try lia; [apply (MetaStore.ev_bits _ _ He)|apply u8_range|apply u8_range|].
  by apply Rely.unwatched_writable.
Qed.

Lemma safe_nextDecoyStatus {WA : Rely.Watching} cur (Q : Z * bool -> world -> Prop) w0 :
  Rely.Inv w0 -> (forall r w', Rely.Ev w0 w' -> Rely.Inv w' -> Q r w') -> Rely.safe (nextDecoyStatus cur) Q w0.
Proof.
  intros HI HQ. unfold nextDecoyStatus. repeat case_match; [| |Rely.rely_done];
    (apply Rely.safe_bind, Rely.safe_randN; intros k w1 HE1 HI1; Rely.rely_done).
Qed.

Lemma safe_decoyDraw {WA : Rely.Watching} p n lm a bm u (Q : result bool -> world -> Prop) w0 :
  Rely.Inv w0 -> Rely.known p lm (w_pg w0) -> Allocator.New (MetaStore.FPEKey lm) (MetaStore.Size lm) = Ok a ->
  (forall r w', Rely.Ev w0 w' -> Rely.Inv w' -> Q r w') -> Rely.safe (decoyDraw n lm a bm u) Q w0.
Proof.
  intros HI Hk HN HQ. unfold decoyDraw. apply Rely.safe_bind, Rely.safe_randN. intros k w1 HE1 HI1.
  apply Rely.safe_bindErr, Rely.safe_ret. destruct (Allocator.Index _ _) as [idx|] eqn:Hidx; [|Rely.rely_done].
  apply Rely.safe_bindErr, Rely.safe_ret. destruct (Bitmap.Get _ _) as [cur|]; [|Rely.rely_done].
  apply Rely.safe_bind, safe_nextDecoyStatus; [done|]. intros [nx []] w2 HE2 HI2; cbn [snd negb fst]; [|Rely.rely_done].
  apply Rely.safe_bindErr, Rely.safe_IsAllocated; [|intros w3 HE3 HI3; Rely.rely_done].
  intros [] w3 HE3 HI3 Hun; [Rely.rely_done|].
  apply Rely.safe_bindErr, Rely.safe_SetStatus.
  { apply (drawn_elsewhere p lm a (MetaStore.Cursor lm + k) idx nx w3 HI3); [|done|exact Hidx|by apply Hun].
    apply (Rely.known_stable p lm (w_pg w0)); [|done]. change (Rely.Ev w0 w3). Rely.ev. }
  intros [v|e] w4 HE4 HI4; Rely.rely_done.
Qed.

Lemma safe_decoyLoop {WA : Rely.Watching} p count n lm a bm u dirty (Q : result bool -> world -> Prop) w0 :
  Rely.Inv w0 -> Rely.known p lm (w_pg w0) -> Allocator.New (MetaStore.FPEKey lm) (MetaStore.Size lm) = Ok a ->
  (forall r w', Rely.Ev w0 w' -> Rely.Inv w' -> Q r w') -> Rely.safe (decoyLoop count n lm a bm u dirty) Q w0.
Proof.
  revert dirty w0. induction count as [|count IH]; intros dirty w0 HI Hk HN HQ; cbn [decoyLoop]; [Rely.rely_done|].
  apply Rely.safe_bindErr, (safe_decoyDraw p); [done..|]. intros [d|e] w1 HE1 HI1; [|Rely.rely_done].
  apply IH; [done|by apply (Rely.known_stable p lm (w_pg w0))|done|]. intros r w2 HE2 HI2. Rely.rely_done.
Qed.

Lemma safe_sweepList {WA : Rely.Watching} p n lm (Q : result unit -> world -> Prop) w0 :
  Rely.Inv w0 -> Rely.known p lm (w_pg w0) -> (forall r w', Rely.Ev w0 w' -> Rely.Inv w' -> Q r w') ->
  Rely.safe (sweepList n lm) Q w0.
Proof.
  intros HI Hk HQ. unfold sweepList. destruct (_ =? 0); [Rely.rely_done|].
  apply Rely.safe_bind, Rely.safe_bind, Rely.safe_bind, Rely.safe_randN. intros k w1 HE1 HI1.
  apply Rely.safe_ret, Rely.safe_ret. cbv beta. destruct (_ =? 0); [Rely.rely_done|].
  apply Rely.safe_bindErr, Rely.safe_ret. destruct (Allocator.New _ _) as [a|] eqn:HN; [|Rely.rely_done].
  apply Rely.safe_bindErr, Rely.safe_Snapshot. intros [raw|e] w2 HE2 HI2; [|Rely.rely_done].
  apply Rely.safe_bindErr, Rely.safe_ret. destruct (Bitmap.WrapBitmap _ _ _) as [bm|]; [|Rely.rely_done].
  apply Rely.safe_bindErr, (safe_decoyLoop p); [done| |done|].
  { apply (Rely.known_stable p lm (w_pg w0)); [|done]. change (Rely.Ev w0 w2). Rely.ev. }
  intros [[]|e] w3 HE3 HI3; [|Rely.rely_done..].
  apply Rely.safe_bind, Publisher.safe_MarkDirty. intros u w4 HE4 HI4. Rely.rely_done.
Qed.

Lemma safe_decoyTick {WA : Rely.Watching} n (Q : unit -> world -> Prop) w0 :
  Rely.Inv w0 -> (forall r w', Rely.Ev w0 w' -> Rely.Inv w' -> Q r w') ->
  Rely.safe (runTick n) Q w0.
Proof.
  intros HI HQ. apply Rely.safe_bind. unfold Sweep. destruct (SFleb _ _); [Rely.rely_done|].
  apply Rely.safe_bindErr, Rely.safe_queryLists; [|intros w1 HE1 HI1; Rely.rely_done].
  intros ls w1 HE1 HI1 Hls. apply Rely.safe_bind, Rely.safe_forLog; [done| |].
  - intros lm w2 Hin HE2 HI2. rewrite Forall_forall in Hls. eapply safe_sweepList; [done| |done].
    eapply Rely.known_stable; [exact HE2|]. by apply Hls.
  - intros w2 HE2 HI2. Rely.rely_done.
Qed.

End Contract.

(** ** An example: four entries, two of them allocated *)

#[local] Existing Instance Token.Concrete.ecdsa.
#[local] Instance exampleConversion : Float64.Conversion := {| Float64.outOfRange _ := 0 |}.

Definition exampleNoiser : Noiser :=
  MkNoiser (Publisher.MkPublisher "ingestion" ["s1"] Token.Concrete.key "k1" "https://v.example" ∅ [])
    "s1" (Float64.ofInt 1) 60.

(** The random source: the coin, then twice the first free position, with two
    different moves. *)
Definition exampleWorld : world := MkWorld (Ingestion.exampleDB 2) ∅ ∅ [] 100 [] [0; 0; 0; 0; 1].

Lemma decoyWorld_inv : Rely.Inv exampleWorld.
Proof.
  destruct (Ingestion.ingestionWorld_inv 2 (or_intror eq_refl)) as [H1 H2 H3]. by split.
Qed.

(** ** Properties *)

(** C25: decoys never harm a real credential. Whatever fails during a pass,
    the tables and the other shards are as before; an allocated entry of any
    list reads what it read before, and so does every entry that was INVALID;
    the entries that do change go from VALID or SUSPENDED to one of the three
    statuses. *)
Theorem decoys_spare_allocated `{!Signer.Ecdsa} `{!Float64.Conversion} (n : Noiser) (w w' : world)
    (res : result unit) :
  Rely.Inv w -> run (Sweep n) w = (res, w') ->
  w_pg w' = w_pg w /\ (forall s, s <> shardID n -> redisOf w' s = redisOf w s) /\ Rely.Inv w' /\
  forall id r i, lists (w_pg w) !! id = Some r -> 0 <= i < r_size r ->
    let before := Rely.entryOf w (shardID n) id r i in
    let after := Rely.entryOf w' (shardID n) id r i in
    (is_Some (allocations (w_pg w) !! (id, i)) \/ before = Bitmap.StatusInvalid -> after = before) /\
    (after <> before -> decoyMove before after).
Proof.
  intros HI Hrun. pose proof (Sweep_wp n w HI) as Hwp. unfold wp in Hwp. rewrite Hrun in Hwp.
  cbn [fst snd] in Hwp. pose proof (spares_inv _ _ _ HI Hwp) as HI'. destruct Hwp as [Hpg Ho _ He].
  split_and!; [done..|]. intros id r i Hr Hi before after.
  destruct (He id r i Hr Hi) as [Heq|[Hn Hm]]; [done|]. split; [|done].
  intros [[al Hal]|Hinv]; [congruence|]. destruct Hm as [Hm _].
  unfold before in Hinv. rewrite Hinv in Hm. by destruct Hm.
Qed.

Lemma decoys_spare_allocated_witness :
  exists res w', run (Sweep exampleNoiser) exampleWorld = (res, w') /\
    Rely.entryOf w' "s1" "s1.ab" (Ingestion.exampleRow 2) 2 = Rely.entryOf exampleWorld "s1" "s1.ab" (Ingestion.exampleRow 2) 2.
Proof.
  destruct (run (Sweep exampleNoiser) exampleWorld) as [res w'] eqn:Hrun.
  exists res, w'. split; [reflexivity|].
  apply (decoys_spare_allocated exampleNoiser exampleWorld w' res decoyWorld_inv Hrun).
  - exact (Ingestion.exampleRow_lookup 2 (or_intror eq_refl)).
  - simpl. lia.
  - left. vm_compute. eexists. reflexivity.
Defined.

(** The parts of the pass of the example: its list, allocator and snapshot. *)
Definition exampleList : MetaStore.ListMeta := MetaStore.scanListMeta (Ingestion.exampleRow 2).

Definition exampleDraw (w : world) : prog world (result bool) :=
  match Allocator.New (MetaStore.FPEKey exampleList) (MetaStore.Size exampleList) with
  | Ok a => decoyDraw exampleNoiser exampleList a
              (BitmapStore.view (redisOf w "s1") "s1.ab" 4 2) 2
  | Err e => Ret (Err e)
  end.

(** The entry that both draws of the example fall on, in [w]. *)
Definition exampleEntry (w : world) : Z :=
  match Allocator.New (MetaStore.FPEKey exampleList) (MetaStore.Size exampleList) with
  | Ok a => match Allocator.Index a 2 with
            | Ok idx => Rely.entryOf w "s1" "s1.ab" (Ingestion.exampleRow 2) idx
            | Err _ => -1
            end
  | Err _ => -1
  end.

(** A pass does not look at what it has itself written. In a pass of two
    draws with one snapshot that fall on the same unallocated entry, the
    first writes INVALID and the second then writes SUSPENDED: the move that
    nextDecoyStatus rules out for an INVALID entry. *)
Theorem second_draw_moves_invalid :
  let draw := exampleDraw exampleWorld in
  let w0 := set_env exampleWorld 100 [] [0; 0; 0; 1] in
  let w1 := (run draw w0).2 in
  let w2 := (run draw w1).2 in
  exampleEntry w0 = Bitmap.StatusValid /\
  exampleEntry w1 = Bitmap.StatusInvalid /\
  exampleEntry w2 = Bitmap.StatusSuspended /\
  exampleEntry (run (Sweep exampleNoiser) exampleWorld).2 = Bitmap.StatusSuspended.
Proof. vm_compute. split_and!; reflexivity. Qed.

End Decoy.
