(* ===== verification/Ingress.v ===== *)
(** * internal/ingress: the router in front of the shards

    [ServeHTTP] decides, from the Authorization header and the path, which
    shard's backend a request is proxied to. The access-token validator is
    go-tokenauth's, a parameter; URL parsing is a parameter of [New]. The
    theorems: nothing is proxied without a valid token; a status update is
    sent to the shard its list names, everything else to the shard of the
    token; and [relay], the router in front of the ingestion services, turns
    away the status updates of an issuer that was moved to another shard. *)

From Stdlib Require Import Ascii.
From S2P Require Import Prelude GoStrings Signer Prog World ListId MetaStore BitmapStore Rely Pool Token Publisher Ingestion.

Module Ingress.

(** Why the validator rejected a token. *)
Inductive tokenError : Type := ErrExpired | ErrRejected.

(** What the validator makes of a token while the requests at hand are served;
    AuthServer says at which instants it accepts a token. *)
Class Validator := {
  Validate : string -> Ingestion.Result + tokenError
}.

(** The parts of a parsed URL a proxy is built from. *)
Class URLs := {
  url : Type;
  parseURL : string -> result url
}.

Inductive response (target : Type) : Type :=
| Unauthorized (challenge message : string)
| BadGateway (message : string)
| Proxied (shard : string) (backend : target).
Arguments Unauthorized {_} _ _.
Arguments BadGateway {_} _.
Arguments Proxied {_} _ _.

Definition slash : ascii := "/"%char.

Section Router.
Context `{!Validator} `{!URLs}.

Record Router := MkRouter { proxies : gmap string url }.

(** One proxy per backend; any backend that does not parse is an error. *)
Fixpoint buildProxies (backends : list (string * string)) (acc : gmap string url) :
    result (gmap string url) :=
  match backends with
  | [] => Ok acc
  | (shardID, backend) :: rest =>
      match parseURL backend with
      | Err e => Err e
      | Ok target => buildProxies rest (<[shardID := target]> acc)
      end
  end.

Definition New (backends : gmap string string) : result Router :=
  match buildProxies (map_to_list backends) ∅ with
  | Err e => Err e
  | Ok p => Ok (MkRouter p)
  end.

Definition listIDFromStatusPath (path : string) : option string :=
  match GoStrings.Split (GoStrings.Trim path slash) slash with
  | [seg0; seg1; seg2] =>
      if negb (bool_decide (seg0 = "status")) || bool_decide (seg1 = "") then None else Some seg1
  | _ => None
  end.

Definition quoted (s : string) : string :=
  String (ascii_of_nat 34) (s +:+ String (ascii_of_nat 34) "").

Definition bearerInvalidTokenChallenge (err : tokenError) : string :=
  let description := match err with
                     | ErrExpired => "the access token expired"
                     | ErrRejected => "the access token is invalid"
                     end in
  "Bearer error=" +:+ quoted "invalid_token" +:+ ", error_description=" +:+ quoted description.

(** The shard a request goes to. *)
Definition shardOf (r : Router) (tenantID path : string) : string :=
  match listIDFromStatusPath path with
  | Some listID =>
      match ListId.ParseShard listID with
      | Some s => match proxies r !! s with Some _ => s | None => tenantID end
      | None => tenantID
      end
  | None => tenantID
  end.

Definition ServeHTTP (r : Router) (authorization path : string) : response url :=
  let '(token, ok) := GoStrings.CutPrefix authorization "Bearer " in
  if negb ok || bool_decide (token = "") then
    Unauthorized ("Bearer error=" +:+ quoted "invalid_request")
      "missing or malformed Authorization header"
  else
    match Validate token with
    | inr err => Unauthorized (bearerInvalidTokenChallenge err) "invalid access token"
    | inl result =>
        let shardID := shardOf r (Ingestion.TenantID result) path in
        match proxies r !! shardID with
        | None => BadGateway "no backend configured for this shard"
        | Some target => Proxied shardID target
        end
    end.

End Router.

(** ** Paths *)

Lemma listID_of_path listID idx :
  GoStrings.lacks slash listID = true -> listID <> "" ->
  GoStrings.lacks slash idx = true -> idx <> "" ->
  listIDFromStatusPath ("/status/" +:+ listID +:+ "/" +:+ idx) = Some listID.
Proof.
  intros Hl Hl0 Hi Hi0. unfold listIDFromStatusPath.
  assert (GoStrings.Trim ("/status/" +:+ listID +:+ "/" +:+ idx) slash =
    "status" +:+ String slash (listID +:+ String slash idx)) as ->.
  { unfold GoStrings.Trim.
    change (GoStrings.TrimLeft ("/status/" +:+ listID +:+ "/" +:+ idx) slash)
      with ("status/" +:+ listID +:+ ("/" +:+ idx)).
    rewrite <- !GoStrings.append_assoc. rewrite GoStrings.TrimRight_lacks by done.
    by rewrite !GoStrings.append_assoc. }
  rewrite !GoStrings.Split_sep, GoStrings.Split_none by done.
  rewrite bool_decide_true, bool_decide_false by done. done.
Qed.

(** New has a proxy for exactly the shards it was given. *)
Lemma buildProxies_dom `{!URLs} l acc p :
  buildProxies l acc = Ok p -> forall s, is_Some (p !! s) <-> is_Some (acc !! s) \/ s ∈ l.*1.
Proof.
  revert acc. induction l as [|[k b] l IH]; intros acc; simpl.
  - intros [= <-] s. split; [by left|]. intros [?|?%elem_of_nil]; done.
  - destruct (parseURL b) as [t|]; [|done]. intros Hp s. rewrite (IH _ Hp s), elem_of_cons.
    destruct (decide (k = s)) as [->|Hne].
    + rewrite lookup_insert_eq. split; [by right; left|]. by left.
    + rewrite lookup_insert_ne by done. naive_solver.
Qed.

Lemma New_dom `{!URLs} (backends : gmap string string) r :
  New backends = Ok r -> forall s, is_Some (proxies r !! s) <-> is_Some (backends !! s).
Proof.
  unfold New. destruct (buildProxies _ _) as [p|] eqn:Hp; [|done]. intros [= <-] s. simpl.
  rewrite (buildProxies_dom _ _ _ Hp s), lookup_empty.
  rewrite list_elem_of_fmap. split.
  - intros [[? ?]|([k b] & -> & Hin%elem_of_map_to_list)]; [done|]. simpl. by rewrite Hin.
  - intros [b Hb]. right. exists (s, b). split; [done|]. by apply elem_of_map_to_list.
Qed.

(** ** The router in front of the ingestion services *)

Section Relay.
Context `{!Signer.Ecdsa} `{!Validator} `{!URLs}.

(** The token of a request, as [tokengin.TokenAuth] of the shard validates it
    again. *)
Definition tokenAuth (authorization : string) : option Ingestion.Result :=
  let '(token, ok) := GoStrings.CutPrefix authorization "Bearer " in
  if negb ok then None else match Validate token with inl res => Some res | inr _ => None end.

(** PATCH /status/{listID}/{idx} at the router. *)
Definition relayStatus (r : Router) (servers : gmap string Ingestion.Server)
    (authorization listID idx : string) (body : result string) :
    prog world (response url + Ingestion.response) :=
  let resp := ServeHTTP r authorization ("/status/" +:+ listID +:+ "/" +:+ idx) in
  match resp with
  | Proxied shard _ =>
      match servers !! shard with
      | Some s =>
          let! x := Ingestion.route s (tokenAuth authorization) (Ingestion.SetStatus listID idx body) in
          Ret (inr x)
      | None => Ret (inl resp)
      end
  | _ => Ret (inl resp)
  end.

End Relay.

(** ** An example deployment *)

Definition exampleToken (tenant : string) : Ingestion.Result :=
  Ingestion.MkResult "https://issuer" tenant ["r"; "i"; "w"].

#[local] Instance exampleValidator : Validator := {|
  Validate t := if bool_decide (t = "A") then inl (exampleToken "s1")
                else if bool_decide (t = "B") then inl (exampleToken "s2")
                else inr ErrRejected
|}.

#[local] Instance exampleURLs : URLs := {| url := string; parseURL s := Ok s |}.

Definition exampleRouter : Router :=
  MkRouter (<["s1" := "http://a"]> (<["s2" := "http://b"]> (∅ : gmap string string))).

(** ** Properties *)

(** Nothing passes the router without a valid token. A request that is
    proxied carried a non-empty bearer token that the validator accepted, and
    it goes to a backend the router was configured with. *)
Theorem proxied_only_with_token `{!Validator} `{!URLs} (backends : gmap string string) (r : Router)
    (authorization path shard : string) (target : url) :
  New backends = Ok r -> ServeHTTP r authorization path = Proxied shard target ->
  is_Some (backends !! shard) /\
  exists token res, authorization = "Bearer " +:+ token /\ token <> "" /\ Validate token = inl res /\
    shard = shardOf r (Ingestion.TenantID res) path.
Proof.
  intros HN. unfold ServeHTTP. destruct (GoStrings.CutPrefix _ _) as [token ok] eqn:Hc.
  destruct ok; [|done]. cbn [negb orb]. case_bool_decide as Ht; [done|].
  destruct (Validate token) as [res|err] eqn:Hv; [|done].
  destruct (proxies r !! _) as [t|] eqn:Hp; [|done]. intros [= <- <-].
  split; [by apply (New_dom _ _ HN); eexists|]. exists token, res. split_and!; try done.
  by apply GoStrings.CutPrefix_true.
Qed.

Lemma proxied_only_with_token_witness :
  exists token res, "Bearer A" = "Bearer " +:+ token /\ token <> "" /\ Validate token = inl res.
Proof.
  destruct (New (<["s1" := "http://a"]> ∅)) as [r|e] eqn:E; [|vm_compute in E; discriminate].
  destruct (proxied_only_with_token (<["s1" := "http://a"]> ∅) r "Bearer A" "/allocate" "s1" "http://a" E
    ltac:(vm_compute in E; injection E as <-; vm_compute; reflexivity)) as (_ & token & res & H1 & H2 & H3 & _).
  exists token, res. split_and!; [exact H1|exact H2|exact H3].
Defined.

(** C29: a status update goes where the list is. For every list created by a
    shard the router knows, a PATCH of one of its entries with a valid token
    is proxied to that shard, whatever shard the token names; a request of
    any other form goes to the shard of the token. *)
Theorem status_routed_by_list `{!Validator} `{!URLs} (r : Router) (token idx shard : string) (b : list Z)
    (res : Ingestion.Result) (target : url) :
  token <> "" -> Validate token = inl res ->
  shard <> "" -> GoStrings.Contains shard ListId.separator = false -> b <> [] ->
  proxies r !! shard = Some target ->
  let listID := ListId.mk shard b in
  GoStrings.lacks slash listID = true -> GoStrings.lacks slash idx = true -> idx <> "" ->
  ServeHTTP r ("Bearer " +:+ token) ("/status/" +:+ listID +:+ "/" +:+ idx) = Proxied shard target /\
  forall path, listIDFromStatusPath path = None ->
    ServeHTTP r ("Bearer " +:+ token) path =
      match proxies r !! Ingestion.TenantID res with
      | Some t => Proxied (Ingestion.TenantID res) t
      | None => BadGateway "no backend configured for this shard"
      end.
Proof.
  intros Ht Hv Hs Hc Hb Hp listID Hl Hi Hi0. unfold ServeHTTP.
  rewrite GoStrings.CutPrefix_app, bool_decide_false, Hv by done. cbn [negb orb].
  split.
  - unfold shardOf. rewrite listID_of_path; try done.
    + unfold listID. by rewrite ListId.ParseShard_mk, Hp, Hp by done.
    + unfold listID, ListId.mk. by destruct shard.
  - intros path Hpath. unfold shardOf. by rewrite Hpath.
Qed.

Lemma status_routed_by_list_witness :
  ServeHTTP exampleRouter ("Bearer " +:+ "B") ("/status/" +:+ ListId.mk "s1" [171] +:+ "/" +:+ "3") =
    Proxied "s1" "http://a".
Proof.
  apply (status_routed_by_list exampleRouter "B" "3" "s1" [171] (exampleToken "s2") "http://a");
    vm_compute; congruence || reflexivity.
Defined.

(** C30: an issuer that was moved to another shard cannot revoke what it issued
    before. Its new token names the new shard; the router rightly sends a
    status update to the shard of the list, and that shard's own check of the
    token's shard answers 403. Nothing is written. *)
Theorem reassigned_issuer_is_rejected `{!Signer.Ecdsa} `{!Validator} `{!URLs} (r : Router)
    (servers : gmap string Ingestion.Server) (token listID idx shard : string)
    (body : result string) (res : Ingestion.Result) (s : Ingestion.Server) (w : world) :
  token <> "" -> Validate token = inl res ->
  ListId.ParseShard listID = Some shard -> is_Some (proxies r !! shard) ->
  servers !! shard = Some s -> Ingestion.ShardID s = shard -> Ingestion.TenantID res <> shard ->
  GoStrings.lacks slash listID = true -> GoStrings.lacks slash idx = true -> idx <> "" ->
  run (relayStatus r servers ("Bearer " +:+ token) listID idx body) w =
    (inr (Ingestion.JSONError 403 "token is not authorized for this shard"), w).
Proof.
  intros Ht Hv Hp [t Hx] Hs Hid Hne Hl Hi Hi0.
  assert (listID <> "") as Hl0 by (intros ->; vm_compute in Hp; discriminate).
  unfold relayStatus, ServeHTTP.
  rewrite GoStrings.CutPrefix_app, bool_decide_false, Hv by done. cbn [negb orb].
  unfold shardOf. rewrite listID_of_path, Hp, Hx, Hx, Hs by done.
  unfold tokenAuth. rewrite GoStrings.CutPrefix_app, Hv. cbn [negb].
  unfold Ingestion.route, Ingestion.authed. rewrite bool_decide_false by congruence.
  reflexivity.
Qed.

#[local] Existing Instance Token.Concrete.ecdsa.

Lemma reassigned_issuer_is_rejected_witness :
  run (relayStatus exampleRouter (<["s1" := Ingestion.exampleServer "s1"]> ∅) ("Bearer " +:+ "B")
         "s1.ab" Ingestion.exampleIndex (Ok "INVALID")) (Ingestion.exampleWorld 2) =
    (inr (Ingestion.JSONError 403 "token is not authorized for this shard"), Ingestion.exampleWorld 2).
Proof.
  apply (reassigned_issuer_is_rejected exampleRouter (<["s1" := Ingestion.exampleServer "s1"]> ∅) "B"
    "s1.ab" Ingestion.exampleIndex "s1" (Ok "INVALID") (exampleToken "s2") (Ingestion.exampleServer "s1")
    (Ingestion.exampleWorld 2)).
  - discriminate.
  - reflexivity.
  - vm_compute. reflexivity.
  - eexists. reflexivity.
  - reflexivity.
  - reflexivity.
  - discriminate.
  - vm_compute. reflexivity.
  - vm_compute. reflexivity.
  - discriminate.
Defined.

End Ingress.
