(* ===== verification/Mux.v ===== *)
(** * cmd/ingress-router: the mux in front of the router

    The HTTP handler of the ingress router is a ServeMux of net/http with three
    patterns: its health check, its metrics page, and the router for the rest.
    A ServeMux cleans the path of a request first and redirects if that changes
    it, so that the router only sees clean paths. CONNECT requests, whose path
    it does not clean, are left out. The theorems: a redirect leads to a path
    that is served; the paths of the API reach the router as they are; and the
    list that the router reads from a path is the one that the path of the
    ingestion service names. *)

From Stdlib Require Import Ascii.
From S2P Require Import Prelude GoStrings Ingress.

Module Mux.

Import Ingress.

(** ** net/http.cleanPath *)

(** path.Clean on the segments of a rooted path, the last kept one first. *)
Fixpoint cleanStack (segs stack : list string) : list string :=
  match segs with
  | [] => stack
  | s :: segs =>
      if bool_decide (s ∈ [""; "."]) then cleanStack segs stack
      else if bool_decide (s = "..") then cleanStack segs (tail stack)
      else cleanStack segs (s :: stack)
  end.

Definition Clean (p : string) : string :=
  String slash (GoStrings.Join (reverse (cleanStack (GoStrings.Split p slash) [])) (String slash "")).

Definition rooted (p : string) : bool :=
  match p with String c _ => bool_decide (c = slash) | "" => false end.

Fixpoint endsInSlash (p : string) : bool :=
  match p with
  | "" => false
  | String c "" => bool_decide (c = slash)
  | String _ p => endsInSlash p
  end.

Definition cleanPath (p : string) : string :=
  if bool_decide (p = "") then "/" else
  let p := if rooted p then p else String slash p in
  let np := Clean p in
  if endsInSlash p && negb (bool_decide (np = "/")) then np +:+ "/" else np.

(** ** The handler *)

Inductive answer (target : Type) : Type :=
| Healthz
| MetricsPage
| Redirected (path : string)
| Routed (r : response target).
Arguments Healthz {_}.
Arguments MetricsPage {_}.
Arguments Redirected {_} _.
Arguments Routed {_} _.

Definition mux `{!Validator} `{!URLs} (r : Router) (authorization path : string) : answer url :=
  if negb (bool_decide (cleanPath path = path)) then Redirected (cleanPath path)
  else if bool_decide (path = "/healthz") then Healthz
  else if bool_decide (path = "/metrics") then MetricsPage
  else Routed (ServeHTTP r authorization path).

Example clean_examples :
  cleanPath <$> [""; "/"; "//status/x/3"; "/status/./x/../y/3/"; "/../.."; "allocate"; "/a//"] =
    ["/"; "/"; "/status/x/3"; "/status/y/3/"; "/"; "/allocate"; "/a/"].
Proof. vm_compute. reflexivity. Qed.

(** ** Segments *)

(** A segment that cleaning keeps. *)
Definition proper (s : string) : Prop := GoStrings.lacks slash s = true /\ s ∉ [""; "."; ".."].

Lemma Split_lacks s : Forall (fun t => GoStrings.lacks slash t = true) (GoStrings.Split s slash).
Proof.
  induction s as [|c s IH]; cbn; [by constructor|]. case_bool_decide as Hc.
  - by constructor.
  - destruct (GoStrings.Split s slash) as [|t ts]; inversion IH; subst; constructor; try done.
    all: unfold GoStrings.lacks in *; cbn; rewrite bool_decide_false by done; done.
Qed.

Lemma cleanStack_proper segs stack :
  Forall (fun t => GoStrings.lacks slash t = true) segs -> Forall proper stack -> Forall proper (cleanStack segs stack).
Proof.
  revert stack. induction segs as [|s segs IH]; intros stack Hs Hst; cbn; [done|].
  inversion Hs; subst. case_bool_decide; [by auto|]. case_bool_decide.
  - apply IH; [done|]. by destruct Hst; cbn.
  - apply IH; [done|]. constructor; [|done]. split; [done|]. set_solver.
Qed.

Lemma cleanStack_app l1 l2 stack : cleanStack (l1 ++ l2) stack = cleanStack l2 (cleanStack l1 stack).
Proof.
  revert stack. induction l1 as [|s l IH]; intros stack; cbn; [done|]. by repeat case_bool_decide.
Qed.

(** Cleaning keeps proper segments. *)
Lemma cleanStack_keeps segs stack : Forall proper segs -> cleanStack segs stack = reverse segs ++ stack.
Proof.
  intros Hs. revert stack. induction Hs as [|s segs [_ Hs] _ IH]; intros stack; cbn [cleanStack]; [done|].
  rewrite !bool_decide_false by set_solver. by rewrite IH, reverse_cons, <- app_assoc.
Qed.

(** The path of some segments. *)
Definition pathOf (segs : list string) : string := String slash (GoStrings.Join segs (String slash "")).

Lemma Split_Join t segs :
  Forall (fun t => GoStrings.lacks slash t = true) (t :: segs) ->
  GoStrings.Split (GoStrings.Join (t :: segs) (String slash "")) slash = t :: segs.
Proof.
  revert t. induction segs as [|u segs IH]; intros t Ht; inversion Ht; subst.
  - by apply GoStrings.Split_none.
  - change (GoStrings.Join (t :: u :: segs) (String slash ""))
      with (t +:+ String slash (GoStrings.Join (u :: segs) (String slash ""))).
    rewrite GoStrings.Split_sep by done. by rewrite IH.
Qed.

Lemma Split_rooted s : GoStrings.Split (String slash s) slash = "" :: GoStrings.Split s slash.
Proof. reflexivity. Qed.

Lemma Split_pathOf segs : segs <> [] -> Forall proper segs -> GoStrings.Split (pathOf segs) slash = "" :: segs.
Proof.
  intros Hne Hs. unfold pathOf. rewrite Split_rooted. destruct segs as [|t segs]; [done|].
  rewrite Split_Join; [done|]. eapply Forall_impl; [exact Hs|]. by intros ? [].
Qed.

Lemma Split_nonempty s : GoStrings.Split s slash <> [].
Proof. destruct s as [|c s]; cbn; [done|]. case_bool_decide; [done|]. by destruct (GoStrings.Split s slash). Qed.

Lemma Split_snoc s : GoStrings.Split (s +:+ "/") slash = GoStrings.Split s slash ++ [""].
Proof.
  induction s as [|c s IH]; [done|]. change (String c s +:+ "/") with (String c (s +:+ "/")). cbn [GoStrings.Split].
  rewrite IH. case_bool_decide; [done|]. pose proof (Split_nonempty s). by destruct (GoStrings.Split s slash).
Qed.

Lemma endsInSlash_app s t : t <> "" -> endsInSlash (s +:+ t) = endsInSlash t.
Proof.
  intros Ht. induction s as [|c s IH]; [done|]. change (String c s +:+ t) with (String c (s +:+ t)).
  rewrite <- IH. destruct s; [by destruct t|done].
Qed.

Lemma endsInSlash_lacks s : GoStrings.lacks slash s = true -> endsInSlash s = false.
Proof.
  unfold GoStrings.lacks. induction s as [|c s IH]; [done|]. cbn [GoStrings.allChars].
  rewrite andb_true_iff, negb_true_iff. intros [Hc Hs]. by destruct s; [cbn; by rewrite Hc|apply IH].
Qed.

(** ** Clean paths *)

Lemma Join_proper t segs :
  Forall proper (t :: segs) ->
  GoStrings.Join (t :: segs) (String slash "") <> "" /\ endsInSlash (GoStrings.Join (t :: segs) (String slash "")) = false.
Proof.
  revert t. induction segs as [|u segs IH]; intros t Hs; inversion Hs as [|? ? [Hl Hp] Hs']; subst.
  - split; [set_solver|]. by apply endsInSlash_lacks.
  - destruct (IH u Hs') as [Hne He].
    change (GoStrings.Join (t :: u :: segs) (String slash ""))
      with (t +:+ String slash (GoStrings.Join (u :: segs) (String slash ""))).
    split; [by destruct t|]. rewrite endsInSlash_app by done.
    change (String slash (GoStrings.Join (u :: segs) (String slash "")))
      with (String slash "" +:+ GoStrings.Join (u :: segs) (String slash "")).
    by rewrite endsInSlash_app.
Qed.

Lemma Clean_pathOf segs : Forall proper segs -> Clean (pathOf segs) = pathOf segs.
Proof.
  intros Hs. destruct segs as [|t segs]; [done|]. unfold Clean. rewrite Split_pathOf by done.
  change (cleanStack ("" :: t :: segs) []) with (cleanStack (t :: segs) []).
  by rewrite cleanStack_keeps, app_nil_r, reverse_involutive by done.
Qed.

(** What cleaning can give. *)
Inductive canonical : string -> Prop :=
| canonical_path segs : Forall proper segs -> canonical (pathOf segs)
| canonical_dir segs : segs <> [] -> Forall proper segs -> canonical (pathOf segs +:+ "/").

Lemma pathOf_root segs : Forall proper segs -> pathOf segs = "/" -> segs = [].
Proof.
  intros Hs Hp. destruct segs as [|t segs]; [done|]. injection Hp as Hp. by destruct (Join_proper t segs Hs).
Qed.

Lemma cleanPath_canonical p : canonical (cleanPath p).
Proof.
  unfold cleanPath. case_bool_decide; [apply (canonical_path []); constructor|]. cbv zeta.
  set (p' := if rooted p then p else String slash p). unfold Clean.
  set (segs := reverse (cleanStack (GoStrings.Split p' slash) [])).
  assert (Forall proper segs) as Hs by (apply Forall_reverse, cleanStack_proper; [apply Split_lacks|constructor]).
  fold (pathOf segs). destruct (endsInSlash p'); cbn [andb]; [|by constructor].
  case_bool_decide as Hr; cbn [negb]; [by constructor|]. constructor; [|done]. by intros ->.
Qed.

Lemma canonical_fixed p : canonical p -> cleanPath p = p.
Proof.
  intros [segs Hs|segs Hne Hs].
  - unfold cleanPath. rewrite bool_decide_false by done. cbn [rooted pathOf]. rewrite bool_decide_true by done.
    cbv zeta. rewrite Clean_pathOf by done. destruct segs as [|t segs]; [done|].
    unfold pathOf at 1. change (String slash ?x) with (String slash "" +:+ x).
    destruct (Join_proper t segs Hs) as [Hne He]. by rewrite endsInSlash_app, He.
  - unfold cleanPath. rewrite bool_decide_false by done.
    change (rooted (pathOf segs +:+ "/")) with true. cbv zeta. cbn [negb].
    assert (Clean (pathOf segs +:+ "/") = pathOf segs) as ->.
    { unfold Clean. rewrite Split_snoc, cleanStack_app. cbn [cleanStack]. rewrite bool_decide_true by set_solver.
      by apply Clean_pathOf. }
    rewrite endsInSlash_app by done. rewrite (bool_decide_false (_ = "/")); [done|].
    intros Hp. by apply Hne, pathOf_root.
Qed.

(** ** The list in a path *)

Lemma TrimRight_snoc s cut : GoStrings.TrimRight (s +:+ String cut "") cut = GoStrings.TrimRight s cut.
Proof.
  induction s as [|c s IH]; [by rewrite GoStrings.append_nil; cbn; rewrite bool_decide_true|].
  rewrite GoStrings.append_cons. cbn [GoStrings.TrimRight]. by rewrite IH.
Qed.

Lemma TrimRight_ends s : s <> "" -> endsInSlash s = false -> GoStrings.TrimRight s slash = s.
Proof.
  induction s as [|c s IH]; [done|]. intros _ He. cbn [GoStrings.TrimRight]. destruct s as [|d s].
  - cbn in He |- *. by rewrite He.
  - by rewrite IH.
Qed.

Lemma Trim_canonical t segs trail :
  Forall proper (t :: segs) -> trail ∈ [""; "/"] ->
  GoStrings.Trim (pathOf (t :: segs) +:+ trail) slash = GoStrings.Join (t :: segs) (String slash "").
Proof.
  intros Hs Ht. destruct (Join_proper t segs Hs) as [Hne He].
  set (j := GoStrings.Join (t :: segs) (String slash "")) in *.
  assert (rooted j = false) as Hroot.
  { inversion Hs as [|? ? [Hl Hp] _]; subst. destruct t as [|c t]; [set_solver|].
    unfold GoStrings.lacks in Hl. cbn in Hl. apply andb_true_iff in Hl as [Hc _]. apply negb_true_iff in Hc.
    by subst j; destruct segs; cbn. }
  unfold GoStrings.Trim, pathOf. fold j. change (String slash j +:+ trail) with (String slash (j +:+ trail)).
  cbn [GoStrings.TrimLeft]. rewrite bool_decide_true by done.
  assert (GoStrings.TrimLeft (j +:+ trail) slash = j +:+ trail) as ->.
  { destruct j as [|c j]; [done|]. change (String c j +:+ trail) with (String c (j +:+ trail)). cbn in Hroot |- *.
    by rewrite Hroot. }
  rewrite !elem_of_cons, elem_of_nil in Ht. destruct Ht as [->|[->|[]]].
  - rewrite GoStrings.append_nil_r. by apply TrimRight_ends.
  - rewrite TrimRight_snoc. by apply TrimRight_ends.
Qed.

Lemma canonical_segments p :
  canonical p ->
  exists segs trail, Forall proper segs /\ trail ∈ [""; "/"] /\ (segs = [] -> trail = "") /\ p = pathOf segs +:+ trail.
Proof.
  intros [segs Hs|segs Hne Hs].
  - exists segs, "". rewrite GoStrings.append_nil_r. set_solver.
  - exists segs, "/". set_solver.
Qed.

(** On a clean path the router finds a list exactly if the segments are those of
    a status update. *)
Lemma listID_segments segs trail id :
  Forall proper segs -> trail ∈ [""; "/"] -> (segs = [] -> trail = "") ->
  listIDFromStatusPath (pathOf segs +:+ trail) = Some id <-> exists idx, segs = ["status"; id; idx].
Proof.
  intros Hs Ht He. destruct segs as [|t segs].
  { rewrite (He eq_refl). split; [|by intros (? & ?)]. vm_compute. done. }
  unfold listIDFromStatusPath. rewrite Trim_canonical by done.
  rewrite Split_Join by (eapply Forall_impl; [exact Hs|]; by intros ? []).
  split.
  - destruct segs as [|i [|j [|]]]; try done. repeat case_bool_decide; cbn; try done. intros [= <-]. exists j. congruence.
  - intros (idx & [= -> ->]). inversion Hs as [|? ? _ Hs']; subst. inversion Hs' as [|? ? [_ Hp] _]; subst.
    by rewrite bool_decide_true, bool_decide_false by set_solver.
Qed.

Lemma statusPath id idx trail :
  pathOf ["status"; id; idx] +:+ trail = "/status/" +:+ id +:+ "/" +:+ idx +:+ trail.
Proof.
  change (pathOf ["status"; id; idx] +:+ trail) with ("/status/" +:+ ((id +:+ ("/" +:+ idx)) +:+ trail)).
  by rewrite !GoStrings.append_assoc.
Qed.

(** ** Properties *)

(** What the handler of the ingress router does with a path. A redirect leads to
    a path that is not redirected again; the paths of the API go to the router
    as they are; the two pages of the router itself need no token and are never
    proxied; and the router reads a list from a path, and hence chooses the
    shard by it, exactly if the path is that of a status update of this list. *)
Theorem mux_spec `{!Validator} `{!URLs} (r : Router) (authorization : string) :
  (forall p p', mux r authorization p = Redirected p' -> forall p2, mux r authorization p' <> Redirected p2) /\
  (forall segs, Forall proper segs -> segs <> ["healthz"] -> segs <> ["metrics"] ->
     mux r authorization (pathOf segs) = Routed (ServeHTTP r authorization (pathOf segs))) /\
  (forall p x, mux r authorization p = Routed x ->
     p <> "/healthz" /\ p <> "/metrics" /\ x = ServeHTTP r authorization p /\
     forall id, listIDFromStatusPath p = Some id <->
       exists idx trail, proper id /\ proper idx /\ trail ∈ [""; "/"] /\ p = "/status/" +:+ id +:+ "/" +:+ idx +:+ trail).
Proof.
  unfold mux. split_and!.
  - intros p p'. case_bool_decide; cbn [negb]; [by repeat case_bool_decide|]. intros [= <-] p2.
    rewrite (canonical_fixed _ (cleanPath_canonical p)), bool_decide_true by done. cbn [negb].
    by repeat case_bool_decide.
  - intros segs Hs Hh Hm. rewrite canonical_fixed by (by constructor). rewrite bool_decide_true by done. cbn [negb].
    assert (forall s, proper s -> pathOf segs = pathOf [s] -> segs = [s]) as Hinj.
    { intros s Hp Heq. assert (segs <> []) as Hne. { intros ->. destruct Hp as [_ Hp]. destruct s; [set_solver|done]. }
      apply (f_equal (fun p => GoStrings.Split p slash)) in Heq. rewrite !Split_pathOf in Heq by (done || by constructor).
      by injection Heq. }
    rewrite !bool_decide_false; [done|..]; intros Heq; [apply Hm|apply Hh]; apply Hinj; try done;
      (split; [done|set_solver]).
  - intros p x. case_bool_decide as Hc; cbn [negb]; [|done]. repeat case_bool_decide; try done. intros [= <-].
    split_and!; [done..|]. intros id.
    pose proof (cleanPath_canonical p) as Hcan. rewrite Hc in Hcan.
    destruct (canonical_segments p Hcan) as (segs & trail & Hs & Ht & He & ->).
    rewrite listID_segments by done. split.
    + intros (idx & ->). inversion Hs as [|? ? _ Hs']; subst. inversion Hs' as [|? ? Hid Hs2]; subst.
      inversion Hs2; subst. exists idx, trail. split_and!; [done..|]. apply statusPath.
    + intros (idx & trail' & Hid & Hidx & Ht' & Hp). apply (listID_segments segs trail id Hs Ht He).
      rewrite Hp, <- statusPath.
      apply listID_segments; [|done..|by exists idx].
      do 2 (constructor; [first [done|split; [done|set_solver]]|]). by constructor; [|constructor].
Qed.

End Mux.
