(* ===== verification/Shards.v ===== *)
(** * internal/as/shard.go and tools/reassign-shard: which shard an issuer is on

    The table issuer_shard and its three operations, and the command that
    empties a shard. The theorems: any number of concurrent first requests of
    one issuer agree on one shard, for as long as nobody reassigns it; the
    command moves every issuer off the shard, in turn to the targets, and a
    dry run moves none; nothing of this touches lists or allocations. *)

From Stdlib Require Import Ascii.
From S2P Require Import Prelude GoStrings Sha256 Prog World.

Module Shards.

(** ** ShardAssigner *)

Record ShardAssigner := MkShardAssigner { shards : list string }.

(** The configuration check of the constructor. *)
Definition NewShardAssigner (ss : list string) : result ShardAssigner :=
  match ss with
  | [] => Err (ErrMsg "as: at least one shard must be configured")
  | _ => Ok (MkShardAssigner ss)
  end.

Definition setShards (db : pg) (m : gmap string shard_row) : pg :=
  MkPg (lists db) (allocations db) (issuer_usage db) m.

(** [SELECT shard_id ... WHERE issuer_id = $1]; [None] for pgx.ErrNoRows. *)
Definition sqlShard (issuerID : string) (now : Z) (db : pg) : result (option string) * pg :=
  (Ok (sr_shard_id <$> issuer_shard db !! issuerID), db).

(** [INSERT ... ON CONFLICT (issuer_id) DO NOTHING]. *)
Definition sqlAssign (issuerID candidate : string) (now : Z) (db : pg) : result unit * pg :=
  match issuer_shard db !! issuerID with
  | Some _ => (Ok tt, db)
  | None => (Ok tt, setShards db (<[issuerID := MkShardRow candidate now]> (issuer_shard db)))
  end.

(** [INSERT ... ON CONFLICT (issuer_id) DO UPDATE SET shard_id]. *)
Definition sqlReassign (issuerID newShard : string) (now : Z) (db : pg) : result unit * pg :=
  let created := match issuer_shard db !! issuerID with Some r => sr_created_at r | None => now end in
  (Ok tt, setShards db (<[issuerID := MkShardRow newShard created]> (issuer_shard db))).

Definition issuerBefore (a b : string) : Prop := String.leb a b = true.

#[export] Instance issuerBefore_dec : RelDecision issuerBefore.
Proof. intros a b. unfold issuerBefore. apply _. Defined.

(** [SELECT issuer_id ... WHERE shard_id = $1 ORDER BY issuer_id], with the
    byte order as the collation. *)
Definition sqlIssuersOn (shard : string) (now : Z) (db : pg) : result (list string) * pg :=
  (Ok (merge_sort issuerBefore
     (filter (fun e => sr_shard_id e.2 = shard) (map_to_list (issuer_shard db))).*1), db).

Definition hashIndex (s : string) (n : Z) : Z :=
  uint64BE (take 8 (Sha256.Sum256 (GoStrings.bytesOf s))) mod n.

Definition AssignOrLookup (a : ShardAssigner) (issuerID : string) : prog world (result string) :=
  try! found := pgCall (sqlShard issuerID) in
  match found with
  | Some shardID => Ret (Ok shardID)
  | None =>
      match shards a !! Z.to_nat (hashIndex issuerID (Z.of_nat (length (shards a)))) with
      | None => Ret (Err (Panic "index out of range"))
      | Some candidate =>
          try! _ := pgCall (sqlAssign issuerID candidate) in
          try! again := pgCall (sqlShard issuerID) in
          match again with
          | Some shardID => Ret (Ok shardID)
          | None => Ret (Err (ErrMsg "as: read back assigned shard"))
          end
      end
  end.

Definition Reassign (issuerID newShard : string) : prog world (result string) :=
  try! old := pgCall (sqlShard issuerID) in
  try! _ := pgCall (sqlReassign issuerID newShard) in
  Ret (Ok (default "" old)).

Definition ListIssuersOnShard (shard : string) : prog world (result (list string)) :=
  pgCall (sqlIssuersOn shard).

(** ** tools/reassign-shard *)

Record config := MkConfig {
  issuer : string;
  from : string;
  targets : list string;
  dryRun : bool
}.

(** The targets trimmed; an empty one is an error. *)
Fixpoint trimTargets (ts : list string) : result (list string) :=
  match ts with
  | [] => Ok []
  | t :: rest =>
      let t := GoStrings.TrimSpace t in
      if bool_decide (t = "") then Err (ErrMsg "-to must not contain an empty shard name")
      else match trimTargets rest with Ok ts => Ok (t :: ts) | Err e => Err e end
  end.

Definition newConfig (issuer_ from_ to : string) (dry : bool) : result config :=
  if bool_decide (bool_decide (issuer_ = "") = bool_decide (from_ = "")) then
    Err (ErrMsg "exactly one of -issuer or -from is required")
  else
    match trimTargets (GoStrings.Split to ",") with
    | Err e => Err e
    | Ok [] => Err (ErrMsg "-to is required")
    | Ok ts => Ok (MkConfig issuer_ from_ ts dry)
    end.

(** The loop from the [i]th issuer on; the number moved, with the error that
    stopped it. *)
Fixpoint moveAll (cfg : config) (i : nat) (issuers : list string) (moved : Z) :
    prog world (Z * result unit) :=
  match issuers with
  | [] => Ret (moved, Ok tt)
  | id :: rest =>
      match targets cfg !! (i mod length (targets cfg))%nat with
      | None => Ret (moved, Err (Panic "integer divide by zero"))
      | Some target =>
          if dryRun cfg then moveAll cfg (S i) rest moved
          else
            let! r := Reassign id target in
            match r with
            | Err e => Ret (moved, Err e)
            | Ok _ => moveAll cfg (S i) rest (moved + 1)
            end
      end
  end.

Definition reassign (cfg : config) : prog world (Z * result unit) :=
  if negb (bool_decide (issuer cfg = "")) then moveAll cfg 0 [issuer cfg] 0
  else
    let! r := ListIssuersOnShard (from cfg) in
    match r with
    | Err e => Ret (0, Err e)
    | Ok [] => Ret (0, Ok tt)
    | Ok issuers => moveAll cfg 0 issuers 0
    end.

(** [run] of the command with its flags: nothing is written before they have
    been checked and the database has been reached. *)
Definition reassignRun (issuer_ from_ to : string) (dry : bool) : prog world (result unit) :=
  match newConfig issuer_ from_ to dry with
  | Err e => Ret (Err e)
  | Ok cfg =>
      try! assigner := Ret (NewShardAssigner (targets cfg)) in
      try! _ := pgCall (fun _ db => (Ok tt, db)) in
      let! r := reassign cfg in
      Ret r.2
  end.

(** The targets of a configuration that was accepted. *)
Lemma newConfig_targets issuer_ from_ to dry cfg :
  newConfig issuer_ from_ to dry = Ok cfg -> targets cfg <> [] /\ "" ∉ targets cfg.
Proof.
  unfold newConfig. case_bool_decide; [done|]. destruct (trimTargets _) as [ts|] eqn:Ht; [|done].
  assert ("" ∉ ts) as Hts.
  { clear -Ht. revert ts Ht. induction (GoStrings.Split to ",") as [|t l IH]; intros ts; cbn [trimTargets].
    - intros [= <-]. apply not_elem_of_nil.
    - case_bool_decide as He; [done|]. destruct (trimTargets l) as [ts'|] eqn:Hl; [|done].
      intros [= <-]. rewrite elem_of_cons. intros [Hx|Hx]; [by rewrite Hx in He|by apply (IH ts')]. }
  destruct ts; [done|]. by intros [= <-].
Qed.

(** Answers of the database are not panics. *)
Lemma pgCall_plain {A} (f : Z -> pg -> result A * pg) (msg : string) w :
  (forall now db, (f now db).1 <> Err (Panic msg)) -> (run (pgCall f) w).1 <> Err (Panic msg).
Proof.
  intros Hf. unfold pgCall, act. cbn [run]. unfold pgAct. destruct (popTick w) as [ft w1].
  specialize (Hf (w_clock w1) (w_pg w1)). destruct (f _ _) as [r db]. by destruct ft.
Qed.

Lemma Reassign_plain id target msg w : (run (Reassign id target) w).1 <> Err (Panic msg).
Proof.
  unfold Reassign. rewrite run_bindErr.
  pose proof (pgCall_plain (sqlShard id) msg w ltac:(done)) as H1.
  destruct (run (pgCall (sqlShard id)) w) as [[old|e] w1]; cbn [fst snd] in *; [|congruence]. rewrite run_bindErr.
  pose proof (pgCall_plain (sqlReassign id target) msg w1 ltac:(done)) as H2.
  destruct (run (pgCall (sqlReassign id target)) w1) as [[u|e] w2]; cbn [fst snd run] in *; [done|congruence].
Qed.

Lemma moveAll_plain cfg i l moved msg w :
  targets cfg <> [] -> (run (moveAll cfg i l moved) w).1.2 <> Err (Panic msg).
Proof.
  intros Hne. revert i moved w. induction l as [|id l IH]; intros i moved w; cbn [moveAll run fst snd]; [done|].
  destruct (targets cfg !! _) as [target|] eqn:Ht.
  - destruct (dryRun cfg); [apply IH|]. rewrite run_bind.
    pose proof (Reassign_plain id target msg w) as Hr.
    destruct (run (Reassign id target) w) as [[old|e] w1]; cbn [fst snd run] in *; [apply IH|by intros [= ->]].
  - apply lookup_ge_None in Ht. destruct (targets cfg); [done|].
    pose proof (Nat.mod_upper_bound i (length (s :: l0)) ltac:(done)). lia.
Qed.

(** The command never panics, whatever its flags and whatever the database
    does: a target is always found. *)
Theorem reassignRun_never_panics (issuer_ from_ to : string) (dry : bool) (msg : string) (w : world) :
  (run (reassignRun issuer_ from_ to dry) w).1 <> Err (Panic msg).
Proof.
  unfold reassignRun. destruct (newConfig issuer_ from_ to dry) as [cfg|e] eqn:Hc.
  - destruct (newConfig_targets _ _ _ _ _ Hc) as [Hne _]. rewrite run_bindErr. cbn [run fst snd].
    destruct (targets cfg) eqn:Ht; [done|]. cbn [NewShardAssigner]. rewrite run_bindErr.
    pose proof (pgCall_plain (fun _ db => (Ok tt, db)) msg w ltac:(done)) as H1.
    destruct (run (pgCall _) w) as [[u|e] w1]; cbn [fst snd run] in *; [|congruence]. rewrite run_bind. cbn [run fst].
    unfold reassign. case_bool_decide; cbn [negb]; [|apply moveAll_plain; by rewrite Ht].
    rewrite run_bind. pose proof (pgCall_plain (sqlIssuersOn (from cfg)) msg w1 ltac:(done)) as H2.
    unfold ListIssuersOnShard. destruct (run (pgCall _) w1) as [[ids|e] w2]; cbn [fst snd run] in *; [|congruence].
    destruct ids; [done|]. apply moveAll_plain. by rewrite Ht.
  - cbn. intros [= ->]. unfold newConfig in Hc. case_bool_decide; [done|].
    assert (forall l e, trimTargets l = Err e -> e = ErrMsg "-to must not contain an empty shard name") as Htrim.
    { clear. induction l as [|t l IH]; intros e; cbn [trimTargets]; [done|]. case_bool_decide; [by intros [= <-]|].
      destruct (trimTargets l); [done|]. intros [= <-]. by apply IH. }
    destruct (trimTargets _) as [[|]|] eqn:Ht; simplify_eq. by apply Htrim in Ht.
Qed.

(** ** Assignment under concurrency *)

(** The rows that exist stay: what every process does while nobody runs the
    command. *)
Definition sticky (w w' : world) : Prop := issuer_shard (w_pg w) ⊆ issuer_shard (w_pg w').

#[export] Instance sticky_preorder : PreOrder sticky.
Proof. unfold sticky. split; [intros w; reflexivity|]. intros w1 w2 w3 H1 H2. by etrans. Qed.

Definition assigned (issuerID shardID : string) (w : world) : Prop :=
  exists r, issuer_shard (w_pg w) !! issuerID = Some r /\ sr_shard_id r = shardID.

Lemma assigned_stable i s w w' : sticky w w' -> assigned i s w -> assigned i s w'.
Proof. intros H (r & Hr & Hs). exists r. split; [|done]. by apply (lookup_weaken _ _ _ _ Hr). Qed.

Lemma assigned_unique i s t w : assigned i s w -> assigned i t w -> s = t.
Proof. intros (r & Hr & <-) (r' & Hr' & <-). congruence. Qed.

(** Everything else in the tables is as it was. *)
Definition shardsOnly (db db' : pg) : Prop :=
  lists db' = lists db /\ allocations db' = allocations db /\ issuer_usage db' = issuer_usage db.

Section Concurrent.

(** A program that, whatever the others do, keeps rows and returns as [Q]
    says. *)
Definition safe {A} (p : prog world A) (Q : A -> world -> Prop) (w : world) : Prop :=
  rg (fun _ => True) sticky p Q w.

(** A statement of this table, in the pool. *)
Lemma sticky_pg {A} (f : Z -> pg -> result A * pg) (Q : result A -> world -> Prop) w0 :
  (forall now db, issuer_shard db ⊆ issuer_shard (f now db).2) ->
  (forall now w w', sticky w0 w -> sticky w w' -> w_pg w' = (f now (w_pg w)).2 ->
     Q (f now (w_pg w)).1 w') ->
  (forall w', sticky w0 w' -> Q ioError w') -> safe (pgCall f) Q w0.
Proof.
  intros Hf HQ Herr w HR _. pose proof (pgAct_cases f w) as (now & _ & _ & _ & _ & _ & _ & Hcase).
  assert (sticky w (pgAct f w).2) as Hs.
  { unfold sticky. destruct Hcase as [[_ ->]|[_ [->| ->]]]; [apply Hf|reflexivity|apply Hf]. }
  split_and!; [done|done|]. simpl. destruct Hcase as [[-> Hpg]|[-> _]].
  - by apply (HQ now w).
  - apply Herr. by etrans.
Qed.

Lemma assign_grows i c now db : issuer_shard db ⊆ issuer_shard (sqlAssign i c now db).2.
Proof.
  unfold sqlAssign. destruct (issuer_shard db !! i) eqn:E; simpl; [done|]. by apply insert_subseteq.
Qed.

Lemma hashIndex_range s n : 0 < n -> 0 <= hashIndex s n < n.
Proof. intros Hn. unfold hashIndex. by apply Z.mod_pos_bound. Qed.

#[local] Opaque hashIndex.

Lemma candidate_exists a i :
  shards a <> [] -> exists c, shards a !! Z.to_nat (hashIndex i (Z.of_nat (length (shards a)))) = Some c /\ c ∈ shards a.
Proof.
  intros Hne. assert (0 < Z.of_nat (length (shards a))) as Hl by (destruct (shards a); simpl; [done|lia]).
  pose proof (hashIndex_range i _ Hl) as Hr.
  destruct (lookup_lt_is_Some_2 (shards a) (Z.to_nat (hashIndex i (Z.of_nat (length (shards a)))))) as [c Hc];
    [lia|]. exists c. split; [done|]. by eapply list_elem_of_lookup_2.
Qed.

Lemma safe_AssignOrLookup a i w0 :
  shards a <> [] ->
  safe (AssignOrLookup a i)
    (fun r w => match r with Ok s => assigned i s w | Err (Panic _) => False | Err _ => True end) w0.
Proof.
  intros Hne. unfold AssignOrLookup. apply rg_bindErr, sticky_pg; [done| |done].
  intros now w w' HE HE' Hpg. cbn [sqlShard fst snd] in *.
  destruct (issuer_shard (w_pg w) !! i) as [r|] eqn:Hr; simpl.
  { exists r. by rewrite Hpg. }
  destruct (candidate_exists a i Hne) as (c & -> & _).
  apply rg_bindErr, sticky_pg; [intros; apply assign_grows| |done].
  intros now1 w1 w1' _ _ Hpg1.
  assert (exists s, assigned i s w1') as [s Hs].
  { unfold assigned. rewrite Hpg1. unfold sqlAssign.
    destruct (issuer_shard (w_pg w1) !! i) as [r|] eqn:Hr1; simpl; [eauto|].
    rewrite lookup_insert_eq. eauto. }
  replace (sqlAssign i c now1 (w_pg w1)).1 with (@Ok unit tt) by (unfold sqlAssign; by case_match).
  apply rg_bindErr, sticky_pg; [done| |done]. intros now2 w2 w2' HE2 _ Hpg2. cbn [sqlShard fst snd] in *.
  destruct (assigned_stable _ _ _ _ HE2 Hs) as (r & Hr2 & _). rewrite Hr2. simpl.
  exists r. by rewrite Hpg2.
Qed.

(** Alone, or at the end of its interleaving. *)
Lemma AssignOrLookup_run a i s w w' :
  shards a <> [] -> run (AssignOrLookup a i) w = (Ok s, w') -> assigned i s w'.
Proof.
  intros Hne Hrun.
  destruct (rg_run (fun _ => True) sticky _ _ w (safe_AssignOrLookup a i w Hne) I) as (_ & _ & Hq).
  by rewrite Hrun in Hq.
Qed.

End Concurrent.

(** A request of an issuer, with its name. *)
Definition request (a : ShardAssigner) (i : string) : prog world (string * result string) :=
  let! r := AssignOrLookup a i in Ret (i, r).

Definition isRequest (p : prog world (string * result string)) : Prop :=
  exists a i, shards a <> [] /\ p = request a i.

Definition answered (x : string * result string) (w : world) : Prop :=
  match x with (i, Ok s) => assigned i s w | (_, Err (Panic _)) => False | _ => True end.

Lemma request_joins p : isRequest p -> joins (fun _ => True) sticky answered p.
Proof.
  intros (a & i & Hne & ->) w _. apply rg_bind. eapply rg_mono; [by apply safe_AssignOrLookup|].
  intros [s|e] w' H; [done|]. by destruct e.
Qed.

(** In a pool of requests, an answer given is the table's. *)
Lemma pool_answered w ps w' ps' j x :
  Forall isRequest ps -> rtc (pool_step isRequest) (w, ps) (w', ps') ->
  ps' !! j = Some (Ret x) -> answered x w'.
Proof.
  intros Hps Hsteps Hj.
  assert (rtc (pool_step (joins (fun _ => True) sticky answered)) (w, ps) (w', ps')) as Hsteps'.
  { eapply rtc_subrel; [|exact Hsteps]. intros c c' Hc. destruct Hc; constructor; [done|].
    by apply request_joins. }
  destruct (pool_safe (fun _ => True) sticky answered (w, ps) (w', ps')) as [[_ Hall] _]; [|done|].
  { split; [done|]. eapply Forall_impl; [exact Hps|]. intros p Hp. exists w.
    split; [reflexivity|]. by apply request_joins. }
  destruct (Forall_lookup_1 _ _ _ _ Hall Hj) as (w0 & HR & Hq). simpl in *.
  destruct x as [i [s|e]]; [|by destruct e]. by apply (assigned_stable _ _ w0).
Qed.

(** ** Moving issuers *)

Lemma shardsOnly_trans d1 d2 d3 : shardsOnly d1 d2 -> shardsOnly d2 d3 -> shardsOnly d1 d3.
Proof. unfold shardsOnly. intuition congruence. Qed.

(** One move, with any failures: only the issuer's row. *)
Lemma Reassign_wp id target w :
  wp (Reassign id target)
    (fun r w' => shardsOnly (w_pg w) (w_pg w') /\
       (forall j, j <> id -> issuer_shard (w_pg w') !! j = issuer_shard (w_pg w) !! j) /\
       match r with Ok _ => assigned id target w' | Err _ => True end) w.
Proof.
  unfold Reassign. apply wp_bindErr, wp_pg_read; [done| |].
  2: { intros w1 (-> & _). done. }
  intros now w1 _ (Hpg1 & _) _. cbn [sqlShard fst].
  assert (forall now, shardsOnly (w_pg w) (sqlReassign id target now (w_pg w1)).2 /\
    forall j, j <> id -> issuer_shard (sqlReassign id target now (w_pg w1)).2 !! j =
      issuer_shard (w_pg w) !! j) as Hre.
  { intros n. rewrite Hpg1. split; [done|]. intros j Hj. simpl. by rewrite lookup_insert_ne. }
  apply wp_bindErr, wp_pg; intros w2 _ _ _ _ Hpg2.
  - apply wp_ret. destruct (Hre (w_clock w2)) as [H1 H2]. unfold assigned. rewrite Hpg2.
    split_and!; [done|done|]. simpl. rewrite lookup_insert_eq. eauto.
  - destruct Hpg2 as [-> | ->]; [by rewrite Hpg1|]. destruct (Hre (w_clock w2)). done.
Qed.

Lemma target_exists cfg i :
  targets cfg <> [] -> exists t, targets cfg !! (i mod length (targets cfg))%nat = Some t /\ t ∈ targets cfg.
Proof.
  intros Hne. assert (0 < length (targets cfg))%nat as Hl by (destruct (targets cfg); simpl; [done|lia]).
  pose proof (Nat.mod_upper_bound i (length (targets cfg)) ltac:(lia)) as Hlt.
  destruct (lookup_lt_is_Some_2 (targets cfg) _ Hlt) as [t Ht]. exists t. split; [done|].
  by eapply list_elem_of_lookup_2.
Qed.

Lemma moveAll_wp cfg i l m w :
  targets cfg <> [] -> dryRun cfg = false -> NoDup l ->
  wp (moveAll cfg i l m)
    (fun r w' => shardsOnly (w_pg w) (w_pg w') /\
       (forall j, j ∉ l -> issuer_shard (w_pg w') !! j = issuer_shard (w_pg w) !! j) /\
       match r.2 with
       | Ok _ => r.1 = m + Z.of_nat (length l) /\
           forall k id, l !! k = Some id ->
             exists t, targets cfg !! ((i + k) mod length (targets cfg))%nat = Some t /\ assigned id t w'
       | Err _ => True
       end) w.
Proof.
  intros Hne Hdry. revert i m w. induction l as [|id l IH]; intros i m w Hnd; cbn [moveAll].
  { apply wp_ret. split_and!; [done|done|]. cbn [fst snd length]. split; [lia|]. intros k id. by rewrite lookup_nil. }
  apply NoDup_cons in Hnd as [Hid Hnd].
  destruct (target_exists cfg i Hne) as (t & Ht & _). rewrite Ht, Hdry.
  apply wp_bind. eapply wp_mono; [apply Reassign_wp|]. intros [old|e] w1 (Hs1 & Ho1 & Ha1).
  2: { apply wp_ret. split_and!; [done| |done]. intros j Hj. apply Ho1. set_solver. }
  eapply wp_mono; [by apply IH|]. intros [moved r] w2 (Hs2 & Ho2 & Hr). cbn [fst snd] in *.
  split_and!; [by apply (shardsOnly_trans _ (w_pg w1))| |].
  - intros j Hj. rewrite Ho2, Ho1; set_solver.
  - destruct r; [|done]. destruct Hr as [-> Hr]. split; [simpl; lia|].
    intros [|k] id'; simpl.
    + intros [= <-]. exists t. rewrite Nat.add_0_r. split; [done|].
      destruct Ha1 as (row & Hrow & <-). exists row. by rewrite Ho2.
    + intros Hk. rewrite Nat.add_succ_r. by apply Hr.
Qed.

Lemma moveAll_dry cfg i l m w :
  targets cfg <> [] -> dryRun cfg = true -> run (moveAll cfg i l m) w = ((m, Ok tt), w).
Proof.
  intros Hne Hdry. revert i. induction l as [|id l IH]; intros i; cbn [moveAll]; [done|].
  destruct (target_exists cfg i Hne) as (t & -> & _). rewrite Hdry. apply IH.
Qed.

(** The issuers the query returns are those on the shard, once each. *)
Lemma sqlIssuersOn_spec shard now db l :
  (sqlIssuersOn shard now db).1 = Ok l ->
  NoDup l /\ forall i, i ∈ l <-> exists r, issuer_shard db !! i = Some r /\ sr_shard_id r = shard.
Proof.
  intros [= <-]. split.
  - rewrite merge_sort_Permutation. apply NoDup_fmap_filter, NoDup_fst_map_to_list.
  - intros i. rewrite merge_sort_Permutation, list_elem_of_fmap. split.
    + intros ([k r] & -> & [Hs Hin%elem_of_map_to_list]%list_elem_of_filter). simpl in *. eauto.
    + intros (r & Hr & Hs). exists (i, r). split; [done|]. apply list_elem_of_filter.
      split; [done|]. by apply elem_of_map_to_list.
Qed.

Lemma trimTargets_nonempty ts ts' : trimTargets ts = Ok ts' -> "" ∉ ts'.
Proof.
  revert ts'. induction ts as [|t ts IH]; intros ts'; simpl; [intros [= <-]; apply not_elem_of_nil|].
  case_bool_decide; [done|]. destruct (trimTargets ts); [|done]. intros [= <-].
  apply not_elem_of_cons. split; [done|]. by apply IH.
Qed.

(** ** Properties *)

(** C31: concurrent requests of one issuer agree. In any interleaving of the
    statements of any number of token requests, by authorization servers with
    whatever shard lists and under any failures, two requests of the same
    issuer that got a shard got the same one, and it is the one the table
    holds; no request panics. *)
Theorem assignment_agrees (w w' : world) (ps ps' : list (prog world (string * result string)))
    (j k : nat) (i s t : string) :
  Forall isRequest ps -> rtc (pool_step isRequest) (w, ps) (w', ps') ->
  ps' !! j = Some (Ret (i, Ok s)) -> ps' !! k = Some (Ret (i, Ok t)) ->
  s = t /\ assigned i s w' /\
  (forall n id msg, ps' !! n <> Some (Ret (id, Err (Panic msg)))).
Proof.
  intros Hps Hsteps Hj Hk.
  pose proof (pool_answered _ _ _ _ _ _ Hps Hsteps Hj) as H1.
  pose proof (pool_answered _ _ _ _ _ _ Hps Hsteps Hk) as H2. simpl in *.
  split_and!; [by apply (assigned_unique i s t w')|done|]. intros n id msg Hn.
  exact (pool_answered _ _ _ _ _ _ Hps Hsteps Hn).
Qed.

Definition exampleAssigner : ShardAssigner := MkShardAssigner ["iad"; "fra"].

Definition exampleWorld : world := MkWorld pgEmpty ∅ ∅ [] 0 [] [].

Lemma assignment_agrees_witness :
  exists w', rtc (pool_step isRequest)
    (exampleWorld, [request exampleAssigner "x"; request (MkShardAssigner ["syd"]) "x"])
    (w', [Ret ("x", Ok "iad"); Ret ("x", Ok "iad")]) /\ assigned "x" "iad" w'.
Proof.
  set (p := request exampleAssigner "x"). set (q := request (MkShardAssigner ["syd"]) "x").
  assert ((run p exampleWorld).1 = ("x", Ok "iad")) as E1 by (vm_compute; reflexivity).
  assert ((run q (run p exampleWorld).2).1 = ("x", Ok "iad")) as E2 by (vm_compute; reflexivity).
  pose proof (pool_run isRequest exampleWorld [p; q] 0 p eq_refl) as H1. rewrite E1 in H1.
  pose proof (pool_run isRequest (run p exampleWorld).2 [Ret ("x", Ok "iad"); q] 1 q eq_refl) as H2.
  rewrite E2 in H2. cbn [insert list_insert] in H1, H2.
  exists (run q (run p exampleWorld).2).2. split; [exact (transitivity H1 H2)|].
  assert (Forall isRequest [p; q]) as Hps.
  { repeat constructor; eexists _, _; (split; [|reflexivity]); discriminate. }
  apply (assignment_agrees exampleWorld _ [p; q] [Ret ("x", Ok "iad"); Ret ("x", Ok "iad")] 0 1 "x" "iad" "iad" Hps (transitivity H1 H2)
    eq_refl eq_refl).
Defined.

(** C32: emptying a shard. If the command succeeds with -from, then every issuer
    that was on that shard, and no other, was moved, the number reported is
    their number, and each is now on one of the targets, the k-th of them on
    the k-th target in rotation; with the shard itself not among the targets
    nobody is left on it. Lists, allocations and usage are untouched. *)
Theorem shard_emptied (cfg : config) (w w' : world) (moved : Z) :
  issuer cfg = "" -> targets cfg <> [] -> dryRun cfg = false ->
  run (reassign cfg) w = ((moved, Ok tt), w') ->
  exists l, NoDup l /\ moved = Z.of_nat (length l) /\
    (forall i, i ∈ l <-> assigned i (from cfg) w) /\
    (forall k i, l !! k = Some i -> exists t,
       targets cfg !! (k mod length (targets cfg))%nat = Some t /\ assigned i t w') /\
    (forall i, ~ assigned i (from cfg) w -> issuer_shard (w_pg w') !! i = issuer_shard (w_pg w) !! i) /\
    (from cfg ∉ targets cfg -> forall i, ~ assigned i (from cfg) w') /\
    shardsOnly (w_pg w) (w_pg w').
Proof.
  intros Hi Hne Hdry Hrun.
  assert (wp (reassign cfg) (fun r w' => match r.2 with Err _ => True | Ok _ =>
    exists l, NoDup l /\ r.1 = Z.of_nat (length l) /\
    (forall i, i ∈ l <-> assigned i (from cfg) w) /\
    (forall k i, l !! k = Some i -> exists t,
       targets cfg !! (k mod length (targets cfg))%nat = Some t /\ assigned i t w') /\
    (forall i, i ∉ l -> issuer_shard (w_pg w') !! i = issuer_shard (w_pg w) !! i) /\
    shardsOnly (w_pg w) (w_pg w') end) w) as Hwp.
  { unfold reassign. rewrite bool_decide_true by done. cbn [negb].
    unfold ListIssuersOnShard. apply wp_bind, wp_pg_read; [done| |by intros; apply wp_ret].
    intros now w1 _ (Hpg & _) _.
    destruct (sqlIssuersOn (from cfg) now (w_pg w)).1 as [l|e] eqn:Hl; [|by apply wp_ret].
    apply sqlIssuersOn_spec in Hl as [Hnd Hin].
    assert (wp (moveAll cfg 0 l 0) (fun r w' => match r.2 with Err _ => True | Ok _ =>
      exists l, NoDup l /\ r.1 = Z.of_nat (length l) /\
      (forall i, i ∈ l <-> assigned i (from cfg) w) /\
      (forall k i, l !! k = Some i -> exists t,
         targets cfg !! (k mod length (targets cfg))%nat = Some t /\ assigned i t w') /\
      (forall i, i ∉ l -> issuer_shard (w_pg w') !! i = issuer_shard (w_pg w) !! i) /\
      shardsOnly (w_pg w) (w_pg w') end) w1) as Hm.
    { eapply wp_mono; [by apply moveAll_wp|]. intros [m [u|e]] w2 (Hs & Ho & Hr); [|done].
      cbn [fst snd] in *. destruct Hr as [-> Hr]. rewrite Hpg in Hs, Ho. exists l.
      split_and!; try done. }
    destruct l as [|id l]; [|exact Hm]. apply wp_ret. exists []. split_and!; try done.
    - by rewrite Hpg.
    - by rewrite Hpg. }
  unfold wp in Hwp. rewrite Hrun in Hwp. cbn [fst snd] in Hwp.
  destruct Hwp as (l & Hnd & -> & Hin & Hat & Ho & Hs). exists l. split_and!; try done.
  - intros i Hni. apply Ho. by rewrite Hin.
  - intros Hft i Hf. destruct (decide (i ∈ l)) as [Hil|Hil].
    + apply list_elem_of_lookup in Hil as [k Hk]. destruct (Hat k i Hk) as (t & Ht & Ha).
      apply Hft. rewrite (assigned_unique _ _ _ _ Hf Ha). by eapply list_elem_of_lookup_2.
    + apply Hil, Hin. destruct Hf as (r & Hr & Hs'). exists r. by rewrite <- (Ho i Hil).
Qed.

(** Two issuers on "iad", one on "fra"; the first shard is emptied. *)
Definition exampleTable : world :=
  MkWorld (setShards pgEmpty (<["x" := MkShardRow "iad" 1]> (<["y" := MkShardRow "iad" 2]>
    (<["z" := MkShardRow "fra" 3]> ∅)))) ∅ ∅ [] 0 [] [].

Definition exampleConfig : config := MkConfig "" "iad" ["fra"; "syd"] false.

Lemma shard_emptied_witness :
  exists w', run (reassign exampleConfig) exampleTable = ((2, Ok tt), w') /\
    forall i, ~ assigned i "iad" w'.
Proof.
  assert ((run (reassign exampleConfig) exampleTable).1 = (2, Ok tt)) as E by (vm_compute; reflexivity).
  destruct (run (reassign exampleConfig) exampleTable) as [r w'] eqn:Hrun. cbn [fst] in E. subst r.
  exists w'. split; [reflexivity|].
  destruct (shard_emptied exampleConfig exampleTable w' 2 eq_refl ltac:(discriminate) eq_refl Hrun)
    as (l & _ & _ & _ & _ & _ & Hnone & _).
  apply Hnone. apply (bool_decide_unpack _). vm_compute. exact I.
Defined.

End Shards.
