(* ===== verification/Trust.v ===== *)
(** * internal/trust: is this key trusted?

    The interface [Evaluator] and its two implementations: [AllowAll], and
    [AuthZEN], which asks a policy decision point over HTTP. The HTTP client
    and the JSON codec are parameters. The theorem: the AuthZEN evaluator
    fails closed. *)

From S2P Require Import Prelude GoStrings Prog World.

Module Trust.

(** A JSON value as Go's [any]. *)
Inductive any : Type :=
| ANull
| ABool (b : bool)
| ANumber (n : Z)
| AString (s : string)
| AArray (l : list any)
| AObject (l : list (string * any)).

(** [m[key]] of a map as [encoding/json] fills it: the last entry wins. *)
Fixpoint lookupKey (key : string) (m : list (string * any)) : option any :=
  match m with
  | [] => None
  | (k, v) :: rest =>
      match lookupKey key rest with
      | Some v' => Some v'
      | None => if bool_decide (k = key) then Some v else None
      end
  end.

Record Decision := MkDecision {
  Trusted : bool;
  Reason : string
}.

Definition CredentialJWK : string := "jwk".
Definition CredentialX5C : string := "x5c".

(** [cJWK] is [None] for a nil map. *)
Record Credential := MkCredential {
  cType : string;
  cJWK : option (list (string * any));
  cX5C : list string
}.

Definition CredentialFromJWK (jwk : list (string * any)) : Credential :=
  MkCredential CredentialJWK (Some jwk) [].

Definition CredentialFromX5C (chain : list string) : Credential :=
  MkCredential CredentialX5C None chain.

(** The interface the authorization server uses. *)
Class Evaluator := {
  Evaluate : string -> Credential -> prog world (result Decision);
  Name : string
}.

(** ** AllowAllEvaluator *)

Definition AllowAll : Evaluator := {|
  Evaluate _ _ := Ret (Ok (MkDecision true "no trust PDP configured (fail-open default)"));
  Name := "allow-all"
|}.

(** ** AuthZENEvaluator *)

Record authzenRequest := MkAuthzenRequest {
  subjectType : string;
  subjectID : string;
  resourceType : string;
  resourceID : string;
  resourceKey : list any;
  action : option string
}.

(** [pReason] is [None] when context is absent. *)
Record authzenResponse := MkAuthzenResponse {
  pDecision : bool;
  pReason : option (list (string * any))
}.

(** [Do] sends a POST and gives the status and the body, or an error;
    [validURL] is what [http.NewRequest] accepts. *)
Class Http := {
  validURL : string -> bool;
  Do : string -> list Z -> prog world (result (Z * list Z))
}.

Class AuthzenJson := {
  marshalRequest : authzenRequest -> result (list Z);
  decodeResponse : list Z -> result authzenResponse
}.

Section AuthZEN.
Context `{!Http} `{!AuthzenJson}.

Record AuthZENEvaluator := MkAuthZENEvaluator {
  baseURL : string;
  actionName : string
}.

Definition maxAuthZENResponseBytes : Z := Z.shiftl 1 20.

(** What a reader limited to [n] bytes gives of [b]. *)
Definition limitReader (n : Z) (b : list Z) : list Z :=
  if Z.of_nat (length b) <=? n then b else take (Z.to_nat n) b.

Definition credentialKey (cred : Credential) : result (list any) :=
  if bool_decide (cType cred = CredentialJWK) then
    match cJWK cred with
    | None => Err (ErrMsg "trust: credential type jwk has no JWK")
    | Some jwk => Ok [AObject jwk]
    end
  else if bool_decide (cType cred = CredentialX5C) then
    match cX5C cred with
    | [] => Err (ErrMsg "trust: credential type x5c has no certificate chain")
    | chain => Ok (AString <$> chain)
    end
  else Err (ErrMsg "trust: unsupported credential type").

Definition request (e : AuthZENEvaluator) (subject : string) (cred : Credential) (key : list any) :
    authzenRequest :=
  MkAuthzenRequest "key" subject (cType cred) subject key
    (if bool_decide (actionName e = "") then None else Some (actionName e)).

(** The reason given with a decision. *)
Definition reasonOf (parsed : authzenResponse) : string :=
  let reason := match pReason parsed with
                | Some m => match lookupKey "message" m with
                            | Some (AString r) => r
                            | _ => "denied by policy"
                            end
                | None => "denied by policy"
                end in
  if pDecision parsed then "trusted by policy" else reason.

Definition evaluate (e : AuthZENEvaluator) (subject : string) (cred : Credential) :
    prog world (result Decision) :=
  match credentialKey cred with
  | Err err => Ret (Err err)
  | Ok key =>
      match marshalRequest (request e subject cred key) with
      | Err err => Ret (Err err)
      | Ok body =>
          let url := baseURL e +:+ "/evaluation" in
          if negb (validURL url) then Ret (Err (ErrMsg "trust: build authzen request"))
          else
            try! resp := Do url body in
            if negb (resp.1 =? 200) then Ret (Err (ErrMsg "trust: authzen PDP returned HTTP status"))
            else
              match decodeResponse (limitReader maxAuthZENResponseBytes resp.2) with
              | Err err => Ret (Err err)
              | Ok parsed => Ret (Ok (MkDecision (pDecision parsed) (reasonOf parsed)))
              end
      end
  end.

Definition AuthZEN (e : AuthZENEvaluator) : Evaluator := {|
  Evaluate := evaluate e;
  Name := "authzen:" +:+ baseURL e
|}.

End AuthZEN.

(** ** Properties *)

(** C36: the AuthZEN evaluator fails closed. A decision, and in particular a
    trusted one, is only ever what the policy decision point said: the
    credential was one of the two kinds, the request named the subject and
    that credential's key, the answer had status 200 and decoded to exactly
    this decision. Every other course of events is an error. *)
Theorem authzen_fails_closed `{!Http} `{!AuthzenJson} (e : AuthZENEvaluator) (subject : string)
    (cred : Credential) (d : Decision) (w w' : world) :
  run (@Evaluate (AuthZEN e) subject cred) w = (Ok d, w') ->
  exists key body resp parsed,
    credentialKey cred = Ok key /\ marshalRequest (request e subject cred key) = Ok body /\
    run (Do (baseURL e +:+ "/evaluation") body) w = (Ok (200, resp), w') /\
    decodeResponse (limitReader maxAuthZENResponseBytes resp) = Ok parsed /\
    Trusted d = pDecision parsed /\ Reason d = reasonOf parsed.
Proof.
  cbn [Evaluate AuthZEN]. unfold evaluate.
  destruct (credentialKey cred) as [key|]; [|done].
  destruct (marshalRequest _) as [body|] eqn:Hm; [|done].
  destruct (validURL _); [|done]. cbn [negb]. rewrite run_bindErr.
  destruct (run (Do _ body) w) as [[[status resp]|err] w1] eqn:Hdo; [|done]. cbn [fst snd].
  destruct (Z.eqb_spec status 200) as [->|]; [|done]. cbn [negb].
  destruct (decodeResponse _) as [parsed|] eqn:Hd; [|done]. cbn [run]. intros [= <- <-].
  exists key, body, resp, parsed. split_and!; done.
Qed.

(** A decision point that trusts one key. *)
#[local] Instance exampleHttp : Http := {|
  validURL _ := true;
  Do _ body := Ret (Ok (200, body))
|}.

#[local] Instance exampleJson : AuthzenJson := {|
  marshalRequest r := Ok (GoStrings.bytesOf (resourceID r));
  decodeResponse b := Ok (MkAuthzenResponse (bool_decide (b = GoStrings.bytesOf "me")) None)
|}.

Definition exampleWorld : world := MkWorld pgEmpty ∅ ∅ [] 0 [] [].

Lemma authzen_fails_closed_witness :
  exists key, credentialKey (CredentialFromX5C ["MA=="]) = Ok key.
Proof.
  assert (run (@Evaluate (AuthZEN (MkAuthZENEvaluator "https://pdp" "")) "me" (CredentialFromX5C ["MA=="]))
    exampleWorld = (Ok (MkDecision true "trusted by policy"), exampleWorld)) as Hrun.
  { reflexivity. }
  destruct (authzen_fails_closed (MkAuthZENEvaluator "https://pdp" "") "me" (CredentialFromX5C ["MA=="])
    (MkDecision true "trusted by policy") exampleWorld exampleWorld Hrun) as (key & _ & _ & _ & Hk & _).
  exists key. exact Hk.
Defined.

End Trust.
