(* ===== verification/ClientAssertion.v ===== *)
(** * internal/clientassertion: the issuer's proof of possession

    [Verify] on top of golang-jwt's parser, go-jose's JWK decoder and
    crypto/x509, which are parameters. The theorems: what a verified assertion
    establishes, and that its lifetime is bounded only if it says when it was
    issued. *)

From S2P Require Import Prelude GoStrings Base64 Signer Bitmap Token Trust.

Module ClientAssertion.

Definition maxLifetime : Z := 5 * minute.

(** [rJWK] is [None], [rX5C] empty, when the header did not carry it. *)
Record Result := MkResult {
  IssuerID : string;
  rJWK : option (list (string * Trust.any));
  rX5C : list string
}.

Record RegisteredClaims := MkRegisteredClaims {
  Issuer : string;
  Subject : string;
  Audience : list string;
  ExpiresAt : option Z;
  IssuedAt : option Z
}.

(** golang-jwt: the header of a token without checks, and the claims of a
    token checked with a key, the allowed methods, an audience, and a required
    expiry, at a time. *)
Class Jwt `{!Signer.Ecdsa} := {
  ParseUnverified : string -> result (list (string * Trust.any));
  ParseWithClaims : string -> Signer.public -> list string -> string -> Z -> result RegisteredClaims;
  hasSignature : string -> Signer.public -> Prop    (* the token verifies under the key *)
}.

(** What the documentation of ParseWithClaims with those options promises. *)
Class JwtLaws `(Jwt) : Prop := {
  parse_law : forall token pk methods aud now cl,
    ParseWithClaims token pk methods aud now = Ok cl ->
    hasSignature token pk /\ aud ∈ Audience cl /\ exists e, ExpiresAt cl = Some e /\ now < e
}.

(** The public key of a JWK object and of a DER certificate; [None] for a key
    that is not ECDSA. *)
Class Keys `{!Signer.Ecdsa} := {
  jwkKey : list (string * Trust.any) -> result (option Signer.public);
  certificateKey : list Z -> result (option Signer.public)
}.

Section Verify.
Context `{!Signer.Ecdsa} `{!Jwt} `{!Keys}.
#[local] Open Scope go_scope.

Definition resolveJWK (raw : Trust.any) : result (Signer.public * list (string * Trust.any)) :=
  match raw with
  | Trust.AObject jwkMap =>
      let? k := jwkKey jwkMap in
      match k with
      | Some pubKey => Ok (pubKey, jwkMap)
      | None => Err (ErrMsg "clientassertion: only EC public keys are supported")
      end
  | _ => Err (ErrMsg "clientassertion: jwk header is not a JSON object")
  end.

Fixpoint stringItems (items : list Trust.any) : result (list string) :=
  match items with
  | [] => Ok []
  | Trust.AString s :: rest => let? chain := stringItems rest in Ok (s :: chain)
  | _ :: _ => Err (ErrMsg "clientassertion: x5c entry is not a string")
  end.

Definition resolveX5C (raw : Trust.any) : result (Signer.public * list string) :=
  match raw with
  | Trust.AArray (item :: items) =>
      let? chain := stringItems (item :: items) in
      match chain with
      | [] => Err (Panic "index out of range")
      | leaf :: _ =>
          let? leafDER := Base64.StdDecode leaf in
          let? k := certificateKey leafDER in
          match k with
          | Some pubKey => Ok (pubKey, chain)
          | None => Err (ErrMsg "clientassertion: only EC leaf certificates are supported")
          end
      end
  | _ => Err (ErrMsg "clientassertion: x5c header is not a non-empty array")
  end.

Definition resolveProofOfPossession (header : list (string * Trust.any)) :
    result (Signer.public * option (list (string * Trust.any)) * list string) :=
  match Trust.lookupKey "jwk" header, Trust.lookupKey "x5c" header with
  | Some _, Some _ =>
      Err (ErrMsg "clientassertion: assertion header must carry exactly one of jwk or x5c, not both")
  | Some raw, None => let? r := resolveJWK raw in Ok (r.1, Some r.2, [])
  | None, Some raw => let? r := resolveX5C raw in Ok (r.1, None, r.2)
  | None, None => Err (ErrMsg "clientassertion: missing embedded jwk or x5c header")
  end.

(** The lifetime check: only when both dates are there. *)
Definition lifetimeOk (cl : RegisteredClaims) : bool :=
  match IssuedAt cl, ExpiresAt cl with
  | Some iat, Some exp => timeSub exp iat <=? maxLifetime
  | _, _ => true
  end.

Definition Verify (assertion expectedAudience : string) (now : Z) : result Result :=
  let? header := ParseUnverified assertion in
  let? pop := resolveProofOfPossession header in
  let '(pubKey, jwkMap, x5c) := pop in
  let? claims := ParseWithClaims assertion pubKey ["ES256"] expectedAudience now in
  if bool_decide (Subject claims = "") || negb (bool_decide (Issuer claims = Subject claims)) then
    Err (ErrMsg "clientassertion: iss must equal sub")
  else if negb (lifetimeOk claims) then
    Err (ErrMsg "clientassertion: assertion lifetime exceeds 5m0s")
  else Ok (MkResult (Subject claims) jwkMap x5c).

(** What the check bounds. *)
Lemma lifetime_bound cl e iat :
  lifetimeOk cl = true -> ExpiresAt cl = Some e -> IssuedAt cl = Some iat -> e - iat <= maxLifetime.
Proof.
  intros Hl He Hiat. unfold lifetimeOk in Hl. rewrite Hiat, He in Hl. apply Z.leb_le in Hl.
  unfold timeSub, maxLifetime, minute, second, maxInt64, minInt64 in *. lia.
Qed.

(** The header's own key: of its JWK, or of the first certificate of its
    chain, and of exactly one of them. *)
Definition possesses (r : Result) (pk : Signer.public) : Prop :=
  (exists jwk, rJWK r = Some jwk /\ rX5C r = [] /\ jwkKey jwk = Ok (Some pk)) \/
  (exists leaf rest der, rJWK r = None /\ rX5C r = leaf :: rest /\
     Base64.StdDecode leaf = Ok der /\ certificateKey der = Ok (Some pk)).

Lemma resolve_possesses header pk jwk x5c i :
  resolveProofOfPossession header = Ok (pk, jwk, x5c) -> possesses (MkResult i jwk x5c) pk.
Proof.
  unfold resolveProofOfPossession.
  destruct (Trust.lookupKey "jwk" header) as [raw|], (Trust.lookupKey "x5c" header) as [raw'|]; try done.
  - destruct raw as [| | | | |m]; try done. simpl. destruct (jwkKey m) as [[k|]|] eqn:Hk; simpl; try done.
    intros [= <- <- <-]. left. by exists m.
  - destruct raw' as [| | | |[|item items]|]; try done. unfold resolveX5C.
    destruct (stringItems (item :: items)) as [[|leaf rest]|]; try done.
    cbn -[Base64.StdDecode]. destruct (Base64.StdDecode leaf) as [der|] eqn:Hd; try done. simpl.
    destruct (certificateKey der) as [[k|]|] eqn:Hk; simpl; try done.
    intros [= <- <- <-]. right. by exists leaf, rest, der.
Qed.

(** The checks an accepted assertion passed. *)
Lemma Verify_ok assertion aud now r :
  Verify assertion aud now = Ok r ->
  exists pk cl, possesses r pk /\ ParseWithClaims assertion pk ["ES256"] aud now = Ok cl /\
    Issuer cl = IssuerID r /\ Subject cl = IssuerID r /\ IssuerID r <> "" /\ lifetimeOk cl = true.
Proof.
  unfold Verify. destruct (ParseUnverified assertion) as [header|]; [|done]. simpl.
  destruct (resolveProofOfPossession header) as [[[pk jwk] x5c]|] eqn:Hp; [|done]. simpl.
  destruct (ParseWithClaims _ _ _ _ _) as [cl|] eqn:Hc; [|done]. simpl.
  case_bool_decide as Hs; [done|]. case_bool_decide as Hi; [|done]. simpl.
  destruct (lifetimeOk cl) eqn:Hl; [|done]. intros [= <-]. exists pk, cl.
  split_and!; try done. by apply (resolve_possesses header).
Qed.

End Verify.

(** ** An example: one assertion, with the claims [cl] *)

#[local] Existing Instance Token.Concrete.ecdsa.

Definition exampleJwt (cl : RegisteredClaims) : Jwt := {|
  ParseUnverified _ := Ok [("alg", Trust.AString "ES256"); ("jwk", Trust.AObject [])];
  ParseWithClaims _ _ _ aud now :=
    if bool_decide (aud ∈ Audience cl) && match ExpiresAt cl with Some e => now <? e | None => false end
    then Ok cl else Err (ErrMsg "token is invalid");
  hasSignature _ _ := True
|}.

Lemma exampleJwt_laws cl : JwtLaws (exampleJwt cl).
Proof.
  split. intros token pk ms aud now cl'. cbn. case_bool_decide as Ha; [|done].
  destruct (ExpiresAt cl) as [e|] eqn:He; [|done]. destruct (Z.ltb_spec now e); [|done].
  intros [= <-]. split_and!; eauto.
Qed.

#[local] Instance exampleKeys : Keys := {|
  jwkKey _ := Ok (Some Token.Concrete.pub);
  certificateKey _ := Err (ErrMsg "no certificate")
|}.

Definition exampleClaims (exp : Z) (iat : option Z) : RegisteredClaims :=
  MkRegisteredClaims "https://me" "https://me" ["https://as/token"] (Some exp) iat.

(** ** Properties *)

(** What a verified assertion establishes. The caller holds the private
    half of exactly the key its header embeds, a JWK or the leaf of a chain
    and not both; issuer and subject are the same non-empty name, which is
    the identity returned; it was made for this audience and has not expired;
    and, if it says when it was issued, it lives at most five minutes. *)
Theorem verified_assertion `{!Signer.Ecdsa} `{!Jwt} `{!JwtLaws _} `{!Keys} (assertion aud : string)
    (now : Z) (r : Result) :
  Verify assertion aud now = Ok r ->
  IssuerID r <> "" /\
  exists pk cl e, possesses r pk /\ hasSignature assertion pk /\
    Issuer cl = IssuerID r /\ Subject cl = IssuerID r /\ aud ∈ Audience cl /\
    ExpiresAt cl = Some e /\ now < e /\
    forall iat, IssuedAt cl = Some iat -> e - iat <= maxLifetime.
Proof.
  intros (pk & cl & Hp & Hc & Hi & Hs & Hne & Hl)%Verify_ok. split; [done|].
  destruct (parse_law _ _ _ _ _ _ Hc) as (Hsig & Ha & e & He & Hn).
  exists pk, cl, e. split_and!; try done. intros iat. by apply lifetime_bound.
Qed.

Lemma verified_assertion_witness :
  exists r, @Verify _ (exampleJwt (exampleClaims 200 (Some 100))) _ "tok" "https://as/token" 150 = Ok r /\
    IssuerID r <> "".
Proof.
  assert (@Verify _ (exampleJwt (exampleClaims 200 (Some 100))) _ "tok" "https://as/token" 150 =
    Ok (MkResult "https://me" (Some []) [])) as E by (vm_compute; reflexivity).
  pose proof (@verified_assertion _ (exampleJwt (exampleClaims 200 (Some 100)))
    (exampleJwt_laws _) _ "tok" "https://as/token" 150 _ E) as [Hne _].
  eexists. split; [exact E|exact Hne].
Defined.

(** An assertion without an iat lives as long as it likes. If the parser
    accepts it and issuer and subject agree, then Verify accepts it, however
    late it expires: the five-minute bound is only applied to assertions that
    carry both dates. *)
Theorem lifetime_unbounded_without_iat `{!Signer.Ecdsa} `{!Jwt} `{!Keys} (assertion aud : string) (now : Z)
    (header : list (string * Trust.any)) (pk : Signer.public)
    (jwk : option (list (string * Trust.any))) (x5c : list string) (cl : RegisteredClaims) :
  ParseUnverified assertion = Ok header -> resolveProofOfPossession header = Ok (pk, jwk, x5c) ->
  ParseWithClaims assertion pk ["ES256"] aud now = Ok cl ->
  Subject cl <> "" -> Issuer cl = Subject cl -> IssuedAt cl = None ->
  Verify assertion aud now = Ok (MkResult (Subject cl) jwk x5c).
Proof.
  intros Hh Hp Hc Hs Hi Hiat. unfold Verify. rewrite Hh. simpl. rewrite Hp. simpl. rewrite Hc. simpl.
  rewrite bool_decide_false, bool_decide_true by done. unfold lifetimeOk. by rewrite Hiat.
Qed.

(** One that expires in a hundred years. *)
Lemma lifetime_unbounded_without_iat_witness :
  @Verify _ (exampleJwt (exampleClaims (100 * 365 * 24 * hour) None)) _ "tok" "https://as/token" 150 =
    Ok (MkResult "https://me" (Some []) []).
Proof.
  apply (@lifetime_unbounded_without_iat _ (exampleJwt (exampleClaims (100 * 365 * 24 * hour) None)) _
    "tok" "https://as/token" 150 [("alg", Trust.AString "ES256"); ("jwk", Trust.AObject [])]
    Token.Concrete.pub (Some []) [] (exampleClaims (100 * 365 * 24 * hour) None));
    vm_compute; congruence || reflexivity.
Defined.

End ClientAssertion.
