(* ===== verification/AuthServer.v ===== *)
(** * internal/accesstoken and internal/as: the token endpoint

    [Issue] mints an access token (go-jose signs it: a parameter), [JWKS] is
    the key set served for its validation, and [handleToken] is the
    client-credentials grant: assertion, trust decision, shard, token; [route]
    are the endpoints. The theorems: a token is only issued to a caller that
    proved possession of a trusted key, for the name that its assertion was
    signed for and for the shard the table holds; and, until it expires, such a
    token is routed by the router to that shard and admitted there. *)

From Stdlib Require Import Ascii.
From S2P Require Import Prelude Float64 GoStrings Signer Bitmap Token Prog World Rely Pool Publisher Ingestion Ingress Shards Trust ClientAssertion.

Module AuthServer.

(** ** accesstoken *)

(** go-tokenauth's AccessTokenClaims; dates in seconds. *)
Record AccessTokenClaims := MkAccessTokenClaims {
  jti : string;
  iss : string;
  sub : string;
  aud : list string;
  iat : Z;
  exp : Z;
  tenantID : string;
  tac : string
}.

(** [TAC.Validate] of go-tokenauth, and go-jose's ES256 signer and
    serializer. *)
Class AccessTokens := {
  privateKey : Type;
  publicKey : Type;
  publicOf : privateKey -> publicKey;
  validTAC : string -> bool;
  serialize : privateKey -> string -> AccessTokenClaims -> Z -> result string (* key, kid, claims, nonce *)
}.

Section Issue.
Context `{!AccessTokens}.

Record KeyManager := MkKeyManager {
  key : privateKey;
  keyID : string
}.

Record IssueParams := MkIssueParams {
  pIssuer : string;
  pAudience : string;
  pSubject : string;
  pTenantID : string;
  pTAC : string;
  pTTL : Z
}.

(** [gojosejwt.NewNumericDate]: Unix seconds. *)
Definition numericDate (t : Z) : Z := t / second.

Definition claimsOf (p : IssueParams) (id : string) (now : Z) : AccessTokenClaims :=
  MkAccessTokenClaims id (pIssuer p) (pSubject p) [pAudience p]
    (numericDate now) (numericDate (now + pTTL p)) (pTenantID p) (pTAC p).

Definition randomID : prog world (result string) :=
  try! b := randBytes 16 in Ret (Ok (GoStrings.EncodeToString b)).

Definition Issue (m : KeyManager) (p : IssueParams) : prog world (result string) :=
  if negb (validTAC (pTAC p)) then Ret (Err (ErrMsg "accesstoken: invalid tac"))
  else
    try! id := randomID in
    let! now := getNow in
    let! nonce := randN (2 ^ 256) in
    Ret (serialize (key m) (keyID m) (claimsOf p id now) nonce).

(** go-jose's JSONWebKey, and the key set of the server: its one key. *)
Record JSONWebKey := MkJSONWebKey {
  jKey : publicKey;
  jKeyID : string;
  jAlgorithm : string;
  jUse : string
}.

Definition JWKS (m : KeyManager) : list JSONWebKey :=
  [MkJSONWebKey (publicOf (key m)) (keyID m) "ES256" "sig"].

End Issue.

(** ** The token endpoint *)

Definition grantTypeClientCredentials : string := "client_credentials".
Definition clientAssertionTypeJWTBearer : string := "urn:ietf:params:oauth:client-assertion-type:jwt-bearer".

Section Server.
Context `{!AccessTokens}.

Inductive response : Type :=
| OAuthError (code : Z) (error description : string)
| TokenResponse (accessToken tokenType : string) (expiresIn : Z)
| KeySet (keys : list JSONWebKey)
| Healthz.

(** The three routes; a token request with its form fields. *)
Inductive request : Type :=
| PostToken (grantType assertionType assertion : string)
| GetJWKS
| GetHealthz.

Context `{!Signer.Ecdsa} `{!ClientAssertion.Jwt} `{!ClientAssertion.Keys} `{!Trust.Evaluator}
  `{!Float64.Conversion}.

Record Server := MkServer {
  BaseURL : string;
  AccessTokenTTL : Z;
  AccessTokenAudience : string;
  km : KeyManager;
  shards : Shards.ShardAssigner
}.

(** The credential of a verified assertion. *)
Definition credentialOf (r : ClientAssertion.Result) : option Trust.Credential :=
  match ClientAssertion.rJWK r with
  | Some jwk => Some (Trust.CredentialFromJWK jwk)
  | None =>
      match ClientAssertion.rX5C r with
      | [] => None
      | chain => Some (Trust.CredentialFromX5C chain)
      end
  end.

(** The handler, given the three form fields. *)
Definition handleToken (s : Server) (grantType assertionType assertion : string) :
    prog world response :=
  if negb (bool_decide (grantType = grantTypeClientCredentials)) then
    Ret (OAuthError 400 "unsupported_grant_type" "")
  else if negb (bool_decide (assertionType = clientAssertionTypeJWTBearer)) then
    Ret (OAuthError 400 "invalid_request" ("client_assertion_type must be " +:+ clientAssertionTypeJWTBearer))
  else if bool_decide (assertion = "") then
    Ret (OAuthError 400 "invalid_request" "client_assertion is required")
  else
    let! now := getNow in
    match ClientAssertion.Verify assertion (BaseURL s +:+ "/token") now with
    | Err _ => Ret (OAuthError 401 "invalid_client" "client assertion did not verify")
    | Ok result =>
        match credentialOf result with
        | None => Ret (OAuthError 401 "invalid_client" "client assertion carried no usable proof of possession")
        | Some cred =>
            let issuerID := ClientAssertion.IssuerID result in
            let! decision := Trust.Evaluate issuerID cred in
            match decision with
            | Err _ => Ret (OAuthError 500 "server_error" "trust evaluation failed")
            | Ok d =>
                if negb (Trust.Trusted d) then
                  Ret (OAuthError 401 "invalid_client" ("key is not trusted: " +:+ Trust.Reason d))
                else
                  let! shard := Shards.AssignOrLookup (shards s) issuerID in
                  match shard with
                  | Err _ => Ret (OAuthError 500 "server_error" "shard assignment failed")
                  | Ok shardID =>
                      let expiresIn := AccessTokenTTL s in
                      let! token := Issue (km s) (MkIssueParams (BaseURL s) (AccessTokenAudience s)
                                      issuerID shardID "riw" expiresIn) in
                      match token with
                      | Err _ => Ret (OAuthError 500 "server_error" "could not mint token")
                      | Ok token =>
                          Ret (TokenResponse token "Bearer" (Float64.toInt64 (Float64.Seconds expiresIn)))
                      end
                  end
            end
        end
    end.

Definition handleJWKS (s : Server) : prog world response := Ret (KeySet (JWKS (km s))).

Definition route (s : Server) (r : request) : prog world response :=
  match r with
  | PostToken grantType assertionType assertion => handleToken s grantType assertionType assertion
  | GetJWKS => handleJWKS s
  | GetHealthz => Ret Healthz
  end.

(** What a token [tok] minted from [p] at an instant is. *)
Definition mintedAt (m : KeyManager) (p : IssueParams) (now : Z) (tok : string) : Prop :=
  exists id nonce, serialize (key m) (keyID m) (claimsOf p id now) nonce = Ok tok.

(** The parameters that the endpoint mints with. *)
Definition tokenParams (s : Server) (issuerID shardID : string) : IssueParams :=
  MkIssueParams (BaseURL s) (AccessTokenAudience s) issuerID shardID "riw" (AccessTokenTTL s).

Lemma Issue_run m p w tok w' :
  run (Issue m p) w = (Ok tok, w') ->
  mintedAt m p (w_clock w') tok /\ w_pg w' = w_pg w /\ validTAC (pTAC p) = true.
Proof.
  unfold Issue. destruct (validTAC (pTAC p)); [|done]. cbn [negb].
  unfold randomID. rewrite !run_bindErr. destruct (run (randBytes 16) w) as [[b|e] w1] eqn:Hb; [|done].
  cbn [fst snd run]. rewrite run_bind. cbn [getNow act run fst snd]. rewrite run_bind.
  unfold randN. rewrite run_act. unfold randBytes in Hb. injection Hb as _ <-.
  destruct (w_entropy (set_env _ _ _ _)); cbn [fst snd run]; intros [= Ht <-];
    (split_and!; [eexists _, _; exact Ht|done|done]).
Qed.

(** A successful request, step by step. *)
Lemma handleToken_ok s gt at_ assertion w tok ty ex w' :
  run (handleToken s gt at_ assertion) w = (TokenResponse tok ty ex, w') ->
  exists result cred d shardID w1 w2,
    ClientAssertion.Verify assertion (BaseURL s +:+ "/token") (w_clock w) = Ok result /\
    credentialOf result = Some cred /\
    run (Trust.Evaluate (ClientAssertion.IssuerID result) cred) w = (Ok d, w1) /\ Trust.Trusted d = true /\
    run (Shards.AssignOrLookup (shards s) (ClientAssertion.IssuerID result)) w1 = (Ok shardID, w2) /\
    w_pg w' = w_pg w2 /\ validTAC "riw" = true /\
    mintedAt (km s) (tokenParams s (ClientAssertion.IssuerID result) shardID) (w_clock w') tok.
Proof.
  unfold handleToken. do 2 (case_bool_decide; [|done]). case_bool_decide; [done|]. cbn [negb].
  rewrite run_bind. cbn [getNow act run fst snd].
  destruct (ClientAssertion.Verify _ _ _) as [result|]; [|done].
  destruct (credentialOf result) as [cred|] eqn:Hcred; [|done]. cbv zeta. rewrite run_bind.
  destruct (run (Trust.Evaluate _ cred) w) as [[d|e] w1] eqn:He; cbn [fst snd]; [|done].
  destruct (Trust.Trusted d) eqn:Ht; [|done]. cbn [negb]. rewrite run_bind.
  destruct (run (Shards.AssignOrLookup _ _) w1) as [[shardID|e] w2] eqn:Ha; cbn [fst snd]; [|done].
  rewrite run_bind. destruct (run (Issue _ _) w2) as [[t|e] w3] eqn:Hi; cbn [fst snd run]; [|done].
  intros [= -> <- <- <-]. apply Issue_run in Hi as (Hm & Hpg & Htac).
  exists result, cred, d, shardID, w1, w2. done.
Qed.

End Server.

(** ** The validators *)

Fixpoint letters (s : string) : list string :=
  match s with EmptyString => [] | String c rest => String c "" :: letters rest end.

(** Text that is there and that JSON carries unchanged. *)
Definition presentable (s : string) : Prop := s <> "" /\ GoStrings.isASCII s = true.

(** go-tokenauth's validator, as it is at each instant, configured with an
    issuer, an audience and the one key it fetched: it accepts a token that
    this key signed for them, from the second of its iat up to the second of
    its exp, and reads its subject, tenant and permission letters. And what a
    compact serialization is made of. *)
Class ValidatorLaws `{!AccessTokens} (validators : Z -> Ingress.Validator) (keys : list JSONWebKey)
    (issuer audience : string) : Prop := {
  validate_law : forall k kid cl nonce tok now,
    serialize k kid cl nonce = Ok tok -> keys = [MkJSONWebKey (publicOf k) kid "ES256" "sig"] ->
    iss cl = issuer -> aud cl = [audience] -> validTAC (tac cl) = true ->
    Forall presentable [kid; issuer; audience; sub cl; tenantID cl] ->
    0 <= iat cl -> exp cl < 2 ^ 53 -> iat cl * second <= now < exp cl * second ->
    Ingress.Validate (Validator := validators now) tok =
      inl (Ingestion.MkResult (sub cl) (tenantID cl) (letters (tac cl)));
  serialize_law : forall k kid cl nonce tok, serialize k kid cl nonce = Ok tok -> presentable tok
}.

(** Configuration that survives JSON. *)
Definition presentableServer `{!AccessTokens} (s : Server) : Prop :=
  Forall presentable [keyID (km s); BaseURL s; AccessTokenAudience s].

(** When a token of the endpoint that was minted at [t] is accepted: until the
    second in which its lifetime ends, if that is a date Go can hold. *)
Definition fresh `{!AccessTokens} (s : Server) (t now : Z) : Prop :=
  0 <= t /\ t + AccessTokenTTL s <= maxInt64 /\ t <= now < (t + AccessTokenTTL s) / second * second.

Lemma minted_validates `{!AccessTokens} (validators : Z -> Ingress.Validator) (s : Server)
    `{!ValidatorLaws validators (JWKS (km s)) (BaseURL s) (AccessTokenAudience s)} issuerID shardID t now tok :
  presentableServer s -> presentable issuerID -> presentable shardID -> validTAC "riw" = true ->
  mintedAt (km s) (tokenParams s issuerID shardID) t tok -> fresh s t now ->
  Ingress.Validate (Validator := validators now) tok = inl (Ingestion.MkResult issuerID shardID ["r"; "i"; "w"]).
Proof.
  intros Hs Hi Hsh Htac (id & nonce & Hm) (Ht & Hmax & Hnow).
  rewrite (validate_law _ _ _ _ _ now Hm); try done; cbn.
  - unfold presentableServer in Hs. rewrite !Forall_cons in Hs. rewrite !Forall_cons, Forall_nil. tauto.
  - unfold numericDate, second. Z.div_mod_to_equations. lia.
  - unfold numericDate, maxInt64, second in *. Z.div_mod_to_equations. lia.
  - unfold numericDate, second in *. Z.div_mod_to_equations. lia.
Qed.

(** ** An example *)

#[local] Existing Instance Token.Concrete.ecdsa.
#[local] Instance exampleConversion : Float64.Conversion := {| Float64.outOfRange _ := 0 |}.
#[local] Existing Instance ClientAssertion.exampleKeys.

#[local] Instance exampleJwt : ClientAssertion.Jwt :=
  ClientAssertion.exampleJwt (ClientAssertion.exampleClaims (200 * second) (Some (100 * second))).

(** A token format that can be read back: the claims as a binary numeral. *)
Fixpoint bits (p : positive) : string :=
  match p with
  | xH => "h"
  | xO p => String "0" (bits p)
  | xI p => String "1" (bits p)
  end.

Fixpoint ofBits (s : string) : option positive :=
  match s with
  | EmptyString => None
  | String c rest =>
      if bool_decide (c = "0"%char) then xO <$> ofBits rest
      else if bool_decide (c = "1"%char) then xI <$> ofBits rest
      else Some xH
  end.

Lemma ofBits_bits p : ofBits (bits p) = Some p.
Proof. induction p as [p IH|p IH|]; simpl; [by rewrite IH|by rewrite IH|done]. Qed.

#[local] Instance exampleTokens : AccessTokens := {|
  privateKey := unit;
  publicKey := unit;
  publicOf k := k;
  validTAC s := bool_decide (s = "riw");
  serialize _ _ cl _ := Ok (bits (encode (sub cl, tenantID cl, tac cl, iat cl, exp cl)))
|}.

#[local] Instance exampleValidator (now : Z) : Ingress.Validator := {|
  Ingress.Validate t :=
    match ofBits t ≫= decode (A := string * string * string * Z * Z) with
    | Some (subject, tenant, perms, issued, expires) =>
        if (issued * second <=? now) && (now <? expires * second)
        then inl (Ingestion.MkResult subject tenant (letters perms))
        else inr Ingress.ErrExpired
    | None => inr Ingress.ErrRejected
    end
|}.

#[local] Instance exampleURLs : Ingress.URLs := {| Ingress.url := string; Ingress.parseURL s := Ok s |}.

Lemma bits_ascii p : presentable (bits p).
Proof.
  split; [by destruct p|]. unfold GoStrings.isASCII. induction p as [p IH|p IH|]; cbn; [by rewrite IH..|done].
Qed.

#[local] Instance exampleValidator_laws keys issuer audience : ValidatorLaws exampleValidator keys issuer audience.
Proof.
  split; [|intros k kid cl nonce tok [= <-]; apply bits_ascii].
  intros k kid cl nonce tok now [= <-] _ _ _ _ _ _ _ Hnow.
  unfold Ingress.Validate, exampleValidator. rewrite ofBits_bits. cbn [mbind option_bind].
  rewrite decode_encode. by replace (_ && _) with true by lia.
Qed.

Definition exampleServer : Server :=
  MkServer "https://as" hour "siros-status-service" (MkKeyManager tt "as-1")
    (Shards.MkShardAssigner ["iad"; "fra"]).

Definition exampleWorld : world := MkWorld pgEmpty ∅ ∅ [] (150 * second) [] [].

(** ** Properties *)

(** C33: who gets a token. If the token endpoint answers with a token, whatever
    failed on the way, then its assertion verified: the parser accepted it under
    the key its own header embeds, with claims that name one non-empty issuer as
    iss and as sub, that are for this token endpoint, that had not expired and
    that, if they say when they were issued, live for at most five minutes. The
    evaluator was asked about exactly that key and that name and found it
    trusted; and the token was minted for that name, at the time of the answer,
    and for the shard the table now holds for it. *)
Theorem token_needs_trusted_key `{!Signer.Ecdsa} `{!ClientAssertion.Jwt} `{!ClientAssertion.JwtLaws _}
    `{!ClientAssertion.Keys} `{!Trust.Evaluator} `{!AccessTokens} `{!Float64.Conversion}
    (s : Server) (gt at_ assertion tok ty : string) (ex : Z) (w w' : world) :
  Shards.shards (shards s) <> [] ->
  run (handleToken s gt at_ assertion) w = (TokenResponse tok ty ex, w') ->
  exists pk cl e result cred d shardID w1,
    (* the assertion *)
    ClientAssertion.ParseWithClaims assertion pk ["ES256"] (BaseURL s +:+ "/token") (w_clock w) = Ok cl /\
    ClientAssertion.hasSignature assertion pk /\
    ClientAssertion.Issuer cl = ClientAssertion.Subject cl /\ ClientAssertion.Subject cl <> "" /\
    (BaseURL s +:+ "/token") ∈ ClientAssertion.Audience cl /\
    ClientAssertion.ExpiresAt cl = Some e /\ w_clock w < e /\
    (forall iat, ClientAssertion.IssuedAt cl = Some iat -> e - iat <= ClientAssertion.maxLifetime) /\
    (* the decision *)
    ClientAssertion.Verify assertion (BaseURL s +:+ "/token") (w_clock w) = Ok result /\
    ClientAssertion.IssuerID result = ClientAssertion.Subject cl /\ ClientAssertion.possesses result pk /\
    credentialOf result = Some cred /\
    run (Trust.Evaluate (ClientAssertion.Subject cl) cred) w = (Ok d, w1) /\ Trust.Trusted d = true /\
    (* the token *)
    Shards.assigned (ClientAssertion.Subject cl) shardID w' /\
    mintedAt (km s) (MkIssueParams (BaseURL s) (AccessTokenAudience s) (ClientAssertion.Subject cl) shardID "riw"
      (AccessTokenTTL s)) (w_clock w') tok.
Proof.
  intros Hne (result & cred & d & shardID & w1 & w2 & Hv & Hc & He & Ht & Ha & Hpg & _ & Hm)%handleToken_ok.
  pose proof (ClientAssertion.Verify_ok _ _ _ _ Hv) as (pk & cl & Hp & Hparse & Hi & Hs & Hn & Hl).
  destruct (ClientAssertion.parse_law _ _ _ _ _ _ Hparse) as (Hsig & Haud & e & Hexp & Hlt).
  rewrite <- Hs in *. exists pk, cl, e, result, cred, d, shardID, w1. split_and!; try done.
  - intros iat. by apply (ClientAssertion.lifetime_bound cl e iat).
  - unfold Shards.assigned. rewrite Hpg. by apply (Shards.AssignOrLookup_run _ _ _ _ _ Hne Ha).
Qed.

Lemma token_needs_trusted_key_witness :
  exists tok w', run (@handleToken _ _ _ _ Trust.AllowAll _ exampleServer grantTypeClientCredentials
    clientAssertionTypeJWTBearer "assertion") exampleWorld = (TokenResponse tok "Bearer" 3600, w') /\
  exists cl shardID, ClientAssertion.ParseWithClaims "assertion" Token.Concrete.pub ["ES256"] "https://as/token"
      (150 * second) = Ok cl /\
    Shards.assigned (ClientAssertion.Subject cl) shardID w'.
Proof.
  assert (exists tok, (run (@handleToken _ _ _ _ Trust.AllowAll _ exampleServer grantTypeClientCredentials
    clientAssertionTypeJWTBearer "assertion") exampleWorld).1 = TokenResponse tok "Bearer" 3600) as [tok E]
    by (eexists; vm_compute; reflexivity).
  destruct (run _ exampleWorld) as [r w'] eqn:Hrun. cbn [fst] in E. subst r.
  exists tok, w'. split; [reflexivity|].
  destruct (@token_needs_trusted_key _ _ (ClientAssertion.exampleJwt_laws _) _ Trust.AllowAll _ _
    exampleServer grantTypeClientCredentials clientAssertionTypeJWTBearer "assertion" tok "Bearer" 3600
    exampleWorld w' ltac:(discriminate) Hrun)
    as ([] & cl & _ & _ & _ & _ & shardID & _ & Hp & _ & _ & _ & _ & _ & _ & _ & _ & _ & _ & _ & _ & _ & Ha & _).
  exists cl, shardID. split; [exact Hp|exact Ha].
Defined.

(** C34: a token opens the door of its own shard, as long as it is fresh. Take a
    token that the endpoint answered with, where the names of the issuer, the
    shard and the server are text that JSON carries unchanged, and validators
    that use the key the endpoint serves. At every instant from the answer up to the second in which the lifetime of the
    token ends, the router proxies POST /allocate with it to the backend of the
    shard that the table holds for the issuer, and the ingestion service of that
    shard runs the allocation for exactly that issuer; at an ingestion service
    of another shard it is refused. *)
Theorem token_reaches_its_shard `{!Signer.Ecdsa} `{!ClientAssertion.Jwt} `{!ClientAssertion.Keys}
    `{!Trust.Evaluator} `{!AccessTokens} `{!Float64.Conversion} `{!Ingress.URLs}
    (validators : Z -> Ingress.Validator) (s : Server)
    `{!ValidatorLaws validators (JWKS (km s)) (BaseURL s) (AccessTokenAudience s)}
    (gt at_ assertion tok ty : string) (ex : Z) (w w' : world) :
  Shards.shards (shards s) <> [] -> presentableServer s ->
  run (handleToken s gt at_ assertion) w = (TokenResponse tok ty ex, w') ->
  exists result shardID,
    ClientAssertion.Verify assertion (BaseURL s +:+ "/token") (w_clock w) = Ok result /\
    Shards.assigned (ClientAssertion.IssuerID result) shardID w' /\
    forall now r target ing body,
      presentable (ClientAssertion.IssuerID result) -> presentable shardID -> fresh s (w_clock w') now ->
      Ingress.proxies r !! shardID = Some target ->
      @Ingress.ServeHTTP (validators now) _ r ("Bearer " +:+ tok) "/allocate" = Ingress.Proxied shardID target /\
      Ingestion.route ing (@Ingress.tokenAuth (validators now) ("Bearer " +:+ tok)) (Ingestion.Allocate body) =
        (if bool_decide (Ingestion.ShardID ing = shardID)
         then Ingestion.handleAllocate ing (ClientAssertion.IssuerID result) body
         else Ret (Ingestion.JSONError 403 "token is not authorized for this shard")).
Proof.
  intros Hne Hps (result & cred & d & shardID & w1 & w2 & Hv & _ & _ & _ & Ha & Hpg & Htac & Hm)%handleToken_ok.
  exists result, shardID. split_and!; [done| |].
  { unfold Shards.assigned. rewrite Hpg. by apply (Shards.AssignOrLookup_run _ _ _ _ _ Hne Ha). }
  intros now r target ing body Hpi Hpsh Hfresh Hp.
  pose proof (minted_validates validators s _ _ _ _ _ Hps Hpi Hpsh Htac Hm Hfresh) as Hval.
  destruct Hm as (id & nonce & Hm). destruct (serialize_law _ _ _ _ _ Hm) as [Ht _]. split.
  - unfold Ingress.ServeHTTP. rewrite GoStrings.CutPrefix_app, bool_decide_false, Hval by done.
    unfold Ingress.shardOf.
    change (Ingress.listIDFromStatusPath "/allocate") with (@None string).
    cbn [negb orb Ingestion.TenantID]. by rewrite Hp.
  - unfold Ingress.tokenAuth. rewrite GoStrings.CutPrefix_app, Hval.
    cbn [negb Ingestion.route]. unfold Ingestion.authed. cbn [Ingestion.TenantID Ingestion.TAC Ingestion.UserID].
    destruct (decide (Ingestion.ShardID ing = shardID)) as [Heq|Hneq].
    + rewrite !(bool_decide_true (_ = _)) by congruence. cbn [negb].
      by rewrite bool_decide_true by (right; left).
    + by rewrite !(bool_decide_false (_ = _)) by congruence.
Qed.

(** The issuer of the example, ten minutes after its token was minted. *)
Lemma token_reaches_its_shard_witness :
  exists tok w' shardID,
    run (@handleToken _ _ _ _ Trust.AllowAll _ exampleServer grantTypeClientCredentials
      clientAssertionTypeJWTBearer "assertion") exampleWorld = (TokenResponse tok "Bearer" 3600, w') /\
    Shards.assigned "https://me" shardID w' /\
    @Ingress.ServeHTTP (exampleValidator (750 * second)) _ (Ingress.MkRouter {[shardID := "http://backend"]})
      ("Bearer " +:+ tok) "/allocate" = Ingress.Proxied shardID "http://backend".
Proof.
  assert (exists tok, (run (@handleToken _ _ _ _ Trust.AllowAll _ exampleServer grantTypeClientCredentials
    clientAssertionTypeJWTBearer "assertion") exampleWorld).1 = TokenResponse tok "Bearer" 3600) as [tok E]
    by (eexists; vm_compute; reflexivity).
  assert (w_clock (run (@handleToken _ _ _ _ Trust.AllowAll _ exampleServer grantTypeClientCredentials
    clientAssertionTypeJWTBearer "assertion") exampleWorld).2 = 150 * second) as Hclock by (vm_compute; reflexivity).
  assert (forall shardID, Shards.assigned "https://me" shardID (run (@handleToken _ _ _ _ Trust.AllowAll _ exampleServer
    grantTypeClientCredentials clientAssertionTypeJWTBearer "assertion") exampleWorld).2 -> shardID = "iad" \/ shardID = "fra")
    as Hshard.
  { intros shardID (row & Hrow & <-). vm_compute in Hrow. injection Hrow as <-.
    (left; reflexivity) || (right; reflexivity). }
  destruct (run _ exampleWorld) as [r w'] eqn:Hrun. cbn [fst snd] in E, Hclock, Hshard. subst r.
  destruct (@token_reaches_its_shard _ _ _ Trust.AllowAll _ _ _ exampleValidator exampleServer _
    grantTypeClientCredentials clientAssertionTypeJWTBearer "assertion" tok "Bearer" 3600
    exampleWorld w') as (result & shardID & Hv & Ha & Hall); [discriminate|repeat constructor; discriminate|exact Hrun|].
  assert (ClientAssertion.IssuerID result = "https://me") as Hid by (vm_compute in Hv; by injection Hv as <-).
  rewrite Hid in Ha, Hall. exists tok, w', shardID. split; [reflexivity|]. split; [exact Ha|].
  refine (proj1 (Hall (750 * second) _ "http://backend" (Ingestion.exampleServer "s1") None _ _ _ _)).
  - split; [discriminate|reflexivity].
  - destruct (Hshard _ Ha) as [-> | ->]; (split; [discriminate|reflexivity]).
  - rewrite Hclock. unfold fresh, exampleServer, AccessTokenTTL, maxInt64, hour, minute, second.
    split_and!; try lia; done.
  - apply lookup_singleton_eq.
Defined.

End AuthServer.
