(* ===== verification/DocumentedConfig.v ===== *)
(** * docs/CONFIGURATION.md against the loaders

    The reference is generated from the text of the Load functions by regular
    expressions; here it is compared with what those functions, as [Config]
    models them, do with the environment. The variables that a loader reads are
    a table ([reads]), proved sound for the loader ([load_ext]); the bindings
    that the generator finds in the source text are computed and checked
    against it. *)

From Stdlib Require Import SpecFloat.
From S2P Require Import Prelude GoStrings Signer Config ConfigDocs ConfigSource.

Module DocumentedConfig.
Import Config ConfigDocs ConfigSource.

(** ** The four loaders by name *)

Section Load.
Context `{!Parsers}.

Inductive serviceConfig :=
| AS (c : ASConfig)
| Ingestion (c : IngestionConfig)
| Verifier (c : VerifierConfig)
| Ingress (c : IngressConfig).

Definition load (fn : string) (env : environ) : result serviceConfig :=
  if bool_decide (fn = "LoadAS") then result_bind (LoadAS env) (fun c => Ok (AS c))
  else if bool_decide (fn = "LoadIngestion") then result_bind (LoadIngestion env) (fun c => Ok (Ingestion c))
  else if bool_decide (fn = "LoadVerifier") then result_bind (LoadVerifier env) (fun c => Ok (Verifier c))
  else if bool_decide (fn = "LoadIngress") then result_bind (LoadIngress env) (fun c => Ok (Ingress c))
  else Err (ErrMsg "no such loader").

(** One variable as a loader reads it. *)
Inductive read :=
| RString (key def : string)
| RRaw (key : string)
| RInt (key : string) (def : Z)
| RInt64 (key : string) (def : Z)
| RUint (key : string) (def : Z)
| RDuration (key : string) (def : Z)
| RFloat (key : string) (def : spec_float)
| RKey (key : string)
| RSigning
| RCertChain (key : string).

(** The variables that select the signing source. *)
Definition signingVars : list string :=
  ["SIGNING_KEY_PEM"; "PKCS11_MODULE_PATH"; "PKCS11_POOL_SIZE"; "PKCS11_TOKEN_LABEL"; "PKCS11_KEY_LABEL";
   "PKCS11_PIN"].

Definition keys (r : read) : list string :=
  match r with
  | RString k _ | RRaw k | RInt k _ | RInt64 k _ | RUint k _ | RDuration k _ | RFloat k _ | RKey k | RCertChain k => [k]
  | RSigning => signingVars
  end.

(** Two environments give the same result for a read. *)
Definition same (env1 env2 : environ) (r : read) : Prop :=
  match r with
  | RString k d => getEnv env1 k d = getEnv env2 k d
  | RRaw k => env1 k = env2 k
  | RInt k d => getIntEnv env1 k d = getIntEnv env2 k d
  | RInt64 k d => getInt64Env env1 k d = getInt64Env env2 k d
  | RUint k d => getUint64Env env1 k d = getUint64Env env2 k d
  | RDuration k d => getDurationEnv env1 k d = getDurationEnv env2 k d
  | RFloat k d => getFloat64Env env1 k d = getFloat64Env env2 k d
  | RKey k => requireECKeyEnv env1 k = requireECKeyEnv env2 k
  | RSigning => loadSigningSource env1 "SIGNING_KEY_PEM" = loadSigningSource env2 "SIGNING_KEY_PEM"
  | RCertChain k => optionalCertChainEnv env1 k = optionalCertChainEnv env2 k
  end.

Definition ingestionReads : list read :=
  [RUint "LIST_CAPACITY" 100000; RInt "LIST_BITS" 2; RInt "POOL_WIDTH" 4;
   RDuration "ROTATION_MAX_AGE" (24 * hour); RDuration "POOL_CHECK_INTERVAL" (30 * second);
   RInt64 "DEFAULT_TTL_SECONDS" 3600; RDuration "PUBLISH_INTERVAL" (10 * second);
   RFloat "DECOY_NOISE_RATE" (S754_zero false); RDuration "DECOY_CHECK_INTERVAL" (15 * minute);
   RDuration "MAX_EXPIRY" (365 * 24 * hour); RDuration "GC_GRACE_PERIOD" (24 * hour);
   RDuration "GC_RETENTION_PERIOD" (30 * 24 * hour); RDuration "GC_CHECK_INTERVAL" hour;
   RDuration "DB_RETENTION_PERIOD" 0; RDuration "JWKS_REFRESH_INTERVAL" (5 * minute);
   RSigning; RCertChain "SIGNING_CERT_CHAIN_PEM"; RRaw "AS_JWKS_URL"; RRaw "ACCESS_TOKEN_ISSUER";
   RString "HTTP_ADDR" ":8080"; RString "BASE_URL" "http://localhost:8080";
   RString "REDIS_ADDR" "localhost:6379"; RRaw "REDIS_URL"; RString "DATABASE_URL" defaultPostgresDSN;
   RString "SHARD_ID" "default"; RString "SIGNING_KEY_ID" "prototype-1";
   RString "ACCESS_TOKEN_AUDIENCE" "siros-status-service"].

Definition verifierReads : list read :=
  [RInt64 "DEFAULT_TTL_SECONDS" 3600; RDuration "GC_RETENTION_PERIOD" (30 * 24 * hour);
   RSigning; RCertChain "SIGNING_CERT_CHAIN_PEM"; RRaw "SHARD_REDIS_URLS";
   RString "HTTP_ADDR" ":8081"; RString "BASE_URL" "http://localhost:8081";
   RString "DATABASE_URL" defaultPostgresDSN; RString "SIGNING_KEY_ID" "prototype-1"].

Definition asReads : list read :=
  [RDuration "ACCESS_TOKEN_TTL" hour; RKey "AS_SIGNING_KEY_PEM";
   RString "HTTP_ADDR" ":8082"; RString "BASE_URL" "http://localhost:8082";
   RString "DATABASE_URL" defaultPostgresDSN; RString "SIGNING_KEY_ID" "as-prototype-1";
   RString "ACCESS_TOKEN_AUDIENCE" "siros-status-service"; RString "SHARDS" "default";
   RRaw "TRUST_PDP_URL"; RRaw "TRUST_ACTION_NAME"].

Definition ingressReads : list read :=
  [RDuration "JWKS_REFRESH_INTERVAL" (5 * minute); RRaw "AS_JWKS_URL"; RRaw "ACCESS_TOKEN_ISSUER";
   RRaw "SHARD_BACKENDS"; RString "HTTP_ADDR" ":8083";
   RString "ACCESS_TOKEN_AUDIENCE" "siros-status-service"].

(** Rewrites a loader's reads with the ones that are known to agree. *)
Ltac same_reads :=
  repeat match goal with
  | H : Forall (same _ _) (_ :: _) |- _ => apply Forall_cons_1 in H as [? H]; cbn [same] in *
  | H : ?a = ?b |- _ => rewrite H; clear H
  end.

Lemma LoadIngestion_ext env1 env2 :
  Forall (same env1 env2) ingestionReads -> LoadIngestion env1 = LoadIngestion env2.
Proof. intros Hs. unfold LoadIngestion, ingestionReads in *. same_reads. reflexivity. Qed.

Lemma LoadVerifier_ext env1 env2 :
  Forall (same env1 env2) verifierReads -> LoadVerifier env1 = LoadVerifier env2.
Proof. intros Hs. unfold LoadVerifier, verifierReads in *. same_reads. reflexivity. Qed.

Lemma LoadAS_ext env1 env2 : Forall (same env1 env2) asReads -> LoadAS env1 = LoadAS env2.
Proof. intros Hs. unfold LoadAS, asReads in *. same_reads. reflexivity. Qed.

Lemma LoadIngress_ext env1 env2 : Forall (same env1 env2) ingressReads -> LoadIngress env1 = LoadIngress env2.
Proof. intros Hs. unfold LoadIngress, ingressReads in *. same_reads. reflexivity. Qed.

Definition reads (fn : string) : list read :=
  if bool_decide (fn = "LoadAS") then asReads
  else if bool_decide (fn = "LoadIngestion") then ingestionReads
  else if bool_decide (fn = "LoadVerifier") then verifierReads
  else if bool_decide (fn = "LoadIngress") then ingressReads
  else [].

(** A loader depends on its reads alone. *)
Lemma load_ext fn env1 env2 : Forall (same env1 env2) (reads fn) -> load fn env1 = load fn env2.
Proof.
  unfold reads, load. repeat case_bool_decide; intros Hs; [..|done].
  - by rewrite (LoadAS_ext env1 env2).
  - by rewrite (LoadIngestion_ext env1 env2).
  - by rewrite (LoadVerifier_ext env1 env2).
  - by rewrite (LoadIngress_ext env1 env2).
Qed.

(** ** When two environments agree *)

Lemma same_frame env1 env2 r : Forall (fun k => env1 k = env2 k) (keys r) -> same env1 env2 r.
Proof.
  intros Hk. destruct r; cbn [keys same] in *; unfold signingVars in *; rewrite !Forall_cons in Hk;
    destruct_and! Hk; unfold getEnv, getIntEnv, getInt64Env, getUint64Env, getDurationEnv, getFloat64Env,
      getParsed, requireECKeyEnv, loadSigningSource, requireECKeyEnv, requirePKCS11, getIntEnv, getParsed,
      optionalCertChainEnv;
    repeat match goal with E : env1 _ = env2 _ |- _ => rewrite E; clear E end; reflexivity.
Qed.

Definition setVar (env : environ) (k v : string) : environ :=
  fun k' => if bool_decide (k' = k) then v else env k'.

Lemma setVar_eq env k v : setVar env k v k = v.
Proof. unfold setVar. by rewrite bool_decide_true. Qed.

Lemma setVar_ne env k v k' : k' <> k -> setVar env k v k' = env k'.
Proof. intros Hk. unfold setVar. by rewrite bool_decide_false. Qed.

(** Setting [k] to [d] is leaving it unset, for one read. *)
Definition defaultOk (k d : string) (r : read) : bool :=
  negb (bool_decide (k ∈ keys r)) || bool_decide (d = "") ||
  match r with
  | RString _ d' => bool_decide (d = d')
  | RInt _ n | RInt64 _ n => bool_decide (GoStrings.ParseInt d = Ok n)
  | RUint _ n => bool_decide (GoStrings.ParseUint d = Ok n)
  | RDuration _ n => bool_decide (GoStrings.ParseDuration d = Ok n)
  | RFloat _ (S754_zero false) => bool_decide (d = "0")
  | _ => false
  end.

(** What strconv documents of the only floating-point default. *)
Hypothesis ParseFloat_zero : ParseFloat "0" = Ok (S754_zero false).

Lemma getParsed_default {A} (parse : string -> result A) env k d def :
  d <> "" -> parse d = Ok def -> getParsed (setVar env k d) parse k def = getParsed (setVar env k "") parse k def.
Proof.
  intros Hd Hp. unfold getParsed. rewrite !setVar_eq, bool_decide_false, Hp by done. done.
Qed.

Lemma same_default env k d r : defaultOk k d r = true -> same (setVar env k d) (setVar env k "") r.
Proof.
  unfold defaultOk. intros Hok. destruct (decide (k ∈ keys r)) as [Hk|Hk]; [destruct (decide (d = "")) as [->|Hd]|].
  - by apply same_frame, Forall_true.
  - rewrite (bool_decide_true (k ∈ _)), (bool_decide_false (d = "")) in Hok by done. cbn [negb orb] in Hok.
    destruct r as [? d'|?|? n|? n|? n|? n|? x|?| |?]; cbn [keys same] in *; try discriminate;
      apply list_elem_of_singleton in Hk as <-; try (apply bool_decide_eq_true in Hok);
      try (by apply getParsed_default).
    + unfold getEnv. rewrite !setVar_eq, bool_decide_false by done. by rewrite Hok.
    + destruct x as [[]| | |]; try discriminate. apply bool_decide_eq_true in Hok as ->.
      by apply getParsed_default.
  - apply same_frame, Forall_forall. intros k' Hk'. rewrite !setVar_ne; [done|by intros ->..].
Qed.

(** The variables without which a loader refuses. *)
Definition requiredKeys (fn : string) : list string :=
  if bool_decide (fn = "LoadAS") then ["AS_SIGNING_KEY_PEM"]
  else if bool_decide (fn = "LoadIngestion") then ["AS_JWKS_URL"; "ACCESS_TOKEN_ISSUER"]
  else if bool_decide (fn = "LoadVerifier") then ["SHARD_REDIS_URLS"]
  else if bool_decide (fn = "LoadIngress") then ["AS_JWKS_URL"; "ACCESS_TOKEN_ISSUER"; "SHARD_BACKENDS"]
  else [].

Lemma load_required fn env k c : k ∈ requiredKeys fn -> env k = "" -> load fn env <> Ok c.
Proof.
  unfold requiredKeys, load. repeat case_bool_decide; rewrite ?elem_of_cons, elem_of_nil;
    intros Hk He Hl; destruct_or! Hk; try done; subst k; apply let_ok in Hl as (c' & Hl & _);
    unfold LoadAS, LoadIngestion, LoadVerifier, LoadIngress, requireECKeyEnv in Hl;
    open_load; try congruence.
Qed.

(** ** The generated bindings against the reads *)

(** The variables that the reference names only in a description. *)
Definition undocumented : list string := "SIGNING_CERT_CHAIN_PEM" :: signingVars.

Definition bindingOk (fn : string) (b : envBinding) : bool :=
  if required b then bool_decide (envVar b ∈ requiredKeys fn)
  else forallb (defaultOk (envVar b) (defValue b)) (reads fn).

Definition covered (bindings : bindingMap) (k : string) : bool :=
  bool_decide (k ∈ (envVar <$> (map_to_list bindings).*2) ++ undocumented).

Definition serviceOk (fn : string) (bindings : bindingMap) : bool :=
  forallb (bindingOk fn) (map_to_list bindings).*2 &&
  forallb (fun r => forallb (covered bindings) (keys r)) (reads fn).

Section Service.
Variable fn : string.
Variable bindings : bindingMap.
Hypothesis Hok : serviceOk fn bindings = true.

Lemma binding_ok f b : bindings !! f = Some b -> bindingOk fn b = true.
Proof.
  intros Hb. apply andb_true_iff in Hok as [Hl _]. rewrite forallb_forall in Hl. apply Hl.
  apply list_elem_of_In, list_elem_of_fmap. exists (f, b). split; [done|]. by apply elem_of_map_to_list.
Qed.

Lemma binding_required f b env c :
  bindings !! f = Some b -> required b = true -> load fn (setVar env (envVar b) "") <> Ok c.
Proof.
  intros Hb%binding_ok Hr. unfold bindingOk in Hb. rewrite Hr in Hb. apply bool_decide_eq_true in Hb.
  eapply load_required; [done|]. by rewrite setVar_eq.
Qed.

Lemma binding_default f b env :
  bindings !! f = Some b -> required b = false ->
  load fn (setVar env (envVar b) (defValue b)) = load fn (setVar env (envVar b) "").
Proof.
  intros Hb%binding_ok Hr. unfold bindingOk in Hb. rewrite Hr, forallb_forall in Hb.
  apply load_ext, Forall_forall. intros r Hin. by apply same_default, Hb, list_elem_of_In.
Qed.

Lemma bindings_complete env1 env2 :
  (forall f b, bindings !! f = Some b -> env1 (envVar b) = env2 (envVar b)) ->
  (forall v, v ∈ undocumented -> env1 v = env2 v) ->
  load fn env1 = load fn env2.
Proof.
  intros Hdoc Hun. apply andb_true_iff in Hok as [_ Hc]. rewrite forallb_forall in Hc.
  apply load_ext, Forall_forall. intros r Hin%list_elem_of_In%Hc. rewrite forallb_forall in Hin.
  apply same_frame, Forall_forall. intros k Hk%list_elem_of_In%Hin. apply bool_decide_eq_true in Hk.
  apply elem_of_app in Hk as [Hk|Hk]; [|by apply Hun].
  apply list_elem_of_fmap in Hk as (b & -> & Hk). apply list_elem_of_fmap in Hk as ([f b'] & -> & Hk).
  apply elem_of_map_to_list in Hk. by apply (Hdoc f).
Qed.

End Service.

(** The generator on the text of the four functions. *)
Lemma generated_bindings_ok unescape svc :
  svc ∈ services ->
  exists bindings, serviceBindings unescape config_file config_go svc = Ok bindings /\
    serviceOk (loadFuncName svc) bindings = true.
Proof.
  unfold services. rewrite !elem_of_cons, elem_of_nil. intros Hs.
  assert (match serviceBindings unescape config_file config_go svc with
          | Ok b => serviceOk (loadFuncName svc) b | Err _ => false end = true) as Hc.
  { destruct Hs as [->|[->|[->|[->|[]]]]]; vm_compute; reflexivity. }
  destruct (serviceBindings unescape config_file config_go svc) as [b|]; [by exists b|done].
Qed.

Lemma generated_document unescape : generate unescape config_file config_go = Ok CONFIGURATION_md.
Proof. apply (bool_decide_eq_true_1 _). vm_compute. reflexivity. Qed.

(** C38: the configuration reference tells the truth. The document that is
    committed is the one that the generator makes of internal/config; every
    default that it names is real: setting the variable to the text in the table
    loads the configuration that leaving it unset loads; every variable that it
    calls required is: the loader refuses when it is unset; and it is complete
    but for the signing source and the certificate chain: a loader cannot tell
    two environments apart that agree on the documented variables and on
    those. *)
Theorem documentation_is_true (unescape : string -> result string) :
  generate unescape config_file config_go = Ok CONFIGURATION_md /\
  forall svc, svc ∈ services ->
  exists bindings, serviceBindings unescape config_file config_go svc = Ok bindings /\
    (forall env f b, bindings !! f = Some b -> required b = false ->
       load (loadFuncName svc) (setVar env (envVar b) (defValue b)) =
       load (loadFuncName svc) (setVar env (envVar b) "")) /\
    (forall env f b c, bindings !! f = Some b -> required b = true ->
       load (loadFuncName svc) (setVar env (envVar b) "") <> Ok c) /\
    (forall env1 env2,
       (forall f b, bindings !! f = Some b -> env1 (envVar b) = env2 (envVar b)) ->
       (forall v, v ∈ undocumented -> env1 v = env2 v) ->
       load (loadFuncName svc) env1 = load (loadFuncName svc) env2).
Proof.
  split; [apply generated_document|]. intros svc Hs.
  destruct (generated_bindings_ok unescape svc Hs) as (b & Hb & Hok). exists b.
  split_and!; [done|..]; intros; [by eapply binding_default|by eapply binding_required|by eapply bindings_complete].
Qed.

End Load.

Lemma documentation_is_true_witness :
  exists bindings, serviceBindings (fun _ => Err (ErrMsg "")) config_file config_go
      (MkServiceDoc "cmd/ingestion-service" "IngestionConfig" "LoadIngestion") = Ok bindings /\
    defValue <$> bindings !! "ListCapacity" = Some "100000" /\
    forall env, @load exampleParsers "LoadIngestion" (setVar env "LIST_CAPACITY" "100000") =
      load "LoadIngestion" (setVar env "LIST_CAPACITY" "").
Proof.
  destruct (proj2 (@documentation_is_true exampleParsers eq_refl (fun _ => Err (ErrMsg "")))
    (MkServiceDoc "cmd/ingestion-service" "IngestionConfig" "LoadIngestion") ltac:(right; left))
    as (b & Hb & Hd & _).
  exists b. split; [exact Hb|].
  assert (b !! "ListCapacity" = Some (plain "LIST_CAPACITY" "100000")) as Hl.
  { assert (match serviceBindings (fun _ => Err (ErrMsg "")) config_file config_go
        (MkServiceDoc "cmd/ingestion-service" "IngestionConfig" "LoadIngestion") with
      | Ok m => bool_decide (m !! "ListCapacity" = Some (plain "LIST_CAPACITY" "100000"))
      | Err _ => false
      end = true) as Hc by (vm_compute; reflexivity).
    rewrite Hb in Hc. by apply bool_decide_eq_true_1 in Hc. }
  split; [by rewrite Hl|]. intros env. exact (Hd env _ _ Hl eq_refl).
Defined.

End DocumentedConfig.
