(* ===== verification/System.v ===== *)
(** * The whole service

    Every program of the deployment that touches the shared state, as one
    kind of thread: the requests of the ingestion services and of the
    verifier, and the background ticks of the pool, the collector, the
    publisher and the decoys. Threads interleave at the granularity of single
    statements, Redis commands and critical sections, any number at a time,
    each of them failing anywhere. The theorems hold in every interleaving. *)

From S2P Require Import Prelude Float64 GoStrings Signer Allocator Bitmap Token Cwt Prog Debounce World ListId MetaStore BitmapStore Rely Pool Gc Publisher Ingestion Verifier Decoy.

Module System.

#[local] Existing Instances Rely.Ev_preorder Rely.EvW_preorder.

Section Threads.
Context `{!Signer.Ecdsa} `{!Token.Zlib} `{!Token.Json} `{!Cwt.Cbor} `{!Float64.Conversion}.

Inductive task : Type :=
| Request (s : Ingestion.Server) (auth : option Ingestion.Result) (r : Ingestion.request)
| Read (s : Verifier.Server) (r : Verifier.request)
| PoolTick (m : Pool.Manager)
| GcTick (g : Gc.Sweeper)
| PublishTick (p : Publisher.Publisher) (s : Ingestion.Server)
| PublishJob (p : Publisher.Publisher) (i : nat)
| DecoyTick (n : Decoy.Noiser).

(** What is left of a thread when it ends: the request it answered, if any. *)
Definition answer : Type :=
  option (Ingestion.Server * option Ingestion.Result * Ingestion.request * Ingestion.response).

Definition thread (t : task) : prog world answer :=
  match t with
  | Request s auth r => let! x := Ingestion.route s auth r in Ret (Some (s, auth, r, x))
  | Read s r => let! _ := Verifier.route s r in Ret None
  | PoolTick m => let! _ := Pool.runTick m in Ret None
  | GcTick g => let! _ := Gc.runTick g in Ret None
  | PublishTick p s => let! _ := Publisher.runTick p (Ingestion.ListsForPublishing s) in Ret None
  | PublishJob p i => let! _ := Publisher.runJob p i in Ret None
  | DecoyTick n => let! _ := Decoy.runTick n in Ret None
  end.

(** Deployments in which lists fit the store and rows are kept forever (the
    default of DB_RETENTION_PERIOD). *)
Definition task_ok (t : task) : Prop :=
  match t with
  | Request s _ _ => Pool.manager_ok (Ingestion.pool s)
  | PoolTick m => Pool.manager_ok m
  | GcTick g => Gc.DBRetention g <= 0
  | _ => True
  end.

Definition isThread (p : prog world answer) : Prop := exists t, task_ok t /\ p = thread t.

(** What an answered request has left in the tables. *)
Definition kept (a : answer) (w : world) : Prop :=
  match a with
  | Some (s, Some res, Ingestion.Allocate _, x) => Ingestion.recorded s (Ingestion.UserID res) x (w_pg w)
  | _ => True
  end.

Lemma kept_stable a w w' : Rely.Ev w w' -> kept a w -> kept a w'.
Proof.
  intros HE. destruct a as [[[[s [res|]] []] x]|]; simpl; auto. by apply Ingestion.recorded_stable.
Qed.

(** A thread other than a status request of the owner of the entry under watch. *)
Definition leaves {WA : Rely.Watching} (t : task) : Prop :=
  match t with Request _ auth r => Ingestion.leavesWatched auth r | _ => True end.

(** A tick, whose result nobody sees. *)
Lemma safe_tick {WA : Rely.Watching} {A} (p : prog world A) w :
  Rely.safe p (fun _ w' => Rely.Ev w w' /\ Rely.Inv w') w ->
  Rely.safe (let! _ := p in Ret None) kept w.
Proof. intros Hp. apply Rely.safe_bind. eapply Rely.safe_mono; [exact Hp|]. done. Qed.

Lemma safe_request {WA : Rely.Watching} s auth r w :
  Pool.manager_ok (Ingestion.pool s) -> Ingestion.leavesWatched auth r -> Rely.Inv w ->
  Rely.safe (Ingestion.route s auth r) (fun x w' => kept (Some (s, auth, r, x)) w') w.
Proof.
  intros Hm Hl HI. destruct auth as [res|]; [|by apply Ingestion.safe_route].
  destruct r as [body|listID idx body| |]; try (by apply Ingestion.safe_route).
  cbn [Ingestion.route]. unfold Ingestion.authed. repeat case_bool_decide; cbn [negb];
    try (by apply Rely.safe_ret).
  apply Ingestion.safe_handleAllocate; [done|done|]. intros x w' _ _ Hx. exact Hx.
Qed.

Lemma thread_safe {WA : Rely.Watching} t w : task_ok t -> leaves t -> Rely.Inv w -> Rely.safe (thread t) kept w.
Proof.
  intros Ht Hl HI. destruct t as [s auth r|s r|m|g|p s|p i|n]; cbn [thread].
  - apply Rely.safe_bind. eapply Rely.safe_mono; [by apply safe_request|]. intros x w' Hx. by apply Rely.safe_ret.
  - apply safe_tick, Verifier.safe_get; auto.
  - apply safe_tick, Rely.safe_bind, Pool.safe_EnsureHealthy; [done|]. intros x w' HE HI'. by apply Rely.safe_ret.
  - apply safe_tick, Rely.safe_bind, Gc.safe_Sweep; [done|]. intros x w' HE HI'. by apply Rely.safe_ret.
  - apply safe_tick, Publisher.safe_runTick; [|auto]. intros Q' w' HQ. by apply Ingestion.safe_ListsForPublishing.
  - apply safe_tick, Publisher.safe_runJob; auto.
  - apply safe_tick, Decoy.safe_decoyTick; auto.
Qed.

(** The threads that leave the entry under watch to others. *)
Definition isThreadBut {WA : Rely.Watching} (p : prog world answer) : Prop :=
  exists t, task_ok t /\ leaves t /\ p = thread t.

(** In every interleaving: the discipline, and what the answers promised. *)
Lemma watched_safe {WA : Rely.Watching} w ps w' ps' :
  Rely.InvW w -> Forall isThreadBut ps -> rtc (pool_step isThreadBut) (w, ps) (w', ps') ->
  Rely.InvW w' /\ Rely.EvW w w' /\ forall j a, ps' !! j = Some (Ret a) -> kept a w'.
Proof.
  intros HI Hps Hsteps.
  assert (forall p, isThreadBut p -> joins Rely.InvW Rely.EvW kept p) as Hjoin.
  { intros p (t & Ht & Hl & ->) w0 [HI0 _]. by apply (thread_safe t w0). }
  assert (rtc (pool_step (joins Rely.InvW Rely.EvW kept)) (w, ps) (w', ps')) as Hsteps'.
  { eapply rtc_subrel; [|exact Hsteps]. intros c c' Hc. destruct Hc; constructor; auto. }
  destruct (pool_safe Rely.InvW Rely.EvW kept (w, ps) (w', ps')) as [[HI' Hall] HE]; [|done|].
  { split; [done|]. eapply Forall_impl; [exact Hps|]. intros p Hp. exists w.
    split; [reflexivity|]. by apply Hjoin. }
  split_and!; [done|done|]. intros j a Hj.
  destruct (Forall_lookup_1 _ _ _ _ Hall Hj) as (w0 & [HR _] & Hk). by apply (kept_stable a w0).
Qed.

(** With no entry under watch every thread is one of those. *)
Lemma isThread_nobody p : isThread p -> isThreadBut (WA := Rely.nobody) p.
Proof.
  intros (t & Ht & ->). exists t. split_and!; [done| |done].
  destruct t as [s auth r| | | | | |]; cbn; try done. unfold Ingestion.leavesWatched, Ingestion.ownerWrites.
  cbn. destruct auth; [|done]. by destruct r.
Qed.

Lemma system_safe w ps w' ps' :
  Rely.Inv w -> Forall isThread ps -> rtc (pool_step isThread) (w, ps) (w', ps') ->
  Rely.Inv w' /\ Rely.Ev w w' /\ forall j a, ps' !! j = Some (Ret a) -> kept a w'.
Proof.
  intros HI Hps Hsteps.
  destruct (watched_safe (WA := Rely.nobody) w ps w' ps') as ([? _] & [? _] & ?); [by apply Rely.nobody_InvW|..|done].
  - eapply Forall_impl; [exact Hps|]. apply isThread_nobody.
  - eapply rtc_subrel; [|exact Hsteps]. intros c c' Hc. destruct Hc; constructor; [done|]. by apply isThread_nobody.
Qed.

End Threads.

(** ** Properties *)

(** C5: the invariant of the service. Start with tables and keyspaces that
    satisfy their invariants, and let any requests, reads, pool, collector,
    publisher and decoy passes run, interleaved in any way and failing
    anywhere. The tables always satisfy their invariant (every allocation is
    the index of a consumed position of its list, and every consumed position
    has its allocation), every list fits its bitmap, every key of Redis holds
    what belongs there; and rows only move forward: no list and no allocation
    disappears, no list changes shape, shard or key, and none goes back in
    its life cycle. *)
Theorem service_invariant `{!Signer.Ecdsa} `{!Token.Zlib} `{!Token.Json} `{!Cwt.Cbor}
    `{!Float64.Conversion} (w w' : world) (ps ps' : list (prog world answer)) :
  Rely.Inv w -> Forall isThread ps -> rtc (pool_step isThread) (w, ps) (w', ps') ->
  Rely.Inv w' /\ MetaStore.pg_evolves (w_pg w) (w_pg w').
Proof. intros HI Hps Hsteps. destruct (system_safe w ps w' ps' HI Hps Hsteps) as (? & ? & _). done. Qed.

#[local] Existing Instances Token.Concrete.ecdsa Token.Concrete.zlib Token.Concrete.json
  Cwt.Concrete.cbor Decoy.exampleConversion.

(** An example: two issuers of shard s1 allocate. *)
Definition exampleTask (issuer : string) : task :=
  Request (Ingestion.exampleServer "s1") (Some (Ingestion.MkResult issuer "s1" ["i"]))
    (Ingestion.Allocate None).

Definition exampleRequest (issuer : string) : prog world answer := thread (exampleTask issuer).

Lemma exampleServer_ok : Pool.manager_ok (Ingestion.pool (Ingestion.exampleServer "s1")).
Proof. apply (bool_decide_unpack _). vm_compute. exact I. Qed.

Lemma exampleRequest_ok issuer : isThread (exampleRequest issuer).
Proof. exists (exampleTask issuer). split; [exact exampleServer_ok|reflexivity]. Qed.

Lemma service_invariant_witness :
  exists w' ps', rtc (pool_step isThread) (Ingestion.exampleWorld 2, [exampleRequest "a"]) (w', ps') /\
    Rely.Inv w'.
Proof.
  pose proof (pool_run isThread (Ingestion.exampleWorld 2) [exampleRequest "a"] 0 _ eq_refl) as Hrun.
  do 2 eexists. split; [exact Hrun|].
  apply (service_invariant (Ingestion.exampleWorld 2) _ [exampleRequest "a"] _
    (Ingestion.ingestionWorld_inv 2 (or_intror eq_refl))
    (proj2 (Forall_singleton _ _) (exampleRequest_ok "a")) Hrun).
Defined.

(** C1: no index is ever given to two issuers. In any interleaving of
    everything the service does, two allocations that were answered with 201
    to different issuers have different list URLs or different indices. *)
Theorem no_index_for_two_issuers `{!Signer.Ecdsa} `{!Token.Zlib} `{!Token.Json} `{!Cwt.Cbor}
    `{!Float64.Conversion} (w w' : world) (ps ps' : list (prog world answer)) (j k : nat)
    (s1 s2 : Ingestion.Server) (r1 r2 : Ingestion.Result) (b1 b2 : option (result Z))
    (url1 url2 : string) (idx1 idx2 e1 e2 : Z) :
  Rely.Inv w -> Forall isThread ps -> rtc (pool_step isThread) (w, ps) (w', ps') ->
  Ingestion.BaseURL s1 = Ingestion.BaseURL s2 ->
  ps' !! j = Some (Ret (Some (s1, Some r1, Ingestion.Allocate b1, Ingestion.Created url1 idx1 e1))) ->
  ps' !! k = Some (Ret (Some (s2, Some r2, Ingestion.Allocate b2, Ingestion.Created url2 idx2 e2))) ->
  Ingestion.UserID r1 <> Ingestion.UserID r2 -> (url1, idx1) <> (url2, idx2).
Proof.
  intros HI Hps Hsteps Hb Hj Hk Hne [= <- <-].
  destruct (system_safe w ps w' ps' HI Hps Hsteps) as (_ & _ & Hkept).
  destruct (Hkept _ _ Hj) as (l1 & al1 & Hu1 & Ha1 & Hi1), (Hkept _ _ Hk) as (l2 & al2 & Hu2 & Ha2 & Hi2).
  rewrite Hb in Hu1. rewrite Hu1 in Hu2. do 2 apply ListId.append_inj in Hu2. subst l2. congruence.
Qed.

(** The answer of an example request, and its run. *)
Definition exampleAnswer (issuer : string) (x : Ingestion.response) : answer :=
  Some (Ingestion.exampleServer "s1", Some (Ingestion.MkResult issuer "s1" ["i"]),
        Ingestion.Allocate None, x).

Definition exampleAllocate (issuer : string) (w : world) : Ingestion.response * world :=
  run (Ingestion.handleAllocate (Ingestion.exampleServer "s1") issuer None) w.

Lemma exampleRequest_run issuer w :
  run (exampleRequest issuer) w =
    (exampleAnswer issuer (exampleAllocate issuer w).1, (exampleAllocate issuer w).2).
Proof.
  unfold exampleRequest, exampleTask. cbn [thread Ingestion.route]. unfold Ingestion.authed.
  rewrite bool_decide_true by done. cbn [negb].
  rewrite bool_decide_true by left. rewrite run_bind. reflexivity.
Qed.

Lemma example_two : exists url1 idx1 e1 url2 idx2 e2 w1 w2,
  run (exampleRequest "a") (Ingestion.exampleWorld 2) =
    (exampleAnswer "a" (Ingestion.Created url1 idx1 e1), w1) /\
  run (exampleRequest "b") w1 = (exampleAnswer "b" (Ingestion.Created url2 idx2 e2), w2).
Proof.
  assert (exists url idx e, (exampleAllocate "a" (Ingestion.exampleWorld 2)).1 =
    Ingestion.Created url idx e) as (url1 & idx1 & e1 & E1) by (do 3 eexists; vm_compute; reflexivity).
  assert (exists url idx e, (exampleAllocate "b" (exampleAllocate "a" (Ingestion.exampleWorld 2)).2).1 =
    Ingestion.Created url idx e) as (url2 & idx2 & e2 & E2) by (do 3 eexists; vm_compute; reflexivity).
  exists url1, idx1, e1, url2, idx2, e2. do 2 eexists. split.
  - rewrite exampleRequest_run, E1. reflexivity.
  - rewrite exampleRequest_run, E2. reflexivity.
Qed.

Lemma no_index_for_two_issuers_witness :
  exists url1 idx1 e1 url2 idx2 e2 w2,
    rtc (pool_step isThread) (Ingestion.exampleWorld 2, [exampleRequest "a"; exampleRequest "b"])
      (w2, [Ret (exampleAnswer "a" (Ingestion.Created url1 idx1 e1));
            Ret (exampleAnswer "b" (Ingestion.Created url2 idx2 e2))]) /\
    (url1, idx1) <> (url2, idx2).
Proof.
  destruct example_two as (url1 & idx1 & e1 & url2 & idx2 & e2 & w1 & w2 & E1 & E2).
  pose proof (pool_run_two isThread _ w1 w2 _ _ _ _ E1 E2) as Hsteps.
  exists url1, idx1, e1, url2, idx2, e2, w2. split; [exact Hsteps|].
  assert (Forall isThread [exampleRequest "a"; exampleRequest "b"]) as Hps
    by (repeat constructor; apply exampleRequest_ok).
  refine (no_index_for_two_issuers _ w2 _ _ 0 1 _ _ (Ingestion.MkResult "a" "s1" ["i"])
    (Ingestion.MkResult "b" "s1" ["i"]) _ _ url1 url2 idx1 idx2 e1 e2
    (Ingestion.ingestionWorld_inv 2 (or_intror eq_refl)) Hps Hsteps eq_refl eq_refl eq_refl _).
  discriminate.
Defined.

(** ** The status of an allocated entry *)

(** C2: only its owner changes the status of an allocated entry. Take any
    moment at which the index is allocated. Whatever requests, reads and
    background passes start from then on, decoy passes included, interleaved in
    any way and failing anywhere, as long as none of them is a status request
    of the index's owner for this index that names a status, a reader of the
    shard's Redis sees the same status, until the list is archived. *)
Theorem status_changes_only_by_owner `{!Signer.Ecdsa} `{!Token.Zlib} `{!Token.Json} `{!Cwt.Cbor}
    `{!Float64.Conversion} (w w' : world) (ps ps' : list (prog world answer))
    (shard listID : string) (idx : Z) (al : alloc_row) (r r' : list_row) :
  let entry := Rely.MkWatch shard listID idx (al_issuer_id al) None in
  let others := isThreadBut (WA := Some entry) in
  Rely.Inv w -> allocations (w_pg w) !! (listID, idx) = Some al ->
  Forall others ps -> rtc (pool_step others) (w, ps) (w', ps') ->
  lists (w_pg w) !! listID = Some r -> lists (w_pg w') !! listID = Some r' -> r_state r' <> ARCHIVED ->
  Rely.entryOf w' shard listID r idx = Rely.entryOf w shard listID r idx.
Proof.
  intros entry others HI Hal Hps Hsteps Hr Hr' Hs.
  destruct (watched_safe (WA := Some entry) w ps w' ps') as (_ & [_ Hunmoved] & _); [|done|done|].
  - split; [done|]. by exists al.
  - by destruct (Hunmoved r r' Hr Hr' Hs) as [[Heq|(v & ? & _)] _].
Qed.

(** In the example: another issuer allocates, and then tries to revoke the
    entry of the first. *)
Definition intruderTask : task :=
  Request (Ingestion.exampleServer "s1") (Some (Ingestion.MkResult "a" "s1" ["w"]))
    (Ingestion.SetStatus "s1.ab" Ingestion.exampleIndex (Ok "INVALID")).

Definition exampleIntruder : prog world answer := thread intruderTask.

Definition exampleAfter : world :=
  (run exampleIntruder (run (exampleRequest "a") (Ingestion.exampleWorld 2)).2).2.

Lemma exampleAfter_row : exists r', lists (w_pg exampleAfter) !! "s1.ab" = Some r' /\ r_state r' = ACTIVE.
Proof.
  assert (r_state <$> lists (w_pg exampleAfter) !! "s1.ab" = Some ACTIVE) as E by (vm_compute; reflexivity).
  destruct (lists (w_pg exampleAfter) !! "s1.ab") as [r'|]; [|discriminate]. exists r'. by injection E.
Qed.

Lemma exampleAlloc : exists al,
  allocations (w_pg (Ingestion.exampleWorld 2)) !! ("s1.ab", 2) = Some al /\ al_issuer_id al = "https://issuer".
Proof.
  assert (al_issuer_id <$> allocations (w_pg (Ingestion.exampleWorld 2)) !! ("s1.ab", 2) = Some "https://issuer")
    as E by (vm_compute; reflexivity).
  destruct (allocations _ !! _) as [al|]; [|discriminate]. exists al. by injection E.
Qed.

Lemma status_changes_only_by_owner_witness :
  Rely.entryOf exampleAfter "s1" "s1.ab" (Ingestion.exampleRow 2) 2 =
  Rely.entryOf (Ingestion.exampleWorld 2) "s1" "s1.ab" (Ingestion.exampleRow 2) 2.
Proof.
  destruct exampleAfter_row as (r' & Hr' & Hs). destruct exampleAlloc as (al & Hal & Hown).
  set (others := isThreadBut (WA := Some (Rely.MkWatch "s1" "s1.ab" 2 (al_issuer_id al) None))).
  assert (others (exampleRequest "a")) as Ha.
  { exists (exampleTask "a"). split; [exact exampleServer_ok|]. split; [exact I|reflexivity]. }
  assert (others exampleIntruder) as Hi.
  { exists intruderTask. split; [exact exampleServer_ok|]. split; [|reflexivity].
    intros [Heq _]. cbn in Heq. rewrite Hown in Heq. discriminate. }
  apply (status_changes_only_by_owner _ _ _ _ "s1" "s1.ab" 2 al (Ingestion.exampleRow 2) r'
    (Ingestion.ingestionWorld_inv 2 (or_intror eq_refl)) Hal (Forall_cons_2 _ _ _ Ha (Forall_cons_2 _ _ _ Hi (Forall_nil_2 _)))
    (pool_run_two others _ _ _ _ _ _ _ (surjective_pairing _) (surjective_pairing _))
    (Ingestion.exampleRow_lookup 2 (or_intror eq_refl)) Hr').
  rewrite Hs. discriminate.
Defined.

(** ** The window the decoys leave *)

(** A decoy pass of the example that has made its last check, and then the
    allocation of the index it drew. *)
Definition racingPass : prog world answer := thread (DecoyTick Decoy.exampleNoiser).

Definition raceStart : prog world answer * world := runFor 6 racingPass Decoy.exampleWorld.

Definition raceMiddle : answer * world := run (exampleRequest "a") raceStart.2.

Definition raceEnd : answer * world := run raceStart.1 raceMiddle.2.

(** The index of an answer of the example. *)
Definition answeredIndex (a : answer) : option Z :=
  match a with Some (_, _, _, Ingestion.Created _ idx _) => Some idx | _ => None end.

(** The window between the check and the write of a decoy is real. There
    is an interleaving of one decoy pass and one POST /allocate in which the
    request is answered with 201 for an index whose entry reads VALID, nobody
    ever asks for another status, and the entry reads INVALID in the end: the
    pass had found the index unallocated before the request came. *)
Theorem decoy_window :
  exists w w' ps' a idx,
    isThread racingPass /\ isThread (exampleRequest "a") /\ Rely.Inv Decoy.exampleWorld /\
    rtc (pool_step isThread) (Decoy.exampleWorld, [racingPass; exampleRequest "a"]) (w, [raceStart.1; Ret a]) /\
    rtc (pool_step isThread) (w, [raceStart.1; Ret a]) (w', ps') /\
    answeredIndex a = Some idx /\
    Rely.entryOf w "s1" "s1.ab" (Ingestion.exampleRow 2) idx = Bitmap.StatusValid /\
    Rely.entryOf w' "s1" "s1.ab" (Ingestion.exampleRow 2) idx = Bitmap.StatusInvalid.
Proof.
  assert (exists idx, answeredIndex raceMiddle.1 = Some idx /\
    Rely.entryOf raceMiddle.2 "s1" "s1.ab" (Ingestion.exampleRow 2) idx = Bitmap.StatusValid /\
    Rely.entryOf raceEnd.2 "s1" "s1.ab" (Ingestion.exampleRow 2) idx = Bitmap.StatusInvalid) as (idx & Hidx & H1 & H2).
  { exists (default 0 (answeredIndex raceMiddle.1)). vm_compute. split_and!; reflexivity. }
  exists raceMiddle.2, raceEnd.2, [Ret raceEnd.1; Ret raceMiddle.1], raceMiddle.1, idx.
  split_and!; [|apply exampleRequest_ok|exact Decoy.decoyWorld_inv| | |exact Hidx|exact H1|exact H2].
  - exists (DecoyTick Decoy.exampleNoiser). by split.
  - etrans; [exact (pool_runFor isThread 6 Decoy.exampleWorld [racingPass; exampleRequest "a"] 0 racingPass eq_refl)|].
    exact (pool_run isThread raceStart.2 [raceStart.1; exampleRequest "a"] 1 _ eq_refl).
  - exact (pool_run isThread raceMiddle.2 [raceStart.1; Ret raceMiddle.1] 0 _ eq_refl).
Qed.

End System.
