(* ===== verification/Visibility.v ===== *)
(** * Reads after writes, in every interleaving

    What an issuer was told is what relying parties get: once a status update
    has been answered with 204, every list that a verifier is asked for from
    then on shows the status, whatever else runs at the same time, as long as the
    owner asks for no other status and the list is not archived; an answer 304
    refers only to lists that show it. The programs
    are those of System.v, at the granularity of single commands: the script and
    the INCR of SetStatus, the GET of the version, the look into the cache, the
    GET of the bytes and the store of PublishIfStale are steps of their own.

    The proof runs the pool with a history: the first version that was not yet
    given out when the entry had the status ([hist]). A cached token of that
    version or a later one shows the status, because its builder read the
    version before the bytes and the writer bumps it after the write. *)

From S2P Require Import Prelude Float64 GoStrings Signer Allocator Bitmap Token Cwt Prog Debounce World ListId MetaStore BitmapStore Rely Pool Gc Publisher Ingestion Verifier Decoy System.

Module Visibility.

#[local] Existing Instances Rely.Ev_preorder Rely.EvW_preorder MetaStore.row_evolves_preorder
  MetaStore.pg_evolves_preorder.

(** ** Programs that leave the caches alone *)


Section Keeps.














Section Handlers.
Context `{!Signer.Ecdsa} `{!Float64.Conversion}.








End Handlers.



End Keeps.

(** ** The entry, its version and the cached token *)

Section Entry.
Context `{!Signer.Ecdsa} `{!Token.Zlib} `{!Token.Json} `{!Cwt.Cbor} `{!Token.JwtMethods}.

(** The list of row [r0], in the shard of that row; the index, its owner and the
    byte that the owner writes; and the publisher of the verifier. *)
Context (r0 : list_row) (idx : Z) (owner : string) (st : Z) (p0 : Publisher.Publisher) (pk : Signer.public).

Let listID := r_id r0.
Let shard := r_shard_id r0.
Let entry := Rely.MkWatch shard listID idx owner (Some st).
#[local] Instance watching : Rely.Watching := Some entry.



Definition versionNow (w : world) : Z := BitmapStore.version (redisOf w shard) listID.



Definition archived (w : world) : Prop :=
  exists r, lists (w_pg w) !! listID = Some r /\ r_state r = ARCHIVED.


(** The history: the first version that no publisher can have read when the
    entry got the status. *)
Definition hist : Type := option Z.





(** The history is written once, with a version ahead of the current one. *)
Definition RG (wh wh' : world * hist) : Prop :=
  Rely.EvW wh.1 wh'.1 /\
  (~ archived wh'.1 -> versionNow wh.1 <= versionNow wh'.1 /\
     match wh.2 with
     | Some v => wh'.2 = Some v
     | None => forall v, wh'.2 = Some v -> versionNow wh.1 < v
     end).

Lemma archived_stable w w' : Rely.Ev w w' -> archived w -> archived w'.
Proof.
  intros HE (r & Hr & Hs). destruct (MetaStore.ev_rows _ _ HE _ _ Hr) as (r' & Hr' & He). exists r'. split; [done|].
  pose proof (MetaStore.ev_state _ _ He) as Hst. rewrite Hs in Hst. by destruct (r_state r').
Qed.


#[export] Instance RG_preorder : PreOrder RG.
Proof.
  split.
  - intros [w h]. split; [reflexivity|]. intros _. split; [done|]. destruct h; cbn; [done|]. by intros v [=].
  - intros [w1 h1] [w2 h2] [w3 h3] [E1 S1] [E2 S2]. split; [by etrans|]. intros Ha. cbn in *.
    assert (~ archived w2) as Ha2 by (intros Hx; by apply Ha, (archived_stable w2 w3 (proj1 E2))).
    destruct (S1 Ha2) as [V1 K1], (S2 Ha) as [V2 K2]. split; [lia|].
    destruct h1 as [v|]; [by rewrite K1 in K2|]. intros v ->.
    destruct h2 as [v2|]; [|specialize (K2 v eq_refl); lia].
    injection K2 as <-. by apply K1.
Qed.








(** ** The publisher *)





Context `{!Signer.EcdsaLaws _} `{!Token.ZlibLaws _} `{!Token.JsonLaws _} `{!Cwt.CborLaws _}.

Section Visible.
Context (Hpk : Signer.Public (Publisher.key p0) = Some pk).
Context (Hurl : GoStrings.isASCII (Publisher.baseURL p0 +:+ "/lists/" +:+ listID) = true).










Section Others.
Context (q : Publisher.Publisher) (Hq : Publisher.proc q = Publisher.proc p0 -> q = p0).





End Others.

(** ** The owner's request *)





(** The request that sets this entry, in this shard. *)
Definition aims (s : Ingestion.Server) (id idxParam : string) : Prop :=
  Ingestion.ShardID s = shard /\ id = listID /\ GoStrings.ParseUint idxParam = Ok idx.


(** ** The verifier's answers *)






(** ** Threads *)


Context `{!Float64.Conversion}.






#[local] Instance aims_dec s id idxParam : Decision (aims s id idxParam).
Proof.
  unfold aims. apply and_dec; [apply _|]. apply and_dec; [apply _|].
  destruct (GoStrings.ParseUint idxParam) as [i|e]; [|by right]. destruct (decide (i = idx)) as [->|]; [by left|right]. congruence.
Defined.



(** ** Runs *)











End Visible.

End Entry.

(** ** Properties *)


#[local] Existing Instances Token.Concrete.ecdsa Token.Concrete.ecdsa_laws Token.Concrete.zlib
  Token.Concrete.zlib_laws Token.Concrete.json Token.Concrete.json_laws Token.Concrete.methods
  Cwt.Concrete.cbor Cwt.Concrete.cbor_laws Decoy.exampleConversion.















End Visibility.
