(* ===== verification/LoadTest.v ===== *)
(** * tools/loadtest: the load generator and its checks

    A client of the whole deployment: it allocates indices, changes statuses,
    and checks what it wrote, either through the published lists
    (lifecycle.go) or in the stores themselves (verify.go). The HTTP client
    and the JSON of the wire are parameters ([Client], [Wire]); EndToEnd.v
    runs the tool against the services. The theorems here: the check of the
    stores reports exactly the entries that differ, and every round of a
    worker is counted once. *)

From Stdlib Require Import Ascii SpecFloat.
From S2P Require Import Prelude Float64 GoStrings Base64 Signer Bitmap Token Cwt Prog Debounce World ListId MetaStore BitmapStore Rely Pool Publisher Ingestion Decoy.

Module LoadTest.

(** ** The outside *)

Record httpRequest := MkHttpRequest {
  rMethod : string;
  rURL : string;
  rAuthorization : string;
  rBody : list Z
}.

(** [client.Do]: the status code and the body, or an error of the transport. *)
Class Client := {
  Do : httpRequest -> prog world (result (Z * list Z))
}.

(** encoding/json on the bodies the tool sends and receives, and gin's on the
    other side. *)
Class Wire := {
  marshalStatus : string -> result (list Z);          (* setStatusRequestBody *)
  bindStatus : list Z -> result string;
  bindAllocate : list Z -> result Z;
  renderCreated : string -> Z -> Z -> list Z;
  decodeCreated : list Z -> result (string * Z * Z);  (* allocateResponseBody *)
  renderOther : Ingestion.response -> list Z
}.

Class WireLaws `(Wire) : Prop := {
  wire_status : forall s b, GoStrings.isASCII s = true -> marshalStatus s = Ok b -> bindStatus b = Ok s;
  wire_created : forall url idx exp, GoStrings.isASCII url = true -> 0 <= idx < 2 ^ 64 ->
    decodeCreated (renderCreated url idx exp) = Ok (url, idx, exp)
}.

(** ** Data *)

Record opWeights := MkOpWeights {
  ow_allocate : spec_float;
  ow_status : spec_float;
  ow_accounting : spec_float;
  ow_lifecycle : spec_float
}.

Record allocRecord := MkAllocRecord {
  listID : string;
  index : Z;
  expected : string
}.

Record workerResult := MkWorkerResult {
  issuerID : string;
  latency : gmap string (list Z);
  errors : gmap string Z;
  skipped : Z;
  allocs : list allocRecord;
  mismatches : list string
}.

Definition newWorkerResult (issuer : string) : workerResult :=
  MkWorkerResult issuer
    (<["allocate" := []]> (<["status" := []]> (<["accounting" := []]> (<["lifecycle" := []]> ∅))))
    (<["allocate" := 0]> (<["status" := 0]> (<["accounting" := 0]> (<["lifecycle" := 0]> ∅))))
    0 [] [].

Definition setAllocs (r : workerResult) (l : list allocRecord) : workerResult :=
  MkWorkerResult (issuerID r) (latency r) (errors r) (skipped r) l (mismatches r).

Definition addMismatch (r : workerResult) (m : string) : workerResult :=
  MkWorkerResult (issuerID r) (latency r) (errors r) (skipped r) (allocs r) (mismatches r ++ [m]).

Definition skip (r : workerResult) : workerResult :=
  MkWorkerResult (issuerID r) (latency r) (errors r) (skipped r + 1) (allocs r) (mismatches r).

(** [result.errors[op]++]. *)
Definition countError (r : workerResult) (op : string) : workerResult :=
  MkWorkerResult (issuerID r) (latency r)
    (<[op := default 0 (errors r !! op) + 1]> (errors r)) (skipped r) (allocs r) (mismatches r).

(** [result.latency[op] = append(result.latency[op], d)]. *)
Definition addLatency (r : workerResult) (op : string) (d : Z) : workerResult :=
  MkWorkerResult (issuerID r)
    (<[op := default [] (latency r !! op) ++ [d]]> (latency r)) (errors r) (skipped r) (allocs r) (mismatches r).

(** [fmt.Sprintf("%#x", b)] of a byte. *)
Definition hexByte (b : Z) : string :=
  "0x" +:+ (if b <? 16 then String (GoStrings.hexDigit b) "" else GoStrings.EncodeToString [b]).

Definition statusName (s : Z) : string :=
  if s =? Bitmap.StatusValid then "VALID"
  else if s =? Bitmap.StatusInvalid then "INVALID"
  else if s =? Bitmap.StatusSuspended then "SUSPENDED"
  else "UNKNOWN(" +:+ hexByte (u8 s) +:+ ")".

Definition slash : ascii := "/"%char.

(** Everything after the last slash of the URL, which must not be empty. *)
Definition listIDFromURL (listURL : string) : result string :=
  match GoStrings.afterLast listURL slash with
  | None | Some "" => Err (ErrMsg "could not parse list id")
  | Some id => Ok id
  end.

Definition errNothingAllocatedYet : error := ErrMsg "no allocated index to update yet".

Definition statusChoices : list string := ["VALID"; "INVALID"; "SUSPENDED"].

(** jwt.Parser.ParseUnverified: [Token.ParseToken] without the signature and
    the validity checks. *)
Definition ParseUnverified `{!Signer.Ecdsa} `{!Token.Json} `{!Token.JwtMethods} (token : string) :
    result Token.Claims :=
  match GoStrings.Split token "."%char with
  | [h; c; _] =>
      match Base64.RawURLDecode h with
      | Err e => Err e
      | Ok hb =>
          match Token.unmarshalAlg hb with
          | Err e => Err e
          | Ok alg =>
              match Base64.RawURLDecode c with
              | Err e => Err e
              | Ok cb =>
                  match Token.unmarshalClaims cb with
                  | Err e => Err e
                  | Ok claims =>
                      match alg with
                      | None => Err (ErrMsg "signing method (alg) is unspecified")
                      | Some alg =>
                          if Token.isECDSA alg || Token.registeredMethod alg then Ok claims
                          else Err (ErrMsg "signing method (alg) is unavailable")
                      end
                  end
              end
          end
      end
  | _ => Err Token.errMalformed
  end.

Section Harness.
Context `{!Signer.Ecdsa} `{!Token.Zlib} `{!Token.Json} `{!Token.JwtMethods} {net : Client} `{!Wire}.

(** ** worker.go *)

Definition pick (w : opWeights) : prog world string :=
  let total := Float64.add (Float64.add (Float64.add (ow_allocate w) (ow_status w)) (ow_accounting w))
                 (ow_lifecycle w) in
  let! f := Decoy.randFloat64 in
  let r := Float64.mul f total in
  Ret (if SFltb r (ow_allocate w) then "allocate"
       else if SFltb r (Float64.add (ow_allocate w) (ow_status w)) then "status"
       else if SFltb r (Float64.add (Float64.add (ow_allocate w) (ow_status w)) (ow_accounting w)) then "accounting"
       else "lifecycle").

Definition bearer (token : string) : string := "Bearer " +:+ token.

Definition allocate (ingressURL token : string) : prog world (result (string * Z * Z)) :=
  try! resp := Do (MkHttpRequest "POST" (ingressURL +:+ "/allocate") (bearer token) []) in
  if negb (resp.1 =? 201) then Ret (Err (ErrMsg "allocate: status"))
  else Ret (decodeCreated resp.2).

Definition doAllocate (ingressURL token : string) (result : workerResult) :
    prog world (Prelude.result unit * workerResult) :=
  let! ar := allocate ingressURL token in
  match ar with
  | Err e => Ret (Err e, result)
  | Ok (url, idx, _) =>
      match listIDFromURL url with
      | Err e => Ret (Err e, result)
      | Ok id => Ret (Ok tt, setAllocs result (allocs result ++ [MkAllocRecord id idx "VALID"]))
      end
  end.

Definition patchStatus (ingressURL token id : string) (idx : Z) (status : string) :
    prog world (result unit) :=
  try! body := Ret (marshalStatus status) in
  let path := "/status/" +:+ id +:+ "/" +:+ GoStrings.FormatInt idx in
  try! resp := Do (MkHttpRequest "PATCH" (ingressURL +:+ path) (bearer token) body) in
  if negb (resp.1 =? 204) then Ret (Err (ErrMsg "status: status")) else Ret (Ok tt).

Definition doStatus (ingressURL token : string) (result : workerResult) :
    prog world (Prelude.result unit * workerResult) :=
  match allocs result with
  | [] => Ret (Err errNothingAllocatedYet, result)
  | _ =>
      let! i := randN (Z.of_nat (length (allocs result))) in
      match allocs result !! Z.to_nat i with
      | None => Ret (Err (Panic "index out of range"), result)
      | Some rec =>
          let! k := randN (Z.of_nat (length statusChoices)) in
          match statusChoices !! Z.to_nat k with
          | None => Ret (Err (Panic "index out of range"), result)
          | Some newStatus =>
              let! r := patchStatus ingressURL token (listID rec) (index rec) newStatus in
              match r with
              | Err e => Ret (Err e, result)
              | Ok _ =>
                  Ret (Ok tt, setAllocs result
                    (<[Z.to_nat i := MkAllocRecord (listID rec) (index rec) newStatus]> (allocs result)))
              end
          end
      end
  end.

Definition doAccounting (ingressURL token : string) : prog world (result unit) :=
  try! resp := Do (MkHttpRequest "GET" (ingressURL +:+ "/accounting/me") (bearer token) []) in
  if negb (resp.1 =? 200) then Ret (Err (ErrMsg "accounting: status")) else Ret (Ok tt).

(** ** lifecycle.go *)

(** The list a token carries, as a bitmap of as many entries as its bytes
    hold, and one of its entries. *)
Definition statusIn (claims : Token.Claims) (idx : Z) : result Z :=
  match Token.DecodeLst (Token.Lst (Token.StatusList claims)) with
  | Err e => Err e
  | Ok raw =>
      let bits := Token.slBits (Token.StatusList claims) in
      if u64 bits =? 0 then Err (Panic "integer divide by zero")
      else
        let size := u64 (Z.of_nat (length raw) * 8) / u64 bits in
        match Bitmap.WrapBitmap raw size bits with
        | Err e => Err e
        | Ok bm => Bitmap.Get bm idx
        end
  end.

Definition fetchStatus (listURL : string) (idx : Z) : prog world (result Z) :=
  try! resp := Do (MkHttpRequest "GET" listURL "" []) in
  if negb (resp.1 =? 200) then Ret (Err (ErrMsg "fetch: status"))
  else
    match ParseUnverified (GoStrings.stringOf resp.2) with
    | Err e => Ret (Err e)
    | Ok claims => Ret (statusIn claims idx)
    end.

Definition mismatchMessage (result : workerResult) (id : string) (idx want actual : Z) : string :=
  "issuer=" +:+ issuerID result +:+ " list=" +:+ id +:+ " index=" +:+ GoStrings.FormatInt idx +:+
  " expected=" +:+ statusName want +:+ " actual=" +:+ statusName actual +:+
  " (via published list, not backend store)".

Definition checkStatus (result : workerResult) (id listURL : string) (idx want : Z) :
    prog world (Prelude.result unit * workerResult) :=
  let! actual := fetchStatus listURL idx in
  match actual with
  | Err e => Ret (Err e, result)
  | Ok actual =>
      if negb (actual =? want) then
        Ret (Err (ErrMsg "status mismatch"), addMismatch result (mismatchMessage result id idx want actual))
      else Ret (Ok tt, result)
  end.

Definition doLifecycle (ingressURL token : string) (result : workerResult) :
    prog world (Prelude.result unit * workerResult) :=
  let! ar := allocate ingressURL token in
  match ar with
  | Err e => Ret (Err e, result)
  | Ok (url, idx, _) =>
      match listIDFromURL url with
      | Err e => Ret (Err e, result)
      | Ok id =>
          let! c1 := checkStatus result id url idx Bitmap.StatusValid in
          match c1 with
          | (Err e, result) => Ret (Err e, result)
          | (Ok _, result) =>
              let! patched := patchStatus ingressURL token id idx "INVALID" in
              match patched with
              | Err e => Ret (Err e, result)
              | Ok _ =>
                  let result := setAllocs result (allocs result ++ [MkAllocRecord id idx "INVALID"]) in
                  checkStatus result id url idx Bitmap.StatusInvalid
              end
          end
      end
  end.

(** ** The worker *)

Definition doOp (ingressURL token op : string) (result : workerResult) :
    prog world (Prelude.result unit * workerResult) :=
  if bool_decide (op = "allocate") then doAllocate ingressURL token result
  else if bool_decide (op = "status") then doStatus ingressURL token result
  else if bool_decide (op = "lifecycle") then doLifecycle ingressURL token result
  else let! r := doAccounting ingressURL token in Ret (r, result).

(** [for { limiter.Wait(ctx) ... }]: [rounds] is how often the limiter lets
    the worker through before the deadline. *)
Fixpoint runWorker (rounds : nat) (ingressURL token : string) (weights : opWeights)
    (result : workerResult) : prog world workerResult :=
  match rounds with
  | O => Ret result
  | S rounds =>
      let! op := pick weights in
      let! start := getNow in
      let! out := doOp ingressURL token op result in
      let '(err, result) := out in
      match err with
      | Err e =>
          runWorker rounds ingressURL token weights
            (if bool_decide (op = "status") && bool_decide (e = errNothingAllocatedYet) then skip result
             else countError result op)
      | Ok _ =>
          let! now := getNow in
          runWorker rounds ingressURL token weights (addLatency result op (timeSub now start))
      end
  end.

(** ** verify.go *)

(** What verifyDecoySafety has loaded and found so far. *)
Record vstate := MkVstate {
  listMetaCache : gmap string MetaStore.ListMeta;
  snapshotCache : gmap string (list Z);
  checked : Z;
  found : list allocRecord        (* the mismatches, in the order printed *)
}.

Definition loadMeta (st : vstate) (id : string) : prog world (result MetaStore.ListMeta) :=
  match listMetaCache st !! id with
  | Some lm => Ret (Ok lm)
  | None =>
      let! got := MetaStore.GetList id in
      match got with
      | Ok (Some lm) => Ret (Ok lm)
      | _ => Ret (Err (ErrMsg "verify: could not load list"))
      end
  end.

Definition loadSnapshot (st : vstate) (lm : MetaStore.ListMeta) (id : string) : prog world (result (list Z)) :=
  match snapshotCache st !! id with
  | Some raw => Ret (Ok raw)
  | None => BitmapStore.Snapshot (MetaStore.ShardID lm) id (Publisher.byteLen lm)
  end.

Definition verifyRecord (shards : list string) (rec : allocRecord) (st : vstate) : prog world (result vstate) :=
  try! lm := loadMeta st (listID rec) in
  let metas := <[listID rec := lm]> (listMetaCache st) in
  if negb (bool_decide (MetaStore.ShardID lm ∈ shards)) then
    Ret (Err (ErrMsg "verify: shard not covered by -shard-redis-urls"))
  else
    try! raw := loadSnapshot st lm (listID rec) in
    let snaps := <[listID rec := raw]> (snapshotCache st) in
    try! bm := Ret (Bitmap.WrapBitmap raw (MetaStore.Size lm) (MetaStore.Bits lm)) in
    try! actual := Ret (Bitmap.Get bm (index rec)) in
    Ret (Ok (MkVstate metas snaps (checked st + 1)
      (found st ++ (if bool_decide (statusName actual = expected rec) then [] else [rec])))).

Fixpoint verifyRecords (shards : list string) (recs : list allocRecord) (st : vstate) : prog world (result vstate) :=
  match recs with
  | [] => Ret (Ok st)
  | rec :: recs => try! st := verifyRecord shards rec st in verifyRecords shards recs st
  end.

Definition errMismatch : error := ErrMsg "verify: indices had a status this harness never wrote".

(** redis.ParseURL. *)
Context (parseRedisURL : string -> bool).

(** [store.NewMetaStore] and the clients of the shards, then every record of
    every worker. *)
Definition verifyDecoySafety (shardRedisURLs : gmap string string) (results : list workerResult) :
    prog world (result unit) :=
  try! _ := pgCall (fun _ db => (Ok tt, db)) in
  if negb (forallb (fun kv => parseRedisURL kv.2) (map_to_list shardRedisURLs)) then
    Ret (Err (ErrMsg "verify: parse redis url"))
  else
    try! st := verifyRecords (map_to_list shardRedisURLs).*1 (results ≫= allocs) (MkVstate ∅ ∅ 0 []) in
    Ret (match found st with [] => Ok tt | _ => Err errMismatch end).

(** ** report.go *)

Record opSummary := MkOpSummary {
  os_op : string;
  os_ok : Z;
  os_errors : Z;
  os_latencies : list Z
}.

Definition percentile `{!Float64.Conversion} (s : opSummary) (p : spec_float) : result Z :=
  match os_latencies s with
  | [] => Ok 0
  | _ =>
      let sorted := merge_sort Z.le (os_latencies s) in
      let idx := Float64.toInt64 (Float64.mul p (Float64.ofInt (Z.of_nat (length sorted) - 1))) in
      if idx <? 0 then Err (Panic "index out of range")
      else match sorted !! Z.to_nat idx with
           | Some d => Ok d
           | None => Err (Panic "index out of range")
           end
  end.

Definition ops : list string := ["allocate"; "status"; "accounting"; "lifecycle"].

(** The sums of mergeResults for one operation. *)
Definition summary (results : list workerResult) (op : string) : opSummary :=
  MkOpSummary op
    (Z.of_nat (length (results ≫= fun r => default [] (latency r !! op))))
    (foldr (fun r n => default 0 (errors r !! op) + n) 0 results)
    (results ≫= fun r => default [] (latency r !! op)).

Definition mergeResults (results : list workerResult) : gmap string opSummary :=
  list_to_map ((fun op => (op, summary results op)) <$> ops).

End Harness.

(** ** Lemmas *)

(** The rounds a worker has counted, by outcome. *)
Definition rounds (r : workerResult) : Z :=
  foldr (fun op n => Z.of_nat (length (default [] (latency r !! op))) + default 0 (errors r !! op) + n)
    (skipped r) ops.

Section Counting.
Context `{!Signer.Ecdsa} `{!Token.Zlib} `{!Token.Json} `{!Token.JwtMethods} {net : Client} `{!Wire}.

Lemma rounds_countError r op : op ∈ ops -> rounds (countError r op) = rounds r + 1.
Proof.
  unfold ops. rewrite !elem_of_cons, elem_of_nil.
  intros [->|[->|[->|[->|[]]]]]; unfold rounds, ops, countError; cbn [foldr latency errors skipped];
    rewrite lookup_insert_eq, !lookup_insert_ne by done; cbn [default id]; lia.
Qed.

Lemma rounds_addLatency r op d : op ∈ ops -> rounds (addLatency r op d) = rounds r + 1.
Proof.
  unfold ops. rewrite !elem_of_cons, elem_of_nil.
  intros [->|[->|[->|[->|[]]]]]; unfold rounds, ops, addLatency; cbn [foldr latency errors skipped];
    rewrite lookup_insert_eq, !lookup_insert_ne by done; cbn [default id]; rewrite length_app; cbn [length]; lia.
Qed.

Lemma rounds_skip r : rounds (skip r) = rounds r + 1.
Proof. unfold rounds, ops, skip. cbn [foldr latency errors skipped]. lia. Qed.

(** No operation touches the counters. *)
Definition sameCounters (r r' : workerResult) : Prop :=
  latency r' = latency r /\ errors r' = errors r /\ skipped r' = skipped r.

#[local] Abbreviation anything := (fun _ _ : world => True).

Lemma each_anything {A} (p : prog world A) (Q : A -> Prop) : (forall a, Q a) -> each anything p Q.
Proof. intros HQ. induction p as [a|T ac k IH]; cbn [each]; [done|]. intros w. split; [done|apply IH]. Qed.

(** The result of a step of the client, whatever the client does. *)
Ltac anyway := apply each_bind; apply each_anything; intros.

Lemma checkStatus_counters result id url idx want :
  each anything (checkStatus result id url idx want) (fun out => sameCounters result out.2).
Proof. unfold checkStatus. anyway. repeat case_match; by apply each_ret. Qed.

Lemma sameCounters_trans r r1 r2 : sameCounters r r1 -> sameCounters r1 r2 -> sameCounters r r2.
Proof. unfold sameCounters. intros (? & ? & ?) (? & ? & ?). split_and!; congruence. Qed.

Lemma doOp_counters url token op result :
  each anything (doOp url token op result) (fun out => sameCounters result out.2).
Proof.
  unfold doOp. case_bool_decide; [|case_bool_decide; [|case_bool_decide]].
  - unfold doAllocate. anyway. repeat case_match; by apply each_ret.
  - unfold doStatus. case_match; [by apply each_ret|]. anyway. case_match; [|by apply each_ret].
    anyway. case_match; [|by apply each_ret]. anyway. case_match; by apply each_ret.
  - unfold doLifecycle. anyway. destruct a as [[[u idx] e]|]; [|by apply each_ret].
    destruct (listIDFromURL u); [|by apply each_ret]. apply each_bind.
    eapply each_mono; [apply checkStatus_counters|]. intros [[] r1] Hr1; [|by apply each_ret].
    anyway. case_match; [|by apply each_ret]. eapply each_mono; [apply checkStatus_counters|].
    intros out Hout. by apply (sameCounters_trans _ r1).
  - anyway. by apply each_ret.
Qed.

Lemma pick_ops weights : each anything (pick weights) (fun op => op ∈ ops).
Proof.
  unfold pick. anyway. apply each_ret. unfold ops. rewrite !elem_of_cons. repeat case_match; auto.
Qed.

Lemma sameCounters_rounds r r' : sameCounters r r' -> rounds r' = rounds r.
Proof. unfold rounds. intros (-> & -> & ->). done. Qed.

Lemma runWorker_counts n url token weights result :
  each anything (runWorker n url token weights result) (fun r => rounds r = rounds result + Z.of_nat n).
Proof.
  revert result. induction n as [|n IH]; intros result; cbn [runWorker]; [apply each_ret; lia|].
  apply each_bind. eapply each_mono; [apply pick_ops|]. intros op Hop. anyway.
  apply each_bind. eapply each_mono; [apply doOp_counters|]. intros [[u|e] r1] Hr1; cbn [snd] in Hr1;
    apply sameCounters_rounds in Hr1.
  - anyway. eapply each_mono; [apply IH|]. intros r2 ->. rewrite rounds_addLatency by done. lia.
  - eapply each_mono; [apply IH|]. intros r2 ->.
    destruct (_ && _); rewrite ?rounds_skip, ?rounds_countError by done; lia.
Qed.

End Counting.

Section Verifying.
Context `{!Signer.Ecdsa}.

(** The record as the stores have it: its list, the status this list shows for
    it in the Redis of the list's shard, and whether that is another one. *)
Definition stored (w : world) (rec : allocRecord) (s : Z) : Prop :=
  exists r, lists (w_pg w) !! listID rec = Some r /\ index rec < r_size r /\
    s = Rely.entryOf w (r_shard_id r) (listID rec) r (index rec).

Definition amiss (w : world) (rec : allocRecord) : bool :=
  match lists (w_pg w) !! listID rec with
  | Some r => negb (bool_decide (statusName (Rely.entryOf w (r_shard_id r) (listID rec) r (index rec)) = expected rec))
  | None => true
  end.

Lemma amiss_stored w rec s : stored w rec s -> amiss w rec = negb (bool_decide (statusName s = expected rec)).
Proof. intros (r & Hr & _ & ->). unfold amiss. by rewrite Hr. Qed.

(** What is cached is what the stores hold. *)
Definition bytesIn (w : world) (id : string) (r : list_row) : list Z :=
  Bitmap.data (BitmapStore.view (redisOf w (r_shard_id r)) id (r_size r) (r_bits r)).

Definition cachesAgree (w : world) (st : vstate) : Prop :=
  (forall id lm, listMetaCache st !! id = Some lm ->
     exists r, lists (w_pg w) !! id = Some r /\ lm = MetaStore.scanListMeta r) /\
  (forall id raw r, snapshotCache st !! id = Some raw -> lists (w_pg w) !! id = Some r -> raw = bytesIn w id r).

(** Every record gone through is stored, and the mismatches are those stored
    with another status than expected. *)
Definition checkedTo (w : world) (st : vstate) (recs : list allocRecord) : Prop :=
  cachesAgree w st /\ checked st = Z.of_nat (length recs) /\
  found st = List.filter (amiss w) recs /\ Forall (fun rec => exists s, stored w rec s) recs.

(** An error other than the report of mismatches. *)
Definition plainErr {A} (P : A -> Prop) (out : result A) : Prop :=
  match out with Ok a => P a | Err e => e <> errMismatch end.

Lemma loadMeta_wp st id w0 w :
  cachesAgree w0 st -> quiet w0 w ->
  wp (loadMeta st id) (fun out w' => quiet w0 w' /\
    plainErr (fun lm => exists r, lists (w_pg w0) !! id = Some r /\ lm = MetaStore.scanListMeta r) out) w.
Proof.
  intros [Hc _] Hq. unfold loadMeta. destruct (listMetaCache st !! id) as [lm|] eqn:Hlm.
  - apply wp_ret. split; [done|]. by apply Hc.
  - apply wp_bind, wp_pg_read; [done| |].
    + intros now w1 _ Hq1 _. cbn [MetaStore.sqlGetList fst]. rewrite (proj1 Hq).
      destruct (lists (w_pg w0) !! id) as [r|]; cbn [fmap option_fmap option_map]; apply wp_ret;
        (split; [by etrans|simpl; eauto]).
    + intros w1 Hq1. apply wp_ret. by split; [etrans|].
Qed.

Lemma loadSnapshot_wp st id r w0 w :
  Rely.Inv w0 -> cachesAgree w0 st -> quiet w0 w -> lists (w_pg w0) !! id = Some r ->
  wp (loadSnapshot st (MetaStore.scanListMeta r) id) (fun out w' => quiet w0 w' /\
    plainErr (fun raw => raw = bytesIn w0 id r) out) w.
Proof.
  intros HI [_ Hc] Hq Hr. unfold loadSnapshot. destruct (snapshotCache st !! id) as [raw|] eqn:Hraw.
  - apply wp_ret. split; [done|]. by eapply Hc.
  - pose proof Hq as (_ & Hred & _). unfold Publisher.byteLen.
    cbn [MetaStore.scanListMeta MetaStore.ShardID MetaStore.Size MetaStore.Bits].
    destruct (Rely.inv_good _ HI _ _ Hr) as (_ & Hs & _). rewrite u64_small by lia. apply Decoy.Snapshot_wp.
    + by apply (Rely.inv_good _ HI id).
    + rewrite Hred. apply HI.
    + intros w1 Hq1. split; [by etrans|]. simpl. unfold bytesIn. by rewrite <- Hred.
    + intros w1 Hq1. by split; [etrans|].
Qed.

(** The bytes of a list wrap to its bitmap. *)
Lemma wrap_bytes w id r :
  Rely.Inv w -> lists (w_pg w) !! id = Some r ->
  Bitmap.WrapBitmap (bytesIn w id r) (r_size r) (r_bits r) =
    Ok (BitmapStore.view (redisOf w (r_shard_id r)) id (r_size r) (r_bits r)) /\
  Bitmap.wf (BitmapStore.view (redisOf w (r_shard_id r)) id (r_size r) (r_bits r)).
Proof.
  intros HI Hr. destruct (Rely.inv_good _ HI _ _ Hr) as (Hb & Hs & _).
  assert (Bitmap.sizeOk (r_size r)) as Hsz by (unfold Bitmap.sizeOk; lia).
  pose proof (BitmapStore.view_wf _ id _ _ (Rely.inv_redis _ HI (r_shard_id r)) Hb Hsz) as Hwf.
  split; [|done]. destruct Hwf as (_ & _ & Hlen & _). unfold Bitmap.WrapBitmap, bytesIn.
  rewrite Hb. cbn [negb]. rewrite Hlen, Z.eqb_refl. done.
Qed.

Lemma verifyRecord_wp shards rec st recs w0 w :
  Rely.Inv w0 -> 0 <= index rec -> checkedTo w0 st recs -> quiet w0 w ->
  wp (verifyRecord shards rec st) (fun out w' => quiet w0 w' /\
    plainErr (fun st' => checkedTo w0 st' (recs ++ [rec])) out) w.
Proof.
  intros HI Hidx (Hc & Hn & Hf & Hall) Hq. unfold verifyRecord.
  apply wp_bindErr. eapply wp_mono; [by apply loadMeta_wp|]. intros [lm|e] w1 [Hq1 Hlm]; [|done].
  destruct Hlm as (r & Hr & ->). case_bool_decide; cbn [negb]; [|by apply wp_ret].
  apply wp_bindErr. eapply wp_mono; [by apply loadSnapshot_wp|]. intros [raw|e] w2 [Hq2 Hraw]; [|done].
  simpl in Hraw. subst raw. destruct (wrap_bytes _ _ _ HI Hr) as [Hwrap Hwf].
  apply wp_bindErr, wp_ret. cbn [MetaStore.scanListMeta MetaStore.Size MetaStore.Bits].
  destruct (Rely.inv_good _ HI _ _ Hr) as (_ & Hsz & _). rewrite u64_small, Hwrap by lia.
  apply wp_bindErr, wp_ret. destruct (decide (index rec < r_size r)) as [Hin|Hout].
  2: { unfold Bitmap.Get. cbn [Bitmap.size BitmapStore.view]. by replace (r_size r <=? index rec) with true by lia. }
  rewrite Bitmap.Get_entry by (done || simpl; lia). apply wp_ret. split; [done|].
  assert (stored w0 rec (Rely.entryOf w0 (r_shard_id r) (listID rec) r (index rec))) as Hst by (exists r; auto).
  destruct Hc as [Hm Hs]. split_and!; cbn [listMetaCache snapshotCache checked found].
  - split; cbn [listMetaCache snapshotCache]; intros id x.
    + rewrite lookup_insert. case_decide; intros; simplify_eq; eauto.
    + intros r'. rewrite lookup_insert. case_decide; intros; simplify_eq; eauto.
  - rewrite length_app, Hn. simpl. lia.
  - rewrite List.filter_app, Hf. cbn [List.filter]. rewrite (amiss_stored _ _ _ Hst). unfold Rely.entryOf.
    by case_bool_decide.
  - apply Forall_app. split; [done|]. apply Forall_singleton. eauto.
Qed.

Lemma verifyRecords_wp shards recs st before w0 w :
  Rely.Inv w0 -> Forall (fun rec => 0 <= index rec) recs -> checkedTo w0 st before -> quiet w0 w ->
  wp (verifyRecords shards recs st) (fun out w' => quiet w0 w' /\
    plainErr (fun st' => checkedTo w0 st' (before ++ recs)) out) w.
Proof.
  intros HI Hidx. revert st before w. induction Hidx as [|rec recs Hrec Hidx IH]; intros st before w Hc Hq.
  - apply wp_ret. split; [done|]. simpl. by rewrite app_nil_r.
  - cbn [verifyRecords]. apply wp_bindErr. eapply wp_mono; [by apply verifyRecord_wp|].
    intros [st1|e] w1 [Hq1 Hc1]; [|done]. rewrite cons_middle, (assoc_L (++)). by apply IH.
Qed.

Lemma filter_none {A} (f : A -> bool) (l : list A) :
  List.filter f l = [] <-> Forall (fun x => f x = false) l.
Proof.
  induction l as [|x l IH]; cbn [List.filter]; [done|]. rewrite Forall_cons, <- IH.
  destruct (f x); [|tauto]. split; [done|]. by intros [? _].
Qed.

Lemma verifyDecoySafety_wp parse urls results w :
  Rely.Inv w -> Forall (fun rec => 0 <= index rec) (results ≫= allocs) ->
  wp (verifyDecoySafety parse urls results) (fun out w' => quiet w w' /\
    (out = Ok tt -> Forall (fun rec => exists s, stored w rec s /\ statusName s = expected rec) (results ≫= allocs)) /\
    (out = Err errMismatch ->
       Exists (fun rec => exists s, stored w rec s /\ statusName s <> expected rec) (results ≫= allocs))) w.
Proof.
  intros HI Hidx. unfold verifyDecoySafety. apply wp_bindErr, wp_pg_read; [done| |].
  2: { intros w1 Hq. split_and!; [done|discriminate..]. }
  intros _ w1 _ Hq _. cbn [fst]. destruct (negb _); [apply wp_ret; split_and!; [done|discriminate..]|].
  apply wp_bindErr. eapply wp_mono; [apply (verifyRecords_wp _ _ _ [] w); [done|done| |done]|].
  { by split_and!. }
  intros [st|e] w2 [Hq2 Hst]; [|split_and!; [done|discriminate|congruence]].
  destruct Hst as (_ & _ & Hf & Hall). cbn [app] in Hf, Hall. rewrite Hf. apply wp_ret. split; [done|].
  rewrite Forall_forall in Hall. destruct (List.filter _ _) as [|rec recs] eqn:E; split; try discriminate; intros _.
  - apply filter_none in E. rewrite Forall_forall in E |- *. intros rec Hrec.
    destruct (Hall rec Hrec) as [s Hs]. exists s. split; [done|]. specialize (E rec Hrec).
    rewrite (amiss_stored _ _ _ Hs) in E. by case_bool_decide.
  - assert (In rec (List.filter (amiss w) (results ≫= allocs))) as [Hin Ham]%filter_In
      by (rewrite E; by left). apply list_elem_of_In in Hin. apply Exists_exists. exists rec. split; [done|].
    destruct (Hall rec Hin) as [s Hs]. exists s. split; [done|]. rewrite (amiss_stored _ _ _ Hs) in Ham.
    by case_bool_decide.
Qed.

End Verifying.

(** ** The report *)

(** The total the report shows: what it lists for each operation as
    successful and failed, and the attempts it calls skipped. *)
Definition reported (results : list workerResult) : Z :=
  foldr (fun op n => match mergeResults results !! op with
                     | Some s => os_ok s + os_errors s + n
                     | None => n
                     end) (foldr (fun r n => skipped r + n) 0 results) ops.

Lemma reported_cons r results : reported (r :: results) = rounds r + reported results.
Proof.
  unfold reported, rounds, ops. cbn [foldr].
  assert (forall l op, op ∈ ops -> mergeResults l !! op = Some (summary l op)) as Hm.
  { intros l op. unfold ops. rewrite !elem_of_cons, elem_of_nil. by intros [->|[->|[->|[->|[]]]]]. }
  rewrite !Hm by (unfold ops; set_solver). unfold summary. cbn [os_ok os_errors foldr mbind list_bind].
  rewrite !length_app. lia.
Qed.

Section Claims.
Context `{!Signer.Ecdsa} `{!Token.Zlib} `{!Token.Json} `{!Token.JwtMethods} {net : Client} `{!Wire}.

(** What the goroutine of a worker runs. *)
Record worker := MkWorker {
  wk_issuer : string;
  wk_token : string;
  wk_rounds : nat
}.

Definition goroutine (url : string) (weights : opWeights) (k : worker) : prog world workerResult :=
  runWorker (wk_rounds k) url (wk_token k) weights (newWorkerResult (wk_issuer k)).

(** A step of a worker, or anything the rest of the system does to the world
    in between. *)
Definition loadStep (c c' : world * list (prog world workerResult)) : Prop :=
  pool_step (fun _ => False) c c' \/ c'.2 = c.2.

Definition onCount (p : prog world workerResult) (k : worker) : Prop :=
  each (fun _ _ => True) p (fun r => rounds r = Z.of_nat (wk_rounds k)).

Lemma goroutine_onCount url weights k : onCount (goroutine url weights k) k.
Proof. eapply each_mono; [apply runWorker_counts|]. intros r ->. done. Qed.

Lemma loadStep_onCount c c' workers : loadStep c c' -> Forall2 onCount c.2 workers -> Forall2 onCount c'.2 workers.
Proof.
  intros [Hstep| ->]; [|done]. destruct Hstep as [w ps i R ac k Hi|]; [|done]. cbn [snd]. intros Hall.
  destruct (Forall2_lookup_l _ _ _ _ _ Hall Hi) as (wk & Hwk & Hon).
  rewrite <- (list_insert_id workers i wk Hwk). apply Forall2_insert; [done|]. by apply Hon.
Qed.

Lemma reported_onCount results workers :
  Forall2 onCount (Ret <$> results) workers ->
  reported results = foldr (fun k n => Z.of_nat (wk_rounds k) + n) 0 workers.
Proof.
  revert workers. induction results as [|r results IH]; intros workers Hall;
    apply Forall2_cons_inv_l in Hall || apply Forall2_nil_inv_l in Hall; [by subst|].
  destruct Hall as (k & workers' & Hk & Hall & ->). rewrite reported_cons, (IH _ Hall). cbn [foldr].
  simpl in Hk. by rewrite Hk.
Qed.

(** The report of the load test accounts for every round of every
    worker: in any interleaving of the workers with each other and with the
    rest of the system, whatever the servers answer and the network loses, the
    successes and errors it lists per operation and the attempts it calls
    skipped add up to the number of rounds made. *)
Theorem report_counts_every_round (url : string) (weights : opWeights) (workers : list worker)
    (results : list workerResult) (w w' : world)
    (Hrun : rtc loadStep (w, goroutine url weights <$> workers) (w', Ret <$> results)) :
  reported results = foldr (fun k n => Z.of_nat (wk_rounds k) + n) 0 workers.
Proof.
  apply reported_onCount. change (Forall2 onCount (w', Ret <$> results).2 workers).
  assert (Forall2 onCount (w, goroutine url weights <$> workers).2 workers) as Hstart.
  { cbn [snd]. apply Forall2_fmap_l, Forall_Forall2_diag, Forall_true, goroutine_onCount. }
  revert Hstart. induction Hrun as [|c1 c2 c3 Hstep _ IH]; [done|]. intros H12. by apply IH, (loadStep_onCount c1).
Qed.

(** The check of the load test against the stores is exact. It changes
    nothing. When it passes, every record of every worker is an entry of a
    list, and shows the expected status in the Redis of the list's shard; when
    it reports mismatches, some record shows another status there. *)
Theorem verify_exact (parse : string -> bool) (urls : gmap string string) (results : list workerResult)
    (w w' : world) (out : result unit)
    (HI : Rely.Inv w)
    (Hidx : Forall (fun rec => 0 <= index rec) (results ≫= allocs))
    (Hrun : run (verifyDecoySafety parse urls results) w = (out, w')) :
  quiet w w' /\
  (out = Ok tt -> Forall (fun rec => exists s, stored w rec s /\ statusName s = expected rec) (results ≫= allocs)) /\
  (out = Err errMismatch ->
     Exists (fun rec => exists s, stored w rec s /\ statusName s <> expected rec) (results ≫= allocs)).
Proof. pose proof (verifyDecoySafety_wp parse urls results w HI Hidx) as Hwp. unfold wp in Hwp. by rewrite Hrun in Hwp. Qed.

End Claims.

(** ** An example of the wire, and two workers whose requests never get through *)

#[export] Instance exampleWire : Wire := {|
  marshalStatus s := Ok (GoStrings.bytesOf s);
  bindStatus b := Ok (GoStrings.stringOf b);
  bindAllocate _ := Err (ErrMsg "invalid character");
  renderCreated url idx exp := idx :: exp :: GoStrings.bytesOf url;
  decodeCreated b :=
    match b with
    | idx :: exp :: url => Ok (GoStrings.stringOf url, idx, exp)
    | _ => Err (ErrMsg "unexpected end of JSON input")
    end;
  renderOther _ := []
|}.

#[export] Instance exampleWire_laws : WireLaws exampleWire.
Proof.
  split.
  - intros s b _ [= <-]. cbn. by rewrite GoStrings.stringOf_bytesOf.
  - intros url idx exp _ _. cbn. by rewrite GoStrings.stringOf_bytesOf.
Qed.

#[local] Existing Instances Token.Concrete.ecdsa Token.Concrete.zlib Token.Concrete.json Token.Concrete.methods.

Definition deadNetwork : Client := {| Do _ := Ret ioError |}.

Definition deadMix : opWeights :=
  MkOpWeights (Float64.ofInt 1) (Float64.ofInt 1) (Float64.ofInt 0) (Float64.ofInt 0).

Definition deadWorker (k : worker) : prog world workerResult := goroutine (net := deadNetwork) "http://in" deadMix k.

(** One worker fails to allocate and skips a status, the other fails three
    times; the report counts five rounds. *)
Lemma report_counts_every_round_witness :
  let w := MkWorld pgEmpty ∅ ∅ [] 0 [] [0; 2 ^ 52] in
  let '(r1, w1) := run (deadWorker (MkWorker "a" "ta" 2)) w in
  let '(r2, w2) := run (deadWorker (MkWorker "b" "tb" 3)) w1 in
  skipped r1 = 1 /\ errors r1 !! "allocate" = Some 1 /\ reported [r1; r2] = 5.
Proof.
  intros w.
  assert (skipped (run (deadWorker (MkWorker "a" "ta" 2)) w).1 = 1) as Hs by (vm_compute; reflexivity).
  assert (errors (run (deadWorker (MkWorker "a" "ta" 2)) w).1 !! "allocate" = Some 1) as He by (vm_compute; reflexivity).
  destruct (run (deadWorker (MkWorker "a" "ta" 2)) w) as [r1 w1] eqn:E1.
  destruct (run (deadWorker (MkWorker "b" "tb" 3)) w1) as [r2 w2] eqn:E2.
  split_and!; [done|done|].
  apply (report_counts_every_round (net := deadNetwork) "http://in" deadMix [MkWorker "a" "ta" 2; MkWorker "b" "tb" 3]
    [r1; r2] w w2).
  eapply rtc_subrel; [|by apply (pool_run_two (fun _ => False) w w1 w2 _ _ r1 r2 E1 E2)].
  intros c c' Hc. by left.
Defined.

Definition exampleResults (status : string) : list workerResult :=
  [setAllocs (newWorkerResult "https://issuer") [MkAllocRecord "s1.ab" 2 status]].

(** On the example world the check passes when VALID is expected, and
    reports a mismatch when INVALID is. *)
Lemma verify_exact_witness :
  let check status := run (verifyDecoySafety (fun _ => true) {["s1" := "redis://a"]} (exampleResults status))
    (Ingestion.exampleWorld 2) in
  (check "VALID").1 = Ok tt /\ (check "INVALID").1 = Err errMismatch /\
  (exists s, stored (Ingestion.exampleWorld 2) (MkAllocRecord "s1.ab" 2 "VALID") s /\ statusName s = "VALID") /\
  Exists (fun rec => exists s, stored (Ingestion.exampleWorld 2) rec s /\ statusName s <> expected rec)
    (exampleResults "INVALID" ≫= allocs).
Proof.
  intros check.
  assert ((check "VALID").1 = Ok tt) as Hv by (vm_compute; reflexivity).
  assert ((check "INVALID").1 = Err errMismatch) as Hi by (vm_compute; reflexivity).
  pose proof (Ingestion.ingestionWorld_inv 2 ltac:(by right)) as HI.
  split_and!; [done|done| |].
  - destruct (check "VALID") as [out w'] eqn:E. cbn [fst] in Hv.
    destruct (verify_exact _ _ (exampleResults "VALID") _ _ _ HI ltac:(apply Forall_singleton; simpl; lia) E) as (_ & Hok & _).
    by apply Forall_singleton in Hok.
  - destruct (check "INVALID") as [out w'] eqn:E. cbn [fst] in Hi.
    destruct (verify_exact _ _ (exampleResults "INVALID") _ _ _ HI ltac:(apply Forall_singleton; simpl; lia) E) as (_ & _ & Herr).
    by apply Herr.
Defined.

End LoadTest.
