(* ===== verification/EndToEnd.v ===== *)
(** * The deployment, end to end

    The services of this development behind HTTP: a request goes over a
    network that may lose it or its answer, to the ingress router and the
    ingestion service of a shard, or to the verifier, each with its route
    table. Run against it, the lifecycle of tools/loadtest (allocate, read the
    published list, revoke, read it again) never sees a status other than the
    one it wrote, whatever fails on the way. *)

From Stdlib Require Import Ascii.
From S2P Require Import Prelude Float64 GoStrings Base64 Signer Allocator Bitmap Token Cwt Prog Debounce World ListId MetaStore BitmapStore Rely Pool Publisher Ingestion Verifier Decoy Ingress LoadTest.

Module EndToEnd.

(** ** Services behind HTTP *)

Section Deployment.
Context `{!Signer.Ecdsa} `{!Token.Zlib} `{!Token.Json} `{!Cwt.Cbor}.
Context `{!Ingress.Validator} `{!Ingress.URLs} `{!LoadTest.Wire}.

Record Deployment := MkDeployment {
  ingressURL : string;
  router : Ingress.Router;
  servers : gmap string Ingestion.Server;
  verifierURL : string;
  verifier : Verifier.Server
}.

(** The route table of internal/ingestion, without the metrics page. *)
Definition ingestionRoute (method path : string) (body : list Z) : option Ingestion.request :=
  match GoStrings.Split path LoadTest.slash with
  | [""; "healthz"] => if bool_decide (method = "GET") then Some Ingestion.GetHealthz else None
  | [""; "allocate"] =>
      if bool_decide (method = "POST") then
        Some (Ingestion.Allocate (match body with [] => None | _ => Some (LoadTest.bindAllocate body) end))
      else None
  | [""; "status"; listID; idx] =>
      if bool_decide (method = "PATCH") && negb (bool_decide (listID = "")) && negb (bool_decide (idx = "")) then
        Some (Ingestion.SetStatus listID idx (LoadTest.bindStatus body))
      else None
  | [""; "accounting"; "me"] => if bool_decide (method = "GET") then Some Ingestion.Accounting else None
  | _ => None
  end.

Definition ingestionReply (r : Ingestion.response) : Z * list Z :=
  (Ingestion.code r,
   match r with
   | Ingestion.Created url idx exp => LoadTest.renderCreated url idx exp
   | _ => LoadTest.renderOther r
   end).

Definition verifierReply (r : Verifier.response) : Z * list Z :=
  match r with
  | Verifier.JSONError c _ => (c, [])
  | Verifier.NotModified => (304, [])
  | Verifier.Content _ _ _ data => (200, data)
  | Verifier.Healthz => (200, [])
  end.

(** A request at the router: its own answer, or the one of the shard. *)
Definition atIngress (d : Deployment) (req : LoadTest.httpRequest) (path : string) : prog world (Z * list Z) :=
  match Ingress.ServeHTTP (router d) (LoadTest.rAuthorization req) path with
  | Ingress.Unauthorized _ _ => Ret (401, [])
  | Ingress.BadGateway _ => Ret (502, [])
  | Ingress.Proxied shard _ =>
      match servers d !! shard with
      | None => Ret (502, [])
      | Some s =>
          match ingestionRoute (LoadTest.rMethod req) path (LoadTest.rBody req) with
          | None => Ret (404, [])
          | Some r =>
              let! x := Ingestion.route s (Ingress.tokenAuth (LoadTest.rAuthorization req)) r in
              Ret (ingestionReply x)
          end
      end
  end.

(** A request for a list at the verifier; the client sends neither an Accept
    nor an If-None-Match header. *)
Definition atVerifier (d : Deployment) (req : LoadTest.httpRequest) (listID : string) : prog world (Z * list Z) :=
  if bool_decide (LoadTest.rMethod req = "GET") && negb (bool_decide (listID = "")) &&
     GoStrings.lacks LoadTest.slash listID then
    let! x := Verifier.route (verifier d) (Verifier.GetList listID "" "") in Ret (verifierReply x)
  else Ret (404, []).

(** A call that may be lost, or whose answer may be lost. *)
Definition overNetwork {A} (p : prog world A) : prog world (result A) :=
  let! f := act popTick in
  match f with
  | NoFault => let! x := p in Ret (Ok x)
  | FailBefore => Ret ioError
  | FailAfter => let! _ := p in Ret ioError
  end.

Definition send (d : Deployment) (req : LoadTest.httpRequest) : prog world (result (Z * list Z)) :=
  let '(listID, isList) := GoStrings.CutPrefix (LoadTest.rURL req) (verifierURL d +:+ "/lists/") in
  if isList then overNetwork (atVerifier d req listID)
  else
    let '(path, isIngress) := GoStrings.CutPrefix (LoadTest.rURL req) (ingressURL d) in
    if isIngress then overNetwork (atIngress d req path) else Ret ioError.

Definition client (d : Deployment) : LoadTest.Client := {| LoadTest.Do := send d |}.

End Deployment.

(** ** What the ingestion service leaves alone *)

(** Identifiers that survive a URL. *)
Definition plain (id : string) : bool :=
  negb (bool_decide (id = "")) && (GoStrings.isASCII id && GoStrings.lacks LoadTest.slash id).

(** No cache changes, and every new list has a plain identifier. *)
Record tidy (w w' : world) : Prop := {
  td_cache : forall q, cache (pubOf w' q) = cache (pubOf w q);
  td_lists : forall id, is_Some (lists (w_pg w') !! id) -> is_Some (lists (w_pg w) !! id) \/ plain id = true
}.

(** No version changes either. *)
Record idle (w w' : world) : Prop := {
  id_tidy : tidy w w';
  id_version : forall s id, BitmapStore.version (redisOf w' s) id = BitmapStore.version (redisOf w s) id
}.

#[export] Instance tidy_preorder : PreOrder tidy.
Proof.
  split.
  - intros w. split; auto.
  - intros w1 w2 w3 [C1 L1] [C2 L2]. split; [intros q; by rewrite C2, C1|].
    intros id Hid. destruct (L2 id Hid); auto.
Qed.

#[export] Instance idle_preorder : PreOrder idle.
Proof.
  split; [intros w; split; [reflexivity|done]|].
  intros w1 w2 w3 [T1 V1] [T2 V2]. split; [by etrans|]. intros s id. by rewrite V2, V1.
Qed.

Lemma quiet_idle w w' : quiet w w' -> idle w w'.
Proof.
  intros (Hpg & Hr & Hp). split; [split|]; unfold pubOf; rewrite ?Hp, ?Hpg; auto.
  intros s id. by rewrite Hr.
Qed.

(** A statement that adds no list but [new]. *)
Definition addsOnly {A} (f : Z -> pg -> result A * pg) : Prop :=
  forall now db id, is_Some (lists (f now db).2 !! id) -> is_Some (lists db !! id) \/ plain id = true.

Lemma pg_idle {A} (f : Z -> pg -> result A * pg) (Q : result A -> Prop) :
  addsOnly f -> (forall r, Q r) -> each idle (pgCall f) Q.
Proof.
  intros Hf HQ. apply each_act. intros w. split; [|done].
  destruct (pgAct_cases f w) as (now & _ & _ & Hr & Hp & _ & _ & Hcase).
  split; [split|].
  - intros q. unfold pubOf. by rewrite Hp.
  - intros id Hid. assert (w_pg (pgAct f w).2 = w_pg w \/ w_pg (pgAct f w).2 = (f now (w_pg w)).2) as [He|He]
      by (destruct Hcase; tauto); rewrite He in Hid; [by left|by apply Hf in Hid].
  - intros s id. unfold redisOf. by rewrite Hr.
Qed.

Lemma getNow_idle (Q : Z -> Prop) : (forall t, Q t) -> each idle getNow Q.
Proof. intros HQ. apply each_act. intros w. split; [by apply quiet_idle|done]. Qed.

Lemma randN_idle n (Q : Z -> Prop) : (forall t, Q t) -> each idle (randN n) Q.
Proof. intros HQ. apply each_act. intros w. destruct (w_entropy w); (split; [by apply quiet_idle|done]). Qed.

Lemma randBytes_idle n (Q : result (list Z) -> Prop) :
  (forall bs, bytes_ok bs -> Q (Ok bs)) -> each idle (randBytes n) Q.
Proof.
  intros HQ. apply each_act. intros w. split; [by apply quiet_idle|]. apply HQ, Forall_app. split.
  - apply Forall_fmap, Forall_forall. intros z _. apply u8_range.
  - apply Forall_replicate. lia.
Qed.

(** A command, as far as caches, tables and the versions are concerned. *)
Lemma redis_tidy {A} shard (f : gmap string rval -> result A * gmap string rval) w :
  tidy w (redisAct shard f w).2.
Proof.
  destruct (redisAct_cases shard f w) as (Hpg & Hp & _). split; unfold pubOf; rewrite ?Hp, ?Hpg; auto.
Qed.

Lemma redis_idle {A} shard (f : gmap string rval -> result A * gmap string rval) (Q : result A -> Prop) :
  (forall m id, BitmapStore.version (f m).2 id = BitmapStore.version m id) -> (forall r, Q r) ->
  each idle (redisCall shard f) Q.
Proof.
  intros Hf HQ. apply each_act. intros w. split; [|apply HQ]. split; [apply redis_tidy|]. intros s id.
  destruct (redisAct_cases shard f w) as (_ & _ & _ & _ & _ & Ho & Hcase).
  destruct (decide (s = shard)) as [->|]; [|by rewrite Ho].
  destruct Hcase as [[_ ->]|[_ [->| ->]]]; auto.
Qed.

(** The identifiers of new lists are plain if their shard's name is. *)
Lemma mk_plain shard bs : plain shard = true -> bytes_ok bs -> plain (ListId.mk shard bs) = true.
Proof.
  unfold plain, ListId.mk, GoStrings.isASCII, GoStrings.lacks. rewrite !andb_true_iff. intros [H0 [Ha Hl]] Hbs.
  split; [destruct shard; [discriminate|by rewrite bool_decide_false]|]. rewrite <- andb_true_iff.
  rewrite !GoStrings.allChars_app, Ha, Hl. cbn [andb].
  rewrite !GoStrings.EncodeToString_chars; try done; intros d Hd;
    assert (d = 0 \/ d = 1 \/ d = 2 \/ d = 3 \/ d = 4 \/ d = 5 \/ d = 6 \/ d = 7 \/ d = 8 \/ d = 9 \/
            d = 10 \/ d = 11 \/ d = 12 \/ d = 13 \/ d = 14 \/ d = 15) as Hcase by lia;
    by destruct_or! Hcase; subst d.
Qed.

(** Programs whose every step is idle. *)
Ltac idle_step :=
  match goal with
  | |- each _ (Ret _) _ => apply each_ret
  | |- each _ (bindErr _ _) _ => apply each_bindErr
  | |- each _ (bind _ _) _ => apply each_bind
  | |- each _ getNow _ => apply getNow_idle; intros ?
  | |- each _ (randN _) _ => apply randN_idle; intros ?
  | |- each _ (randBytes _) _ => apply randBytes_idle; intros ? ?
  | |- each _ (redisCall _ _) _ => apply redis_idle; [|intros [?|?]]
  | |- each _ (pgCall _) _ => apply pg_idle; [|intros [?|?]]
  | |- each _ (match ?x with _ => _ end) _ => destruct x
  | |- match ?x with _ => _ end => destruct x
  end.

Section Pool.
Context (m : Pool.Manager) (Hplain : plain (Pool.ShardID m) = true).

Lemma select_adds p : addsOnly (MetaStore.sqlSelectLists p).
Proof. intros now db id Hid. by left. Qed.

Lemma freeze_adds id : addsOnly (MetaStore.sqlFreeze id).
Proof.
  intros now db id'. unfold MetaStore.sqlFreeze. repeat case_match; cbn [snd setLists lists]; auto.
  rewrite lookup_insert. case_decide; [|auto]. subst. intros _. left. by eexists.
Qed.

Lemma create_adds id bits size k shard : plain id = true -> addsOnly (MetaStore.sqlCreateList id bits size k shard).
Proof.
  intros Hid now db id'. unfold MetaStore.sqlCreateList. repeat case_match; cbn [snd setLists lists]; auto.
  rewrite lookup_insert. case_decide; [|auto]. subst. auto.
Qed.

Lemma reserve_adds id issuer shard exp f : addsOnly (MetaStore.sqlReserve id issuer shard exp f).
Proof.
  intros now db id'. unfold MetaStore.sqlReserve. repeat case_match; cbn [snd lists]; auto;
    rewrite lookup_insert; (case_decide; [|auto]); subst; intros _; left; by eexists.
Qed.

Lemma freezeAged_idle l (Q : result (list MetaStore.ListMeta) -> Prop) :
  (forall r, Q r) -> each idle (Pool.freezeAged m l) Q.
Proof.
  revert Q. induction l as [|lm l IH]; intros Q HQ; cbn [Pool.freezeAged]; [by idle_step|].
  unfold MetaStore.Freeze.
  repeat idle_step; try apply freeze_adds; try done; apply IH; try done. intros [r|e]; [by idle_step|done].
Qed.

Lemma createList_idle (Q : result MetaStore.ListMeta -> Prop) :
  (forall r, Q r) -> each idle (Pool.createList m) Q.
Proof.
  intros HQ. unfold Pool.createList, ListId.New, MetaStore.CreateList, BitmapStore.Init.
  repeat idle_step; try done.
  - by apply create_adds, mk_plain.
  - intros mm id. unfold BitmapStore.setnx. repeat case_match; cbn [snd]; try done.
    apply BitmapStore.version_set_bitmap.
Qed.

Lemma topUp_idle n (Q : result (list MetaStore.ListMeta) -> Prop) :
  (forall r, Q r) -> each idle (Pool.topUp m n) Q.
Proof.
  revert Q. induction n as [|n IH]; intros Q HQ; cbn [Pool.topUp]; [by idle_step|].
  idle_step. apply createList_idle. intros [lm|e]; [|done]. idle_step. apply IH. intros [l|e]; by try idle_step.
Qed.

Lemma Pick_idle (Q : result (option MetaStore.ListMeta) -> Prop) :
  (forall r, Q r) -> each idle (Pool.PickForAllocation m) Q.
Proof.
  intros HQ.
  assert (forall l, each idle (let! lm := Pool.ChooseByPowerOfTwo l in Ret (Ok lm)) Q) as Hchoose.
  { intros l. unfold Pool.ChooseByPowerOfTwo. repeat idle_step; done. }
  unfold Pool.PickForAllocation, MetaStore.ActiveLists, MetaStore.queryLists.
  idle_step. apply pg_idle; [apply select_adds|]. intros [l|e]; [|done]. idle_step.
  destruct l as [|a l]; [|by apply each_ret].
  idle_step. unfold Pool.EnsureHealthy, Pool.ensureHealthy, MetaStore.ActiveLists, MetaStore.queryLists.
  idle_step. idle_step. apply pg_idle; [apply select_adds|]. intros [l'|e]; [|done].
  idle_step. apply freezeAged_idle. intros [l2|e]; [|done].
  idle_step. apply topUp_idle. intros [l3|e]; [|done]. idle_step. idle_step.
  apply pg_idle; [apply select_adds|]. intros [l4|e]; [|done]. apply Hchoose.
Qed.

End Pool.

Section Handlers.
Context `{!Signer.Ecdsa}.

Lemma MarkDirty_idle p id ttl (Q : unit -> Prop) : (forall u, Q u) -> each idle (Publisher.MarkDirty p id ttl) Q.
Proof.
  intros HQ. apply each_act. intros w. cbv zeta.
  destruct (Debounce.Trigger _ _ _ _ _) as [d e]. set (ps := pubOf w (Publisher.proc p)).
  assert (forall jobs, idle w (set_jobs (set_pubs w (<[Publisher.proc p := MkPubState (cache ps) d]> (w_pubs w))) jobs))
    as Hidle.
  { intros jobs. split; [split|]; cbn; auto. intros q. unfold pubOf at 1. cbn. rewrite lookup_insert.
    case_decide; [by subst|done]. }
  destruct e; cbn; (split; [|done]); apply Hidle || exact (Hidle (w_jobs w)).
Qed.

Lemma SetStatus_version shard id by_ off bits v w :
  wp (BitmapStore.SetStatus shard id by_ off bits v)
    (fun r w' => tidy w w' /\
       match r with
       | Ok _ => BitmapStore.version (redisOf w' shard) id = BitmapStore.version (redisOf w shard) id + 1
       | Err _ => True
       end) w.
Proof.
  unfold BitmapStore.SetStatus. apply wp_bindErr, wp_act.
  set (f := BitmapStore.setByteScript _ _ _ _ _). pose proof (redis_tidy shard f w) as Ht1.
  destruct (redisAct_cases shard f w) as (_ & _ & _ & _ & _ & _ & Hc1).
  destruct (redisAct shard f w) as [[nb|e] w1]; cbn [fst snd] in *; [|done].
  assert (BitmapStore.version (redisOf w1 shard) id = BitmapStore.version (redisOf w shard) id) as Hv1.
  { assert (forall m, BitmapStore.version (f m).2 id = BitmapStore.version m id) as Hf.
    { intros m. unfold f, BitmapStore.setByteScript. destruct (BitmapStore.getrange _ _ _); [|done].
      destruct (_ || _); [done|]. unfold BitmapStore.setrange. destruct (BitmapStore.stringAt m _); [|done].
      cbn [result_bind]. destruct (_ <? _); [done|]. apply BitmapStore.version_set_bitmap. }
    destruct Hc1 as [[_ ->]|[_ [->| ->]]]; auto. }
  apply wp_bindErr, wp_act. set (g := BitmapStore.incr _). pose proof (redis_tidy shard g w1) as Ht2.
  destruct (redisAct_cases shard g w1) as (_ & _ & _ & _ & _ & _ & Hc2).
  destruct (redisAct shard g w1) as [[n|e] w2]; cbn [fst snd] in *; try apply wp_ret;
    (split; [by etrans|]); [|done].
  destruct Hc2 as [[Hr ->]|[Hr _]]; [|discriminate]. rewrite <- Hv1. revert Hr.
  unfold g, BitmapStore.incr, BitmapStore.version.
  destruct (redisOf w1 shard !! BitmapStore.versionKey id) as [[d|k]|] eqn:Hk; cbn [fst snd]; [done| |].
  - destruct (k =? maxInt64); cbn [fst snd]; [done|]. intros _. by rewrite lookup_insert_eq.
  - intros _. by rewrite lookup_insert_eq.
Qed.

(** A 201 has raised the version of the list by one. *)
Definition raised (s : Ingestion.Server) (w : world) (resp : Ingestion.response) (w' : world) : Prop :=
  match resp with
  | Ingestion.Created url _ _ => exists id, url = Ingestion.BaseURL s +:+ "/lists/" +:+ id /\
      BitmapStore.version (redisOf w' (Ingestion.ShardID s)) id =
        BitmapStore.version (redisOf w (Ingestion.ShardID s)) id + 1
  | _ => Ingestion.code resp <> 201
  end.

Lemma raised_idle s w w1 resp w' : idle w w1 -> tidy w1 w' /\ raised s w1 resp w' -> tidy w w' /\ raised s w resp w'.
Proof.
  intros [Ht Hv] [Ht' Hr]. split; [by etrans|]. destruct resp; simpl in *; auto.
  destruct Hr as (id & -> & Hr). exists id. by rewrite Hr, Hv.
Qed.

Lemma allocateLoop_raises n s issuer exp w :
  plain (Pool.ShardID (Ingestion.pool s)) = true ->
  wp (Ingestion.allocateLoop n s issuer exp) (fun resp w' => tidy w w' /\ raised s w resp w') w.
Proof.
  intros Hp. revert w. induction n as [|n IH]; intros w; cbn [Ingestion.allocateLoop]; [by apply wp_ret|].
  apply wp_bind. eapply wp_mono.
  { apply (each_wp idle _ (fun _ => True)). apply Pick_idle; done. }
  intros [[lm|]|e] w1 [Hi _]; try (apply wp_ret; split; [apply Hi|done]).
  destruct (Allocator.New _ _) as [a|e]; [|apply wp_ret; split; [apply Hi|done]].
  apply wp_bind. eapply wp_mono.
  { apply (each_wp idle _ (fun _ => True)). apply pg_idle; [apply reserve_adds|done]. }
  intros [idx|e] w2 [Hi2 _]; assert (idle w w2) as Hi02 by (by etrans).
  2: { destruct e; try (apply wp_ret; split; [apply Hi02|done]).
       eapply wp_mono; [apply IH|]. intros resp w'. by apply raised_idle. }
  apply wp_bind. eapply wp_mono; [apply SetStatus_version|].
  intros [v|e] w3 [Ht3 Hv3]; [|apply wp_ret; split; [etrans; [apply Hi02|done]|done]].
  apply wp_bind. eapply wp_mono.
  { apply (each_wp idle _ (fun _ => True)). apply MarkDirty_idle; done. }
  intros u w4 [[Ht4 Hv4] _]. apply wp_ret, (raised_idle s w w2); [done|]. split; [by etrans|].
  exists (MetaStore.ID lm). by rewrite Hv4.
Qed.

Lemma handleAllocate_raises s issuer body w :
  plain (Pool.ShardID (Ingestion.pool s)) = true ->
  wp (Ingestion.handleAllocate s issuer body) (fun resp w' => tidy w w' /\ raised s w resp w') w.
Proof.
  intros Hp. unfold Ingestion.handleAllocate.
  assert (forall e, wp (let! now := getNow in
      let maxExp := now + Ingestion.MaxExpiry s in
      if e =? zeroTime then Ingestion.allocateLoop Ingestion.maxAllocateAttempts s issuer maxExp
      else if maxExp <? e then Ret (Ingestion.JSONError 400 "exp exceeds the maximum allowed expiration")
      else Ingestion.allocateLoop Ingestion.maxAllocateAttempts s issuer e)
    (fun resp w' => tidy w w' /\ raised s w resp w') w) as Hgo.
  { intros e. apply wp_bind, wp_getNow. cbv zeta. repeat case_match; try (by apply allocateLoop_raises).
    by apply wp_ret. }
  destruct body as [[e|e]|]; [apply Hgo|by apply wp_ret|apply Hgo].
Qed.

Lemma handleSetStatus_tidy s issuer listID idx body w :
  wp (Ingestion.handleSetStatus s issuer listID idx body) (fun _ w' => tidy w w') w.
Proof.
  apply Ingestion.handleSetStatus_wp.
  - intros c m w' _ Hq. apply quiet_idle, Hq.
  - intros idx' name st al r w1 _ _ _ _ _ _ _ Hq. cbv zeta. apply quiet_idle in Hq as [Ht _].
    eapply wp_mono; [apply SetStatus_version|]. intros [v|e] w2 [Ht2 _]; [|by etrans].
    eapply wp_mono; [apply (each_wp idle _ (fun _ => True)); by apply MarkDirty_idle|].
    intros u w3 [[Ht3 _] _]. etrans; [exact Ht|]. by etrans.
Qed.

End Handlers.

(** ** Reading a published list *)

Section Reading.
Context `{!Signer.Ecdsa} `{!Token.Zlib} `{!Token.Json} `{!Cwt.Cbor} `{!Token.JwtMethods}.

(** What verifies also parses unverified. *)
Lemma ParseToken_unverified token pk now cl :
  Token.ParseToken token pk now = Ok cl -> LoadTest.ParseUnverified token = Ok cl.
Proof.
  unfold Token.ParseToken, LoadTest.ParseUnverified. destruct (GoStrings.Split _ _) as [|h [|c [|sg []]]]; try done.
  destruct (Base64.RawURLDecode h) as [hb|]; [|done]. cbn [result_bind].
  destruct (Token.unmarshalAlg hb) as [alg|]; [|done]. cbn [result_bind].
  destruct (Base64.RawURLDecode c) as [cb|]; [|done]. cbn [result_bind].
  destruct (Token.unmarshalClaims cb) as [claims|]; [|done]. cbn [result_bind].
  destruct alg as [alg|]; [|done]. destruct (Token.isECDSA alg || Token.registeredMethod alg); [|done].
  cbn [negb]. destruct (Base64.RawURLDecode sg) as [sig|]; [|done]. cbn [result_bind].
  destruct (negb _); [done|]. destruct (Token.verifySignature _ _ _ _); [|done]. cbn [result_bind].
  by destruct (Token.validClaims now claims).
Qed.

(** The reader does not know the size of the list, only its bytes. *)
Lemma statusIn_entry cl bm idx :
  Bitmap.wf bm -> Token.slBits (Token.StatusList cl) = Bitmap.bits bm ->
  Token.DecodeLst (Token.Lst (Token.StatusList cl)) = Ok (Bitmap.data bm) -> 0 <= idx < Bitmap.size bm ->
  LoadTest.statusIn cl idx = Ok (Bitmap.entry bm idx).
Proof.
  intros Hwf Hbits Hlst Hidx. unfold LoadTest.statusIn. rewrite Hlst, Hbits.
  pose proof (Bitmap.Get_entry bm idx Hwf Hidx) as Hget. destruct Hwf as (Hb & Hs & Hlen & Hok).
  set (n := Z.of_nat (length (Bitmap.data bm))) in *.
  rewrite (Bitmap.nBytes_eq _ _ Hb Hs) in Hlen. unfold Bitmap.sizeOk in Hs. cbv zeta.
  assert (0 <= n < 2 ^ 60 /\ u64 (Bitmap.bits bm) = Bitmap.bits bm /\ Bitmap.bits bm <> 0 /\
    n * 8 / Bitmap.bits bm * Bitmap.bits bm = n * 8 /\ Bitmap.size bm <= n * 8 / Bitmap.bits bm)
    as (Hn & Hu & Hnz & Hsize & Hle).
  { clearbody n. clear Hget. Bitmap.widths Hb; split_and!; try done; Z.div_mod_to_equations; lia. }
  rewrite Hu, (proj2 (Z.eqb_neq _ _) Hnz), u64_small by lia. set (size := n * 8 / Bitmap.bits bm) in *.
  assert (Bitmap.nBytes size (Bitmap.bits bm) = n) as Hbytes.
  { unfold Bitmap.nBytes. rewrite Hu, Hsize, (u64_small (n * 8)), u64_small by lia. Z.div_mod_to_equations; lia. }
  unfold Bitmap.WrapBitmap. rewrite Hb, Hbytes. fold n. rewrite Z.eqb_refl. cbn [negb].
  rewrite <- Hget. unfold Bitmap.Get. cbn [Bitmap.size Bitmap.bits Bitmap.data].
  by replace (size <=? idx) with (Bitmap.size bm <=? idx) by lia.
Qed.

End Reading.

(** ** The lifecycle *)

Lemma wp_overNetwork {A} (p : prog world A) (Q : result A -> world -> Prop) w :
  (forall w1, quiet w w1 -> wp p (fun x w' => Q (Ok x) w' /\ Q ioError w') w1) ->
  (forall w1, quiet w w1 -> Q ioError w1) -> wp (overNetwork p) Q w.
Proof.
  intros Hp Herr. unfold overNetwork. apply wp_bind, wp_act.
  assert (quiet w (popTick w).2) as Hq.
  { destruct (popTick_frame w) as (Hpg & Hr & Hpub & _). unfold quiet, redisOf. by rewrite Hpg, Hr, Hpub. }
  destruct (popTick w) as [[] w1]; cbn [fst snd] in *; [| |].
  - apply wp_bind. eapply wp_mono; [by apply Hp|]. intros x w' [? _]. by apply wp_ret.
  - apply wp_ret. auto.
  - apply wp_bind. eapply wp_mono; [by apply Hp|]. intros x w' [_ ?]. by apply wp_ret.
Qed.

Section Lifecycle.
Context `{!Signer.Ecdsa} `{!Token.Zlib} `{!Token.Json} `{!Cwt.Cbor} `{!Token.JwtMethods}.
Context `{!Signer.EcdsaLaws _} `{!Token.ZlibLaws _} `{!Token.JsonLaws _} `{!Cwt.CborLaws _}.
Context `{!Ingress.Validator} `{!Ingress.URLs} `{!LoadTest.Wire} `{!LoadTest.WireLaws _}.

(** A deployment whose parts are configured for each other. *)
Record deployed (d : Deployment) (pk : Signer.public) : Prop := {
  dep_server : forall k s, servers d !! k = Some s ->
    Ingestion.ShardID s = k /\ Pool.ShardID (Ingestion.pool s) = k /\
    Ingestion.BaseURL s = verifierURL d /\ Pool.manager_ok (Ingestion.pool s) /\ plain k = true;
  dep_verifier : Publisher.baseURL (Verifier.pub (verifier d)) = verifierURL d;
  dep_key : Signer.Public (Publisher.key (Verifier.pub (verifier d))) = Some pk;
  dep_url : GoStrings.isASCII (verifierURL d) = true;
  dep_hosts : forall path,
    (GoStrings.CutPrefix (ingressURL d +:+ path) (verifierURL d +:+ "/lists/")).2 = false
}.

(** The cache of the verifier's process. *)
Definition verifierCache (d : Deployment) (w : world) : gmap string Published :=
  cache (pubOf w (Publisher.proc (Verifier.pub (verifier d)))).

(** The verifier has cached lists that exist, in versions that they had. *)
Definition cacheBehind (d : Deployment) (w : world) : Prop :=
  forall id c, verifierCache d w !! id = Some c -> exists r, lists (w_pg w) !! id = Some r /\
    Version c <= BitmapStore.version (redisOf w (r_shard_id r)) id.

Definition idsPlain (w : world) : Prop := forall id, is_Some (lists (w_pg w) !! id) -> plain id = true.

(** The verifier's cached entry of the list is older than the list. *)
Definition outdated (d : Deployment) (shard id : string) (w : world) : Prop :=
  forall c, verifierCache d w !! id = Some c -> Version c < BitmapStore.version (redisOf w shard) id.

Context (d : Deployment) (pk : Signer.public) (Hdep : deployed d pk).

Definition urlOf (id : string) : string := verifierURL d +:+ "/lists/" +:+ id.

Lemma plain_parts id : plain id = true ->
  id <> "" /\ GoStrings.isASCII id = true /\ GoStrings.lacks LoadTest.slash id = true.
Proof.
  unfold plain. rewrite !andb_true_iff, negb_true_iff, bool_decide_eq_false. tauto.
Qed.

Lemma url_ascii id : plain id = true -> GoStrings.isASCII (urlOf id) = true.
Proof.
  intros (_ & Ha & _)%plain_parts. unfold urlOf, GoStrings.isASCII in *.
  rewrite !GoStrings.allChars_app, Ha. pose proof (dep_url _ _ Hdep) as Hu. unfold GoStrings.isASCII in Hu.
  by rewrite Hu.
Qed.

(** The list of a URL is read back from it. *)
Lemma listIDFromURL_url id : plain id = true -> LoadTest.listIDFromURL (urlOf id) = Ok id.
Proof.
  intros (Hne & _ & Hl)%plain_parts. unfold LoadTest.listIDFromURL, urlOf.
  replace (verifierURL d +:+ "/lists/" +:+ id) with ((verifierURL d +:+ "/lists") +:+ String LoadTest.slash id)
    by (by rewrite GoStrings.append_assoc).
  rewrite GoStrings.afterLast_sep by done. by destruct id.
Qed.

(** After a read of the list in [w]: the stores are as they were, and what the
    verifier has cached of it is not ahead of them. *)
Definition afterRead (id shard : string) (w w' : world) : Prop :=
  w_pg w' = w_pg w /\ (forall s, redisOf w' s = redisOf w s) /\
  forall c, verifierCache d w' !! id = Some c -> Version c <= BitmapStore.version (redisOf w shard) id.

Lemma quiet_afterRead id shard w w' : outdated d shard id w -> quiet w w' -> afterRead id shard w w'.
Proof.
  intros Hout (Hpg & Hr & Hp). split_and!; [done|done|]. unfold verifierCache, pubOf in *. rewrite Hp.
  intros c Hc. apply Z.lt_le_incl, Hout, Hc.
Qed.

Lemma readOnly_afterRead id r w w1 w' :
  outdated d (r_shard_id r) id w -> lists (w_pg w) !! id = Some r -> r_id r = id -> quiet w w1 ->
  Verifier.readOnly (verifier d) id w1 w' -> afterRead id (r_shard_id r) w w'.
Proof.
  intros Hout Hr Hid (Hpg & Hred & Hpub) (f & (P1 & P2 & _ & _ & P5) & Hf).
  split_and!; [congruence|intros s; by rewrite P2|]. unfold verifierCache. rewrite P5. intros c Hc.
  destruct (Hf _ _ _ Hc) as [Hold|[_ Hv]].
  - unfold pubOf in Hold. rewrite Hpub in Hold. apply Z.lt_le_incl, Hout, Hold.
  - rewrite (Hv r) by (by rewrite Hpg). unfold Publisher.liveVersion. rewrite Hred. simpl. rewrite Hid. lia.
Qed.

(** The bytes of a 200 carry the live statuses, if the cache was outdated. *)
Lemma content_entry id r idx w w1 now etag cc ct data :
  Rely.Inv w -> lists (w_pg w) !! id = Some r -> r_id r = id -> 0 <= idx < r_size r ->
  outdated d (r_shard_id r) id w -> quiet w w1 ->
  Verifier.answers (verifier d) pk id "" "" w1 now (Verifier.Content etag cc ct data) ->
  exists cl, LoadTest.ParseUnverified (GoStrings.stringOf data) = Ok cl /\
    LoadTest.statusIn cl idx = Ok (Rely.entryOf w (r_shard_id r) id r idx).
Proof.
  intros HI Hr Hid Hidx Hout (Hpg & Hred & Hpub) (r' & c & Hr' & _ & (Hv & _ & Hcur) & _ & _ & _ & Hct & Hdata).
  rewrite Hpg, Hr in Hr'. injection Hr' as <-.
  assert (data = GoStrings.bytesOf (World.Token c)) as ->.
  { destruct Hdata as [[_ ?]|[Hcwt _]]; [done|]. rewrite Hct in Hcwt. vm_compute in Hcwt. discriminate. }
  unfold Publisher.liveVersion in Hv. rewrite Hred in Hv. cbn [MetaStore.scanListMeta MetaStore.ShardID MetaStore.ID] in Hv.
  destruct Hcur as [Hcached|[Hshow _]].
  { unfold pubOf in Hcached. rewrite Hpub, Hid in Hcached. apply Hout in Hcached. rewrite Hid in Hv. lia. }
  destruct (Hshow 0) as (cl & Hparse & _ & _ & Hbits & Hlst). exists cl.
  rewrite GoStrings.stringOf_bytesOf. split; [by apply (ParseToken_unverified _ pk 0)|].
  destruct (Rely.inv_good w HI _ _ Hr) as (Hb & Hs & _).
  assert (Publisher.live w1 (MetaStore.scanListMeta r) =
    BitmapStore.view (redisOf w (r_shard_id r)) id (r_size r) (r_bits r)) as Hlive.
  { unfold Publisher.live. cbn [MetaStore.scanListMeta MetaStore.ShardID MetaStore.ID MetaStore.Size MetaStore.Bits].
    by rewrite Hred, Hid, u64_small by lia. }
  rewrite Hlive in *. apply statusIn_entry; try done.
  apply BitmapStore.view_wf; [apply HI|done|unfold Bitmap.sizeOk; lia].
Qed.

(** Fetching a list whose cache entry is outdated shows what Redis holds. *)
Lemma fetchStatus_wp id r idx w :
  Rely.Inv w -> plain id = true -> lists (w_pg w) !! id = Some r -> 0 <= idx < r_size r ->
  outdated d (r_shard_id r) id w ->
  wp (LoadTest.fetchStatus (net := client d) (urlOf id) idx)
    (fun res w' => afterRead id (r_shard_id r) w w' /\
       match res with Ok a => a = Rely.entryOf w (r_shard_id r) id r idx | Err _ => True end) w.
Proof.
  intros HI Hpl Hr Hidx Hout. pose proof (plain_parts id Hpl) as (Hne & _ & Hl).
  pose proof (MetaStore.row_id _ _ (MetaStore.inv_rows _ (Rely.inv_pg w HI) _ _ Hr)) as Hid.
  unfold LoadTest.fetchStatus. apply wp_bindErr. cbn [LoadTest.Do client]. unfold send.
  cbn [LoadTest.rURL]. unfold urlOf. rewrite <- GoStrings.append_assoc, GoStrings.CutPrefix_app.
  apply wp_overNetwork; [|intros w1 Hq; split; [by apply quiet_afterRead|done]].
  intros w1 Hq. unfold atVerifier. cbn [LoadTest.rMethod]. rewrite bool_decide_true, bool_decide_false, Hl by done.
  cbn [negb andb]. apply wp_bind. eapply wp_mono.
  { apply (Verifier.handleGetList_wp (verifier d) pk id "" "" w1); [apply Hdep| |].
    - destruct Hq as (? & ? & _). by apply (Rely.Inv_same w).
    - rewrite (dep_verifier _ _ Hdep). by apply url_ascii. }
  intros resp w' [Hro (now & _ & Hans)]. apply (readOnly_afterRead id r w) in Hro; [|done..].
  apply wp_ret. split; [|done].
  destruct resp as [code msg| |etag cc ct data|]; cbn [verifierReply fst snd].
  - replace (code =? 200) with false; [by apply wp_ret|].
    symmetry. apply Z.eqb_neq. destruct Hans as [->|[[-> _]|[[-> _]|[-> _]]]]; lia.
  - by apply wp_ret.
  - cbn [Z.eqb negb]. destruct (content_entry id r idx w w1 now etag cc ct data) as (cl & -> & Hst); try done.
    apply wp_ret. by rewrite Hst.
  - done.
Qed.

Context (token : string) (res : Ingestion.Result).
Context (Htoken : token <> "") (Hvalid : Ingress.Validate token = inl res).

(** What a successful allocation through the router has left in [w]. *)
Definition landed (w : world) (url : string) (idx : Z) : Prop :=
  exists id r al, url = urlOf id /\ plain id = true /\ lists (w_pg w) !! id = Some r /\
    r_shard_id r = Ingestion.TenantID res /\ 0 <= idx < r_size r /\
    allocations (w_pg w) !! (id, idx) = Some al /\ al_issuer_id al = Ingestion.UserID res /\
    Rely.entryOf w (Ingestion.TenantID res) id r idx = Bitmap.StatusValid /\
    outdated d (Ingestion.TenantID res) id w.

Lemma quiet_ready w w1 :
  quiet w w1 -> Rely.Inv w -> idsPlain w -> cacheBehind d w -> Rely.Inv w1 /\ idsPlain w1 /\ cacheBehind d w1.
Proof.
  intros (Hpg & Hr & Hp) HI Hids Hc. split_and!.
  - by apply (Rely.Inv_same w).
  - unfold idsPlain. by rewrite Hpg.
  - unfold cacheBehind, verifierCache, pubOf. rewrite Hp, Hpg. intros id c Hi.
    destruct (Hc id c Hi) as (r & Hr' & Hv). exists r. by rewrite Hr.
Qed.

Lemma created_landed s w w' url idx exp :
  servers d !! Ingestion.TenantID res = Some s -> Rely.Inv w' -> Rely.Ev w w' -> idsPlain w -> cacheBehind d w ->
  tidy w w' -> raised s w (Ingestion.Created url idx exp) w' ->
  Ingestion.allocated s (Ingestion.UserID res) exp w w' url idx -> landed w' url idx.
Proof.
  intros Hs HI' HE Hids Hcb [Htc Htl] (id' & Hurl' & Hver) (id & r & t & Hurl & Hr & Hsh & Hidx & Hfree & Hal & Hst).
  destruct (dep_server _ _ Hdep _ _ Hs) as (HS & HP & HB & Hm & Hpl).
  rewrite Hurl' in Hurl. do 2 apply ListId.append_inj in Hurl. subst id'.
  rewrite HS in *. rewrite HP in Hsh. exists id, r, (MkAllocRow (Ingestion.UserID res) exp t).
  split_and!; try done; try lia.
  - by rewrite Hurl', HB.
  - destruct (Htl id) as [Hold|]; [by eexists| |done]. by apply Hids.
  - unfold Rely.entryOf. apply (inj Some). rewrite <- Hst. symmetry. apply Bitmap.lookup_statuses. simpl. lia.
  - intros c Hc. unfold verifierCache in Hc. rewrite Htc in Hc. destruct (Hcb id c Hc) as (r0 & Hr0 & Hle).
    destruct (MetaStore.ev_rows _ _ HE _ _ Hr0) as (r1 & Hr1 & He). rewrite Hr in Hr1. injection Hr1 as <-.
    rewrite <- (MetaStore.ev_shard _ _ He), Hsh in Hle. lia.
Qed.

Lemma allocate_wp w :
  Rely.Inv w -> idsPlain w -> cacheBehind d w ->
  wp (LoadTest.allocate (net := client d) (ingressURL d) token)
    (fun r w' => Rely.Inv w' /\ match r with Ok (url, idx, _) => landed w' url idx | Err _ => True end) w.
Proof.
  intros HI Hids Hcb. unfold LoadTest.allocate. apply wp_bindErr. cbn [LoadTest.Do client]. unfold send.
  cbn [LoadTest.rURL]. pose proof (dep_hosts _ _ Hdep "/allocate") as Hh.
  destruct (GoStrings.CutPrefix (ingressURL d +:+ "/allocate") (_ +:+ _)) as [x []]; [done|]. clear Hh x.
  rewrite GoStrings.CutPrefix_app.
  apply wp_overNetwork; [|intros w1 Hq; split; [|done]; by apply (quiet_ready w w1 Hq)].
  intros w1 Hq. destruct (quiet_ready w w1 Hq HI Hids Hcb) as (HI1 & Hids1 & Hcb1). clear w HI Hids Hcb Hq.
  assert (forall c b, c <> 201 -> wp (Ret (c, b)) (fun x w' =>
    wp (if negb (x.1 =? 201) then Ret (Err (ErrMsg "allocate: status")) else Ret (LoadTest.decodeCreated x.2))
      (fun r w2 => Rely.Inv w2 /\ match r with Ok (url, idx, _) => landed w2 url idx | Err _ => True end) w' /\
    Rely.Inv w' /\ True) w1) as Herr.
  { intros c b Hc. apply wp_ret. cbn [fst]. rewrite (proj2 (Z.eqb_neq _ _) Hc). by split; [apply wp_ret|]. }
  unfold atIngress, Ingress.ServeHTTP, LoadTest.bearer. cbn [LoadTest.rAuthorization LoadTest.rMethod LoadTest.rBody].
  rewrite GoStrings.CutPrefix_app, bool_decide_false, Hvalid by done. cbn [negb orb].
  change (Ingress.shardOf (router d) (Ingestion.TenantID res) "/allocate") with (Ingestion.TenantID res).
  destruct (Ingress.proxies (router d) !! _) as [t|]; [|by apply Herr].
  destruct (servers d !! Ingestion.TenantID res) as [s|] eqn:Hs; [|by apply Herr].
  change (ingestionRoute "POST" "/allocate" []) with (Some (Ingestion.Allocate None)). cbv beta iota.
  destruct (dep_server _ _ Hdep _ _ Hs) as (HS & HP & HB & Hm & Hpl).
  unfold Ingress.tokenAuth. rewrite GoStrings.CutPrefix_app, Hvalid. cbn [negb].
  unfold Ingestion.route, Ingestion.authed. rewrite bool_decide_true by done. cbn [negb].
  case_bool_decide; [|apply wp_bind, wp_ret; by apply Herr].
  apply wp_bind. eapply wp_mono.
  { apply wp_and; [apply (Rely.safe_wp (W := Rely.nobody)); [|by apply Rely.nobody_InvW];
      apply (Ingestion.safe_handleAllocate (WA := Rely.nobody) s (Ingestion.UserID res) None (fun _ _ => True)); done|].
    apply wp_and; [apply (handleAllocate_raises s (Ingestion.UserID res) None w1); by rewrite HP|].
    by apply (Ingestion.handleAllocate_wp s (Ingestion.UserID res) None w1). }
  intros resp w' ((HI' & HE & _) & (Ht & Hra) & Hal). apply wp_ret. split; [|done].
  destruct (decide (Ingestion.code resp = 201)) as [Hc|Hc].
  2: { cbn [ingestionReply fst]. rewrite (proj2 (Z.eqb_neq _ _) Hc). by apply wp_ret. }
  destruct resp as [c m|url idx exp| | |]; try done.
  cbn [ingestionReply fst snd Ingestion.code]. destruct Hal as (Hal & _).
  assert (landed w' url idx) as Hland by (by apply (created_landed s w1 w' url idx exp)).
  pose proof Hland as (id & r & al & Hu & Hpl' & Hr & _ & Hidx & _).
  destruct (Rely.inv_good w' HI' _ _ Hr) as (_ & Hsz & _).
  rewrite LoadTest.wire_created; [by apply wp_ret|rewrite Hu; by apply url_ascii|lia].
Qed.

Lemma route_status id idx body :
  plain id = true -> 0 <= idx < 2 ^ 64 ->
  ingestionRoute "PATCH" ("/status/" +:+ id +:+ "/" +:+ GoStrings.FormatInt idx) body =
    Some (Ingestion.SetStatus id (GoStrings.FormatInt idx) (LoadTest.bindStatus body)).
Proof.
  intros (Hne & _ & Hl)%plain_parts Hidx.
  destruct (GoStrings.ParseUint_lacks LoadTest.slash _ _ eq_refl (GoStrings.ParseUint_FormatInt idx Hidx)) as [Hi Hi0].
  unfold ingestionRoute.
  assert (GoStrings.Split ("/status/" +:+ id +:+ "/" +:+ GoStrings.FormatInt idx) LoadTest.slash =
    [""; "status"; id; GoStrings.FormatInt idx]) as ->.
  { change ("/status/" +:+ id +:+ "/" +:+ GoStrings.FormatInt idx) with
      ("" +:+ String LoadTest.slash ("status" +:+ String LoadTest.slash
         (id +:+ String LoadTest.slash (GoStrings.FormatInt idx)))).
    by rewrite !GoStrings.Split_sep, GoStrings.Split_none by done. }
  by rewrite bool_decide_true, !bool_decide_false by done.
Qed.

(** A status update through the router that succeeds. *)
Lemma patchStatus_wp id r idx name st w :
  Rely.Inv w -> plain id = true -> lists (w_pg w) !! id = Some r -> 0 <= idx < r_size r ->
  GoStrings.isASCII name = true -> Ingestion.statusNames name = Some st ->
  let shard := Ingestion.TenantID res in
  wp (LoadTest.patchStatus (net := client d) (ingressURL d) token id idx name)
    (fun out w' => Rely.Inv w' /\
       match out with
       | Ok _ => w_pg w' = w_pg w /\ (forall q, cache (pubOf w' q) = cache (pubOf w q)) /\
           Rely.entryOf w' shard id r idx = Z.land st (Z.ones (r_bits r)) /\
           BitmapStore.version (redisOf w' shard) id = BitmapStore.version (redisOf w shard) id + 1
       | Err _ => True
       end) w.
Proof.
  intros HI Hpl Hr Hidx Hascii Hst shard.
  destruct (Rely.inv_good w HI _ _ Hr) as (_ & Hsz & _).
  unfold LoadTest.patchStatus. apply wp_bindErr, wp_ret.
  destruct (LoadTest.marshalStatus name) as [body|e] eqn:Hbody; [|done]. cbv zeta.
  set (path := "/status/" +:+ id +:+ "/" +:+ GoStrings.FormatInt idx).
  apply wp_bindErr. cbn [LoadTest.Do client]. unfold send. cbn [LoadTest.rURL].
  pose proof (dep_hosts _ _ Hdep path) as Hh.
  destruct (GoStrings.CutPrefix (ingressURL d +:+ path) (_ +:+ _)) as [x []]; [done|]. clear Hh x.
  rewrite GoStrings.CutPrefix_app.
  apply wp_overNetwork; [|intros w1 (Hpg & Hred & _); split; [by apply (Rely.Inv_same w)|done]].
  intros w1 (Hpg & Hred & Hpub). assert (Rely.Inv w1) as HI1 by (by apply (Rely.Inv_same w)).
  match goal with |- wp _ ?Q0 _ => set (Q := Q0) end.
  assert (forall c b, c <> 204 -> wp (Ret (c, b)) Q w1) as Herr.
  { intros c b Hc. apply wp_ret. unfold Q. cbn [fst]. rewrite (proj2 (Z.eqb_neq _ _) Hc). by split; [apply wp_ret|]. }
  unfold atIngress. cbn [LoadTest.rAuthorization LoadTest.rMethod LoadTest.rBody].
  destruct (Ingress.ServeHTTP _ _ _) as [| |k t]; [by apply Herr..|].
  destruct (servers d !! k) as [s|] eqn:Hs; [|by apply Herr].
  destruct (dep_server _ _ Hdep _ _ Hs) as (HS & HP & HB & Hm & Hk).
  unfold path. rewrite route_status by (done || lia). cbv iota beta.
  unfold Ingress.tokenAuth, LoadTest.bearer. rewrite GoStrings.CutPrefix_app, Hvalid. cbn [negb].
  unfold Ingestion.route, Ingestion.authed. case_bool_decide as Htenant; cbn [negb]; [|apply wp_bind, wp_ret; by apply Herr].
  case_bool_decide; [|apply wp_bind, wp_ret; by apply Herr].
  rewrite (LoadTest.wire_status name body) by done.
  apply wp_bind. eapply wp_mono.
  { apply wp_and; [apply (Rely.safe_wp (W := Rely.nobody)); [|by apply Rely.nobody_InvW];
      apply (Ingestion.safe_handleSetStatus (WA := Rely.nobody) s (Ingestion.UserID res) id
        (GoStrings.FormatInt idx) (Ok name) (fun _ _ => True)); done|].
    apply wp_and; [apply handleSetStatus_tidy|]. apply wp_and; [apply Ingestion.handleSetStatus_code|].
    apply (Ingestion.handleSetStatus_204 s _ _ _ _ w1 r); [done|by rewrite Hpg]. }
  intros resp w' ((HI' & _ & _) & [Htc _] & Hcode & H204). apply wp_ret. unfold Q. split; [|done].
  destruct (decide (Ingestion.code resp = 204)) as [Hc|Hc].
  2: { cbn [ingestionReply fst]. rewrite (proj2 (Z.eqb_neq _ _) Hc). by apply wp_ret. }
  cbn [ingestionReply fst snd]. rewrite Hc. cbn [Z.eqb negb]. specialize (Hcode Hc). subst resp.
  destruct (H204 eq_refl) as (Hpg' & _ & _ & idx' & name' & st' & Hp & [= <-] & Hst' & _ & Hstat & Hver).
  rewrite GoStrings.ParseUint_FormatInt in Hp by lia. injection Hp as <-.
  rewrite Hst in Hst'. injection Hst' as <-. rewrite <- Htenant, !Hred in *. fold shard in Hver, Hstat.
  apply wp_ret. split_and!; [done|congruence| | |done].
  - intros q. rewrite Htc. unfold pubOf. by rewrite Hpub.
  - unfold Rely.entryOf. apply (inj Some). rewrite <- Bitmap.lookup_statuses by (simpl; lia). rewrite Hstat.
    apply list_lookup_insert_eq. rewrite Bitmap.length_statuses. simpl. lia.
Qed.

(** A check whose expectation is what Redis holds records nothing. *)
Lemma checkStatus_wp result id r idx w :
  Rely.Inv w -> plain id = true -> lists (w_pg w) !! id = Some r -> 0 <= idx < r_size r ->
  outdated d (r_shard_id r) id w ->
  wp (LoadTest.checkStatus (net := client d) result id (urlOf id) idx (Rely.entryOf w (r_shard_id r) id r idx))
    (fun out w' => afterRead id (r_shard_id r) w w' /\ out.2 = result) w.
Proof.
  intros HI Hpl Hr Hidx Hout. unfold LoadTest.checkStatus. apply wp_bind.
  eapply wp_mono; [by apply (fetchStatus_wp id r idx w)|]. intros [a|e] w' [Har Ha]; [|by apply wp_ret].
  rewrite Ha, Z.eqb_refl. by apply wp_ret.
Qed.

(** INVALID fits every width. *)
Lemma invalid_fits bits : Bitmap.ValidBitWidth bits = true ->
  Z.land Bitmap.StatusInvalid (Z.ones bits) = Bitmap.StatusInvalid.
Proof. intros Hb. Bitmap.widths Hb; reflexivity. Qed.

(** What a lifecycle that returned [out] has established. *)
Definition lifecycleDone (result : LoadTest.workerResult)
    (out : Prelude.result unit * LoadTest.workerResult) (w' : world) : Prop :=
  LoadTest.mismatches out.2 = LoadTest.mismatches result /\
  match out.1 with
  | Ok _ => exists id idx r al,
      LoadTest.allocs out.2 = LoadTest.allocs result ++ [LoadTest.MkAllocRecord id idx "INVALID"] /\
      lists (w_pg w') !! id = Some r /\ allocations (w_pg w') !! (id, idx) = Some al /\
      al_issuer_id al = Ingestion.UserID res /\
      Rely.entryOf w' (Ingestion.TenantID res) id r idx = Bitmap.StatusInvalid
  | Err _ => True
  end.

Lemma doLifecycle_wp result w :
  Rely.Inv w -> idsPlain w -> cacheBehind d w ->
  wp (LoadTest.doLifecycle (net := client d) (ingressURL d) token result) (lifecycleDone result) w.
Proof.
  intros HI Hids Hcb. unfold LoadTest.doLifecycle. apply wp_bind.
  eapply wp_mono; [by apply allocate_wp|]. intros [[[url idx] exp]|e] w1 [HI1 Hland]; [|by apply wp_ret].
  destruct Hland as (id & r & al & -> & Hpl & Hr & Hsh & Hidx & Hal & Ho & Hentry & Hout).
  rewrite listIDFromURL_url by done. rewrite <- Hsh in Hout, Hentry. apply wp_bind. rewrite <- Hentry.
  eapply wp_mono; [by apply (checkStatus_wp result id r idx w1)|].
  intros [[u|e] result1] w2 [(Hpg2 & Hred2 & Hc2) Hres]; cbn [snd] in Hres; subst result1; [|by apply wp_ret].
  assert (Rely.Inv w2) as HI2 by (by apply (Rely.Inv_same w1)).
  apply wp_bind. eapply wp_mono.
  { apply (patchStatus_wp id r idx "INVALID" Bitmap.StatusInvalid w2); try done. by rewrite Hpg2. }
  rewrite <- Hsh. intros [u'|e] w3 [HI3 Hdone]; [|by apply wp_ret]. destruct Hdone as (Hpg3 & Hc3 & Hentry3 & Hver3).
  destruct (Rely.inv_good w1 HI1 _ _ Hr) as (Hb & _ & _). rewrite invalid_fits in Hentry3 by done.
  rewrite <- Hentry3. eapply wp_mono.
  { apply (checkStatus_wp _ id r idx w3); [done|done|congruence|done|]. intros c Hc. unfold verifierCache in Hc.
    rewrite Hc3 in Hc. apply Hc2 in Hc. rewrite Hver3, Hred2. lia. }
  intros [o result2] w4 [(Hpg4 & Hred4 & _) Hres2]. cbn [snd] in Hres2. subst result2.
  split; [done|]. destruct o; [|done]. exists id, idx, r, al. rewrite Hpg4, Hpg3, Hpg2.
  split_and!; try done. rewrite <- Hsh. unfold Rely.entryOf in *. by rewrite Hred4.
Qed.

End Lifecycle.

(** ** Properties *)

(** C4: what an issuer writes is what a relying party reads. Let the parts of
    a deployment be configured for each other, and let one lifecycle run:
    allocate through the router, fetch the published list, revoke, fetch it
    again, over a network and stores that fail in any way. The tool never
    records a mismatch; and if the lifecycle succeeds, the index belongs to
    the caller and reads INVALID. *)
Theorem lifecycle_consistent `{!Signer.Ecdsa} `{!Token.Zlib} `{!Token.Json} `{!Cwt.Cbor}
    `{!Token.JwtMethods} `{!Signer.EcdsaLaws _} `{!Token.ZlibLaws _} `{!Token.JsonLaws _} `{!Cwt.CborLaws _}
    `{!Ingress.Validator} `{!Ingress.URLs} `{!LoadTest.Wire} `{!LoadTest.WireLaws _}
    (d : Deployment) (pk : Signer.public) (token : string) (res : Ingestion.Result)
    (result : LoadTest.workerResult) (w : world) :
  deployed d pk -> token <> "" -> Ingress.Validate token = inl res ->
  Rely.Inv w -> idsPlain w -> cacheBehind d w ->
  let '(out, w') := run (LoadTest.doLifecycle (net := client d) (ingressURL d) token result) w in
  lifecycleDone res result out w'.
Proof.
  intros Hdep Ht Hv HI Hids Hcb.
  pose proof (doLifecycle_wp d pk Hdep token res Ht Hv result w HI Hids Hcb) as Hwp.
  unfold wp in Hwp. by destruct (run _ w) as [out w'].
Qed.

(** A deployment of one shard. *)
#[local] Existing Instances Token.Concrete.ecdsa Token.Concrete.ecdsa_laws Token.Concrete.zlib
  Token.Concrete.zlib_laws Token.Concrete.json Token.Concrete.json_laws Token.Concrete.methods
  Cwt.Concrete.cbor Cwt.Concrete.cbor_laws Ingress.exampleValidator Ingress.exampleURLs
  LoadTest.exampleWire LoadTest.exampleWire_laws.

Definition exampleDeployment : Deployment :=
  MkDeployment "https://in.example" Ingress.exampleRouter (<["s1" := Ingestion.exampleServer "s1"]> ∅)
    "https://v.example"
    (Verifier.MkServer 200 60 (Publisher.MkPublisher "verifier" ["s1"] Token.Concrete.key "k1"
       "https://v.example" ∅ [])).

Lemma exampleDeployed : deployed exampleDeployment Token.Concrete.pub.
Proof.
  split.
  - intros k s Hs. cbn [servers exampleDeployment] in Hs. rewrite lookup_insert in Hs.
    case_decide as Hk; [|by rewrite lookup_empty in Hs]. injection Hs as <-. subst k.
    split; [reflexivity|]. split; [reflexivity|]. split; [reflexivity|]. split; [|vm_compute; reflexivity].
    apply (bool_decide_unpack _). vm_compute. exact I.
  - reflexivity.
  - reflexivity.
  - vm_compute. reflexivity.
  - intros path. reflexivity.
Qed.

Lemma example_ready :
  idsPlain (Ingestion.exampleWorld 2) /\ cacheBehind exampleDeployment (Ingestion.exampleWorld 2).
Proof.
  split.
  - intros id [r Hr]. assert (map_Forall (fun id _ => plain id = true) (lists (w_pg (Ingestion.exampleWorld 2)))) as Hall.
    { apply (bool_decide_unpack _). vm_compute. exact I. }
    exact (Hall id r Hr).
  - intros id c Hc. unfold verifierCache, pubOf in Hc. cbn [Ingestion.exampleWorld w_pubs] in Hc.
    rewrite lookup_empty in Hc. cbn in Hc. by rewrite lookup_empty in Hc.
Qed.

Lemma lifecycle_consistent_witness :
  let lifecycle := LoadTest.doLifecycle (net := client exampleDeployment) "https://in.example" "A"
                     (LoadTest.newWorkerResult "https://issuer") in
  exists out w', run lifecycle (Ingestion.exampleWorld 2) = (out, w') /\ out.1 = Ok tt /\
    lifecycleDone (Ingress.exampleToken "s1") (LoadTest.newWorkerResult "https://issuer") out w'.
Proof.
  intros lifecycle.
  assert ((run lifecycle (Ingestion.exampleWorld 2)).1.1 = Ok tt) as Hok by (vm_compute; reflexivity).
  pose proof (lifecycle_consistent exampleDeployment Token.Concrete.pub "A" (Ingress.exampleToken "s1")
    (LoadTest.newWorkerResult "https://issuer") (Ingestion.exampleWorld 2) exampleDeployed
    ltac:(discriminate) ltac:(reflexivity) (Ingestion.ingestionWorld_inv 2 (or_intror eq_refl))
    (proj1 example_ready) (proj2 example_ready)) as Hspec.
  cbn [ingressURL exampleDeployment] in Hspec. fold lifecycle in Hspec.
  destruct (run lifecycle (Ingestion.exampleWorld 2)) as [out w'].
  exists out, w'. split; [reflexivity|]. split; [exact Hok|exact Hspec].
Defined.

End EndToEnd.
