(* ===== verification/Campaign.v ===== *)
(** * tools/loadtest, whole runs: identity.go and main.go

    The setup of a load test (a key pair per issuer, a client assertion, a
    token from the authorization server) and the run of a worker against the
    deployment of EndToEnd.v. Any request, well formed or not, keeps the
    deployment fit for reading ([ready]); so a single worker that has the
    deployment for itself, with no other worker and no background pass, never
    sees a published status other than the one it wrote, in any number of
    rounds, with any mix of operations and any failures. *)

From Stdlib Require Import Ascii SpecFloat.
From S2P Require Import Prelude Float64 GoStrings Base64 Signer Allocator Bitmap Token Cwt Prog Debounce World ListId MetaStore BitmapStore Rely Pool Publisher Ingestion Verifier Decoy Ingress Shards Trust ClientAssertion AuthServer LoadTest EndToEnd.

Module Campaign.

#[local] Existing Instances EndToEnd.tidy_preorder EndToEnd.idle_preorder.

(** ** identity.go *)

(** An *ecdsa.PrivateKey and its PublicKey field; key generation from a random
    number; [jwk.MarshalJSON] read back as a map; and golang-jwt's
    [SignedString] with a header, claims, a key and a nonce. *)
Class Issuing `{!Signer.Ecdsa} := {
  GenerateKey : Z -> result (Signer.signer * Signer.public);
  MarshalJWK : Signer.public -> result (list (string * Trust.any));
  SignedString : list (string * Trust.any) -> ClientAssertion.RegisteredClaims -> Signer.signer -> Z -> result string
}.

(** Forms ([url.Values.Encode], gin's PostForm) and the JSON of the token
    endpoint's answers. *)
Class AsWire := {
  Encode : list (string * string) -> list Z;
  PostForm : list Z -> string -> string;
  renderToken : string -> string -> Z -> list Z;
  decodeToken : list Z -> result string          (* access_token *)
}.

Class AsWireLaws `(AsWire) : Prop := {
  form_law : forall fields k v, NoDup fields.*1 -> (k, v) ∈ fields -> PostForm (Encode fields) k = v;
  token_law : forall tok ty ex, GoStrings.isASCII tok = true -> decodeToken (renderToken tok ty ex) = Ok tok
}.

Section Identity.
Context `{!Signer.Ecdsa} `{!Issuing} {net : LoadTest.Client} `{!AsWire}.

Record issuerIdentity := MkIssuerIdentity {
  id : string;
  key : Signer.signer;
  keyPublic : Signer.public
}.

Definition newIssuerIdentity (id : string) : prog world (result issuerIdentity) :=
  let! entropy := randN (2 ^ 256) in
  match GenerateKey entropy with
  | Err e => Ret (Err e)
  | Ok (key, pk) => Ret (Ok (MkIssuerIdentity id key pk))
  end.

(** golang-jwt's NewNumericDate: whole seconds. *)
Definition numericDate (t : Z) : Z := t / second * second.

Definition claimsFor (ii : issuerIdentity) (audience : string) (now : Z) : ClientAssertion.RegisteredClaims :=
  ClientAssertion.MkRegisteredClaims (id ii) (id ii) [audience]
    (Some (numericDate (now + minute))) (Some (numericDate now)).

Definition assertionHeader (jwkMap : list (string * Trust.any)) : list (string * Trust.any) :=
  [("typ", Trust.AString "JWT"); ("alg", Trust.AString "ES256"); ("jwk", Trust.AObject jwkMap)].

Definition assertion (ii : issuerIdentity) (audience : string) : prog world (result string) :=
  let! now := getNow in
  try! jwkMap := Ret (MarshalJWK (keyPublic ii)) in
  let! nonce := randN (2 ^ 256) in
  Ret (SignedString (assertionHeader jwkMap) (claimsFor ii audience now) (key ii) nonce).

Definition tokenForm (asrt : string) : list (string * string) :=
  [("grant_type", "client_credentials");
   ("client_assertion_type", "urn:ietf:params:oauth:client-assertion-type:jwt-bearer");
   ("client_assertion", asrt)].

Definition fetchToken (asURL : string) (ii : issuerIdentity) : prog world (result string) :=
  let tokenURL := asURL +:+ "/token" in
  try! asrt := assertion ii tokenURL in
  try! resp := LoadTest.Do (LoadTest.MkHttpRequest "POST" tokenURL "" (Encode (tokenForm asrt))) in
  if negb (resp.1 =? 200) then Ret (Err (ErrMsg "token request: status"))
  else
    try! tok := Ret (decodeToken resp.2) in
    if bool_decide (tok = "") then Ret (Err (ErrMsg "token response carried no access_token"))
    else Ret (Ok tok).

(** The setup phase of [run] in main.go: an identity and a token for each
    issuer. *)
Fixpoint prepare (asURL : string) (ids : list string) : prog world (result (list (issuerIdentity * string))) :=
  match ids with
  | [] => Ret (Ok [])
  | id :: ids =>
      try! ii := newIssuerIdentity id in
      try! token := fetchToken asURL ii in
      try! rest := prepare asURL ids in
      Ret (Ok ((ii, token) :: rest))
  end.

Definition issuerName (i : nat) : string := "loadtest-issuer-" +:+ GoStrings.FormatInt (Z.of_nat i).

Definition setup (asURL : string) (numIssuers : nat) : prog world (result (list (issuerIdentity * string))) :=
  prepare asURL (issuerName <$> seq 0 numIssuers).

End Identity.

(** Claims that a JWT carries unchanged: ASCII text, and dates in whole seconds
    that a float64 holds. *)
Definition wholeSeconds (o : option Z) : Prop :=
  match o with None => True | Some t => exists n, t = n * second /\ 0 <= n < 2 ^ 53 end.

Definition plainClaims (cl : ClientAssertion.RegisteredClaims) : Prop :=
  Forall (fun t => GoStrings.isASCII t = true)
    (ClientAssertion.Issuer cl :: ClientAssertion.Subject cl :: ClientAssertion.Audience cl) /\
  wholeSeconds (ClientAssertion.ExpiresAt cl) /\ wholeSeconds (ClientAssertion.IssuedAt cl).

(** What go-jose and golang-jwt promise of an assertion with the header that
    the tool sets: the parser finds the key in it and no chain; the claims it
    returns are those that were signed; and it accepts them under the key that
    signed them, for their audience, while they are valid. *)
Class IssuingLaws `{!Signer.Ecdsa} `{!Issuing} `{!ClientAssertion.Jwt} `{!ClientAssertion.Keys} : Prop := {
  header_law : forall pk m cl k n tok,
    MarshalJWK pk = Ok m -> SignedString (assertionHeader m) cl k n = Ok tok ->
    exists h m', ClientAssertion.ParseUnverified tok = Ok h /\
      Trust.lookupKey "jwk" h = Some (Trust.AObject m') /\ Trust.lookupKey "x5c" h = None /\
      ClientAssertion.jwkKey m' = Ok (Some pk);
  claims_law : forall pk m cl k n tok pk' methods aud now cl',
    MarshalJWK pk = Ok m -> plainClaims cl -> SignedString (assertionHeader m) cl k n = Ok tok ->
    ClientAssertion.ParseWithClaims tok pk' methods aud now = Ok cl' -> cl' = cl;
  accept_law : forall pk m cl k n tok aud now e,
    MarshalJWK pk = Ok m -> plainClaims cl -> SignedString (assertionHeader m) cl k n = Ok tok ->
    Signer.Public k = Some pk -> aud ∈ ClientAssertion.Audience cl ->
    ClientAssertion.ExpiresAt cl = Some e -> now < e ->
    (forall t, ClientAssertion.IssuedAt cl = Some t -> t <= now) ->
    ClientAssertion.ParseWithClaims tok pk ["ES256"] aud now = Ok cl;
  empty_law : exists e, ClientAssertion.ParseUnverified "" = Err e
}.

(** ** The authorization server behind HTTP *)

Section Site.
Context `{!Signer.Ecdsa} `{!ClientAssertion.Jwt} `{!ClientAssertion.Keys} `{!Trust.Evaluator}.
Context `{!AuthServer.AccessTokens} `{!Float64.Conversion} `{!AsWire}.

(** The route table of internal/as, without the metrics page; a body is taken
    for a form, which is how the tool marks it. *)
Definition asRoute (method path : string) (body : list Z) : option AuthServer.request :=
  if bool_decide (path = "/token") && bool_decide (method = "POST") then
    Some (AuthServer.PostToken (PostForm body "grant_type") (PostForm body "client_assertion_type")
            (PostForm body "client_assertion"))
  else if bool_decide (path = "/.well-known/jwks.json") && bool_decide (method = "GET") then
    Some AuthServer.GetJWKS
  else if bool_decide (path = "/healthz") && bool_decide (method = "GET") then Some AuthServer.GetHealthz
  else None.

Definition asReply (r : AuthServer.response) : Z * list Z :=
  match r with
  | AuthServer.OAuthError code _ _ => (code, [])
  | AuthServer.TokenResponse tok ty ex => (200, renderToken tok ty ex)
  | AuthServer.KeySet _ | AuthServer.Healthz => (200, [])
  end.

Definition atAS (s : AuthServer.Server) (asURL : string) (req : LoadTest.httpRequest) :
    prog world (result (Z * list Z)) :=
  let '(path, here) := GoStrings.CutPrefix (LoadTest.rURL req) asURL in
  if here then
    EndToEnd.overNetwork
      (match asRoute (LoadTest.rMethod req) path (LoadTest.rBody req) with
       | None => Ret (404, [])
       | Some r => let! x := AuthServer.route s r in Ret (asReply x)
       end)
  else Ret ioError.

Definition asClient (s : AuthServer.Server) (asURL : string) : LoadTest.Client :=
  {| LoadTest.Do := atAS s asURL |}.

End Site.

(** ** What the ingestion service does to versions *)

(** Caches stay, new lists have plain identifiers, versions only rise. *)
Record growing (w w' : world) : Prop := {
  gr_tidy : EndToEnd.tidy w w';
  gr_version : forall s id, BitmapStore.version (redisOf w s) id <= BitmapStore.version (redisOf w' s) id
}.

#[export] Instance growing_preorder : PreOrder growing.
Proof.
  split; [intros w; split; [reflexivity|done]|].
  intros w1 w2 w3 [T1 V1] [T2 V2]. split; [by etrans|]. intros s id.
  specialize (V1 s id). specialize (V2 s id). lia.
Qed.

Lemma idle_growing w w' : EndToEnd.idle w w' -> growing w w'.
Proof. intros [Ht Hv]. split; [done|]. intros s id. by rewrite Hv. Qed.

Lemma redis_growing {A} shard (f : gmap string rval -> result A * gmap string rval) (Q : result A -> Prop) :
  (forall m id, BitmapStore.version m id <= BitmapStore.version (f m).2 id) -> (forall r, Q r) ->
  each growing (redisCall shard f) Q.
Proof.
  intros Hf HQ. apply each_act. intros w. split; [|apply HQ]. split; [apply EndToEnd.redis_tidy|]. intros s id.
  destruct (redisAct_cases shard f w) as (_ & _ & _ & _ & _ & Ho & Hcase).
  destruct (decide (s = shard)) as [->|]; [|by rewrite Ho].
  destruct Hcase as [[_ ->]|[_ [->| ->]]]; auto with lia.
Qed.

Section Growing.
Context `{!Signer.Ecdsa}.

Lemma incr_raises m id id' : BitmapStore.version m id <= BitmapStore.version (BitmapStore.incr (BitmapStore.versionKey id') m).2 id.
Proof.
  unfold BitmapStore.incr, BitmapStore.version.
  destruct (m !! BitmapStore.versionKey id') as [[d|k]|] eqn:Hk; [done| |].
  - destruct (k =? maxInt64); cbn [fst snd]; [done|]. rewrite lookup_insert. case_decide as He; [|done].
    rewrite <- He, Hk. lia.
  - cbn [snd]. rewrite lookup_insert. case_decide as He; [|done]. rewrite <- He, Hk. lia.
Qed.

Lemma script_version id' by_ off bits v m id :
  BitmapStore.version (BitmapStore.setByteScript (BitmapStore.bitmapKey id') by_ off bits v m).2 id =
    BitmapStore.version m id.
Proof.
  unfold BitmapStore.setByteScript. destruct (BitmapStore.getrange _ _ _); [|done].
  destruct (_ || _); [done|]. unfold BitmapStore.setrange. destruct (BitmapStore.stringAt m _); [|done].
  cbn [result_bind]. destruct (_ <? _); [done|]. apply BitmapStore.version_set_bitmap.
Qed.

Lemma SetStatus_growing shard id by_ off bits v (Q : result Z -> Prop) :
  (forall r, Q r) -> each growing (BitmapStore.SetStatus shard id by_ off bits v) Q.
Proof.
  intros HQ. unfold BitmapStore.SetStatus. apply each_bindErr, redis_growing.
  { intros m id'. by rewrite script_version. }
  intros [nb|e]; [|done]. apply each_bindErr, redis_growing; [intros; apply incr_raises|].
  intros [n|e]; [|done]. by apply each_ret.
Qed.

(** Idle programs, and those that also write a status. *)
Lemma idle_each {A} (p : prog world A) (Q : A -> Prop) : each EndToEnd.idle p Q -> each growing p Q.
Proof. apply each_rel, idle_growing. Qed.

Lemma MarkDirty_growing p id ttl (Q : unit -> Prop) : (forall u, Q u) -> each growing (Publisher.MarkDirty p id ttl) Q.
Proof. intros HQ. by apply idle_each, EndToEnd.MarkDirty_idle. Qed.

Lemma pg_growing {A} (f : Z -> pg -> result A * pg) (Q : result A -> Prop) :
  (forall now db, lists (f now db).2 = lists db) -> (forall r, Q r) -> each growing (pgCall f) Q.
Proof.
  intros Hf HQ. apply idle_each, EndToEnd.pg_idle; [|done]. intros now db id. rewrite Hf. auto.
Qed.

Lemma allocateLoop_growing n s issuer exp :
  EndToEnd.plain (Pool.ShardID (Ingestion.pool s)) = true ->
  each growing (Ingestion.allocateLoop n s issuer exp) (fun _ => True).
Proof.
  intros Hp. induction n as [|n IH]; cbn [Ingestion.allocateLoop]; [by apply each_ret|].
  apply each_bind, idle_each, EndToEnd.Pick_idle; [done|]. intros [[lm|]|e]; [|by apply each_ret..].
  destruct (Allocator.New _ _) as [a|e]; [|by apply each_ret].
  apply each_bind, idle_each, EndToEnd.pg_idle; [apply EndToEnd.reserve_adds|].
  intros [idx|[]]; try (by apply each_ret); [|done].
  apply each_bind, SetStatus_growing. intros [v|e]; [|by apply each_ret].
  apply each_bind, MarkDirty_growing. intros _. by apply each_ret.
Qed.

Lemma handleAllocate_growing s issuer body :
  EndToEnd.plain (Pool.ShardID (Ingestion.pool s)) = true ->
  each growing (Ingestion.handleAllocate s issuer body) (fun _ => True).
Proof.
  intros Hp. unfold Ingestion.handleAllocate.
  destruct body as [[e|e]|]; [|by apply each_ret|]; apply each_bind, idle_each, EndToEnd.getNow_idle; intros now;
    cbv zeta; repeat case_match; try (by apply allocateLoop_growing); by apply each_ret.
Qed.

Lemma CheckOwnership_growing listID idx issuer (Q : result unit -> Prop) :
  (forall r, Q r) -> each growing (MetaStore.CheckOwnership listID idx issuer) Q.
Proof.
  intros HQ. unfold MetaStore.CheckOwnership. apply each_bindErr, pg_growing; [done|].
  intros [o|e]; [|done]. repeat case_match; by apply each_ret.
Qed.

Lemma handleSetStatus_growing s issuer listID idx body :
  each growing (Ingestion.handleSetStatus s issuer listID idx body) (fun _ => True).
Proof.
  unfold Ingestion.handleSetStatus.
  destruct (GoStrings.ParseUint idx) as [i|e]; [|by apply each_ret]. destruct body as [name|e]; [|by apply each_ret].
  destruct (Ingestion.statusNames name) as [st|]; [|by apply each_ret].
  apply each_bind, CheckOwnership_growing. intros [u|e]; [|destruct e; by apply each_ret].
  apply each_bind, pg_growing; [done|]. intros [[lm|]|e]; [|by apply each_ret..].
  case_bool_decide; [by apply each_ret|]. cbv zeta. apply each_bind, SetStatus_growing.
  intros [v|e]; [|by apply each_ret]. apply each_bind, MarkDirty_growing. intros _. by apply each_ret.
Qed.

Lemma route_growing s auth r :
  EndToEnd.plain (Pool.ShardID (Ingestion.pool s)) = true ->
  each growing (Ingestion.route s auth r) (fun _ => True).
Proof.
  intros Hp.
  assert (forall tac h, (forall issuer, each growing (h issuer) (fun _ => True)) ->
    each growing (Ingestion.authed s auth tac h) (fun _ => True)) as Hauth.
  { intros tac h Hh. unfold Ingestion.authed. destruct auth as [res|]; [|by apply each_ret].
    repeat case_bool_decide; cbn [negb]; try (by apply each_ret). apply Hh. }
  destruct r as [body|listID idx body| |]; cbn [Ingestion.route]; [| | |by apply each_ret]; apply Hauth; intros issuer.
  - by apply handleAllocate_growing.
  - apply handleSetStatus_growing.
  - unfold Ingestion.handleAccountingMe. apply each_bind, pg_growing; [done|].
    intros [u|e]; by apply each_ret.
Qed.

End Growing.
(** ** Any request keeps the deployment fit for reading *)

Section Requests.
Context `{!Signer.Ecdsa} `{!Token.Zlib} `{!Token.Json} `{!Cwt.Cbor} `{!Token.JwtMethods}.
Context `{!Signer.EcdsaLaws _} `{!Token.ZlibLaws _} `{!Token.JsonLaws _} `{!Cwt.CborLaws _}.
Context `{!Ingress.Validator} `{!Ingress.URLs} `{!LoadTest.Wire} `{!LoadTest.WireLaws _}.
Context (d : EndToEnd.Deployment) (pk : Signer.public) (Hdep : EndToEnd.deployed d pk).

(** The invariants hold, identifiers survive a URL, and the verifier's cache is
    not ahead of the stores. *)
Definition ready (w : world) : Prop := Rely.Inv w /\ EndToEnd.idsPlain w /\ EndToEnd.cacheBehind d w.

Lemma ready_quiet w w' : quiet w w' -> ready w -> ready w'.
Proof. intros Hq (HI & Hids & Hcb). by apply (EndToEnd.quiet_ready d w). Qed.

Lemma ready_growing w w' : growing w w' -> Rely.Inv w' -> Rely.Ev w w' -> ready w -> ready w'.
Proof.
  intros [[Hc Hl] Hv] HI' HE (HI & Hids & Hcb). split_and!; [done| |].
  - intros id Hid. destruct (Hl id Hid) as [Hold|]; [by apply Hids|done].
  - intros id c Hi. unfold EndToEnd.verifierCache in Hi. rewrite Hc in Hi.
    destruct (Hcb id c Hi) as (r & Hr & Hle). destruct (MetaStore.ev_rows _ _ HE _ _ Hr) as (r' & Hr' & He).
    exists r'. split; [done|]. rewrite (MetaStore.ev_shard _ _ He). specialize (Hv (r_shard_id r) id). lia.
Qed.

Lemma ready_readOnly listID r w w' :
  lists (w_pg w) !! listID = Some r -> Verifier.readOnly (EndToEnd.verifier d) listID w w' -> ready w -> ready w'.
Proof.
  intros Hr (f & (P1 & P2 & _ & _ & P5) & Hf) (HI & Hids & Hcb). split_and!.
  - by apply (Rely.Inv_same w).
  - unfold EndToEnd.idsPlain. by rewrite P1.
  - unfold EndToEnd.cacheBehind, EndToEnd.verifierCache. rewrite P1, P5. intros id c Hc.
    destruct (Hf _ _ _ Hc) as [Hold|[-> Hver]].
    + destruct (Hcb id c Hold) as (r' & Hr' & Hle). exists r'. by rewrite P2.
    + exists r. split; [done|]. rewrite (Hver r Hr), P2. unfold Publisher.liveVersion.
      cbn [MetaStore.scanListMeta MetaStore.ShardID MetaStore.ID].
      by rewrite (MetaStore.row_id _ _ (MetaStore.inv_rows _ (Rely.inv_pg w HI) _ _ Hr)).
Qed.

Lemma getList_ready listID accept inm w :
  ready w -> wp (Verifier.handleGetList (EndToEnd.verifier d) listID accept inm) (fun _ w' => ready w') w.
Proof.
  intros Hw. pose proof Hw as (HI & Hids & _). destruct (lists (w_pg w) !! listID) as [r|] eqn:Hr.
  - eapply wp_mono.
    { apply (Verifier.handleGetList_wp (EndToEnd.verifier d) pk listID accept inm w); [apply Hdep|done|].
      rewrite (EndToEnd.dep_verifier _ _ Hdep). apply (EndToEnd.url_ascii d pk Hdep). by apply Hids; eexists. }
    intros resp w' [Hro _]. by apply (ready_readOnly listID r w).
  - unfold Verifier.handleGetList. apply wp_bind, wp_pg_read; [done| |].
    + intros now w1 _ Hq _. cbn [MetaStore.sqlGetList fst]. rewrite Hr. simpl. apply wp_ret. by apply (ready_quiet w).
    + intros w1 Hq. apply wp_ret. by apply (ready_quiet w).
Qed.

Lemma route_ready k s auth r w :
  EndToEnd.servers d !! k = Some s -> ready w -> wp (Ingestion.route s auth r) (fun _ w' => ready w') w.
Proof.
  intros Hs Hw. destruct (EndToEnd.dep_server _ _ Hdep _ _ Hs) as (_ & HP & _ & Hm & Hk). eapply wp_mono.
  { apply wp_and; [apply (Rely.safe_wp (W := Rely.nobody)); [|by apply Rely.nobody_InvW, Hw];
      apply (Ingestion.safe_route (WA := Rely.nobody) s auth r (fun _ _ => True)); [done|destruct auth, r; simpl; done|apply Hw|done]|].
    apply (each_wp growing), route_growing. by rewrite HP. }
  intros resp w' ((HI' & HE & _) & Hg & _). by apply (ready_growing w).
Qed.

Lemma send_ready req w : ready w -> wp (EndToEnd.send d req) (fun _ w' => ready w') w.
Proof.
  intros Hw. unfold EndToEnd.send.
  assert (forall A (p : prog world A), (forall w, ready w -> wp p (fun _ w' => ready w') w) ->
    wp (EndToEnd.overNetwork p) (fun _ w' => ready w') w) as Hnet.
  { intros A p Hp. apply EndToEnd.wp_overNetwork; [|intros w1 Hq; by apply (ready_quiet w)].
    intros w1 Hq. eapply wp_mono; [by apply Hp, (ready_quiet w)|]. done. }
  destruct (GoStrings.CutPrefix _ _) as [listID []]; [|destruct (GoStrings.CutPrefix _ _) as [path []]; [|by apply wp_ret]];
    apply Hnet; clear w Hw Hnet; intros w Hw.
  - unfold EndToEnd.atVerifier. case_match; [|by apply wp_ret]. apply wp_bind.
    eapply wp_mono; [by apply getList_ready|]. intros. by apply wp_ret.
  - unfold EndToEnd.atIngress. destruct (Ingress.ServeHTTP _ _ _) as [| |k t]; [by apply wp_ret..|].
    destruct (EndToEnd.servers d !! k) as [s|] eqn:Hs; [|by apply wp_ret].
    destruct (EndToEnd.ingestionRoute _ _ _) as [r|]; [|by apply wp_ret]. apply wp_bind.
    eapply wp_mono; [by apply (route_ready k)|]. intros. by apply wp_ret.
Qed.

(** ** A worker *)

#[local] Create HintDb ready.

(** A program that keeps the deployment ready. *)
Definition keepsReady {A} (p : prog world A) : Prop := forall w, ready w -> wp p (fun _ w' => ready w') w.

Lemma keeps_ret {A} (a : A) : keepsReady (Ret a).
Proof. intros w Hw. by apply wp_ret. Qed.

Lemma keeps_bind {A B} (p : prog world A) (f : A -> prog world B) :
  keepsReady p -> (forall a, keepsReady (f a)) -> keepsReady (bind p f).
Proof. intros Hp Hf w Hw. apply wp_bind. eapply wp_mono; [by apply Hp|]. intros a w' Hw'. by apply Hf. Qed.

Lemma keeps_bindErr {A B} (p : prog world (result A)) (f : A -> prog world (result B)) :
  keepsReady p -> (forall a, keepsReady (f a)) -> keepsReady (bindErr p f).
Proof. intros Hp Hf. apply keeps_bind; [done|]. intros [a|e]; [apply Hf|apply keeps_ret]. Qed.

Lemma keeps_randN n : keepsReady (randN n).
Proof. intros w Hw. apply wp_randN. intros z w' Hq. by apply (ready_quiet w). Qed.

Lemma keeps_getNow : keepsReady getNow.
Proof. intros w Hw. by apply wp_getNow. Qed.

Lemma keeps_Do req : keepsReady (LoadTest.Do (Client := EndToEnd.client d) req).
Proof. intros w Hw. by apply send_ready. Qed.

#[local] Hint Resolve keeps_ret keeps_bind keeps_bindErr keeps_randN keeps_getNow keeps_Do : ready.

Lemma keeps_allocate url token : keepsReady (LoadTest.allocate (net := EndToEnd.client d) url token).
Proof. unfold LoadTest.allocate. apply keeps_bindErr; [auto with ready|]. intros. case_match; auto with ready. Qed.

Lemma keeps_patchStatus url token id idx status :
  keepsReady (LoadTest.patchStatus (net := EndToEnd.client d) url token id idx status).
Proof.
  unfold LoadTest.patchStatus. apply keeps_bindErr; [auto with ready|]. intros body. cbv zeta.
  apply keeps_bindErr; [auto with ready|]. intros. case_match; auto with ready.
Qed.

Lemma keeps_checkStatus result id url idx want :
  keepsReady (LoadTest.checkStatus (net := EndToEnd.client d) result id url idx want).
Proof.
  unfold LoadTest.checkStatus. apply keeps_bind.
  - unfold LoadTest.fetchStatus. apply keeps_bindErr; [auto with ready|]. intros. repeat case_match; auto with ready.
  - intros [a|e]; [case_match|]; auto with ready.
Qed.

#[local] Hint Resolve keeps_allocate keeps_patchStatus keeps_checkStatus : ready.

Lemma keeps_doOp url token op result : keepsReady (LoadTest.doOp (net := EndToEnd.client d) url token op result).
Proof.
  unfold LoadTest.doOp. repeat case_bool_decide.
  - unfold LoadTest.doAllocate. apply keeps_bind; [auto with ready|]. intros. repeat case_match; auto with ready.
  - unfold LoadTest.doStatus. case_match; [auto with ready|]. apply keeps_bind; [auto with ready|].
    intros i. case_match; [|auto with ready]. apply keeps_bind; [auto with ready|].
    intros k. case_match; [|auto with ready]. apply keeps_bind; [auto with ready|].
    intros. case_match; auto with ready.
  - unfold LoadTest.doLifecycle. apply keeps_bind; [auto with ready|]. intros [[[u idx] exp]|e]; [|auto with ready].
    destruct (LoadTest.listIDFromURL u) as [id|e]; [|auto with ready].
    apply keeps_bind; [auto with ready|]. intros [[u'|e] r1]; [|auto with ready].
    apply keeps_bind; [auto with ready|]. intros []; auto with ready.
  - apply keeps_bind; [|auto with ready]. unfold LoadTest.doAccounting. apply keeps_bindErr; [auto with ready|].
    intros. case_match; auto with ready.
Qed.

#[local] Instance anything_preorder : PreOrder (fun _ _ : world => True).
Proof. by split. Qed.

(** The other operations record no mismatch, whoever answers. *)
Lemma doOp_other net url token op result :
  op <> "lifecycle" ->
  each (fun _ _ : world => True) (LoadTest.doOp (net := net) url token op result)
    (fun out => LoadTest.mismatches out.2 = LoadTest.mismatches result).
Proof.
  intros Hop. unfold LoadTest.doOp. case_bool_decide; [|case_bool_decide; [|rewrite bool_decide_false by done]].
  - unfold LoadTest.doAllocate. apply each_bind, LoadTest.each_anything. intros. repeat case_match; by apply each_ret.
  - unfold LoadTest.doStatus. case_match; [by apply each_ret|]. apply each_bind, LoadTest.each_anything. intros i.
    case_match; [|by apply each_ret]. apply each_bind, LoadTest.each_anything. intros k.
    case_match; [|by apply each_ret]. apply each_bind, LoadTest.each_anything. intros. case_match; by apply each_ret.
  - apply each_bind, LoadTest.each_anything. intros. by apply each_ret.
Qed.

Context (token : string) (res : Ingestion.Result).
Context (Htoken : token <> "") (Hvalid : Ingress.Validate token = inl res).

Lemma doOp_clean op result w :
  ready w ->
  wp (LoadTest.doOp (net := EndToEnd.client d) (EndToEnd.ingressURL d) token op result)
    (fun out w' => ready w' /\ LoadTest.mismatches out.2 = LoadTest.mismatches result) w.
Proof.
  intros Hw. apply wp_and; [by apply keeps_doOp|]. destruct (decide (op = "lifecycle")) as [->|Hop].
  - destruct Hw as (HI & Hids & Hcb).
    eapply wp_mono; [by apply (EndToEnd.doLifecycle_wp d pk Hdep token res Htoken Hvalid)|]. by intros out w' [? _].
  - eapply wp_mono; [apply (each_wp (fun _ _ => True)), doOp_other, Hop|]. by intros out w' [_ Hm].
Qed.

Lemma runWorker_clean n weights result w :
  ready w ->
  wp (LoadTest.runWorker (net := EndToEnd.client d) n (EndToEnd.ingressURL d) token weights result)
    (fun out w' => ready w' /\ LoadTest.mismatches out = LoadTest.mismatches result) w.
Proof.
  revert result w. induction n as [|n IH]; intros result w Hw; cbn [LoadTest.runWorker]; [by apply wp_ret|].
  apply wp_bind. eapply wp_mono.
  { instantiate (1 := fun _ w' => ready w'). unfold LoadTest.pick, Decoy.randFloat64.
    repeat (apply keeps_bind; auto with ready; intros); auto with ready. }
  clear w Hw. intros op w Hw. apply wp_bind. eapply wp_mono; [by apply keeps_getNow|]. clear w Hw. intros start w Hw.
  apply wp_bind. eapply wp_mono; [by apply doOp_clean|]. clear w Hw. intros [[u|e] result1] w [Hw Hm]; cbn [snd] in Hm.
  - apply wp_bind. eapply wp_mono; [by apply keeps_getNow|]. clear w Hw. intros now w Hw.
    eapply wp_mono; [by apply IH|]. intros out w' [? ->]. done.
  - eapply wp_mono; [by apply IH|]. intros out w' [? ->]. split; [done|]. by destruct (_ && _).
Qed.

End Requests.

(** ** Setting up an issuer *)

(** Only the assignment of issuers to shards may have changed; and if nothing
    was to fail, no time has passed and nothing will fail. *)
Record enrols (w w' : world) : Prop := {
  en_shards : Shards.shardsOnly (w_pg w) (w_pg w');
  en_redis : forall s, redisOf w' s = redisOf w s;
  en_pubs : w_pubs w' = w_pubs w;
  en_clock : w_clock w <= w_clock w';
  en_calm : w_script w = [] -> w_script w' = [] /\ w_clock w' = w_clock w
}.

#[export] Instance enrols_preorder : PreOrder enrols.
Proof.
  split; [intros w; by split; try lia|]. intros w1 w2 w3 [S1 R1 P1 T1 C1] [S2 R2 P2 T2 C2]. split.
  - by apply (Shards.shardsOnly_trans _ (w_pg w2)).
  - intros s. by rewrite R2.
  - congruence.
  - lia.
  - intros H1. destruct (C1 H1) as [H2 <-]. auto.
Qed.

Lemma popTick_enrols w : enrols w (popTick w).2.
Proof.
  destruct (popTick_frame w) as (Hpg & Hr & Hp & _ & _ & Hc). split; unfold redisOf; rewrite ?Hpg, ?Hr; try done.
  intros H. unfold popTick. by rewrite H.
Qed.

Lemma pg_enrols {A} (f : Z -> pg -> result A * pg) (Q : result A -> Prop) :
  (forall now db, Shards.shardsOnly db (f now db).2) -> (forall r, Q r) -> each enrols (pgCall f) Q.
Proof.
  intros Hf HQ. apply each_act. intros w. split; [|done].
  destruct (pgAct_cases f w) as (now & Hle & Hnow & Hr & Hp & _ & _ & Hcase). split.
  - destruct Hcase as [[_ ->]|[_ [->| ->]]]; done.
  - intros s. unfold redisOf. by rewrite Hr.
  - done.
  - by rewrite Hnow.
  - intros H. by rewrite pgAct_calm.
Qed.

Lemma getNow_enrols (Q : Z -> Prop) : (forall t, Q t) -> each enrols getNow Q.
Proof. intros HQ. apply each_act. intros w. split; [reflexivity|done]. Qed.

Lemma randN_enrols n (Q : Z -> Prop) : (forall t, Q t) -> each enrols (randN n) Q.
Proof. intros HQ. apply each_act. intros w. destruct (w_entropy w); (split; [by split; cbn; try lia|done]). Qed.

Lemma randBytes_enrols n (Q : result (list Z) -> Prop) : (forall r, Q r) -> each enrols (randBytes n) Q.
Proof. intros HQ. apply each_act. intros w. split; [by split; cbn; try lia|apply HQ]. Qed.

Lemma AssignOrLookup_enrols a i (Q : result string -> Prop) : (forall r, Q r) -> each enrols (Shards.AssignOrLookup a i) Q.
Proof.
  intros HQ. unfold Shards.AssignOrLookup. apply each_bindErr, pg_enrols; [done|]. intros [[sh|]|e]; [by apply each_ret| |done].
  case_match; [|by apply each_ret]. apply each_bindErr, pg_enrols.
  { intros now db. unfold Shards.sqlAssign. by case_match. }
  intros [u|e]; [|done]. apply each_bindErr, pg_enrols; [done|]. intros [[sh|]|e]; [by apply each_ret..|done].
Qed.

(** An evaluator that keeps to itself. *)
Class EvaluatorLaws `(Trust.Evaluator) : Prop := {
  evaluate_law : forall i c, each enrols (Trust.Evaluate i c) (fun _ => True)
}.

(** The two evaluators of internal/trust do, the second if its HTTP client
    does. *)
Lemma AllowAll_laws : EvaluatorLaws Trust.AllowAll.
Proof. split. intros i c. by apply each_ret. Qed.

Lemma AuthZEN_laws `{!Trust.Http} `{!Trust.AuthzenJson} (e : Trust.AuthZENEvaluator) :
  (forall url body, each enrols (Trust.Do url body) (fun _ => True)) -> EvaluatorLaws (Trust.AuthZEN e).
Proof.
  intros Hdo. split. intros i c. cbn [Trust.Evaluate Trust.AuthZEN]. unfold Trust.evaluate.
  destruct (Trust.credentialKey c); [|by apply each_ret]. destruct (Trust.marshalRequest _); [|by apply each_ret].
  cbv zeta. case_match; [by apply each_ret|]. apply each_bindErr. eapply each_mono; [apply Hdo|].
  intros [resp|err] _; [|done]. repeat case_match; by apply each_ret.
Qed.

Section Enrolment.
Context `{!Signer.Ecdsa} `{!ClientAssertion.Jwt} `{!ClientAssertion.Keys} `{!Trust.Evaluator}.
Context `{!AuthServer.AccessTokens} `{!Float64.Conversion} `{!Issuing} `{!AsWire}.
Context `{!IssuingLaws} `{!AsWireLaws _} `{!EvaluatorLaws _}.

(** The token endpoint answers with a token or with an error status. *)
Definition tokenAnswer (r : AuthServer.response) : Prop :=
  match r with
  | AuthServer.TokenResponse _ _ _ => True
  | AuthServer.OAuthError c _ _ => c <> 200
  | _ => False
  end.

Lemma handleToken_enrols s gt at_ asrt : each enrols (AuthServer.handleToken s gt at_ asrt) tokenAnswer.
Proof.
  unfold AuthServer.handleToken. repeat (case_match; [by apply each_ret|]).
  apply each_bind, getNow_enrols. intros now. case_match; [|by apply each_ret]. case_match; [|by apply each_ret].
  cbv zeta. apply each_bind. eapply each_mono; [apply evaluate_law|]. intros [dec|e] _; [|by apply each_ret].
  case_match; [by apply each_ret|]. apply each_bind, AssignOrLookup_enrols. intros [sh|e]; [|by apply each_ret].
  apply each_bind. unfold AuthServer.Issue. case_match; [by repeat apply each_ret|].
  unfold AuthServer.randomID. apply each_bindErr, each_bindErr, randBytes_enrols. intros [b|e]; [|by apply each_ret].
  apply each_ret, each_bind, getNow_enrols. intros t. apply each_bind, randN_enrols. intros nonce. apply each_ret.
  case_match; by apply each_ret.
Qed.

(** An assertion as [assertion] makes it. *)
Definition made (ii : issuerIdentity) (audience : string) (t : Z) (asrt : string) : Prop :=
  exists jwk n, MarshalJWK (keyPublic ii) = Ok jwk /\
    SignedString (assertionHeader jwk) (claimsFor ii audience t) (key ii) n = Ok asrt.

Lemma made_nonempty ii audience t asrt : made ii audience t asrt -> asrt <> "".
Proof.
  intros (jwk & n & Hj & Hs) ->. destruct (header_law _ _ _ _ _ _ Hj Hs) as (h & _ & Hp & _).
  destruct empty_law as [e He]. congruence.
Qed.

(** The claims of an issuer and an audience in ASCII, made at a time Go has. *)
Definition plainTo (ii : issuerIdentity) (audience : string) (t : Z) : Prop :=
  GoStrings.isASCII (id ii) = true /\ GoStrings.isASCII audience = true /\ 0 <= t <= maxInt64.

Lemma claimsFor_plain ii audience t : plainTo ii audience t -> plainClaims (claimsFor ii audience t).
Proof.
  intros (Hi & Ha & Ht). split; [by repeat constructor|]. unfold claimsFor, wholeSeconds, numericDate.
  cbn [ClientAssertion.ExpiresAt ClientAssertion.IssuedAt].
  split; eexists; (split; [reflexivity|]); unfold minute, second, maxInt64 in *; Z.div_mod_to_equations; lia.
Qed.

(** Whatever becomes of it, it verifies for nobody else. *)
Lemma made_issuer ii audience t asrt aud now r :
  plainTo ii audience t -> made ii audience t asrt -> ClientAssertion.Verify asrt aud now = Ok r ->
  ClientAssertion.IssuerID r = id ii.
Proof.
  intros Hplain (jwk & n & Hj & Hs) (pk & cl & _ & Hp & _ & <- & _)%ClientAssertion.Verify_ok.
  by rewrite (claims_law _ _ _ _ _ _ _ _ _ _ _ Hj (claimsFor_plain _ _ _ Hplain) Hs Hp).
Qed.

(** Where it was made for, at the time it was made, it verifies. *)
Lemma made_verifies ii audience t asrt :
  Signer.Public (key ii) = Some (keyPublic ii) -> id ii <> "" -> plainTo ii audience t -> made ii audience t asrt ->
  exists jwk, ClientAssertion.Verify asrt audience t = Ok (ClientAssertion.MkResult (id ii) (Some jwk) []).
Proof.
  intros Hpk Hid Hplain (jwk & n & Hj & Hs).
  destruct (header_law _ _ _ _ _ _ Hj Hs) as (h & m & Hh & Hjwk & Hx5c & Hkey). exists m.
  unfold ClientAssertion.Verify. rewrite Hh. cbn [result_bind].
  assert (ClientAssertion.resolveProofOfPossession h = Ok (keyPublic ii, Some m, [])) as ->.
  { unfold ClientAssertion.resolveProofOfPossession. rewrite Hjwk, Hx5c. simpl. by rewrite Hkey. }
  cbn [result_bind].
  rewrite (accept_law _ _ _ _ _ _ audience t (numericDate (t + minute)) Hj (claimsFor_plain _ _ _ Hplain) Hs);
    try done; [|by left|unfold numericDate, minute, second; Z.div_mod_to_equations; lia|].
  2: { intros t' [= <-]. unfold numericDate, second. Z.div_mod_to_equations. lia. }
  cbn [result_bind claimsFor ClientAssertion.Subject ClientAssertion.Issuer].
  rewrite bool_decide_false, bool_decide_true by done. cbn [orb negb]. unfold ClientAssertion.lifetimeOk.
  cbn [claimsFor ClientAssertion.IssuedAt ClientAssertion.ExpiresAt].
  destruct (Z.leb_spec (timeSub (numericDate (t + minute)) (numericDate t)) ClientAssertion.maxLifetime) as [|Hgt]; [done|].
  exfalso. revert Hgt. unfold timeSub, ClientAssertion.maxLifetime, numericDate, minute, second, minInt64, maxInt64.
  Z.div_mod_to_equations. lia.
Qed.

Lemma assertion_wp ii audience w :
  wp (assertion ii audience) (fun out w' => enrols w w' /\
    match out with Ok asrt => made ii audience (w_clock w) asrt | Err _ => True end) w.
Proof.
  apply wp_and.
  - eapply wp_mono.
    { apply (each_wp enrols _ (fun _ => True)). unfold assertion. apply each_bind, getNow_enrols. intros t.
      apply each_bindErr, each_ret. case_match; [|done]. apply each_bind, randN_enrols. intros n. by apply each_ret. }
    by intros out w' [].
  - unfold assertion. apply wp_bind, wp_getNow. apply wp_bindErr, wp_ret.
    destruct (MarshalJWK (keyPublic ii)) as [jwk|e] eqn:Hj; [|done]. apply wp_bind, wp_randN. intros n w' _.
    apply wp_ret. destruct (SignedString _ _ _ _) as [asrt|e] eqn:Hs; [|done]. by exists jwk, n.
Qed.


(** ** The token request *)

Context (validators : Z -> Ingress.Validator) (s : AuthServer.Server).
Context `{!AuthServer.ValidatorLaws validators (AuthServer.JWKS (AuthServer.km s)) (AuthServer.BaseURL s)
  (AuthServer.AccessTokenAudience s)}.
Context (Hserver : AuthServer.presentableServer s).

(** A token for this issuer and its shard, from now on until it expires. *)
Definition tokenFor (issuer tok : string) (w : world) : Prop :=
  exists shard, Shards.assigned issuer shard w /\
    forall now, AuthServer.presentable shard -> AuthServer.fresh s (w_clock w) now ->
      Ingress.Validate (Validator := validators now) tok = inl (Ingestion.MkResult issuer shard ["r"; "i"; "w"]).

Lemma tokenURL_ascii : GoStrings.isASCII (AuthServer.BaseURL s +:+ "/token") = true.
Proof.
  unfold AuthServer.presentableServer in Hserver. rewrite !Forall_cons in Hserver.
  destruct Hserver as (_ & [_ Hb] & _). unfold GoStrings.isASCII in *. by rewrite GoStrings.allChars_app, Hb.
Qed.

Lemma tokenForm_fields asrt :
  PostForm (Encode (tokenForm asrt)) "grant_type" = AuthServer.grantTypeClientCredentials /\
  PostForm (Encode (tokenForm asrt)) "client_assertion_type" = AuthServer.clientAssertionTypeJWTBearer /\
  PostForm (Encode (tokenForm asrt)) "client_assertion" = asrt.
Proof.
  assert (NoDup (tokenForm asrt).*1) as Hnd by (apply (bool_decide_unpack _); vm_compute; exact I).
  split_and!; apply form_law; try done; unfold tokenForm; set_solver.
Qed.

Lemma handleToken_wp ii audience t asrt w :
  Shards.shards (AuthServer.shards s) <> [] -> AuthServer.presentable (id ii) -> plainTo ii audience t ->
  made ii audience t asrt ->
  wp (AuthServer.handleToken s AuthServer.grantTypeClientCredentials AuthServer.clientAssertionTypeJWTBearer asrt)
    (fun r w' => enrols w w' /\
      tokenAnswer r /\
      match r with
      | AuthServer.TokenResponse tok _ _ => AuthServer.presentable tok /\ tokenFor (id ii) tok w'
      | _ => True
      end) w.
Proof.
  intros Hne Hii Hplain Hm. eapply wp_mono; [apply wp_and; [apply (each_wp enrols), handleToken_enrols|]|].
  2: { intros r w' ([? ?] & Hr). split_and!; [done|done|]. exact Hr. }
  - unfold wp. destruct (run _ w) as [r w'] eqn:Hrun. cbn [fst snd]. destruct r as [|tok ty ex| |]; try done.
    apply AuthServer.handleToken_ok in Hrun as (result & cred & dec & sh & w1 & w2 & Hv & _ & _ & _ & Ha & Hpg & Htac & Hmint).
    rewrite (made_issuer _ _ _ _ _ _ _ Hplain Hm Hv) in *. split.
    { destruct Hmint as (jti & nonce & Hs). apply (AuthServer.serialize_law _ _ _ _ _ Hs). }
    exists sh. split.
    + unfold Shards.assigned. rewrite Hpg. by apply (Shards.AssignOrLookup_run _ _ _ _ _ Hne Ha).
    + intros now Hsh Hfresh. by apply (AuthServer.minted_validates validators s _ _ (w_clock w')).
Qed.

Lemma fetchToken_wp ii w :
  Shards.shards (AuthServer.shards s) <> [] -> AuthServer.presentable (id ii) -> 0 <= w_clock w <= maxInt64 ->
  wp (fetchToken (net := asClient s (AuthServer.BaseURL s)) (AuthServer.BaseURL s) ii)
    (fun out w' => enrols w w' /\ match out with Ok tok => tok <> "" /\ tokenFor (id ii) tok w' | Err _ => True end) w.
Proof.
  intros Hne Hii Hclock. assert (plainTo ii (AuthServer.BaseURL s +:+ "/token") (w_clock w)) as Hplain.
  { split; [apply Hii|]. by split; [apply tokenURL_ascii|]. }
  unfold fetchToken. cbv zeta. apply wp_bindErr. eapply wp_mono; [apply assertion_wp|].
  intros [asrt|e] w1 [He1 Hm]; [|done]. apply wp_bindErr. cbn [LoadTest.Do asClient]. unfold atAS.
  cbn [LoadTest.rURL]. rewrite GoStrings.CutPrefix_app. cbv iota. cbn [LoadTest.rMethod LoadTest.rBody].
  unfold asRoute. rewrite !bool_decide_true by done. cbn [andb].
  destruct (tokenForm_fields asrt) as (-> & -> & ->). cbn [AuthServer.route].
  unfold EndToEnd.overNetwork. apply wp_bind, wp_act. pose proof (popTick_enrols w1) as He2.
  destruct (popTick w1) as [ft w2]. cbn [fst snd] in *. assert (enrols w w2) as He by (by etrans).
  destruct ft; [| |].
  - apply wp_bind, wp_bind. eapply wp_mono; [by apply (handleToken_wp ii _ _ asrt w2 Hne Hii Hplain Hm)|].
    intros r w3 (He3 & Hans & Hr). assert (enrols w w3) by (by etrans). apply wp_ret, wp_ret.
    destruct r as [c m d'|tok ty ex| |]; [| |done..]; cbn [asReply fst snd].
    + rewrite (proj2 (Z.eqb_neq _ _) Hans). by apply wp_ret.
    + cbn [Z.eqb negb]. destruct Hr as [[Hn Ha] Hr]. rewrite token_law by done. apply wp_bindErr, wp_ret.
      case_bool_decide; by apply wp_ret.
  - by apply wp_ret.
  - apply wp_bind, wp_bind. eapply wp_mono; [by apply (handleToken_wp ii _ _ asrt w2 Hne Hii Hplain Hm)|].
    intros r w3 [He3 Hr]. apply wp_ret, wp_ret. by split; [etrans|].
Qed.

(** ** A setup that nothing disturbs *)

Lemma wp_pg_calm {A} (f : Z -> pg -> result A * pg) (Q : result A -> world -> Prop) w :
  w_script w = [] ->
  (forall w', w_script w' = [] -> w_pg w' = (f (w_clock w) (w_pg w)).2 -> Q (f (w_clock w) (w_pg w)).1 w') ->
  wp (pgCall f) Q w.
Proof. intros Hw HQ. apply wp_act. rewrite pgAct_calm by done. by apply HQ. Qed.

Lemma AssignOrLookup_calm a i w :
  Shards.shards a <> [] -> w_script w = [] ->
  wp (Shards.AssignOrLookup a i) (fun r w' => w_script w' = [] /\ exists sh, r = Ok sh) w.
Proof.
  intros Hne Hw. unfold Shards.AssignOrLookup. apply wp_bindErr, wp_pg_calm; [done|]. intros w1 Hw1 Hpg1.
  cbn [Shards.sqlShard fst snd] in *. destruct (issuer_shard (w_pg w) !! i) as [row|] eqn:Hi;
    cbn [fmap option_fmap option_map]; [apply wp_ret; eauto|].
  destruct (Shards.candidate_exists a i Hne) as (cand & -> & _).
  apply wp_bindErr, wp_pg_calm; [done|]. intros w2 Hw2 Hpg2. rewrite Hpg1 in *.
  unfold Shards.sqlAssign in *. rewrite Hi in *. cbn [fst snd] in *.
  apply wp_bindErr, wp_pg_calm; [done|]. intros w3 Hw3 _. rewrite Hpg2.
  cbn [Shards.sqlShard fst Shards.setShards issuer_shard]. rewrite lookup_insert_eq. apply wp_ret. eauto.
Qed.

(** The parties are able and willing: the issuer has a key it can sign with,
    the evaluator trusts it when nothing fails, and the server can sign. *)
Record willing (ii : issuerIdentity) : Prop := {
  wl_key : Signer.Public (key ii) = Some (keyPublic ii);
  wl_jwk : exists m, MarshalJWK (keyPublic ii) = Ok m;
  wl_sign : forall m cl n, MarshalJWK (keyPublic ii) = Ok m ->
    exists tok, SignedString (assertionHeader m) cl (key ii) n = Ok tok;
  wl_trust : forall cred w, w_script w = [] -> wp (Trust.Evaluate (id ii) cred) (fun r _ => exists dec, r = Ok dec /\ Trust.Trusted dec = true) w;
  wl_shards : Shards.shards (AuthServer.shards s) <> [];
  wl_tac : AuthServer.validTAC "riw" = true;
  wl_mint : forall cl n, exists tok,
    AuthServer.serialize (AuthServer.key (AuthServer.km s)) (AuthServer.keyID (AuthServer.km s)) cl n = Ok tok
}.

Lemma handleToken_calm ii asrt w :
  willing ii -> id ii <> "" -> plainTo ii (AuthServer.BaseURL s +:+ "/token") (w_clock w) ->
  made ii (AuthServer.BaseURL s +:+ "/token") (w_clock w) asrt -> w_script w = [] ->
  wp (AuthServer.handleToken s AuthServer.grantTypeClientCredentials AuthServer.clientAssertionTypeJWTBearer asrt)
    (fun r _ => exists tok ex, r = AuthServer.TokenResponse tok "Bearer" ex /\ AuthServer.presentable tok) w.
Proof.
  intros Hwl Hid Hplain Hm Hw. unfold AuthServer.handleToken. pose proof (made_nonempty _ _ _ _ Hm) as Hne.
  rewrite !bool_decide_true by done. rewrite bool_decide_false by done. cbn [negb].
  apply wp_bind, wp_getNow. destruct (made_verifies ii _ _ _ (wl_key _ Hwl) Hid Hplain Hm) as [jwk ->].
  cbn [AuthServer.credentialOf ClientAssertion.rJWK ClientAssertion.IssuerID]. cbv zeta. apply wp_bind. eapply wp_mono.
  { apply wp_and; [apply (each_wp enrols), evaluate_law|by apply (wl_trust _ Hwl)]. }
  intros dec w1 ([[_ _ _ _ Hc] _] & dec' & -> & Ht). rewrite Ht. cbn [negb]. destruct (Hc Hw) as [Hw1 _].
  apply wp_bind. eapply wp_mono; [by apply AssignOrLookup_calm, Hw1; apply Hwl|]. intros sh w2 (Hw2 & sh' & ->).
  apply wp_bind. unfold AuthServer.Issue. cbn [AuthServer.pTAC]. rewrite (wl_tac _ Hwl). cbn [negb].
  apply wp_bindErr. unfold AuthServer.randomID. apply wp_bindErr, wp_act, wp_ret. apply wp_bind, wp_getNow.
  apply wp_bind, wp_randN. intros n w3 _. apply wp_ret.
  match goal with |- context [AuthServer.serialize _ _ ?cl n] => destruct (wl_mint _ Hwl cl n) as (tok & Hmint) end.
  rewrite Hmint. apply wp_ret. eexists tok, _. split; [done|]. apply (AuthServer.serialize_law _ _ _ _ _ Hmint).
Qed.

Lemma fetchToken_calm ii w :
  willing ii -> AuthServer.presentable (id ii) -> 0 <= w_clock w <= maxInt64 -> w_script w = [] ->
  wp (fetchToken (net := asClient s (AuthServer.BaseURL s)) (AuthServer.BaseURL s) ii)
    (fun out _ => exists tok, out = Ok tok) w.
Proof.
  intros Hwl [Hid Hai] Hclk Hw. unfold fetchToken. cbv zeta. apply wp_bindErr. eapply wp_mono.
  { apply wp_and; [apply assertion_wp|]. instantiate (1 := fun out _ => exists asrt, out = Ok asrt).
    unfold assertion. apply wp_bind, wp_getNow, wp_bindErr, wp_ret. destruct (wl_jwk _ Hwl) as [m Hj]. rewrite Hj.
    apply wp_bind, wp_randN. intros n w' _. by apply wp_ret, (wl_sign _ Hwl). }
  intros out w1 ([[_ _ _ _ Hc] Hm] & asrt & ->). destruct (Hc Hw) as [Hw1 Hclock]. rewrite <- Hclock in Hm, Hclk.
  assert (plainTo ii (AuthServer.BaseURL s +:+ "/token") (w_clock w1)) as Hplain by (split; [|split]; auto using tokenURL_ascii).
  apply wp_bindErr. cbn [LoadTest.Do asClient]. unfold atAS.
  cbn [LoadTest.rURL]. rewrite GoStrings.CutPrefix_app. cbv iota. cbn [LoadTest.rMethod LoadTest.rBody].
  unfold asRoute. rewrite !bool_decide_true by done. cbn [andb].
  destruct (tokenForm_fields asrt) as (-> & -> & ->). cbn [AuthServer.route].
  unfold EndToEnd.overNetwork. apply wp_bind, wp_act. unfold popTick. rewrite Hw1. cbn [fst snd].
  apply wp_bind, wp_bind. eapply wp_mono; [by apply (handleToken_calm ii asrt)|].
  intros r w2 (tok & ex & -> & [Hn Ha]). apply wp_ret, wp_ret. cbn [asReply fst snd Z.eqb negb].
  rewrite token_law by done. apply wp_bindErr, wp_ret. rewrite bool_decide_false by done. apply wp_ret. eauto.
Qed.

End Enrolment.

(** ** An example

    Assertions and forms as binary numerals that can be read back, the
    evaluator that trusts everybody, and the deployment of EndToEnd.v. *)

#[local] Existing Instances Token.Concrete.ecdsa Token.Concrete.ecdsa_laws Token.Concrete.zlib
  Token.Concrete.zlib_laws Token.Concrete.json Token.Concrete.json_laws Token.Concrete.methods
  Cwt.Concrete.cbor Cwt.Concrete.cbor_laws Ingress.exampleURLs LoadTest.exampleWire LoadTest.exampleWire_laws
  AuthServer.exampleConversion AuthServer.exampleTokens AuthServer.exampleValidator AuthServer.exampleValidator_laws
  ClientAssertion.exampleKeys Trust.AllowAll.

Definition claimsTuple (cl : ClientAssertion.RegisteredClaims) : string * string * list string * option Z * option Z :=
  (ClientAssertion.Issuer cl, ClientAssertion.Subject cl, ClientAssertion.Audience cl,
   ClientAssertion.ExpiresAt cl, ClientAssertion.IssuedAt cl).

Definition claimsRead (t : string) : option ClientAssertion.RegisteredClaims :=
  match AuthServer.ofBits t ≫= decode with
  | Some (i, sub, aud, exp, iat) => Some (ClientAssertion.MkRegisteredClaims i sub aud exp iat)
  | None => None
  end.

Lemma claimsRead_bits cl : claimsRead (AuthServer.bits (encode (claimsTuple cl))) = Some cl.
Proof.
  unfold claimsRead. rewrite AuthServer.ofBits_bits. cbn [mbind option_bind]. rewrite decode_encode. by destruct cl.
Qed.

#[local] Instance exampleIssuing : Issuing := {|
  GenerateKey _ := Ok (Token.Concrete.key, Token.Concrete.pub);
  MarshalJWK _ := Ok [];
  SignedString _ cl _ _ := Ok (AuthServer.bits (encode (claimsTuple cl)))
|}.

#[local] Instance exampleJwt : ClientAssertion.Jwt := {|
  ClientAssertion.ParseUnverified t :=
    match claimsRead t with Some _ => Ok (assertionHeader []) | None => Err (ErrMsg "token is malformed") end;
  ClientAssertion.ParseWithClaims t _ _ aud now :=
    match claimsRead t with
    | Some cl =>
        if bool_decide (aud ∈ ClientAssertion.Audience cl) &&
           match ClientAssertion.ExpiresAt cl with Some e => now <? e | None => false end
        then Ok cl else Err (ErrMsg "token is invalid")
    | None => Err (ErrMsg "token is malformed")
    end;
  ClientAssertion.hasSignature _ _ := True
|}.

#[local] Instance exampleIssuing_laws : IssuingLaws.
Proof.
  split.
  - intros pk m cl k n tok [= <-] [= <-]. exists (assertionHeader []), []. cbn. rewrite claimsRead_bits.
    split_and!; [done..|]. by destruct pk.
  - intros pk m cl k n tok pk' ms aud now cl' [= <-] _ [= <-]. cbn. rewrite claimsRead_bits.
    by case_match; intros [= <-].
  - intros pk m cl k n tok aud now e [= <-] _ [= <-] _ Ha He Hn _. cbn. rewrite claimsRead_bits, He.
    rewrite bool_decide_true by done. by replace (now <? e) with true by lia.
  - eexists. reflexivity.
Qed.

(** A form: each name and value, with separators no byte equals. *)
Definition formBytes (fields : list (string * string)) : list Z :=
  fields ≫= fun kv => GoStrings.bytesOf kv.1 ++ -1 :: GoStrings.bytesOf kv.2 ++ [-2].

Fixpoint cut (sep : Z) (b : list Z) : list Z * list Z :=
  match b with
  | [] => ([], [])
  | x :: b => if x =? sep then ([], b) else let '(l, r) := cut sep b in (x :: l, r)
  end.

Fixpoint formValue (n : nat) (b : list Z) (k : string) : string :=
  match n with
  | O => ""
  | S n =>
      let '(name, r) := cut (-1) b in
      let '(value, r) := cut (-2) r in
      if bool_decide (GoStrings.stringOf name = k) then GoStrings.stringOf value else formValue n r k
  end.

Lemma cut_bytes sep s r : sep < 0 -> cut sep (GoStrings.bytesOf s ++ sep :: r) = (GoStrings.bytesOf s, r).
Proof.
  intros Hsep. pose proof (GoStrings.bytesOf_ok s) as Hok. induction Hok as [|x l Hx Hl IH]; cbn [app cut].
  - by rewrite Z.eqb_refl.
  - rewrite (proj2 (Z.eqb_neq x sep)) by lia. by rewrite IH.
Qed.

Lemma formValue_fields fields k v n :
  (length fields <= n)%nat -> NoDup fields.*1 -> (k, v) ∈ fields -> formValue n (formBytes fields) k = v.
Proof.
  revert n. induction fields as [|[k1 v1] fields IH]; intros n Hn Hnd Hin; [by apply not_elem_of_nil in Hin|].
  destruct n as [|n]; [simpl in Hn; lia|]. cbn [formValue]. unfold formBytes. cbn [mbind list_bind fst snd].
  rewrite <- app_assoc. cbn [app]. rewrite cut_bytes by lia. rewrite <- app_assoc. cbn [app].
  rewrite cut_bytes by lia. rewrite !GoStrings.stringOf_bytesOf.
  apply NoDup_cons in Hnd as [Hk Hnd]. apply elem_of_cons in Hin as [[= -> ->]|Hin].
  - by rewrite bool_decide_true.
  - rewrite bool_decide_false; [apply IH; [simpl in Hn; lia|done..]|]. intros ->.
    apply Hk. apply list_elem_of_fmap. by exists (k, v).
Qed.

Lemma formBytes_length fields : (length fields <= length (formBytes fields))%nat.
Proof.
  induction fields as [|kv fields IH]; [done|].
  change (formBytes (kv :: fields)) with
    ((GoStrings.bytesOf kv.1 ++ -1 :: GoStrings.bytesOf kv.2 ++ [-2]) ++ formBytes fields).
  rewrite !length_app. cbn [length]. lia.
Qed.

#[local] Instance exampleAsWire : AsWire := {|
  Encode := formBytes;
  PostForm b k := formValue (length b) b k;
  renderToken tok _ _ := GoStrings.bytesOf tok;
  decodeToken b := Ok (GoStrings.stringOf b)
|}.

#[local] Instance exampleAsWire_laws : AsWireLaws exampleAsWire.
Proof.
  split.
  - intros fields k v Hnd Hin. apply formValue_fields; [|done..]. apply formBytes_length.
  - intros tok ty ex _. cbn. by rewrite GoStrings.stringOf_bytesOf.
Qed.

#[local] Existing Instance AllowAll_laws.

Definition exampleAS : AuthServer.Server :=
  AuthServer.MkServer "https://as" hour "siros-status-service" (AuthServer.MkKeyManager tt "as-1")
    (Shards.MkShardAssigner ["s1"]).

Definition exampleIdentity : issuerIdentity := MkIssuerIdentity "loadtest-issuer-0" Token.Concrete.key Token.Concrete.pub.

Lemma example_willing : willing exampleAS exampleIdentity.
Proof.
  split; try done.
  - by eexists.
  - intros m cl n [= <-]. by eexists.
  - intros cred w _. apply wp_ret. by eexists.
  - intros cl n. by eexists.
Qed.

(** ** Properties *)

(** C35: an issuer with a fresh key gets its own token, and nobody else's. The
    tool builds a client assertion and posts it to the token endpoint over a
    network and a database that may fail at any point; the names of the issuer
    and of the server are text that JSON carries unchanged. Only the assignment
    of issuers to shards changes, and time only passes. If a token comes back,
    then from that instant up to the second in which its lifetime ends the
    validators accept it as this issuer's, for the shard the table assigns to it;
    a lifetime that is not positive leaves no such instant. And if nothing fails,
    the evaluator trusts the key and everybody can sign, a token comes back. *)
Theorem enrolment `{!Signer.Ecdsa} `{!ClientAssertion.Jwt} `{!ClientAssertion.Keys} `{!Trust.Evaluator}
    `{!AuthServer.AccessTokens} `{!Float64.Conversion} `{!Issuing} `{!AsWire}
    `{!IssuingLaws} `{!AsWireLaws _} `{!EvaluatorLaws _} (validators : Z -> Ingress.Validator) (s : AuthServer.Server)
    `{!AuthServer.ValidatorLaws validators (AuthServer.JWKS (AuthServer.km s)) (AuthServer.BaseURL s)
        (AuthServer.AccessTokenAudience s)}
    (ii : issuerIdentity) (w : world) :
  Shards.shards (AuthServer.shards s) <> [] -> AuthServer.presentableServer s -> AuthServer.presentable (id ii) ->
  0 <= w_clock w <= maxInt64 ->
  let '(out, w') := run (fetchToken (net := asClient s (AuthServer.BaseURL s)) (AuthServer.BaseURL s) ii) w in
  enrols w w' /\
  (forall tok, out = Ok tok ->
     exists shard, Shards.assigned (id ii) shard w' /\
       forall now, AuthServer.presentable shard -> AuthServer.fresh s (w_clock w') now ->
         Ingress.Validate (Validator := validators now) tok =
           inl (Ingestion.MkResult (id ii) shard ["r"; "i"; "w"])) /\
  (willing s ii -> w_script w = [] -> exists tok, out = Ok tok).
Proof.
  intros Hne Hserver Hii Hclock. pose proof (fetchToken_wp validators s Hserver ii w Hne Hii Hclock) as Hwp.
  pose proof (fun Hwl => fetchToken_calm validators s Hserver ii w Hwl Hii Hclock) as Hcalm.
  unfold wp in *. destruct (run _ w) as [out w']. cbn [fst snd] in *. destruct Hwp as [He Hout].
  split_and!; [done| |done]. intros tok ->. apply Hout.
Qed.

(** Accepted ten minutes after it was fetched. *)
Lemma enrolment_witness :
  exists tok, (run (fetchToken (net := asClient exampleAS "https://as") "https://as" exampleIdentity)
    (Ingestion.exampleWorld 2)).1 = Ok tok /\
  exists now shard, Ingress.Validate (Validator := AuthServer.exampleValidator now) tok =
    inl (Ingestion.MkResult "loadtest-issuer-0" shard ["r"; "i"; "w"]).
Proof.
  assert (AuthServer.presentable "s1") as Hs1 by (split; [discriminate|reflexivity]).
  assert (0 <= w_clock (Ingestion.exampleWorld 2) <= 2 ^ 62) as Hclock by (vm_compute; split; discriminate).
  pose proof (enrolment AuthServer.exampleValidator exampleAS exampleIdentity (Ingestion.exampleWorld 2)
    ltac:(discriminate) ltac:(repeat constructor; discriminate) ltac:(split; [discriminate|reflexivity])
    ltac:(unfold maxInt64; lia)) as Hen.
  change (AuthServer.BaseURL exampleAS) with "https://as" in Hen. destruct (run _ _) as [out w'] eqn:E.
  destruct Hen as (Hw' & Hfor & Hgot). destruct (Hgot example_willing eq_refl) as [tok ->].
  exists tok. split; [done|]. destruct (Hfor tok eq_refl) as (shard & Ha & Hv).
  exists (w_clock w'), shard. apply Hv.
  - apply (f_equal snd) in E. cbn [snd] in E. subst w'. destruct Ha as (row & Hrow & <-).
    vm_compute in Hrow. injection Hrow as <-. exact Hs1.
  - destruct (en_calm _ _ Hw' eq_refl) as [_ ->].
    unfold AuthServer.fresh, maxInt64. cbn [exampleAS AuthServer.AccessTokenTTL]. unfold hour, minute, second.
    split_and!; Z.div_mod_to_equations; lia.
Defined.

(** A worker that has the deployment for itself sees what it writes. Let one
    worker, with a token that stays valid, make any number of rounds with any
    mix of allocations, status changes, accounting queries and lifecycles,
    against a deployment whose parts are configured for each other and whose
    network and stores fail in any way, while nobody else is using it and no
    background pass runs: it never finds a published status other than the one
    it wrote. *)
Theorem lone_worker_is_clean
    `{!Signer.Ecdsa} `{!Token.Zlib} `{!Token.Json} `{!Cwt.Cbor} `{!Token.JwtMethods}
    `{!Signer.EcdsaLaws _} `{!Token.ZlibLaws _} `{!Token.JsonLaws _} `{!Cwt.CborLaws _}
    `{!Ingress.Validator} `{!Ingress.URLs} `{!LoadTest.Wire} `{!LoadTest.WireLaws _}
    (d : EndToEnd.Deployment) (pk : Signer.public) (issuer token : string) (res : Ingestion.Result)
    (rounds : nat) (weights : LoadTest.opWeights) (w w' : world) (result : LoadTest.workerResult) :
  EndToEnd.deployed d pk -> ready d w -> token <> "" -> Ingress.Validate token = inl res ->
  run (LoadTest.runWorker (net := EndToEnd.client d) rounds (EndToEnd.ingressURL d) token weights
    (LoadTest.newWorkerResult issuer)) w = (result, w') ->
  LoadTest.mismatches result = [] /\ ready d w'.
Proof.
  intros Hdep Hw Ht Hv Hrun.
  pose proof (runWorker_clean d pk Hdep token res Ht Hv rounds weights (LoadTest.newWorkerResult issuer) w Hw) as Hwp.
  unfold wp in Hwp. rewrite Hrun in Hwp. by destruct Hwp.
Qed.

End Campaign.
