(* ===== verification/LoadReport.v ===== *)
(** * tools/loadtest: the run and what it prints

    [balance] is printPoolBalance and [mismatchTotal] the count of
    printLifecycleMismatches; [loadRun] is the whole of [run], from the setup to
    the check against the stores, the workers in any interleaving of their
    commands. The rows of the balance come out of a map and an unstable sort, so
    they are any ordering that is sorted. *)

From Stdlib Require Import SpecFloat.
From S2P Require Import Prelude Float64 GoStrings Signer Bitmap Token Cwt Prog World MetaStore BitmapStore Rely Publisher Ingestion Verifier Ingress Shards Trust ClientAssertion AuthServer LoadTest EndToEnd Campaign.

Module LoadReport.
Import LoadTest.

(** ** printPoolBalance *)

(** [perList[a.listID]++] *)
Definition countList (m : gmap string Z) (a : allocRecord) : gmap string Z :=
  <[listID a := default 0 (m !! listID a) + 1]> m.

Definition perList (results : list workerResult) : gmap string Z :=
  foldl (fun m r => foldl countList m (allocs r)) ∅ results.

Definition total (results : list workerResult) : Z :=
  foldl (fun n r => foldl (fun n _ => n + 1) n (allocs r)) 0 results.

Definition mean (results : list workerResult) : spec_float :=
  Float64.div (Float64.ofInt (total results)) (Float64.ofInt (Z.of_nat (size (perList results)))).

(** The constant 1.5. *)
Definition oneAndHalf : spec_float := Float64.div (Float64.ofInt 3) (Float64.ofInt 2).

Definition flagged (results : list workerResult) (count : Z) : bool :=
  SFltb (Float64.mul (mean results) oneAndHalf) (Float64.ofInt count).

(** The rows that are printed, with their flags; none when nothing was
    allocated. *)
Inductive balance (results : list workerResult) : list (string * Z * bool) -> Prop :=
| balance_none : total results = 0 \/ perList results = ∅ -> balance results []
| balance_rows rows :
    total results <> 0 -> perList results <> ∅ ->
    rows ≡ₚ map_to_list (perList results) -> StronglySorted (fun a b => b.2 <= a.2) rows ->
    balance results ((fun '(id, c) => (id, c, flagged results c)) <$> rows).

(** ** printLifecycleMismatches *)

Definition mismatchTotal (results : list workerResult) : Z :=
  foldl (fun n r => n + Z.of_nat (length (mismatches r))) 0 results.

(** ** Counting *)

Lemma foldl_countList l m id :
  default 0 (foldl countList m l !! id) =
  default 0 (m !! id) + Z.of_nat (length (filter (fun a => listID a = id) l)).
Proof.
  revert m. induction l as [|a l IH]; intros m; [cbn; lia|]. cbn [foldl]. rewrite IH, filter_cons.
  unfold countList. case_decide as Ha.
  - subst id. rewrite lookup_insert_eq. cbn [default length]. unfold id. lia.
  - by rewrite lookup_insert_ne.
Qed.

Lemma perList_foldl results m :
  foldl (fun m r => foldl countList m (allocs r)) m results = foldl countList m (results ≫= allocs).
Proof.
  revert m. induction results as [|r results IH]; intros m; [done|]. cbn [foldl mbind list_bind].
  by rewrite IH, foldl_app.
Qed.

Lemma foldl_length {A} (l : list A) n : foldl (fun n _ => n + 1) n l = n + Z.of_nat (length l).
Proof. revert n. induction l as [|x l IH]; intros n; [cbn; lia|]. cbn [foldl length]. rewrite IH. lia. Qed.

Lemma total_foldl results n :
  foldl (fun n r => foldl (fun n _ => n + 1) n (allocs r)) n results = n + Z.of_nat (length (results ≫= allocs)).
Proof.
  revert n. induction results as [|r results IH]; intros n; [cbn; lia|]. cbn [foldl mbind list_bind].
  rewrite IH, foldl_length, length_app. lia.
Qed.

Definition sumCounts (l : list (string * Z)) : Z := foldr (fun p n => p.2 + n) 0 l.

Lemma sumCounts_cons p l : sumCounts (p :: l) = p.2 + sumCounts l.
Proof. done. Qed.

#[local] Instance sumCounts_Permutation : Proper ((≡ₚ) ==> (=)) sumCounts.
Proof. intros l l' Hp. induction Hp; rewrite ?sumCounts_cons; lia. Qed.

(** One more allocation is one more in the sum. *)
Lemma sum_countList m a : sumCounts (map_to_list (countList m a)) = sumCounts (map_to_list m) + 1.
Proof.
  unfold countList. destruct (m !! listID a) as [c|] eqn:Hc; cbn [default].
  - rewrite <- (insert_delete_id m (listID a) c Hc) at 2. rewrite <- insert_delete_eq.
    rewrite !map_to_list_insert by apply lookup_delete_eq. rewrite !sumCounts_cons. cbn. unfold id. lia.
  - rewrite map_to_list_insert by done. rewrite sumCounts_cons. cbn. lia.
Qed.

Lemma sum_foldl l m :
  sumCounts (map_to_list (foldl countList m l)) = sumCounts (map_to_list m) + Z.of_nat (length l).
Proof.
  revert m. induction l as [|a l IH]; intros m; [cbn; lia|]. cbn [foldl length]. rewrite IH, sum_countList. lia.
Qed.

Lemma foldl_dom l m : dom (foldl countList m l) = dom m ∪ list_to_set (listID <$> l).
Proof.
  revert m. induction l as [|a l IH]; intros m; [cbn; set_solver|]. cbn [foldl]. rewrite IH.
  unfold countList. rewrite dom_insert_L. cbn. set_solver.
Qed.

(** A sum is at most its length times its greatest term. *)
Lemma sumCounts_bound l c : Forall (fun p : string * Z => p.2 <= c) l -> sumCounts l <= Z.of_nat (length l) * c.
Proof.
  induction 1 as [|p l Hp _ IH]; [done|]. rewrite sumCounts_cons. cbn [length]. lia.
Qed.

(** ** The run *)

Record runConfig := MkRunConfig {
  numIssuers : nat;
  weights : opWeights;
  verify : bool;
  shardRedisURLs : gmap string string
}.

Section Run.
Context `{!Signer.Ecdsa} `{!Campaign.Issuing} `{!Campaign.AsWire} `{!Token.Zlib} `{!Token.Json} `{!Token.JwtMethods}.
Context {net : Client} `{!Wire} `{!Float64.Conversion}.
Context (parseRedisURL : string -> bool) (asURL ingressURL : string).

(** The end of [run]: the check against the stores, if it was asked for. *)
Definition finish (cfg : runConfig) (results : list workerResult) : prog world (result unit) :=
  if verify cfg then verifyDecoySafety parseRedisURL (shardRedisURLs cfg) results else Ret (Ok tt).

(** The goroutines that [run] starts after the setup; [counts] are the rounds
    that each gets to make before the deadline. *)
Definition workersOf (prepared : list (Campaign.issuerIdentity * string)) (counts : list nat) : list worker :=
  zip_with (fun x n => MkWorker (Campaign.id x.1) x.2 n) prepared counts.

(** [run]: what the workers recorded when the report is printed, and what it
    returns. The workers run concurrently, command by command, with each other
    and with whatever else happens to the world. *)
Inductive loadRun (cfg : runConfig) (w : world) (counts : list nat) :
    option (list workerResult) -> result unit -> world -> Prop :=
| run_setup e w1 :
    run (Campaign.setup asURL (numIssuers cfg)) w = (Err e, w1) ->
    loadRun cfg w counts None (Err e) w1
| run_full prepared w1 w2 results out w3 :
    run (Campaign.setup asURL (numIssuers cfg)) w = (Ok prepared, w1) ->
    length counts = numIssuers cfg ->
    rtc loadStep (w1, goroutine ingressURL (weights cfg) <$> workersOf prepared counts) (w2, Ret <$> results) ->
    run (finish cfg results) w2 = (out, w3) ->
    loadRun cfg w counts (Some results) out w3.

Lemma prepare_length ids w prepared w1 :
  run (Campaign.prepare asURL ids) w = (Ok prepared, w1) -> length prepared = length ids.
Proof.
  revert w prepared. induction ids as [|name ids IH]; intros w prepared; cbn [Campaign.prepare]; [by intros [= <- _]|].
  rewrite run_bindErr. destruct (run (Campaign.newIssuerIdentity name) w) as [[ii|e] w2]; cbn [fst snd]; [|done].
  rewrite run_bindErr. destruct (run (Campaign.fetchToken asURL ii) w2) as [[tok|e] w3]; cbn [fst snd]; [|done].
  rewrite run_bindErr. destruct (run (Campaign.prepare asURL ids) w3) as [[l|e] w4] eqn:E; cbn [fst snd run]; [|done].
  intros [= <- <-]. cbn [length]. f_equal. by apply (IH w3).
Qed.

Lemma loadSteps_length c c' : rtc loadStep c c' -> length c'.2 = length c.2.
Proof.
  induction 1 as [c|c1 c2 c3 Hstep _ IH]; [done|]. rewrite IH. destruct Hstep as [Hstep|Hstep]; [|by rewrite Hstep].
  destruct Hstep as [w ps i R ac k Hi|]; [|done]. cbn [snd]. by rewrite length_insert.
Qed.

(** What a run prints. Whatever the network and the stores do, and however the
    workers interleave, a run that gets past its setup reports on every issuer,
    and without the check at the end it returns no error; a run that does not
    returns the error of its setup. *)
Theorem load_run_report (cfg : runConfig) (w w' : world) (counts : list nat)
    (results : option (list workerResult)) (out : result unit) :
  loadRun cfg w counts results out w' ->
  match results with
  | None => exists e, out = Err e
  | Some results => length results = numIssuers cfg /\ (verify cfg = false -> out = Ok tt)
  end.
Proof.
  destruct 1 as [e w1 _|prepared w1 w2 results out w3 Hsetup Hcounts Hsteps Hfin]; [by exists e|]. split.
  - apply loadSteps_length in Hsteps. cbn [snd] in Hsteps. rewrite !length_fmap in Hsteps. rewrite Hsteps.
    unfold workersOf. rewrite length_zip_with. unfold Campaign.setup in Hsetup.
    rewrite (prepare_length _ _ _ _ Hsetup), length_fmap, length_seq. lia.
  - intros Hv. unfold finish in Hfin. rewrite Hv in Hfin. by injection Hfin as <- <-.
Qed.

End Run.

(** What the pool balance shows. There is a row for every list that the workers
    recorded an allocation in, and one row only; its count is the number of
    these records; the counts add up to all of them; and the rows are in
    decreasing order, so that the first is at least the mean. *)
Theorem balance_exact (results : list workerResult) (rows : list (string * Z * bool)) :
  balance results rows ->
  NoDup rows.*1.*1 /\
  (forall id c f, (id, c, f) ∈ rows ->
     c = Z.of_nat (length (filter (fun a => listID a = id) (results ≫= allocs)))) /\
  (forall a, a ∈ results ≫= allocs -> listID a ∈ rows.*1.*1) /\
  sumCounts rows.*1 = Z.of_nat (length (results ≫= allocs)) /\
  (forall id c f rest, rows = (id, c, f) :: rest ->
     Z.of_nat (length (results ≫= allocs)) <= Z.of_nat (length rows) * c).
Proof.
  assert (total results = Z.of_nat (length (results ≫= allocs))) as Ht by (unfold total; by rewrite total_foldl).
  assert (perList results = foldl countList ∅ (results ≫= allocs)) as Hpl by apply perList_foldl.
  destruct 1 as [Hnone|rows Hne Hmap Hperm Hsorted].
  - assert (results ≫= allocs = []) as ->.
    { destruct Hnone as [H0|H0]; [destruct (results ≫= allocs); [done|]; cbn in *; lia|].
      destruct (results ≫= allocs) as [|a l]; [done|]. exfalso. rewrite H0 in Hpl.
      apply (f_equal dom) in Hpl. rewrite foldl_dom in Hpl. cbn in Hpl. set_solver. }
    split_and!; try done; [constructor|by intros ? ? ? ?%not_elem_of_nil|by intros ? ?%not_elem_of_nil].
  - assert (((fun '(id, c) => (id, c, flagged results c)) <$> rows).*1 = rows) as Hfst.
    { clear. induction rows as [|[id c] rows IH]; [done|]. cbn. by rewrite IH. }
    rewrite Hfst. assert (sumCounts rows = Z.of_nat (length (results ≫= allocs))) as Hsum.
    { by rewrite Hperm, Hpl, sum_foldl, map_to_list_empty. }
    split_and!.
    + rewrite Hperm. apply NoDup_fst_map_to_list.
    + intros i c f Hin. apply list_elem_of_fmap in Hin as ([i' c'] & Heq & Hin). simplify_eq.
      rewrite Hperm, elem_of_map_to_list, Hpl in Hin.
      pose proof (foldl_countList (results ≫= allocs) ∅ i') as Hc. rewrite Hin, lookup_empty in Hc. exact Hc.
    + intros a Ha. rewrite Hperm. apply list_elem_of_fmap.
      assert (listID a ∈ dom (perList results)) as [c Hc]%elem_of_dom.
      { rewrite Hpl, foldl_dom. apply elem_of_union_r, elem_of_list_to_set, list_elem_of_fmap. by exists a. }
      exists (listID a, c). split; [done|]. by apply elem_of_map_to_list.
    + done.
    + intros id c f rest Heq. rewrite <- Hsum. destruct rows as [|[id' c'] rows]; [done|]. cbn in Heq. simplify_eq.
      rewrite length_fmap. apply (sumCounts_bound ((id, c) :: rows)). constructor; [done|].
      by apply StronglySorted_inv in Hsorted as [_ Hall].
Qed.

End LoadReport.
