(* ===== verification/Processes.v ===== *)
(** * cmd/*: from the environment to the running services

    What the four binaries do before they serve: load the configuration, reach
    their stores, open the signing key, and put the components together; then
    the background loops and the request handlers that run. [NewSigner] is
    internal/signing, in its default and its pkcs11 build. The theorem: what
    services started from the environment run are threads of System.v, as long
    as the variables the loader does not check have sane values or are unset;
    so the invariant of the service holds from the start. *)

From Stdlib Require Import SpecFloat.
From S2P Require Import Prelude Float64 GoStrings Signer Allocator Bitmap Token Cwt Prog Debounce World MetaStore BitmapStore Rely Pool Gc Publisher Ingestion Verifier Decoy Ingress Shards Trust ClientAssertion AuthServer Config System.

Module Processes.

(** An EC private key as a crypto.Signer and as the key of access tokens; the
    PKCS#11 pool of the tagged build; and redis.ParseURL. *)
Class Platform `{!Signer.Ecdsa} `{!Config.Parsers} `{!AuthServer.AccessTokens} := {
  signerOf : Config.ecPrivateKey -> Signer.signer;
  tokenKeyOf : Config.ecPrivateKey -> AuthServer.privateKey;
  pkcs11Pool : Type;
  pkcs11New (modulePath tokenLabel : string) (slotID : Z) (pin : string) (poolSize : Z) : prog world (result pkcs11Pool);
  pkcs11NewSigner : pkcs11Pool -> string -> prog world (result Signer.signer);
  pkcs11Close : pkcs11Pool -> prog world unit;
  parseRedisURL : string -> bool
}.

Section Start.
Context `{!Signer.Ecdsa} `{!Config.Parsers} `{!AuthServer.AccessTokens} `{!Platform} `{!Publisher.Jose}.
Context `{!Ingress.URLs} `{!Trust.Http} `{!Trust.AuthzenJson}.

(** ** internal/signing *)

(** What NewSigner returns beside the signer, to be closed at the end: nothing,
    or the pool of PKCS#11 sessions. *)
Inductive closer : Type := noopCloser | poolCloser (pool : pkcs11Pool).

(** A key in memory signs itself; a nil key is found by the first use. *)
Definition keySigner (src : Config.SigningSource) : result (Signer.signer * closer) :=
  match Config.Key src with
  | Some k => Ok (signerOf k, noopCloser)
  | None => Err (Panic "invalid memory address or nil pointer dereference")
  end.

(** signing_default.go *)
Definition NewSignerDefault (src : Config.SigningSource) : prog world (result (Signer.signer * closer)) :=
  match Config.PKCS11 src with
  | None => Ret (keySigner src)
  | Some _ =>
      Ret (Err (ErrMsg "signing: PKCS11_MODULE_PATH is set, but this binary was built without PKCS#11 support"))
  end.

(** signing_pkcs11.go *)
Definition NewSignerPKCS11 (src : Config.SigningSource) : prog world (result (Signer.signer * closer)) :=
  match Config.PKCS11 src with
  | None => Ret (keySigner src)
  | Some c =>
      let! pool := pkcs11New (Config.ModulePath c) (Config.TokenLabel c) (Config.SlotID c) (Config.PIN c)
                     (Config.PoolSize c) in
      match pool with
      | Err _ => Ret (Err (ErrMsg "signing: open PKCS#11 pool"))
      | Ok pool =>
          let! signer := pkcs11NewSigner pool (Config.KeyLabel c) in
          match signer with
          | Err _ => let! _ := pkcs11Close pool in Ret (Err (ErrMsg "signing: create PKCS#11 signer"))
          | Ok signer => Ret (Ok (signer, poolCloser pool))
          end
      end
  end.

(** The builds. *)
Inductive build : Type := Default | Pkcs11.

Definition NewSigner (b : build) : Config.SigningSource -> prog world (result (Signer.signer * closer)) :=
  match b with Default => NewSignerDefault | Pkcs11 => NewSignerPKCS11 end.

(** ** Reaching the stores *)

Inductive redisOpts : Type := ByURL (url : string) | ByAddr (addr : string).

Definition redisOptions (redisURL redisAddr : string) : result redisOpts :=
  if negb (bool_decide (redisURL = "")) then
    if parseRedisURL redisURL then Ok (ByURL redisURL) else Err (ErrMsg "redis: invalid URL")
  else Ok (ByAddr redisAddr).

Definition Ping (shard : string) : prog world (result unit) := redisCall shard (fun m => (Ok tt, m)).

(** [store.NewMetaStore]: the schema is in place afterwards (Schema.v), which in
    the world it always is. *)
Definition NewMetaStore : prog world (result unit) := pgCall (fun _ db => (Ok tt, db)).

(** ** cmd/ingestion-service *)

Record ingestionProcess := MkIngestionProcess {
  iServer : Ingestion.Server;
  iPublisher : Publisher.Publisher;
  iPool : Pool.Manager;
  iSweeper : Gc.Sweeper;
  iNoiser : Decoy.Noiser;
  iValidatorIssuer : string;
  iValidatorAudience : string
}.

(** [proc] names the process, whose publisher's memory it is. *)
Definition runIngestion (b : build) (proc : string) (env : Config.environ) : prog world (result ingestionProcess) :=
  try! cfg := Ret (Config.LoadIngestion env) in
  try! _ := Ret (redisOptions (Config.RedisURL cfg) (Config.RedisAddr cfg)) in
  try! _ := Ping (Config.ShardID cfg) in
  try! _ := NewMetaStore in
  try! signing := NewSigner b (Config.iSigning cfg) in
  let '(signer, _) := signing in
  try! pub := Ret (Publisher.New proc [Config.ShardID cfg] signer (Config.iSigningKeyID cfg)
                     (Config.iBaseURL cfg) (Config.iSigningCertChain cfg)) in
  let pm := Pool.MkManager (Config.ShardID cfg) (Config.PoolWidth cfg) (Config.ListCapacity cfg)
              (Config.ListBits cfg) (Config.RotationMaxAge cfg) in
  let sweeper := Gc.MkSweeper (Config.ShardID cfg) (Config.GCGracePeriod cfg)
                   (Config.iGCRetentionPeriod cfg) (Config.DBRetentionPeriod cfg) in
  let noiser := Decoy.MkNoiser pub (Config.ShardID cfg) (Config.DecoyNoiseRate cfg) (Config.iDefaultTTLSeconds cfg) in
  let srv := Ingestion.MkServer (Config.ShardID cfg) (Config.iBaseURL cfg) (Config.MaxExpiry cfg)
               (Config.iDefaultTTLSeconds cfg) pub pm in
  Ret (Ok (MkIngestionProcess srv pub pm sweeper noiser
             (Config.iAccessTokenIssuer cfg) (Config.iAccessTokenAudience cfg))).

(** ** cmd/verifier-service *)

Fixpoint openShards (urls : list (string * string)) : prog world (result unit) :=
  match urls with
  | [] => Ret (Ok tt)
  | (shard, url) :: urls =>
      if parseRedisURL url then try! _ := Ping shard in openShards urls
      else Ret (Err (ErrMsg "redis: invalid URL"))
  end.

Definition runVerifier (b : build) (proc : string) (env : Config.environ) : prog world (result Verifier.Server) :=
  try! cfg := Ret (Config.LoadVerifier env) in
  try! _ := openShards (map_to_list (Config.ShardRedisURLs cfg)) in
  try! _ := NewMetaStore in
  try! signing := NewSigner b (Config.vSigning cfg) in
  let '(signer, _) := signing in
  try! pub := Ret (Publisher.New proc (map_to_list (Config.ShardRedisURLs cfg)).*1 signer (Config.vSigningKeyID cfg)
                     (Config.vBaseURL cfg) (Config.vSigningCertChain cfg)) in
  Ret (Ok (Verifier.MkServer (Config.vGCRetentionPeriod cfg) (Config.vDefaultTTLSeconds cfg) pub)).

(** ** cmd/as *)

(** The policy decision point if one is configured, and nobody otherwise. *)
Definition evaluatorOf (cfg : Config.ASConfig) : Trust.Evaluator :=
  if negb (bool_decide (Config.TrustPDPURL cfg = "")) then
    Trust.AuthZEN (Trust.MkAuthZENEvaluator (Config.TrustPDPURL cfg) (Config.TrustActionName cfg))
  else Trust.AllowAll.

Definition runAS (env : Config.environ) : prog world (result (AuthServer.Server * Trust.Evaluator)) :=
  try! cfg := Ret (Config.LoadAS env) in
  try! shards := Ret (Shards.NewShardAssigner (Config.Shards cfg)) in
  try! _ := NewMetaStore in
  let km := AuthServer.MkKeyManager (tokenKeyOf (Config.aSigningKey cfg)) (Config.aSigningKeyID cfg) in
  Ret (Ok (AuthServer.MkServer (Config.aBaseURL cfg) (Config.AccessTokenTTL cfg)
             (Config.aAccessTokenAudience cfg) km shards, evaluatorOf cfg)).

(** ** cmd/ingress-router *)

Record ingressProcess := MkIngressProcess {
  gRouter : Ingress.Router;
  gValidatorIssuer : string;
  gValidatorAudience : string
}.

Definition runIngress (env : Config.environ) : result ingressProcess :=
  match Config.LoadIngress env with
  | Err e => Err e
  | Ok cfg =>
      match Ingress.New (Config.ShardBackends cfg) with
      | Err e => Err e
      | Ok router =>
          Ok (MkIngressProcess router (Config.gAccessTokenIssuer cfg) (Config.gAccessTokenAudience cfg))
      end
  end.

End Start.
(** ** What runs in a started process *)

Section Running.
Context `{!Signer.Ecdsa} `{!Token.Zlib} `{!Token.Json} `{!Cwt.Cbor} `{!Float64.Conversion}.
Context `{!Config.Parsers} `{!AuthServer.AccessTokens} `{!Platform} `{!Publisher.Jose}.

(** The four loops of the ingestion service, the publishes its debouncer asks
    for, and its requests. *)
Definition ingestionTask (p : ingestionProcess) (t : System.task) : Prop :=
  match t with
  | System.Request s _ _ => s = iServer p
  | System.PublishTick q s => q = iPublisher p /\ s = iServer p
  | System.PublishJob q _ => q = iPublisher p
  | System.PoolTick m => m = iPool p
  | System.GcTick g => g = iSweeper p
  | System.DecoyTick n => n = iNoiser p
  | System.Read _ _ => False
  end.

(** The verifier has only requests. *)
Definition verifierTask (v : Verifier.Server) (t : System.task) : Prop :=
  match t with System.Read s _ => s = v | _ => False end.

(** Values of the variables that LoadIngestion reads but does not check: a
    legal width, a capacity of at most 2^29 entries, rows kept forever. *)
Definition saneEnv (env : Config.environ) : Prop :=
  env "LIST_BITS" ∈ [""; "1"; "2"; "4"; "8"] /\
  (env "LIST_CAPACITY" = "" \/ exists n, GoStrings.ParseUint (env "LIST_CAPACITY") = Ok n /\ 0 < n <= 2 ^ 29) /\
  env "DB_RETENTION_PERIOD" ∈ [""; "0"; "0s"].

Lemma list_good_small bits size :
  bits ∈ [1; 2; 4; 8] -> 0 < size <= 2 ^ 29 -> Rely.list_good bits size.
Proof.
  intros Hb Hs.
  assert (Bitmap.ValidBitWidth bits = true) as Hv
    by (repeat (apply elem_of_cons in Hb as [->|Hb]; [reflexivity|]); by apply elem_of_nil in Hb).
  split_and!; [done|lia|lia|]. rewrite Bitmap.nBytes_eq; [|done|unfold Bitmap.sizeOk; lia].
  unfold BitmapStore.maxStringLen. Bitmap.widths Hv; Z.div_mod_to_equations; lia.
Qed.

Lemma getIntEnv_bits env b :
  env "LIST_BITS" ∈ [""; "1"; "2"; "4"; "8"] -> Config.getIntEnv env "LIST_BITS" 2 = Ok b -> b ∈ [1; 2; 4; 8].
Proof.
  unfold Config.getIntEnv, Config.getParsed. intros Hv.
  repeat (apply elem_of_cons in Hv as [-> |Hv]; [vm_compute; intros [= <-]; set_solver|]). by apply elem_of_nil in Hv.
Qed.

Lemma getUint64Env_capacity env n :
  (env "LIST_CAPACITY" = "" \/ exists n, GoStrings.ParseUint (env "LIST_CAPACITY") = Ok n /\ 0 < n <= 2 ^ 29) ->
  Config.getUint64Env env "LIST_CAPACITY" 100000 = Ok n -> 0 < n <= 2 ^ 29.
Proof.
  unfold Config.getUint64Env, Config.getParsed. intros [-> | (m & Hm & Hr)]; [intros [= <-]; lia|]. rewrite Hm.
  case_bool_decide; intros [= <-]; lia.
Qed.

Lemma getDurationEnv_db env n :
  env "DB_RETENTION_PERIOD" ∈ [""; "0"; "0s"] -> Config.getDurationEnv env "DB_RETENTION_PERIOD" 0 = Ok n -> n = 0.
Proof.
  unfold Config.getDurationEnv, Config.getParsed. intros Hv.
  repeat (apply elem_of_cons in Hv as [-> |Hv]; [vm_compute; by intros [= <-]|]). by apply elem_of_nil in Hv.
Qed.

Lemma sane_config env cfg :
  saneEnv env -> Config.LoadIngestion env = Ok cfg ->
  Rely.list_good (Config.ListBits cfg) (Config.ListCapacity cfg) /\ Config.DBRetentionPeriod cfg <= 0.
Proof.
  intros (Hb & Hc & Hd) Hl. unfold Config.LoadIngestion in Hl. Config.open_load. simpl. split.
  - apply list_good_small; [by eapply getIntEnv_bits|by eapply getUint64Env_capacity].
  - match goal with Hn : Config.getDurationEnv env "DB_RETENTION_PERIOD" _ = Ok ?n |- ?n <= 0 =>
      apply (getDurationEnv_db env n Hd) in Hn; lia end.
Qed.

(** An ingestion service that started, at some time, from such an environment;
    and a verifier that started. *)
Definition started (p : ingestionProcess) : Prop :=
  exists b proc env w w', saneEnv env /\ run (runIngestion b proc env) w = (Ok p, w').

Definition startedVerifier (v : Verifier.Server) : Prop :=
  exists b proc env w w', run (runVerifier b proc env) w = (Ok v, w').

(** Anything that runs in one of them. *)
Definition serviceThread (q : prog world System.answer) : Prop :=
  exists t, q = System.thread t /\
    ((exists p, started p /\ ingestionTask p t) \/ (exists v, startedVerifier v /\ verifierTask v t)).

(** A step of a start that has succeeded. *)
Lemma run_bindErr_ok {A B} (p : prog world (result A)) (f : A -> prog world (result B)) w b w' :
  run (bindErr p f) w = (Ok b, w') -> exists a w1, run p w = (Ok a, w1) /\ run (f a) w1 = (Ok b, w').
Proof. rewrite run_bindErr. destruct (run p w) as [[a|e] w1]; [eauto|done]. Qed.

(** What a started ingestion service is made of. *)
Lemma runIngestion_ok b proc env w p w' :
  run (runIngestion b proc env) w = (Ok p, w') ->
  exists cfg signer closer w1 w2, Config.LoadIngestion env = Ok cfg /\
    run (NewSigner b (Config.iSigning cfg)) w1 = (Ok (signer, closer), w2) /\
    Publisher.New proc [Config.ShardID cfg] signer (Config.iSigningKeyID cfg) (Config.iBaseURL cfg)
      (Config.iSigningCertChain cfg) = Ok (iPublisher p) /\
    iPool p = Pool.MkManager (Config.ShardID cfg) (Config.PoolWidth cfg) (Config.ListCapacity cfg)
      (Config.ListBits cfg) (Config.RotationMaxAge cfg) /\
    Ingestion.pool (iServer p) = iPool p /\ Gc.Retention (iSweeper p) = Config.iGCRetentionPeriod cfg /\
    Gc.DBRetention (iSweeper p) = Config.DBRetentionPeriod cfg /\
    iValidatorIssuer p = Config.iAccessTokenIssuer cfg /\ iValidatorAudience p = Config.iAccessTokenAudience cfg.
Proof.
  unfold runIngestion. intros Hrun.
  apply run_bindErr_ok in Hrun as (cfg & w1 & [= Hcfg <-] & Hrun).
  apply run_bindErr_ok in Hrun as (opts & w1 & _ & Hrun). apply run_bindErr_ok in Hrun as (u1 & w2 & _ & Hrun).
  apply run_bindErr_ok in Hrun as (u2 & w3 & _ & Hrun). apply run_bindErr_ok in Hrun as ([signer closer] & w4 & Hsigner & Hrun).
  apply run_bindErr_ok in Hrun as (pub & w5 & [= Hpub <-] & Hrun). cbv zeta in Hrun. injection Hrun as <- <-.
  exists cfg, signer, closer, w3, w4. split_and!; done.
Qed.

Lemma service_isThread q : serviceThread q -> System.isThread q.
Proof.
  intros (t & -> & [(p & (b & proc & env & w & w' & Hsane & Hrun) & Ht)|(v & _ & Ht)]).
  - apply runIngestion_ok in Hrun as (cfg & _ & _ & _ & _ & Hcfg & _ & _ & Hpool & Hsp & _ & Hdb & _).
    destruct (sane_config env cfg Hsane Hcfg) as [Hgood Hret]. exists t. split; [|done].
    destruct t as [s auth r|s r|m|g|q s|q i|n]; cbn in Ht |- *; try done; subst.
    + rewrite Hsp, Hpool. exact Hgood.
    + rewrite Hpool. exact Hgood.
    + by rewrite Hdb.
  - exists t. split; [|done]. by destruct t.
Qed.

(** Two processes that read the same environment sign with the same key, if
    it is a key of the environment. *)
Lemma NewSigner_key b b' src w w' w1 w1' k k' c c' :
  Config.PKCS11 src = None ->
  run (NewSigner b src) w = (Ok (k, c), w1) -> run (NewSigner b' src) w' = (Ok (k', c'), w1') -> k = k'.
Proof.
  intros Hp. assert (forall b w, run (NewSigner b src) w = (keySigner src, w)) as Hk
    by (intros [] ?; cbn [NewSigner]; unfold NewSignerDefault, NewSignerPKCS11; by rewrite Hp).
  rewrite !Hk. congruence.
Qed.

Lemma Publisher_New_ok proc shards k kid url chain p :
  Publisher.New proc shards k kid url chain = Ok p ->
  Publisher.key p = k /\ Publisher.keyID p = kid /\ Publisher.certChain p = chain /\ Publisher.baseURL p = url.
Proof.
  unfold Publisher.New. destruct (Signer.Public k); [|done]. intros (j & _ & Hp)%Config.let_ok. by simplify_eq.
Qed.

Lemma runVerifier_ok b proc env w v w' :
  run (runVerifier b proc env) w = (Ok v, w') ->
  exists cfg signer closer w1 w2, Config.LoadVerifier env = Ok cfg /\
    run (NewSigner b (Config.vSigning cfg)) w1 = (Ok (signer, closer), w2) /\
    Publisher.New proc (map_to_list (Config.ShardRedisURLs cfg)).*1 signer (Config.vSigningKeyID cfg)
      (Config.vBaseURL cfg) (Config.vSigningCertChain cfg) = Ok (Verifier.pub v) /\
    Verifier.GCRetentionPeriod v = Config.vGCRetentionPeriod cfg.
Proof.
  unfold runVerifier. intros Hrun.
  apply run_bindErr_ok in Hrun as (cfg & w1 & [= Hcfg <-] & Hrun).
  apply run_bindErr_ok in Hrun as (u1 & w2 & _ & Hrun). apply run_bindErr_ok in Hrun as (u2 & w3 & _ & Hrun).
  apply run_bindErr_ok in Hrun as ([signer closer] & w4 & Hsigner & Hrun).
  apply run_bindErr_ok in Hrun as (pub & w5 & [= Hpub <-] & Hrun). injection Hrun as <- <-.
  exists cfg, signer, closer, w3, w4. split_and!; done.
Qed.

Lemma keySource env var src :
  env "PKCS11_MODULE_PATH" = "" -> Config.loadSigningSource env var = Ok src -> Config.PKCS11 src = None.
Proof.
  intros Hm. unfold Config.loadSigningSource. rewrite Hm, bool_decide_true by done. cbn [negb andb].
  intros (k & _ & Hk)%Config.let_ok. by simplify_eq.
Qed.

(** The settings both loaders read, from one environment. *)
Lemma loaders_agree env i v :
  Config.LoadIngestion env = Ok i -> Config.LoadVerifier env = Ok v ->
  Config.iSigning i = Config.vSigning v /\ Config.iSigningKeyID i = Config.vSigningKeyID v /\
  Config.iSigningCertChain i = Config.vSigningCertChain v /\
  Config.iGCRetentionPeriod i = Config.vGCRetentionPeriod v /\
  (env "BASE_URL" <> "" -> Config.iBaseURL i = Config.vBaseURL v) /\
  (env "PKCS11_MODULE_PATH" = "" -> Config.PKCS11 (Config.iSigning i) = None).
Proof.
  unfold Config.LoadIngestion, Config.LoadVerifier. intros Hi Hv. Config.open_load. simpl.
  split_and!; try congruence.
  - intros Hne. unfold Config.getEnv. by rewrite bool_decide_false.
  - intros Hm. by eapply keySource.
Qed.

End Running.

(** ** An example: both services from one environment *)

#[local] Existing Instances Token.Concrete.ecdsa Token.Concrete.zlib Token.Concrete.json Cwt.Concrete.cbor
  AuthServer.exampleConversion AuthServer.exampleTokens Config.exampleParsers.

#[local] Instance examplePlatform : Platform := {|
  signerOf _ := Token.Concrete.key;
  tokenKeyOf _ := tt;
  pkcs11Pool := Empty_set;
  pkcs11New _ _ _ _ _ := Ret (Err (ErrMsg "no module"));
  pkcs11NewSigner _ _ := Ret (Err (ErrMsg "no module"));
  pkcs11Close _ := Ret tt;
  parseRedisURL _ := true
|}.

#[local] Instance exampleJose : Publisher.Jose := {|
  Publisher.marshalJWK _ := Ok [];
  Publisher.unmarshalMap _ := Ok ∅
|}.

Definition isOk {A} (r : result A) : bool := match r with Ok _ => true | Err _ => false end.

Lemma run_isOk {A} (p : prog world (result A)) w : isOk (run p w).1 = true -> exists a w', run p w = (Ok a, w').
Proof. destruct (run p w) as [[a|e] w']; [eauto|done]. Qed.

Lemma exampleEnv_sane : saneEnv (Config.exampleEnv []).
Proof. split_and!; [left|by left|left]. Qed.

Lemma example_ingestion :
  exists p w', run (runIngestion Default "ingestion" (Config.exampleEnv [])) (Ingestion.exampleWorld 2) = (Ok p, w').
Proof. apply run_isOk. vm_compute. reflexivity. Qed.

Lemma example_verifier :
  exists v w', run (runVerifier Default "verifier" (Config.exampleEnv [])) (Ingestion.exampleWorld 2) = (Ok v, w').
Proof. apply run_isOk. vm_compute. reflexivity. Qed.

(** ** Properties *)

(** C6: the invariant of the running service. Start any number of ingestion
    services and verifiers from environments with sane or unset list
    parameters. In any interleaving of their loops, of the publishes they
    schedule and of any requests to them, with any failures, the tables and
    the keyspaces keep their invariants and rows only move forward. *)
Theorem started_services_keep_invariant `{!Signer.Ecdsa} `{!Token.Zlib} `{!Token.Json} `{!Cwt.Cbor}
    `{!Float64.Conversion} `{!Config.Parsers} `{!AuthServer.AccessTokens} `{!Platform} `{!Publisher.Jose}
    (w w' : world) (ps ps' : list (prog world System.answer)) :
  Rely.Inv w -> Forall serviceThread ps -> rtc (pool_step serviceThread) (w, ps) (w', ps') ->
  Rely.Inv w' /\ MetaStore.pg_evolves (w_pg w) (w_pg w').
Proof.
  intros HI Hps Hsteps. destruct (System.system_safe w ps w' ps' HI) as (HI' & HE & _); [| |done].
  - eapply Forall_impl; [exact Hps|]. apply service_isThread.
  - eapply rtc_subrel; [|exact Hsteps]. intros c c' Hc. destruct Hc; constructor; [done|]. by apply service_isThread.
Qed.

(** A pool tick of a started service. *)
Lemma started_services_keep_invariant_witness :
  exists p w', started p /\
    rtc (pool_step serviceThread) (Ingestion.exampleWorld 2, [System.thread (System.PoolTick (iPool p))])
      (w', [Ret None]) /\ Rely.Inv w'.
Proof.
  destruct example_ingestion as (p & w1 & Hp).
  assert (started p) as Hst by (by exists Default, "ingestion", (Config.exampleEnv []), (Ingestion.exampleWorld 2), w1;
    split; [apply exampleEnv_sane|]).
  assert (serviceThread (System.thread (System.PoolTick (iPool p)))) as Hth
    by (by exists (System.PoolTick (iPool p)); split; [|left; exists p]).
  pose proof (pool_run serviceThread (Ingestion.exampleWorld 2) [System.thread (System.PoolTick (iPool p))] 0 _ eq_refl)
    as Hrun.
  assert ((run (System.thread (System.PoolTick (iPool p))) (Ingestion.exampleWorld 2)).1 = None) as Hn
    by (cbn [System.thread]; by rewrite run_bind).
  rewrite Hn in Hrun. eexists p, _. split; [exact Hst|]. split; [exact Hrun|].
  apply (started_services_keep_invariant (Ingestion.exampleWorld 2) _ [System.thread (System.PoolTick (iPool p))] _
    (Ingestion.ingestionWorld_inv 2 (or_intror eq_refl)) (proj2 (Forall_singleton _ _) Hth) Hrun).
Defined.

(** A verifier and an ingestion service started from the same environment
    fit together. They sign with the same key under the same identifier and
    certificate chain, for the same base URL if one is set; and the verifier
    stops serving a list when the sweeper of the ingestion service may purge
    it. *)
Theorem processes_agree `{!Signer.Ecdsa} `{!Config.Parsers} `{!AuthServer.AccessTokens} `{!Platform} `{!Publisher.Jose}
    (env : Config.environ) (b b' : build) (proc proc' : string) (p : ingestionProcess) (v : Verifier.Server)
    (w w' w1 w1' : world) :
  env "PKCS11_MODULE_PATH" = "" ->
  run (runIngestion b proc env) w = (Ok p, w1) -> run (runVerifier b' proc' env) w' = (Ok v, w1') ->
  Publisher.key (iPublisher p) = Publisher.key (Verifier.pub v) /\
  Publisher.keyID (iPublisher p) = Publisher.keyID (Verifier.pub v) /\
  Publisher.certChain (iPublisher p) = Publisher.certChain (Verifier.pub v) /\
  (env "BASE_URL" <> "" -> Publisher.baseURL (iPublisher p) = Publisher.baseURL (Verifier.pub v)) /\
  Gc.Retention (iSweeper p) = Verifier.GCRetentionPeriod v.
Proof.
  intros Hm (ci & si & cli & wi & wi' & Hci & Hsi & Hpi & _ & _ & Hri & _)%runIngestion_ok
    (cv & sv & clv & wv & wv' & Hcv & Hsv & Hpv & Hrv)%runVerifier_ok.
  destruct (loaders_agree env ci cv Hci Hcv) as (Es & Ek & Ec & Er & Eb & Ep).
  apply Publisher_New_ok in Hpi as (-> & -> & -> & ->), Hpv as (-> & -> & -> & ->).
  split_and!; try congruence; [|by auto]. rewrite <- Es in Hsv. by eapply (NewSigner_key b b'); eauto.
Qed.

Lemma processes_agree_witness :
  exists p v w1 w2, run (runIngestion Default "ingestion" (Config.exampleEnv [])) (Ingestion.exampleWorld 2) = (Ok p, w1) /\
    run (runVerifier Default "verifier" (Config.exampleEnv [])) (Ingestion.exampleWorld 2) = (Ok v, w2) /\
    Gc.Retention (iSweeper p) = Verifier.GCRetentionPeriod v.
Proof.
  destruct example_ingestion as (p & w1 & Hp), example_verifier as (v & w2 & Hv).
  exists p, v, w1, w2. split; [exact Hp|]. split; [exact Hv|].
  apply (processes_agree (Config.exampleEnv []) Default Default "ingestion" "verifier" p v _ _ w1 w2 eq_refl Hp Hv).
Defined.

End Processes.
