(* ===== verification/Lifecycle.v ===== *)
(** * cmd/*: background loops, signals and shutdown

    The [Run] functions of the publisher, the pool, the collector and the noiser
    are one loop, [tickLoop]: time.NewTicker, then a tick or the end for every
    wake-up of its select. The second part is a process after its start: the
    context that a signal cancels, the loops that wait on it, the goroutine that
    calls Shutdown and the main goroutine that sits in ListenAndServe, as a step
    relation, with what net/http documents of the two calls. The theorems: what
    a loop does; which intervals the loaders let through that make it panic; and
    that a process can exit while Shutdown still waits for a request that is
    being served. *)

From Stdlib Require Import SpecFloat.
From S2P Require Import Prelude Float64 GoStrings Signer Token Cwt Prog World MetaStore BitmapStore Rely Pool Gc Publisher Ingestion Decoy AuthServer Config System Processes.

Module Lifecycle.

(** ** The loops *)

(** What a select over ctx.Done() and ticker.C wakes up for. *)
Inductive wakeup := Tick | Done.

Fixpoint select (tick : prog world unit) (ws : list wakeup) : prog world unit :=
  match ws with
  | [] | Done :: _ => Ret tt
  | Tick :: ws => tick ;;! select tick ws
  end.

(** time.NewTicker panics unless its interval is positive. *)
Definition tickLoop (interval : Z) (tick : prog world unit) (ws : list wakeup) : prog world (result unit) :=
  if interval <=? 0 then Ret (Err (Panic "non-positive interval for NewTicker"))
  else let! _ := select tick ws in Ret (Ok tt).

Section Loops.
Context `{!Signer.Ecdsa} `{!Token.Zlib} `{!Token.Json} `{!Cwt.Cbor} `{!Float64.Conversion}.

Definition publisherRun (p : Publisher.Publisher) (interval : Z)
    (lists : prog world (result (list MetaStore.ListMeta * Z))) (ws : list wakeup) : prog world (result unit) :=
  tickLoop interval (Publisher.runTick p lists) ws.

Definition poolRun (m : Pool.Manager) (interval : Z) (ws : list wakeup) : prog world (result unit) :=
  tickLoop interval (Pool.runTick m) ws.

Definition sweeperRun (s : Gc.Sweeper) (interval : Z) (ws : list wakeup) : prog world (result unit) :=
  tickLoop interval (Gc.runTick s) ws.

Definition noiserRun (n : Decoy.Noiser) (interval : Z) (ws : list wakeup) : prog world (result unit) :=
  tickLoop interval (Decoy.runTick n) ws.

(** The goroutines that cmd/ingestion-service starts, with the intervals of its
    configuration and what each wakes up for. *)
Definition ingestionLoops `{!Config.Parsers} (cfg : Config.IngestionConfig) (p : Processes.ingestionProcess)
    (ws1 ws2 ws3 ws4 : list wakeup) : list (prog world (result unit)) :=
  [publisherRun (Processes.iPublisher p) (Config.PublishInterval cfg)
     (Ingestion.ListsForPublishing (Processes.iServer p)) ws1;
   poolRun (Processes.iPool p) (Config.PoolCheckInterval cfg) ws2;
   sweeperRun (Processes.iSweeper p) (Config.GCCheckInterval cfg) ws3;
   noiserRun (Processes.iNoiser p) (Config.DecoyCheckInterval cfg) ws4].

Definition intervals `{!Config.Parsers} (cfg : Config.IngestionConfig) : list Z :=
  [Config.PublishInterval cfg; Config.PoolCheckInterval cfg; Config.GCCheckInterval cfg;
   Config.DecoyCheckInterval cfg].

(** A loop is its ticks up to the cancellation, one after the other. *)
Fixpoint ticksBeforeDone (ws : list wakeup) : nat :=
  match ws with Tick :: ws => S (ticksBeforeDone ws) | _ => O end.

Lemma select_run tick ws w :
  (run (select tick ws) w).2 = Nat.iter (ticksBeforeDone ws) (fun w => (run tick w).2) w.
Proof.
  revert w. induction ws as [|[] ws IH]; intros w; [done| |done]. cbn [select ticksBeforeDone].
  rewrite run_bind, IH. by rewrite Nat.iter_succ_r.
Qed.

Lemma tickLoop_run interval tick ws w :
  0 < interval ->
  run (tickLoop interval tick ws) w = (Ok tt, Nat.iter (ticksBeforeDone ws) (fun w => (run tick w).2) w).
Proof.
  intros Hi. unfold tickLoop. rewrite (proj2 (Z.leb_gt _ _) Hi), run_bind. cbn [run]. by rewrite select_run.
Qed.

Lemma tickLoop_panic interval tick ws w :
  interval <= 0 ->
  run (tickLoop interval tick ws) w = (Err (Panic "non-positive interval for NewTicker"), w).
Proof. intros Hi. unfold tickLoop. by rewrite (proj2 (Z.leb_le _ _) Hi). Qed.

(** Which environments start loops that panic. The four intervals of a loaded
    configuration are positive when their variables are unset; and the loader
    accepts every duration, so a variable set to zero, or below, is a goroutine
    that panics, and with it the process. *)
Theorem loop_panics_iff `{!Config.Parsers} (cfg : Config.IngestionConfig) (p : Processes.ingestionProcess)
    (ws1 ws2 ws3 ws4 : list wakeup) (w : world) :
  Forall (fun l => forall msg, (run l w).1 <> Err (Panic msg)) (ingestionLoops cfg p ws1 ws2 ws3 ws4) <->
  Forall (fun i => 0 < i) (intervals cfg).
Proof.
  assert (forall interval tick ws, (forall msg, (run (tickLoop interval tick ws) w).1 <> Err (Panic msg)) <-> 0 < interval)
    as Hone.
  { intros interval tick ws. destruct (decide (0 < interval)) as [Hi|Hi].
    - rewrite tickLoop_run by done. done.
    - split; [|done]. intros Hm. exfalso. apply (Hm "non-positive interval for NewTicker").
      rewrite tickLoop_panic by lia. done. }
  unfold ingestionLoops, intervals. rewrite !Forall_cons, !Forall_nil.
  unfold publisherRun, poolRun, sweeperRun, noiserRun. cbn beta. rewrite !Hone. tauto.
Qed.

Lemma default_intervals `{!Config.Parsers} env cfg :
  env "PUBLISH_INTERVAL" = "" -> env "POOL_CHECK_INTERVAL" = "" -> env "GC_CHECK_INTERVAL" = "" ->
  env "DECOY_CHECK_INTERVAL" = "" -> Config.LoadIngestion env = Ok cfg ->
  Forall (fun i => 0 < i) (intervals cfg).
Proof.
  intros He1 He2 He3 He4 Hl. unfold Config.LoadIngestion in Hl. Config.open_load. unfold intervals. simpl.
  unfold Config.getDurationEnv, Config.getParsed in *.
  repeat match goal with
  | He : env ?k = "", Hx : (if bool_decide (env ?k = "") then _ else _) = Ok _ |- _ =>
      rewrite bool_decide_true in Hx by done; injection Hx as <-; clear He
  end.
  repeat constructor.
Qed.

Lemma zero_interval `{!Config.Parsers} env cfg :
  env "GC_CHECK_INTERVAL" = "0" -> Config.LoadIngestion env = Ok cfg -> Config.GCCheckInterval cfg = 0.
Proof.
  intros He Hl. unfold Config.LoadIngestion in Hl. Config.open_load. simpl.
  unfold Config.getDurationEnv, Config.getParsed in *.
  match goal with Hx : context [env "GC_CHECK_INTERVAL"] |- _ => rewrite He in Hx; by injection Hx as <- end.
Qed.

End Loops.

(** ** The process *)

Inductive loopState := Waiting | Ticking | Stopped.

(** The goroutine that waits for the signal: before Shutdown, in it, after. *)
Inductive shutdownState := NotStarted | Draining | Finished.

Record proc := MkProc {
  cancelled : bool;                   (* the context *)
  loops : list loopState;
  serving : bool;                     (* the listener is open *)
  inflight : nat;                     (* requests being served *)
  shutdown : shutdownState;
  returned : option (result unit);    (* of [run], on the main goroutine *)
  exited : bool
}.

Definition running (n : nat) : proc := MkProc false (replicate n Waiting) true 0 NotStarted None false.

Inductive loopStep (done : bool) : loopState -> loopState -> Prop :=
| loop_tick : loopStep done Waiting Ticking
| loop_ticked : loopStep done Ticking Waiting
| loop_done : done = true -> loopStep done Waiting Stopped.

(** The steps of a process that has not exited. Shutdown closes the listener
    and returns when no request is left or its timeout has passed;
    ListenAndServe returns as soon as Shutdown has been called, or when it
    fails, and then [run] and the process end. *)
Inductive step : proc -> proc -> Prop :=
| step_signal c ls v n sh r :
    step (MkProc c ls v n sh r false) (MkProc true ls v n sh r false)
| step_loop c ls v n sh r i l l' :
    ls !! i = Some l -> loopStep c l l' ->
    step (MkProc c ls v n sh r false) (MkProc c (<[i := l']> ls) v n sh r false)
| step_request c ls n sh r :
    step (MkProc c ls true n sh r false) (MkProc c ls true (S n) sh r false)
| step_response c ls v n sh r :
    step (MkProc c ls v (S n) sh r false) (MkProc c ls v n sh r false)
| step_shutdown ls v n r :
    step (MkProc true ls v n NotStarted r false) (MkProc true ls false n Draining r false)
| step_drained c ls v r :
    step (MkProc c ls v 0 Draining r false) (MkProc c ls v 0 Finished r false)
| step_timeout c ls v n r :
    step (MkProc c ls v n Draining r false) (MkProc c ls v n Finished r false)
| step_closed c ls n sh :
    sh <> NotStarted ->
    step (MkProc c ls false n sh None false) (MkProc c ls false n sh (Some (Ok tt)) false)
| step_failed c ls n sh e :
    step (MkProc c ls true n sh None false) (MkProc c ls false n sh (Some (Err e)) false)
| step_exit c ls v n sh x :
    step (MkProc c ls v n sh (Some x) false) (MkProc c ls v n sh (Some x) true).

(** What holds in every state of a process. *)
Definition inv (p : proc) : Prop :=
  (shutdown p <> NotStarted -> cancelled p = true /\ serving p = false) /\
  (forall x, returned p = Some x -> serving p = false /\ (x = Ok tt -> shutdown p <> NotStarted)) /\
  (exited p = true -> is_Some (returned p)).

Lemma step_keeps_inv p p' : inv p -> step p p' -> inv p'.
Proof.
  unfold inv. intros (Hs & Hr & He) Hstep.
  destruct Hstep; cbn in *; split_and!; try naive_solver.
Qed.

Lemma reachable_inv n p : rtc step (running n) p -> inv p.
Proof.
  intros Hp. assert (inv (running n)) as H0 by (unfold inv, running; cbn; split_and!; naive_solver).
  induction Hp as [p|p q r Hs _ IH]; [done|]. by apply IH, (step_keeps_inv p).
Qed.

(** ** Properties *)

(** How a process ends. It exits without an error only after a signal, and when
    it does its listener is closed; and it can do so while Shutdown is still
    waiting, within its timeout, for a request that is being served. *)
Theorem process_ends (n : nat) :
  (forall p, rtc step (running n) p -> exited p = true -> returned p = Some (Ok tt) ->
     cancelled p = true /\ serving p = false) /\
  (exists p, rtc step (running n) p /\ exited p = true /\ returned p = Some (Ok tt) /\
     shutdown p = Draining /\ inflight p = 1%nat).
Proof.
  split.
  - intros p Hp _ Hok. pose proof (reachable_inv _ _ Hp) as (Hs & Hr & _).
    destruct (Hr _ Hok) as [_ Hsh]. apply Hs, Hsh. done.
  - exists (MkProc true (replicate n Waiting) false 1 Draining (Some (Ok tt)) true).
    split; [|by split_and!]. unfold running.
    eapply rtc_l; [apply step_request|]. eapply rtc_l; [apply step_signal|].
    eapply rtc_l; [apply step_shutdown|]. eapply rtc_l; [by eapply step_closed|]. apply rtc_once, step_exit.
Qed.

End Lifecycle.
