(* ===== verification/Metrics.v ===== *)
(** * internal/metrics: what the counters count

    The metrics of the service with their labels, a registry of series, the gin
    middleware that counts requests and the loops that poll the connection
    pools; prometheus itself is the registry's map from label values to a number
    or, for a histogram, to the durations observed (in nanoseconds; the buckets
    are its own business). What the services install outside the middleware,
    gin.Recovery, only gets to see how the middleware ends, which is what
    [serve] returns. The theorems: registration cannot panic and no call passes
    the wrong number of labels; the request counter and the histogram of
    durations are exact for the requests whose handler returns, and only for
    those; how many series there can be. *)

From stdpp Require Import pretty.
From S2P Require Import Prelude Float64 GoStrings Signer Prog World Rely Shards Trust ClientAssertion AuthServer.

Module Metrics.

(** ** The metrics *)

Inductive metric :=
| HTTPRequestsTotal | HTTPRequestDuration
| ASTokenIssuanceTotal | ASShardAssignmentsTotal
| IngestionAllocateTotal | IngestionPoolActiveLists | IngestionPoolWidthTarget | IngestionRotationsTotal
| IngestionGCArchivedTotal | IngestionGCPurgedTotal | IngestionGCRowsDeletedTotal | IngestionDecoyFlipsTotal
| PublisherRebuildsTotal
| IngressProxyTotal | IngressProxyDuration
| PostgresPoolAcquiredConns | PostgresPoolIdleConns | PostgresPoolMaxConns
| RedisPoolTotalConns | RedisPoolIdleConns | RedisPoolStaleConns.

#[export] Instance metric_eq_dec : EqDecision metric.
Proof. solve_decision. Defined.

(** In the order of their registration. *)
Definition metrics : list metric :=
  [HTTPRequestsTotal; HTTPRequestDuration; ASTokenIssuanceTotal; ASShardAssignmentsTotal;
   IngestionAllocateTotal; IngestionPoolActiveLists; IngestionPoolWidthTarget; IngestionRotationsTotal;
   IngestionGCArchivedTotal; IngestionGCPurgedTotal; IngestionGCRowsDeletedTotal; IngestionDecoyFlipsTotal;
   PublisherRebuildsTotal; IngressProxyTotal; IngressProxyDuration;
   PostgresPoolAcquiredConns; PostgresPoolIdleConns; PostgresPoolMaxConns;
   RedisPoolTotalConns; RedisPoolIdleConns; RedisPoolStaleConns].

#[export] Instance metric_countable : Countable metric.
Proof.
  refine (inj_countable (fun m => default 0%nat (fst <$> list_find (eq m) metrics)) (fun n => metrics !! n) _).
  by intros [].
Defined.

(** The name and the labels of a metric. *)
Definition desc (m : metric) : string * list string :=
  match m with
  | HTTPRequestsTotal => ("http_requests_total", ["route"; "method"; "status"])
  | HTTPRequestDuration => ("http_request_duration_seconds", ["route"; "method"])
  | ASTokenIssuanceTotal => ("as_token_issuance_total", ["result"])
  | ASShardAssignmentsTotal => ("as_shard_assignments_total", ["shard_id"; "new"])
  | IngestionAllocateTotal => ("ingestion_allocate_total", ["shard_id"; "result"])
  | IngestionPoolActiveLists => ("ingestion_pool_active_lists", ["shard_id"])
  | IngestionPoolWidthTarget => ("ingestion_pool_width_target", ["shard_id"])
  | IngestionRotationsTotal => ("ingestion_rotations_total", ["shard_id"; "reason"])
  | IngestionGCArchivedTotal => ("ingestion_gc_archived_total", ["shard_id"])
  | IngestionGCPurgedTotal => ("ingestion_gc_purged_total", ["shard_id"])
  | IngestionGCRowsDeletedTotal => ("ingestion_gc_rows_deleted_total", ["shard_id"])
  | IngestionDecoyFlipsTotal => ("ingestion_decoy_flips_total", ["shard_id"])
  | PublisherRebuildsTotal => ("publisher_rebuilds_total", ["result"])
  | IngressProxyTotal => ("ingress_proxy_total", ["shard_id"; "result"])
  | IngressProxyDuration => ("ingress_proxy_duration_seconds", ["shard_id"])
  | PostgresPoolAcquiredConns => ("postgres_pool_acquired_conns", [])
  | PostgresPoolIdleConns => ("postgres_pool_idle_conns", [])
  | PostgresPoolMaxConns => ("postgres_pool_max_conns", [])
  | RedisPoolTotalConns => ("redis_pool_total_conns", ["shard_id"])
  | RedisPoolIdleConns => ("redis_pool_idle_conns", ["shard_id"])
  | RedisPoolStaleConns => ("redis_pool_stale_conns", ["shard_id"])
  end.

(** promauto panics on a name that is taken. *)
Fixpoint registerAll (ms : list metric) (names : list string) : result (list string) :=
  match ms with
  | [] => Ok names
  | m :: ms =>
      if bool_decide ((desc m).1 ∈ names) then Err (Panic "duplicate metrics collector registration attempted")
      else registerAll ms ((desc m).1 :: names)
  end.

(** ** The registry *)

(** A series: a metric and its label values. A counter or gauge has a value, a
    histogram its observations. *)
Definition series : Type := metric * list string.

Record registry := MkRegistry {
  values : gmap series Z;
  observed : gmap series (list Z)
}.

Definition empty : registry := MkRegistry ∅ ∅.

Definition WithLabelValues (m : metric) (vs : list string) : result series :=
  if (length vs =? length (desc m).2)%nat then Ok (m, vs)
  else Err (Panic "inconsistent label cardinality").

Definition value (reg : registry) (s : series) : Z := default 0 (values reg !! s).

Definition observations (reg : registry) (s : series) : list Z := default [] (observed reg !! s).

Definition Inc (s : series) (reg : registry) : registry :=
  MkRegistry (<[s := value reg s + 1]> (values reg)) (observed reg).

Definition Set_ (s : series) (v : Z) (reg : registry) : registry :=
  MkRegistry (<[s := v]> (values reg)) (observed reg).

Definition Observe (s : series) (d : Z) (reg : registry) : registry :=
  MkRegistry (values reg) (<[s := observations reg s ++ [d]]> (observed reg)).

(** ** The middleware *)

Record ginRequest := MkGinRequest {
  method : string;      (* any token that the client sends *)
  fullPath : string     (* the pattern that matched, empty if none *)
}.

(** How the rest of the chain ends. *)
Inductive outcome := Wrote (status : Z) | Panicked (msg : string).

#[export] Instance outcome_eq_dec : EqDecision outcome.
Proof. solve_decision. Defined.

Definition statusOf (o : outcome) : option Z := match o with Wrote status => Some status | Panicked _ => None end.

Definition routeOf (r : ginRequest) : string :=
  if bool_decide (fullPath r = "") then "(no match)" else fullPath r.

(** What follows c.Next() is not deferred: a panic goes past it. *)
Definition GinMiddleware (r : ginRequest) (elapsed : Z) (next : outcome) (reg : registry) :
    result registry * outcome :=
  match next with
  | Panicked msg => (Ok reg, Panicked msg)
  | Wrote status =>
      match WithLabelValues HTTPRequestDuration [routeOf r; method r],
            WithLabelValues HTTPRequestsTotal [routeOf r; method r; GoStrings.FormatInt status] with
      | Ok d, Ok c => (Ok (Inc c (Observe d elapsed reg)), Wrote status)
      | Err e, _ | _, Err e => (Err e, Panicked "inconsistent label cardinality")
      end
  end.

Record exchange := MkExchange { req : ginRequest; elapsed : Z; next : outcome }.

(** One request through the middleware, and how it ends for its caller. *)
Definition serve (reg : registry) (x : exchange) : registry * outcome :=
  match GinMiddleware (req x) (elapsed x) (next x) reg with
  | (Ok reg', o) => (reg', o)
  | (Err _, o) => (reg, o)
  end.

Definition serveAll (l : list exchange) (reg : registry) : registry :=
  foldl (fun reg x => (serve reg x).1) reg l.

(** ** The connection pools *)

Record pgStat := MkPgStat { AcquiredConns : Z; IdleConns : Z; MaxConns : Z }.

Definition UpdatePostgresPoolStats (s : pgStat) (reg : registry) : registry :=
  Set_ (PostgresPoolMaxConns, []) (MaxConns s)
    (Set_ (PostgresPoolIdleConns, []) (IdleConns s)
      (Set_ (PostgresPoolAcquiredConns, []) (AcquiredConns s) reg)).

Record redisStat := MkRedisStat { TotalConns : Z; rIdleConns : Z; StaleConns : Z }.

Definition UpdateRedisPoolStats (shardID : string) (s : redisStat) (reg : registry) : registry :=
  Set_ (RedisPoolStaleConns, [shardID]) (StaleConns s)
    (Set_ (RedisPoolIdleConns, [shardID]) (rIdleConns s)
      (Set_ (RedisPoolTotalConns, [shardID]) (TotalConns s) reg)).

(** A watcher: one update at the start, then one for every tick, with the
    snapshot that it finds, until the context is cancelled ([None]). *)
Fixpoint watch {A} (update : A -> registry -> registry) (ws : list (option A)) (reg : registry) : registry :=
  match ws with
  | Some s :: ws => watch update ws (update s reg)
  | _ => reg
  end.

Definition WatchPostgresPool (interval : Z) (s0 : pgStat) (ws : list (option pgStat)) (reg : registry) :
    registry * result unit :=
  let reg := UpdatePostgresPoolStats s0 reg in
  if interval <=? 0 then (reg, Err (Panic "non-positive interval for NewTicker"))
  else (watch UpdatePostgresPoolStats ws reg, Ok tt).

Definition WatchRedisPool (interval : Z) (shardID : string) (s0 : redisStat) (ws : list (option redisStat))
    (reg : registry) : registry * result unit :=
  let reg := UpdateRedisPoolStats shardID s0 reg in
  if interval <=? 0 then (reg, Err (Panic "non-positive interval for NewTicker"))
  else (watch (UpdateRedisPoolStats shardID) ws reg, Ok tt).

(** ** Where the other metrics are updated *)

(** The label values of each call in the sources: a literal, or a value that is
    only known when it runs. *)
Definition callSites : list (metric * list (option string)) :=
  [(PublisherRebuildsTotal, [Some "cache_hit"]); (PublisherRebuildsTotal, [Some "rebuilt"]);
   (IngestionPoolWidthTarget, [None]); (IngestionRotationsTotal, [None; Some "age"]);
   (IngestionPoolActiveLists, [None]); (IngestionRotationsTotal, [None; Some "full"]);
   (IngestionDecoyFlipsTotal, [None]);
   (IngestionAllocateTotal, [None; Some "error"]); (IngestionAllocateTotal, [None; Some "success"]);
   (IngressProxyTotal, [Some ""; Some "missing_token"]); (IngressProxyTotal, [Some ""; None]);
   (IngressProxyTotal, [None; Some "unknown_shard"]); (IngressProxyDuration, [None]);
   (IngressProxyTotal, [None; Some "proxied"]);
   (IngestionGCArchivedTotal, [None]); (IngestionGCPurgedTotal, [None]); (IngestionGCRowsDeletedTotal, [None]);
   (ASTokenIssuanceTotal, [Some "unsupported_grant_type"]); (ASTokenIssuanceTotal, [Some "invalid_request"]);
   (ASTokenIssuanceTotal, [Some "invalid_client"]); (ASTokenIssuanceTotal, [Some "server_error"]);
   (ASTokenIssuanceTotal, [Some "success"]);
   (ASShardAssignmentsTotal, [None; Some "false"]); (ASShardAssignmentsTotal, [None; Some "true"])].

(** The label that the token endpoint counts a response under: in each of its
    branches the error code that it answers with. *)
Definition issuanceLabel `{!AuthServer.AccessTokens} (r : AuthServer.response) : string :=
  match r with
  | AuthServer.OAuthError _ e _ => e
  | _ => "success"
  end.

(** The outcomes that the help text of the metric lists. *)
Definition issuanceHelp : list string := ["success"; "invalid_client"; "invalid_request"; "unsupported_grant_type"].

(** ** Lemmas *)

(** The series of a request that was answered by its handler. *)
Definition seriesOf (x : exchange) : option series :=
  match next x with
  | Wrote status =>
      Some (HTTPRequestsTotal, [routeOf (req x); method (req x); GoStrings.FormatInt status])
  | Panicked _ => None
  end.

Lemma serve_values reg x :
  values (serve reg x).1 =
  match seriesOf x with Some s => <[s := value reg s + 1]> (values reg) | None => values reg end.
Proof. unfold serve, seriesOf, GinMiddleware. destruct (next x); done. Qed.

Lemma value_serve reg x s :
  value (serve reg x).1 s = value reg s + (if bool_decide (seriesOf x = Some s) then 1 else 0).
Proof.
  unfold value at 1. rewrite serve_values. destruct (seriesOf x) as [s'|].
  - case_bool_decide as Hs; simplify_eq.
    + by rewrite lookup_insert_eq.
    + rewrite lookup_insert_ne by congruence. unfold value. lia.
  - rewrite bool_decide_false by done. unfold value. lia.
Qed.

(** The histogram series of a request that was answered by its handler. *)
Definition timedAs (x : exchange) : option series :=
  match next x with
  | Wrote _ => Some (HTTPRequestDuration, [routeOf (req x); method (req x)])
  | Panicked _ => None
  end.

Lemma observations_serve reg x s :
  observations (serve reg x).1 s =
  observations reg s ++ (if bool_decide (timedAs x = Some s) then [elapsed x] else []).
Proof.
  unfold serve, timedAs, GinMiddleware. destruct (next x) as [st|msg]; cbn.
  - unfold observations at 1. cbn. case_bool_decide as Hs; simplify_eq.
    + by rewrite lookup_insert_eq.
    + rewrite lookup_insert_ne by (intros <-; by apply Hs). by rewrite app_nil_r.
  - by rewrite app_nil_r.
Qed.

Lemma observations_serveAll l reg s :
  observations (serveAll l reg) s = observations reg s ++ (elapsed <$> filter (fun x => timedAs x = Some s) l).
Proof.
  revert reg. induction l as [|x l IH]; intros reg; [cbn; by rewrite app_nil_r|].
  cbn [serveAll foldl]. change (foldl _ _ l) with (serveAll l (serve reg x).1). rewrite IH, observations_serve.
  rewrite filter_cons. case_bool_decide as Hs.
  - by rewrite decide_True, fmap_cons, <- app_assoc by done.
  - by rewrite decide_False, app_nil_r by done.
Qed.

Definition countOf (s : series) (l : list exchange) : Z :=
  Z.of_nat (length (filter (fun x => seriesOf x = Some s) l)).

Lemma value_serveAll l reg s : value (serveAll l reg) s = value reg s + countOf s l.
Proof.
  revert reg. induction l as [|x l IH]; intros reg; [unfold countOf; cbn; lia|].
  cbn [serveAll foldl]. change (foldl _ _ l) with (serveAll l (serve reg x).1). rewrite IH, value_serve.
  unfold countOf. rewrite filter_cons. case_bool_decide as Hs.
  - rewrite decide_True by done. cbn [length]. lia.
  - rewrite decide_False by done. lia.
Qed.

(** The series that exist after some requests. *)
Lemma dom_serveAll l reg :
  dom (values (serveAll l reg)) = dom (values reg) ∪ list_to_set (omap seriesOf l).
Proof.
  revert reg. induction l as [|x l IH]; intros reg; [cbn; set_solver|].
  cbn [serveAll foldl]. change (foldl _ _ l) with (serveAll l (serve reg x).1). rewrite IH, serve_values.
  cbn [omap list_omap]. destruct (seriesOf x) as [s|]; [rewrite dom_insert_L|]; cbn; set_solver.
Qed.

(** The gauges of a pool are those of the last snapshot. *)
Lemma watch_last {A} (update : A -> registry -> registry) (ws : list A) s tail reg :
  watch update ((Some <$> ws) ++ Some s :: None :: tail) reg = update s (watch update (Some <$> ws) reg).
Proof. revert reg. induction ws as [|s' ws IH]; intros reg; [done|]. apply IH. Qed.

Lemma WatchPostgresPool_last interval s0 ws s tail reg :
  0 < interval ->
  let reg' := (WatchPostgresPool interval s0 ((Some <$> ws) ++ Some s :: None :: tail) reg).1 in
  value reg' (PostgresPoolAcquiredConns, []) = AcquiredConns s /\
  value reg' (PostgresPoolIdleConns, []) = IdleConns s /\
  value reg' (PostgresPoolMaxConns, []) = MaxConns s.
Proof.
  intros Hi. unfold WatchPostgresPool. rewrite (proj2 (Z.leb_gt _ _) Hi). cbn [fst]. rewrite watch_last.
  by unfold value, UpdatePostgresPoolStats, Set_; cbn [values]; split_and!;
    repeat (rewrite lookup_insert_eq || rewrite lookup_insert_ne by done).
Qed.

Lemma WatchRedisPool_last interval shard s0 ws s tail reg :
  0 < interval ->
  let reg' := (WatchRedisPool interval shard s0 ((Some <$> ws) ++ Some s :: None :: tail) reg).1 in
  value reg' (RedisPoolTotalConns, [shard]) = TotalConns s /\
  value reg' (RedisPoolIdleConns, [shard]) = rIdleConns s /\
  value reg' (RedisPoolStaleConns, [shard]) = StaleConns s.
Proof.
  intros Hi. unfold WatchRedisPool. rewrite (proj2 (Z.leb_gt _ _) Hi). cbn [fst]. rewrite watch_last.
  by unfold value, UpdateRedisPoolStats, Set_; cbn [values]; split_and!;
    repeat (rewrite lookup_insert_eq || rewrite lookup_insert_ne by done).
Qed.

(** ** Properties *)

(** The metrics of a process register, and no update passes the wrong number of
    label values: neither panics. *)
Theorem metrics_well_labelled :
  (exists names, registerAll metrics [] = Ok names) /\
  (forall m args vs, (m, args) ∈ callSites -> length vs = length args -> WithLabelValues m vs = Ok (m, vs)).
Proof.
  split; [eexists; vm_compute; reflexivity|]. intros m args vs Hin Hl. unfold WithLabelValues.
  assert (forallb (fun '(m, args) => (length args =? length (desc m).2)%nat) callSites = true) as Hall by reflexivity.
  rewrite forallb_forall in Hall. specialize (Hall (m, args) (proj1 (list_elem_of_In _ _) Hin)). cbn in Hall.
  by rewrite Hl, Hall.
Qed.

(** C39: what the request metrics say. After any sequence of requests, each
    series of http_requests_total counts exactly the requests with its route,
    method and status whose handler returned, and each series of
    http_request_duration_seconds holds exactly the durations of those with its
    route and method, where the route is the pattern that matched and
    "(no match)" for a request that matched none. A request whose handler panics
    leaves no trace in either, and the panic goes on to the caller. There is no
    series but for a route, method and status that occurred; and the method is
    whatever the client sends, so that requests which match no route make as
    many series as there are requests. *)
Theorem requests_counted :
  let route x := if bool_decide (fullPath (req x) = "") then "(no match)" else fullPath (req x) in
  (forall l rt meth status,
     value (serveAll l empty) (HTTPRequestsTotal, [rt; meth; GoStrings.FormatInt status]) =
     Z.of_nat (length (filter (fun x => route x = rt /\ method (req x) = meth /\ next x = Wrote status) l))) /\
  (forall l rt meth,
     observations (serveAll l empty) (HTTPRequestDuration, [rt; meth]) =
     elapsed <$> filter (fun x => route x = rt /\ method (req x) = meth /\ is_Some (statusOf (next x))) l) /\
  (forall reg r d msg, serve reg (MkExchange r d (Panicked msg)) = (reg, Panicked msg)) /\
  (forall l s, s ∈ dom (values (serveAll l empty)) ->
     exists x status, x ∈ l /\ next x = Wrote status /\
       s = (HTTPRequestsTotal, [route x; method (req x); GoStrings.FormatInt status])) /\
  (forall n, exists l, length l = n /\ (forall x, x ∈ l -> fullPath (req x) = "" /\ next x = Wrote 404) /\
     size (values (serveAll l empty)) = n).
Proof.
  cbn zeta. split_and!.
  - intros l rt meth status. rewrite value_serveAll. unfold countOf.
    change (value empty _) with 0. rewrite Z.add_0_l. f_equal. f_equal.
    apply list_filter_iff. intros x. unfold seriesOf, routeOf. destruct (next x) as [st|msg].
    + split; [|naive_solver]. intros Hs. simplify_eq. done.
    + naive_solver.
  - intros l rt meth. rewrite observations_serveAll. change (observations empty _) with (@nil Z). cbn [app].
    f_equal. apply list_filter_iff. intros x. unfold timedAs, routeOf.
    destruct (next x) as [st|msg]; cbn [statusOf]; [|by split; [|intros (_ & _ & [? ?])]].
    split; [intros Hs; simplify_eq; by eauto|]. by intros (-> & -> & _).
  - done.
  - intros l s. rewrite dom_serveAll. cbn. rewrite dom_empty_L, union_empty_l_L, elem_of_list_to_set.
    rewrite list_elem_of_omap. unfold seriesOf, routeOf. intros (x & Hx & Hs). destruct (next x) eqn:Hn; simplify_eq.
    by exists x, status.
  - intros n. set (mk := fun k : nat => MkExchange (MkGinRequest (pretty k) "") 0 (Wrote 404)).
    exists (mk <$> seq 0 n). split_and!.
    + by rewrite length_fmap, length_seq.
    + intros x (k & -> & _)%list_elem_of_fmap. done.
    + rewrite <- (size_dom (D := gset series)), dom_serveAll. cbn. rewrite dom_empty_L, union_empty_l_L.
      assert (omap seriesOf (mk <$> seq 0 n) =
        (fun k : nat => (HTTPRequestsTotal, ["(no match)"; pretty k; GoStrings.FormatInt 404])) <$> seq 0 n) as ->
        by (induction (seq 0 n) as [|k l IH]; [done|]; by rewrite !fmap_cons, <- IH).
      rewrite size_list_to_set, length_fmap, length_seq; [done|].
      apply NoDup_fmap; [|apply NoDup_seq]. intros k1 k2 Heq. simplify_eq. by apply (inj pretty).
Qed.

(** The labels of as_token_issuance_total. The token endpoint counts a request
    under one of the outcomes that the help text lists, or under server_error,
    which it does not list. *)
Theorem issuance_labels `{!Signer.Ecdsa} `{!ClientAssertion.Jwt} `{!ClientAssertion.Keys} `{!Trust.Evaluator}
    `{!AuthServer.AccessTokens} `{!Float64.Conversion} (s : AuthServer.Server) (gt at_ assertion : string) (w : world) :
  issuanceLabel (run (AuthServer.handleToken s gt at_ assertion) w).1 ∈ "server_error" :: issuanceHelp /\
  "server_error" ∉ issuanceHelp.
Proof.
  split; [|unfold issuanceHelp; set_solver]. unfold issuanceHelp, AuthServer.handleToken.
  repeat (case_bool_decide; cbn [negb run fst issuanceLabel]; try set_solver).
  rewrite run_bind. cbn [getNow act run fst snd].
  destruct (ClientAssertion.Verify _ _ _) as [result|]; cbn [run fst issuanceLabel]; [|set_solver].
  destruct (AuthServer.credentialOf result) as [cred|]; cbn [run fst issuanceLabel]; [|set_solver].
  rewrite run_bind. destruct (run (Trust.Evaluate _ cred) w) as [[d|e] w1]; cbn [run fst snd issuanceLabel]; [|set_solver].
  destruct (Trust.Trusted d); cbn [negb run fst issuanceLabel]; [|set_solver].
  rewrite run_bind. destruct (run (Shards.AssignOrLookup _ _) w1) as [[sh|e] w2];
    cbn [run fst snd issuanceLabel]; [|set_solver].
  rewrite run_bind. destruct (run (AuthServer.Issue _ _) w2) as [[t|e] w3]; cbn [run fst snd issuanceLabel]; set_solver.
Qed.

End Metrics.
